(* ===== verification/_CoqProject ===== *)
-Q . S2P
Prelude.v
Coding.v
Float64.v
Net.v
Wire.v
Decimal.v
UdpFrame.v
Socks5.v
Trojan.v
VRequest.v
Http.v
Ring.v
DnsCache.v
ServerSession.v
ServerSessionFacts.v
ServerSessionProps.v
UdpStream.v
ServerSessionTypes.v
UdpBuffer.v
Drain.v
DtlsServerSession.v
DtlsServer.v
ProxyStats.v
ClientUdp.v
DtlsChannelProps.v
ClientSession.v
ClientSessionFacts.v
ClientSessionProps.v
ClientSessionUdp.v
ClientAccept.v
Tunnel.v
LogFile.v
ConfigManage.v
Logger.v
MainWindow.v
ClientSystem.v
ClientMain.v
IoContextPool.v
Service.v
ServerSystem.v
ServerMain.v
Deployment.v
