(* ===== verification/Prelude.v ===== *)
(** * A verification library for overplus

    overplus is a proxy in two programs.  The client (src/Client) accepts SOCKS5
    and HTTP CONNECT connections of local applications and carries them to the
    server (src/Server) over TLS or a websocket; UDP datagrams travel over one
    DTLS channel.  The server checks a password, resolves the requested host and
    forwards bytes in both directions.  Both are built from completion handlers
    of asynchronous operations (Boost.Asio); src/Protocol holds the wire formats
    and src/Shared what both programs use.

    ** The files, and the code they model

    - Prelude (this file): fixed-width integers with their wrap-around, bytes,
      the operations of [std::string] and [std::vector] the code uses, and
      [outcome], the result of C++ code: a value, an exception, or undefined
      behaviour (a read outside an object); record update and the tactics that
      evaluate reads at an offset ([at_simpl], [len_simpl], [len_lia]).
    - Coding: src/Shared/Coding.cpp.  Decimal: [std::to_string], [std::stoi] and
      the host:port keys.  Net: addresses and endpoints as plain data.  Wire:
      what the round trips of the formats share.  Float64: [double].
    - UdpFrame: src/Protocol/UdpFrame.cpp.  Socks5: src/Protocol/socks5.
      Trojan: src/Protocol/trojan.  VRequest: src/Protocol/VProtocal.
      Http: src/Protocol/http.  One function per parser and generator.
    - Ring: the class SessionBuffer of src/Server/Session.h.
    - DnsCache: src/Shared/DnsCache.cpp.
    - ServerSession: a connection of the server, src/Server/Session.cpp with
      TlsSession.cpp and WebsocketSession.cpp.  ServerSessionFacts holds its
      invariant, ServerSessionProps its guarantees, ServerSessionTypes the ranges
      of its fields; UdpStream and UdpBuffer are about trojan UDP packets in the
      byte stream, Drain about the termination of forwarding.
    - DtlsServerSession: src/Server/DtlsServerSession.cpp and the table of
      DtlsListener.cpp.  DtlsServer: the listener with all its sessions.
    - Service: src/Server/Service.cpp, the accept loop with all its sessions, the
      timer and the signals.  IoContextPool: src/Shared/IoContextPool.cpp.
      ServerSystem: Service and DtlsServer running side by side.  ServerMain:
      src/Server/main.cpp, from the command line and the configuration file on.
    - ClientUdp: src/Shared/DtlsChannel.cpp, src/Client/UdpRelay.cpp and the
      relay table of src/Client/Server.cpp; DtlsChannelProps: the life of a channel.
    - ClientSession, ClientSessionFacts, ClientSessionProps: a connection of the
      client, src/Client/Session.cpp; ClientSessionUdp: its hold on the relay table.
    - ClientAccept: the io_context of the client with the accept loop of
      src/Client/Server.cpp, the calls the window posts and the handlers of the DTLS
      channel, which may run when the channel is gone.  MainWindow:
      src/Client/mainwindow.cpp and the server its buttons drive.  ClientSystem: the
      window, the accept loop, every session, the relays and the channel together.
      ClientMain: src/Client/main.cpp and CliMain.cpp.
    - Tunnel: a client session and a server session, end to end.  Deployment: the
      same, each configured by its file.
    - ProxyStats: src/Shared/ProxyStats.h.  LogFile: src/Shared/LogFile.cpp.
      Logger: src/Shared/Log.cpp and the logging of src/Server/main.cpp.
      ConfigManage: src/Shared/ConfigManage.cpp.

    ** How the code is modelled

    A parser is a function from the object and the input to an [outcome] of the
    new object and the result, so that fields assigned before a rejection are
    seen.  A session is a record; an asynchronous operation that has been started
    is an element of its list [pending], and [handle] runs the handler of a
    completed operation.  The relation [step] lets any pending operation complete
    with any result [legal] allows, so a theorem about [reachable] states holds
    for every interleaving.  The DNS cache is shared by all sessions: [step] lets
    other sessions use it at any time.  ServerSystem and ClientSystem then run all
    sessions of a program together on what they share, and show that each is still
    in a state its own model reaches, so what is proved of one session holds in
    the program.  System calls that can throw in a handler (setting an option of a
    socket, closing or cancelling it, asking for its address, a synchronous write)
    get their results from an argument, the [env] of a session or the [answers] of
    the accept loop.  Pointers that the code keeps across calls (the relay table, the
    channel) are modelled with a heap or a generation, and following a dangling
    pointer is undefined behaviour.  Clocks are arguments.

    Library code is a parameter: the resolver is a relation between a query and
    its answers, SHA-224 a function, the property tree a class of getters, the
    text of an address and of a number with decimals functions, as are reading an
    address ([make_address], which throws for a host name) and the calendar, and the
    answers of OpenSSL are arguments.  [double] is the Standard
    Library's specification of binary64, each operation rounded by itself (no
    fused multiply-add).

    ** What is shown

    - End to end: a client and a server session are a pair of byte pipes between
      the application and the host it asked for ([tunnel_end_to_end]); a client
      and a server configured by their files get along exactly if the password is
      listed, and then the request is served as asked ([served_iff_listed]); a
      datagram reaches its target and the answer comes back ([udp_exchange_end_to_end]).
    - The programs: the running server works only for clients that have presented
      a password its configuration file lists ([only_listed_passwords_served]);
      everything proved of one session holds in the running server
      ([server_sessions_on_their_own]) and client ([client_sessions_on_their_own]);
      connections are started exactly once ([accepts_each_connection_once]), those of
      the client at most once in any order of handlers, and each of them unless a
      restart overtakes a completed accept ([client_starts_each_connection_once]); a datagram never makes the client
      follow a dangling relay ([relays_never_dangle]); the settings survive a
      restart ([settings_survive_restart]).
    - Server sessions: forwarding loses and reorders nothing
      ([tcp_stream_integrity]), never overlaps two operations
      ([one_operation_per_direction]) and ends when the source does
      ([forwarding_drains]); nobody is served without a configured password
      (lemma [served_only_with_password]); connections go only to the requested host and
      port, also through the shared cache ([connects_only_to_requested]);
      [destroyed_is_final]; [handlers_total]; [session_well_formed].  Trojan UDP
      packets leave in the order of the stream ([udp_stream_in_order]) and when the
      buffer is compacted cannot be observed ([compaction_unobservable]).
    - Client sessions: [client_stream_integrity]; which calls can throw
      ([client_handlers_total], as [handlers_total] for the server).
    - DTLS: the server works for no client that has not shown a password
      ([listener_serves_only_authenticated]); [dtls_datagram_routed],
      [dtls_session_consistent], [listener_dispatch]; a channel of the client says
      its password first ([channel_authenticates_first]).
    - Wire formats: round trips ([parse_generate], [parse_serialize],
      [TrojanReq_parse_generate], [UDPPacket_parse_generate], [unstream_stream]).
      Lemmas say what the parsers do on every input ([parse_safe], [parse_sound],
      [TrojanReq_parse_safe], [UDPPacket_parse_safe], [Request_unsteam_spec],
      [unstream_connect]).
    - Shared parts: the ring is a bounded queue ([ring_is_fifo]), the cache
      implements its specification ([lookup_refines_spec]), passwords
      ([password_accepted_iff]), the displayed rates ([displayed_rates_follow]), the
      pool ([round_robin_fair]), the log ([log_reaches_file],
      [cleanup_removes_old_logs]).
    - Where the code does not do what it means to, a theorem or a lemma says what
      it does: [quick_reconnect_use_after_free], [disconnect_dangles_relays],
      [reconnect_dangles], [reconnect_accepts_twice], [onConnect_host_name],
      [udp_answer_dangles], [midnight_keeps_old_file], [listener_fixed], [empty_port_shown_as_default],
      [system_proxy_at_exit], [domain_datagram_truncated], [session_id_zero_dangles],
      [split_password_rejected], [unstream_unchecked_lengths],
      [dtls_shared_target_misrouted], [udp_buffer_never_shrinks],
      [ipv6_reply_without_address], [ipv6_server_throws], [unstream_bad_port],
      [failed_receive_deafens], [failed_listener_spins], [shutdown_log_dangles],
      [failed_start_exits_0], [negative_thread_count], [smooth_overflows].

    ** Bounds and fuel

    Strings are shorter than [max_size].  The only function with fuel is
    [SessionBuffer.enqueue_loop]; it is given the length of the data, and each
    turn stores at least one byte or stops, so it never runs out
    ([enqueue_loop_spec]).  Every other recursion is structural.  The relay table
    has room for 65535 associations at a time, and the rates are bounded for up to
    2^46 bytes between two displays; beyond, lemmas say what happens.

    ** What is not modelled

    The look of the window (painting, style sheets, the About box); the parsing of
    the command line and of JSON, which are libraries'; certificates, TLS and DTLS
    records (their results are arguments) and the BIOs they go through; which socket
    options and time-outs are set (that setting one fails is modelled); handlers of
    receives and waits of the DTLS channel that were cancelled, which do nothing; the
    printers of messages for the log; the conversion of
    log lines on Windows; the lifetime of buffers handed to asynchronous sends;
    failures of memory allocation, but for the pool asked for more contexts than
    there can be ([make_spec]).  Handlers of different threads meet only in the
    DNS cache and the counters, whose operations are atomic, but for the DTLS
    channel of the client, which the window makes in its own thread: that race is
    modelled as steps that interleave, not as torn accesses. *)
From stdpp Require Export relations base list gmap strings pretty countable numbers.
From Stdlib Require Export ZArith Lia.
From Stdlib Require Strings.Byte Strings.String.
#[global] Open Scope Z_scope.

(** ** Record update

    [modify f g r] is the record [r] with field [f] mapped by [g]; a record
    type opts in with an [Eta] instance that rebuilds it field by field. *)
Class Eta (R : Type) := eta : R → R.
Class Setter {R A : Type} (f : R → A) := modify : (A → A) → R → R.
Arguments modify {R A} f {_} _ _ : assert.

Ltac derive_setter f :=
  lazymatch type of f with
  | ?R → ?A =>
      let g := fresh "g" in let r := fresh "r" in intros g r;
      let inst := constr:(_ : Eta R) in
      let body := eval hnf in inst in
      let rebuilt := eval cbv beta in (body r) in
      lazymatch (eval pattern (f r) in rebuilt) with
      | ?ctx _ => let t := eval cbv beta in (ctx (g (f r))) in exact t
      end
  end.
#[export] Hint Extern 1 (Setter ?f) => derive_setter f : typeclass_instances.

Declare Scope upd_scope.
Delimit Scope upd_scope with upd.
#[warnings="-postfix-notation-not-level-1"]
Notation "r '<|' f ':=' v '|>'" := (modify f (fun _ => v) r)
  (at level 12, left associativity, f at level 10, v at level 99) : upd_scope.
#[global] Open Scope upd_scope.

(** ** Unsigned machine integers: arithmetic is on [Z], these are the wraps *)
Definition u8 (z : Z) : Z := z mod 2 ^ 8.
Definition u16 (z : Z) : Z := z mod 2 ^ 16.
Definition u32 (z : Z) : Z := z mod 2 ^ 32.
Definition u64 (z : Z) : Z := z mod 2 ^ 64.
(** conversion of an unsigned value to a signed 32-bit [int] *)
Definition s32 (z : Z) : Z := (z + 2 ^ 31) mod 2 ^ 32 - 2 ^ 31.

(** ** Bytes *)
Abbreviation byte := Byte.byte.
Abbreviation bytes := (list Byte.byte).

(** the value of a byte as [uint8_t] *)
Definition b2z (b : byte) : Z := Z.of_N (Byte.to_N b).
(** [static_cast<char>(z)] / [static_cast<uint8_t>(z)]: the low eight bits *)
Definition z2b (z : Z) : byte :=
  default Byte.x00 (Byte.of_N (Z.to_N (u8 z))).
(** a string literal *)
Definition lit (s : string) : bytes := String.list_byte_of_string s.
Definition crlf : bytes := [Byte.x0d; Byte.x0a].

#[global] Instance byte_eq_dec : EqDecision byte := Byte.byte_eq_dec.
#[global] Program Instance byte_countable : Countable byte :=
  inj_countable Byte.to_N Byte.of_N _.
Next Obligation. intros b. apply Byte.of_to_N. Qed.

#[global] Instance byte_inhabited : Inhabited byte := populate Byte.x00.

(** ** C++ outcomes

    A call returns a value, throws, or has undefined behaviour (a read outside
    the object it reads from). *)
Inductive exn :=
  | length_error | out_of_range | invalid_argument | bad_address_cast | runtime_error
  | system_error | bad_alloc.
#[global] Instance exn_eq_dec : EqDecision exn.
Proof. solve_decision. Defined.

Inductive outcome (A : Type) : Type :=
  | Ret (a : A)
  | Throw (e : exn)
  | Undef.
Arguments Ret {A} a.
Arguments Throw {A} e.
Arguments Undef {A}.

#[global] Instance outcome_ret : MRet outcome := fun A a => Ret a.
#[global] Instance outcome_bind : MBind outcome := fun A B k m =>
  match m with Ret a => k a | Throw e => Throw e | Undef => Undef end.

(** ** C++ strings *)
Definition len {A} (s : list A) : Z := Z.of_nat (length s).

(** [std::string::max_size()] of libstdc++: [PTRDIFF_MAX] *)
Definition max_size : Z := 2 ^ 63 - 1.

(** [s[i]] on a [const std::string], and [s.data()[i]]: index [size()] reads the
    terminating NUL, anything past it is undefined *)
Definition str_at (s : bytes) (i : Z) : outcome byte :=
  if i <? 0 then Undef
  else match s !! Z.to_nat i with
       | Some b => Ret b
       | None => if i =? len s then Ret Byte.x00 else Undef
       end.

(** [v.data()[i]] on a [std::vector<char>] *)
Definition vec_at (s : bytes) (i : Z) : outcome byte :=
  if i <? 0 then Undef
  else match s !! Z.to_nat i with Some b => Ret b | None => Undef end.

Definition slice {A} (s : list A) (p n : Z) : list A :=
  take (Z.to_nat n) (drop (Z.to_nat p) s).

(** [std::string(s.data() + p, n)] and [assign(s.data() + p, n)]: a count over
    [max_size()] throws before anything is read; otherwise [n] bytes are read
    from the NUL-terminated storage of [s] *)
Definition str_assign (s : bytes) (p n : Z) : outcome bytes :=
  if max_size <? n then Throw length_error
  else if (0 <=? p) && (0 <=? n) && (p + n <=? len s + 1)
       then Ret (slice (s ++ [Byte.x00]) p n)
       else Undef.

(** [s.substr(pos)] and [s.substr(pos, n)] *)
Definition substr (s : bytes) (pos : Z) : outcome bytes :=
  if len s <? pos then Throw out_of_range else Ret (drop (Z.to_nat pos) s).
Definition substr_n (s : bytes) (pos n : Z) : outcome bytes :=
  if len s <? pos then Throw out_of_range else Ret (slice s pos n).

(** [s.find(needle)]: the least index at which [needle] occurs; [None] is [npos] *)
Fixpoint is_prefix (needle s : bytes) : bool :=
  match needle, s with
  | [], _ => true
  | n :: needle', b :: s' => bool_decide (n = b) && is_prefix needle' s'
  | _ :: _, [] => false
  end.
Fixpoint find_from (needle s : bytes) (i : Z) : option Z :=
  if is_prefix needle s then Some i
  else match s with [] => None | _ :: s' => find_from needle s' (i + 1) end.
Definition find (needle s : bytes) : option Z := find_from needle s 0.

(** [std::to_string] of an unsigned value *)
Definition to_string (z : Z) : bytes := lit (pretty (Z.to_N z)).

(** ** Big-endian 16-bit fields, written out by hand in several places *)
(** [(uint8_t(hi) << 8) | uint8_t(lo)] *)
Definition be16 (hi lo : byte) : Z := Z.lor (Z.shiftl (b2z hi) 8) (b2z lo).
(** [char(v >> 8)], [char(v & 0xFF)] *)
Definition be16_bytes (v : Z) : bytes := [z2b (Z.shiftr v 8); z2b (Z.land v 255)].

Arguments u8 : simpl never.
Arguments u16 : simpl never.
Arguments u32 : simpl never.
Arguments u64 : simpl never.
Arguments s32 : simpl never.
Arguments b2z : simpl never.
Arguments z2b : simpl never.
Arguments be16 : simpl never.
Arguments be16_bytes : simpl never.
Arguments len : simpl never.
Arguments slice : simpl never.
Arguments str_at : simpl never.
Arguments vec_at : simpl never.
Arguments str_assign : simpl never.
Arguments substr : simpl never.
Arguments substr_n : simpl never.
Arguments find : simpl never.
Arguments to_string : simpl never.

(** * Lemmas *)

Lemma b2z_range b : 0 <= b2z b < 256.
Proof.
  unfold b2z. pose proof (Byte.to_N_bounded b). lia.
Qed.

Lemma u8_range z : 0 <= u8 z < 256.
Proof. unfold u8. apply Z.mod_pos_bound. lia. Qed.

Lemma u8_small z : 0 <= z < 2 ^ 8 → u8 z = z.
Proof. apply Z.mod_small. Qed.
Lemma s32_id z : 0 <= z < 2 ^ 31 → s32 z = z.
Proof. intros. unfold s32. rewrite Z.mod_small; lia. Qed.
Lemma u16_small z : 0 <= z < 2 ^ 16 → u16 z = z.
Proof. apply Z.mod_small. Qed.
Lemma u32_small z : 0 <= z < 2 ^ 32 → u32 z = z.
Proof. apply Z.mod_small. Qed.
Lemma u64_small z : 0 <= z < 2 ^ 64 → u64 z = z.
Proof. apply Z.mod_small. Qed.

Lemma b2z_z2b z : b2z (z2b z) = u8 z.
Proof.
  unfold z2b, b2z. pose proof (u8_range z) as H.
  destruct (Byte.of_N (Z.to_N (u8 z))) as [b|] eqn:E; simpl.
  - apply Byte.to_of_N in E. rewrite E. lia.
  - apply Byte.of_N_None_iff in E. lia.
Qed.

Lemma b2z_inj a b : b2z a = b2z b → a = b.
Proof.
  unfold b2z. intros H%N2Z.inj.
  pose proof (Byte.of_to_N a) as Ha. pose proof (Byte.of_to_N b) as Hb.
  rewrite H in Ha. congruence.
Qed.

Lemma z2b_b2z b : z2b (b2z b) = b.
Proof.
  apply b2z_inj. rewrite b2z_z2b. unfold u8. pose proof (b2z_range b).
  rewrite Z.mod_small; lia.
Qed.

Lemma lor_shiftl_add a b n : 0 <= n → 0 <= b < 2 ^ n → Z.lor (Z.shiftl a n) b = a * 2 ^ n + b.
Proof.
  intros Hn Hb. rewrite Z.shiftl_mul_pow2 by lia.
  pose proof (Z.add_lor_land (a * 2 ^ n) b) as Hsum.
  enough (Z.land (a * 2 ^ n) b = 0) by lia.
  apply Z.bits_inj'. intros i Hi. rewrite Z.land_spec, Z.bits_0.
  destruct (decide (i < n)).
  - rewrite Z.mul_pow2_bits_low by lia. done.
  - destruct (decide (b = 0)) as [->|]; [by rewrite Z.bits_0, andb_false_r|].
    rewrite (Z.bits_above_log2 b); [apply andb_false_r|lia|].
    enough (Z.log2 b < n) by lia. apply Z.log2_lt_pow2; lia.
Qed.

Lemma be16_spec hi lo : be16 hi lo = b2z hi * 256 + b2z lo.
Proof. pose proof (b2z_range lo). apply (lor_shiftl_add _ _ 8); lia. Qed.

Lemma be16_range hi lo : 0 <= be16 hi lo < 2 ^ 16.
Proof.
  rewrite be16_spec. pose proof (b2z_range hi). pose proof (b2z_range lo). lia.
Qed.

Lemma be16_be16_bytes v :
  0 <= v < 2 ^ 16 → be16 (z2b (Z.shiftr v 8)) (z2b (Z.land v 255)) = v.
Proof.
  intros Hv. rewrite be16_spec, !b2z_z2b. unfold u8.
  change 255 with (Z.ones 8). rewrite Z.land_ones by lia.
  rewrite Z.shiftr_div_pow2 by lia.
  rewrite Z.mod_mod by lia. rewrite (Z.mod_small (v / 2 ^ 8)).
  - pose proof (Z.div_mod v (2 ^ 8)). lia.
  - split; [apply Z.div_pos; lia|apply Z.div_lt_upper_bound; lia].
Qed.

Lemma be16_bytes_be16 hi lo : be16_bytes (be16 hi lo) = [hi; lo].
Proof.
  pose proof (be16_be16_bytes (be16 hi lo) (be16_range hi lo)) as H.
  unfold be16_bytes. revert H. rewrite !be16_spec.
  set (a := z2b _). set (b := z2b _).
  pose proof (b2z_range hi). pose proof (b2z_range lo).
  pose proof (b2z_range a). pose proof (b2z_range b). intros.
  f_equal; [|f_equal]; apply b2z_inj; lia.
Qed.

(** ** Lengths, indices and slices *)
Lemma len_nonneg {A} (s : list A) : 0 <= len s.
Proof. unfold len. lia. Qed.
Lemma len_nil {A} : len (@nil A) = 0.
Proof. done. Qed.
Lemma len_cons {A} (x : A) s : len (x :: s) = 1 + len s.
Proof. unfold len. simpl. lia. Qed.
Lemma len_app {A} (s t : list A) : len (s ++ t) = len s + len t.
Proof. unfold len. rewrite length_app. lia. Qed.
Lemma len_take {A} n (s : list A) : 0 <= n → len (take (Z.to_nat n) s) = n `min` len s.
Proof. intros. unfold len. rewrite length_take. lia. Qed.
Lemma len_drop {A} n (s : list A) : 0 <= n → len (drop (Z.to_nat n) s) = 0 `max` (len s - n).
Proof. intros. unfold len. rewrite length_drop. lia. Qed.
Lemma len_slice {A} (s : list A) p n :
  0 <= p → 0 <= n → p + n <= len s → len (slice s p n) = n.
Proof. intros. unfold slice. rewrite len_take, len_drop by lia. lia. Qed.
Lemma len_0_nil {A} (s : list A) : len s = 0 → s = [].
Proof. destruct s; [done|]. rewrite len_cons. pose proof (len_nonneg s). lia. Qed.
Lemma len_be16_bytes v : len (be16_bytes v) = 2.
Proof. done. Qed.

Lemma len_crlf : len crlf = 2.
Proof. done. Qed.

Create Rewrite HintDb len_db.
#[export] Hint Rewrite @len_nil @len_cons @len_app @len_be16_bytes len_crlf : len_db.
Ltac len_simpl := autorewrite with len_db in *.
(** length arithmetic: normalise [len], add that lengths are non-negative, [lia] *)
Ltac len_lia :=
  len_simpl;
  repeat match goal with
         | |- context [len ?s] => lazymatch goal with
             | _ : 0 <= len s |- _ => fail | _ => pose proof (len_nonneg s) end
         | _ : context [len ?s] |- _ => lazymatch goal with
             | _ : 0 <= len s |- _ => fail | _ => pose proof (len_nonneg s) end
         end; lia.

Lemma str_at_lookup s i b : 0 <= i → s !! Z.to_nat i = Some b → str_at s i = Ret b.
Proof. intros ? H. unfold str_at. destruct (Z.ltb_spec i 0); [lia|]. by rewrite H. Qed.

Lemma str_at_0 b s : str_at (b :: s) 0 = Ret b.
Proof. done. Qed.

Lemma str_at_cons b s i : 0 < i → str_at (b :: s) i = str_at s (i - 1).
Proof.
  intros. unfold str_at. rewrite !(proj2 (Z.ltb_ge _ _)) by lia.
  replace (Z.to_nat i) with (S (Z.to_nat (i - 1))) by lia. cbn. len_simpl.
  replace (i =? 1 + len s) with (i - 1 =? len s); [done|].
  apply eq_true_iff_eq. rewrite !Z.eqb_eq. lia.
Qed.
Lemma str_at_be16_0 v s : str_at (be16_bytes v ++ s) 0 = Ret (z2b (Z.shiftr v 8)).
Proof. done. Qed.
Lemma str_at_be16_1 v s : str_at (be16_bytes v ++ s) 1 = Ret (z2b (Z.land v 255)).
Proof. done. Qed.

Lemma str_at_end s : str_at s (len s) = Ret Byte.x00.
Proof.
  unfold str_at. destruct (Z.ltb_spec (len s) 0); [len_lia|].
  rewrite lookup_ge_None_2 by (unfold len; lia). by rewrite Z.eqb_refl.
Qed.

Lemma str_at_ok s i : 0 <= i <= len s → ∃ b, str_at s i = Ret b.
Proof.
  intros [H1 H2]. destruct (decide (i = len s)) as [->|].
  - eexists. apply str_at_end.
  - destruct (lookup_lt_is_Some_2 s (Z.to_nat i)) as [b Hb]; [unfold len in *; lia|].
    exists b. by apply str_at_lookup.
Qed.

(** the byte right after a prefix *)
Lemma str_at_mid s b t i : i = len s → str_at (s ++ b :: t) i = Ret b.
Proof.
  intros ->. apply str_at_lookup; [len_lia|]. unfold len.
  by rewrite Nat2Z.id, list_lookup_middle.
Qed.

Lemma str_at_app_r s t i : 0 <= i → str_at (s ++ t) (len s + i) = str_at t i.
Proof.
  intros Hi. unfold str_at. len_simpl. pose proof (len_nonneg s).
  rewrite !(proj2 (Z.ltb_ge _ _)) by lia.
  rewrite lookup_app_r by (unfold len; lia).
  replace (Z.to_nat (len s + i) - length s)%nat with (Z.to_nat i) by (unfold len; lia).
  replace (len s + i =? len s + len t) with (i =? len t); [done|].
  apply eq_true_iff_eq. rewrite !Z.eqb_eq. lia.
Qed.

(** bytes appended at the end do not change what is read in front of them *)
Lemma str_at_app_l s t i : 0 <= i < len s → str_at (s ++ t) i = str_at s i.
Proof.
  intros Hi. unfold str_at. destruct (Z.ltb_spec i 0); [lia|].
  rewrite lookup_app_l by (unfold len in *; lia).
  destruct (lookup_lt_is_Some_2 s (Z.to_nat i)) as [b ->]; [unfold len in *; lia|done].
Qed.

(** a big-endian field right after a prefix *)
Lemma be16_at s v t i :
  0 <= v < 2 ^ 16 → i = len s →
  (hi ← str_at (s ++ be16_bytes v ++ t) i;
   lo ← str_at (s ++ be16_bytes v ++ t) (i + 1); mret (be16 hi lo)) = Ret v.
Proof.
  intros Hv ->. rewrite <-(Z.add_0_r (len s)) at 1.
  rewrite !str_at_app_r, str_at_be16_0, str_at_be16_1 by lia. cbn.
  by rewrite be16_be16_bytes.
Qed.

Lemma vec_at_app_l s t i b : vec_at s i = Ret b → vec_at (s ++ t) i = Ret b.
Proof.
  unfold vec_at. destruct (i <? 0); [done|].
  destruct (s !! Z.to_nat i) eqn:E; [|done]. intros. simplify_eq.
  rewrite (lookup_app_l_Some s t _ _ E). done.
Qed.

Lemma vec_at_0 b s : vec_at (b :: s) 0 = Ret b.
Proof. done. Qed.
Lemma vec_at_cons b s i : 0 < i → vec_at (b :: s) i = vec_at s (i - 1).
Proof.
  intros. unfold vec_at. rewrite !(proj2 (Z.ltb_ge _ _)) by lia.
  by replace (Z.to_nat i) with (S (Z.to_nat (i - 1))) by lia.
Qed.
Lemma vec_at_app_r s t i : 0 <= i → vec_at (s ++ t) (len s + i) = vec_at t i.
Proof.
  intros Hi. unfold vec_at. pose proof (len_nonneg s).
  rewrite !(proj2 (Z.ltb_ge _ _)) by lia.
  rewrite lookup_app_r by (unfold len; lia).
  by replace (Z.to_nat (len s + i) - length s)%nat with (Z.to_nat i) by (unfold len; lia).
Qed.
(** read at the head of an explicit list of bytes *)
Ltac at_simpl :=
  repeat first
    [ rewrite vec_at_0
    | rewrite str_at_0
    | rewrite str_at_cons by lia;
      match goal with |- context [str_at _ (?a - 1)] =>
        let v := eval vm_compute in (a - 1) in change (a - 1) with v end
    | rewrite vec_at_cons by lia;
      match goal with |- context [vec_at _ (?a - 1)] =>
        let v := eval vm_compute in (a - 1) in change (a - 1) with v end
    | progress cbn [mbind outcome_bind mret outcome_ret] ].

(** the byte right after a prefix *)
Lemma vec_at_mid s b t i : i = len s → vec_at (s ++ b :: t) i = Ret b.
Proof. intros ->. rewrite <-(Z.add_0_r (len s)), vec_at_app_r by lia. done. Qed.

Lemma vec_at_in_range s i : 0 <= i < len s → ∃ b, vec_at s i = Ret b.
Proof.
  intros [H1 H2]. unfold vec_at. destruct (Z.ltb_spec i 0); [lia|].
  destruct (lookup_lt_is_Some_2 s (Z.to_nat i)) as [b Hb]; [unfold len in *; lia|].
  exists b. by rewrite Hb.
Qed.

Lemma slice_app_mid {A} (s t r : list A) : slice (s ++ t ++ r) (len s) (len t) = t.
Proof.
  unfold slice, len. rewrite !Nat2Z.id, drop_app_length, take_app_length. done.
Qed.
Lemma slice_app_end {A} (s t : list A) : slice (s ++ t) (len s) (len t) = t.
Proof. rewrite <-(app_nil_r t) at 1. apply slice_app_mid. Qed.

Lemma slice_app_l {A} (s t : list A) p n :
  0 <= p → p + n <= len s → slice (s ++ t) p n = slice s p n.
Proof.
  intros Hp Hn. unfold slice. rewrite drop_app.
  destruct (Z.ltb_spec n 0); [by replace (Z.to_nat n) with 0%nat by lia|].
  rewrite take_app_le; [done|]. rewrite length_drop. unfold len in *. lia.
Qed.

(** a list cut into [n] elements, two more, and the rest *)
Lemma split_field {A} (s : list A) n :
  0 <= n → n + 2 <= len s → ∃ a x y r, s = a ++ x :: y :: r ∧ len a = n.
Proof.
  intros Hn Hs. exists (take (Z.to_nat n) s).
  destruct (drop (Z.to_nat n) s) as [|x [|y r]] eqn:E.
  1-2: apply (f_equal length) in E; rewrite length_drop in E; simpl in E; unfold len in *; lia.
  exists x, y, r. rewrite <-E, take_drop, len_take by lia. split; [done|lia].
Qed.

Lemma str_assign_in_range s p n :
  0 <= p → 0 <= n → p + n <= len s → len s < max_size →
  str_assign s p n = Ret (slice s p n).
Proof.
  intros. unfold str_assign.
  rewrite (proj2 (Z.ltb_ge _ _)) by lia.
  rewrite !(proj2 (Z.leb_le _ _)) by lia. simpl. f_equal. unfold slice.
  rewrite drop_app_le by (unfold len in *; lia).
  rewrite take_app_le; [done|]. rewrite length_drop. unfold len in *. lia.
Qed.

Lemma str_assign_huge s p n : max_size < n → str_assign s p n = Throw length_error.
Proof. intros H. unfold str_assign. by rewrite (proj2 (Z.ltb_lt _ _)). Qed.

(** assigning the middle part of a concatenation *)
Lemma str_assign_mid s t r p n :
  p = len s → n = len t → len (s ++ t ++ r) < max_size →
  str_assign (s ++ t ++ r) p n = Ret t.
Proof.
  intros -> -> H. rewrite str_assign_in_range by len_lia. by rewrite slice_app_mid.
Qed.

Lemma substr_app s t p : p = len s → substr (s ++ t) p = Ret t.
Proof.
  intros ->. unfold substr. destruct (Z.ltb_spec (len (s ++ t)) (len s)); [len_lia|].
  unfold len. by rewrite Nat2Z.id, drop_app_length.
Qed.

Lemma substr_tail b s : substr (b :: s) 1 = Ret s.
Proof. by apply (substr_app [b]). Qed.

Lemma substr_n_mid s t r p n :
  p = len s → n = len t → substr_n (s ++ t ++ r) p n = Ret t.
Proof.
  intros -> ->. unfold substr_n.
  destruct (Z.ltb_spec (len (s ++ t ++ r)) (len s)); [len_lia|]. by rewrite slice_app_mid.
Qed.

Lemma substr_n_app_l s t p n :
  0 <= p → 0 <= n → p + n <= len s → substr_n (s ++ t) p n = substr_n s p n.
Proof.
  intros. unfold substr_n. rewrite !(proj2 (Z.ltb_ge _ _)) by len_lia.
  by rewrite slice_app_l.
Qed.

Lemma substr_n_prefix t r n : n = len t → substr_n (t ++ r) 0 n = Ret t.
Proof. intros. by apply (substr_n_mid []). Qed.

(** ** Searching *)
Lemma is_prefix_app p s : is_prefix p (p ++ s) = true.
Proof. induction p as [|b p IH]; simpl; [done|]. by rewrite bool_decide_eq_true_2. Qed.

Lemma is_prefix_spec p s : is_prefix p s = true ↔ ∃ r, s = p ++ r.
Proof.
  split; [|by intros [r ->]; apply is_prefix_app].
  revert s. induction p as [|b p IH]; intros [|c s] H; simpl in *; try done; eauto.
  apply andb_true_iff in H as [H1%bool_decide_eq_true H2]. subst.
  destruct (IH _ H2) as [r ->]. eauto.
Qed.

(** a CRLF is found right after a text without CR *)
Lemma find_from_crlf s r i :
  Byte.x0d ∉ s → find_from crlf (s ++ crlf ++ r) i = Some (i + len s).
Proof.
  revert i. induction s as [|b s IH]; intros i Hs; simpl.
  - f_equal. len_lia.
  - apply not_elem_of_cons in Hs as [Hb Hs].
    rewrite bool_decide_eq_false_2 by done. simpl. rewrite IH by done. f_equal. len_lia.
Qed.

Lemma find_crlf s r : Byte.x0d ∉ s → find crlf (s ++ crlf ++ r) = Some (len s).
Proof. intros. unfold find. by rewrite find_from_crlf. Qed.

(** a single character is found right after a text without it *)
Lemma find_from_char c s r i : c ∉ s → find_from [c] (s ++ c :: r) i = Some (i + len s).
Proof.
  revert i. induction s as [|b s IH]; intros i Hs; simpl.
  - rewrite bool_decide_eq_true_2 by done. simpl. f_equal. len_lia.
  - apply not_elem_of_cons in Hs as [Hb Hs].
    rewrite bool_decide_eq_false_2 by done. simpl. rewrite IH by done. f_equal. len_lia.
Qed.
Lemma find_char c s r : c ∉ s → find [c] (s ++ c :: r) = Some (len s).
Proof. intros. unfold find. by rewrite find_from_char. Qed.

(** characters that do not start the needle are skipped *)
Lemma find_from_skip c needle s r i :
  c ∉ s → find_from (c :: needle) (s ++ r) i = find_from (c :: needle) r (i + len s).
Proof.
  revert i. induction s as [|b s IH]; intros i Hc; [by rewrite len_nil, Z.add_0_r|].
  apply not_elem_of_cons in Hc as [Hb Hc]. cbn [app find_from is_prefix].
  rewrite bool_decide_eq_false_2 by done. cbn [andb]. rewrite IH by done. f_equal. len_lia.
Qed.
Lemma find_at_start p r : find p (p ++ r) = Some 0.
Proof. unfold find. destruct (p ++ r) eqn:E; cbn [find_from]; by rewrite <-E, is_prefix_app. Qed.

Lemma find_from_char_None c s i : c ∉ s → find_from [c] s i = None.
Proof.
  revert i. induction s as [|b s IH]; intros i Hs; simpl; [done|].
  apply not_elem_of_cons in Hs as [Hb Hs].
  rewrite bool_decide_eq_false_2 by done. simpl. by apply IH.
Qed.

(** the index found is in range and the needle is there *)
Lemma find_from_Some n s i k :
  find_from n s i = Some k → ∃ a r, s = a ++ n ++ r ∧ k = i + len a.
Proof.
  revert i. induction s as [|b s IH]; intros i; simpl.
  - destruct (is_prefix n []) eqn:E; [|done]. intros [= <-].
    apply is_prefix_spec in E as [r E]. exists [], r. split; [done|len_lia].
  - destruct (is_prefix n (b :: s)) eqn:E.
    + intros [= <-]. apply is_prefix_spec in E as [r E]. exists [], r. split; [done|len_lia].
    + intros H. destruct (IH _ H) as (a & r & -> & ->). exists (b :: a), r.
      split; [done|len_lia].
Qed.
Lemma find_Some n s k : find n s = Some k → ∃ a r, s = a ++ n ++ r ∧ k = len a.
Proof.
  unfold find. intros H. destruct (find_from_Some _ _ _ _ H) as (a & r & -> & ->).
  exists a, r. split; [done|lia].
Qed.

(** ** Overwriting part of a buffer ([memcpy] into it) *)
Definition overwrite (buf : bytes) (pos : Z) (data : bytes) : bytes :=
  list_inserts (Z.to_nat pos) data buf.

Lemma len_overwrite buf pos data : len (overwrite buf pos data) = len buf.
Proof. unfold len, overwrite. by rewrite length_inserts. Qed.

(** the front of a buffer that has been overwritten from its start *)
Lemma take_overwrite buf data :
  len data <= len buf → take (Z.to_nat (len data)) (overwrite buf 0 data) = data.
Proof.
  unfold len, overwrite. intros Hl. rewrite Nat2Z.id. change (Z.to_nat 0) with 0%nat.
  apply list_eq. intros i. destruct (decide (i < length data)%nat).
  - rewrite lookup_take_lt by done. rewrite list_lookup_inserts by lia. f_equal. lia.
  - rewrite lookup_take_ge by lia. symmetry. apply lookup_ge_None. lia.
Qed.

(** ** Concrete values
    decide a proposition about a closed term by evaluating its test; the result
    of the evaluation is a constructor, so every checker evaluates and none
    compares unevaluated terms *)
Ltac by_evaluation := refine (bool_decide_eq_true_1 _ _); vm_cast_no_check (eq_refl true).

(** ** Outcomes *)
Lemma bind_Ret_inv {A B} (m : outcome A) (k : A → outcome B) b :
  m ≫= k = Ret b → ∃ a, m = Ret a ∧ k a = Ret b.
Proof. destruct m; simpl; try done. eauto. Qed.

(** split an equation [m ≫= k = Ret b] along its binds *)
Ltac inv_bind H :=
  let a := fresh "x" in let E := fresh "E" in
  apply bind_Ret_inv in H as (a & E & H).
