(* ===== verification/Coding.v ===== *)
(** Coding: the little-endian codec of src/Shared/Coding.cpp and the byte-order
    conversions its callers combine it with.  The binaries are built for
    little-endian hosts (x86_64), so [htonl], [ntohl], [htons] and [ntohs] swap
    bytes. *)
From S2P Require Import Prelude.

Module Coding.

(** ** Encoding: each function appends to the buffer it is given *)
Definition EncodeFixed8 (buf : bytes) (value : Z) : bytes := buf ++ [z2b value].

Definition EncodeFixed16 (dst : bytes) (value : Z) : bytes :=
  dst ++ [z2b value; z2b (Z.shiftr value 8)].

Definition EncodeFixed32 (dst : bytes) (value : Z) : bytes :=
  dst ++ [z2b value; z2b (Z.shiftr value 8); z2b (Z.shiftr value 16); z2b (Z.shiftr value 24)].

Definition EncodeStr (dst src : bytes) : bytes := dst ++ src.
Definition EncodeCstr (dst src : bytes) : bytes := dst ++ src.

(** ** Decoding: [rd] reads the storage the pointer points into, [p] is the
    pointer as an offset *)
Section Decode.
Context (rd : Z → outcome byte).

Definition DecodeFixed8 (p : Z) : outcome Z := b ← rd p; mret (b2z b).

Definition DecodeFixed16 (p : Z) : outcome Z :=
  b0 ← rd p; b1 ← rd (p + 1);
  mret (Z.lor (b2z b0) (Z.shiftl (b2z b1) 8)).

Definition DecodeFixed32 (p : Z) : outcome Z :=
  b0 ← rd p; b1 ← rd (p + 1); b2 ← rd (p + 2); b3 ← rd (p + 3);
  mret (Z.lor (Z.lor (Z.lor (b2z b0) (Z.shiftl (b2z b1) 8))
                     (Z.shiftl (b2z b2) 16))
              (Z.shiftl (b2z b3) 24)).
End Decode.

(** [std::string(ptr, len)] with [len] an [int]: the argument is converted to
    [int] by the caller and to [size_t] by the constructor *)
Definition DecodeStr (s : bytes) (p : Z) (length : Z) : outcome bytes :=
  str_assign s p (u64 (s32 length)).

(** ** Byte order *)
Definition bswap16 (v : Z) : Z :=
  Z.lor (Z.shiftl (u8 v) 8) (u8 (Z.shiftr v 8)).
Definition bswap32 (v : Z) : Z :=
  Z.lor (Z.shiftl (u8 v) 24)
    (Z.lor (Z.shiftl (u8 (Z.shiftr v 8)) 16)
       (Z.lor (Z.shiftl (u8 (Z.shiftr v 16)) 8) (u8 (Z.shiftr v 24)))).
Abbreviation htons := bswap16.
Abbreviation ntohs := bswap16.
Abbreviation htonl := bswap32.
Abbreviation ntohl := bswap32.

(** the big-endian bytes of a 32-bit value *)
Definition be32_bytes (v : Z) : bytes :=
  [z2b (Z.shiftr v 24); z2b (Z.shiftr v 16); z2b (Z.shiftr v 8); z2b v].
Definition be32 (a b c d : byte) : Z :=
  b2z a * 2 ^ 24 + b2z b * 2 ^ 16 + b2z c * 2 ^ 8 + b2z d.

(** ** Arithmetic form of the bit operations *)
Lemma shiftr_div v n : 0 <= n → Z.shiftr v n = v / 2 ^ n.
Proof. intros. by rewrite Z.shiftr_div_pow2. Qed.

Lemma bswap16_spec v : bswap16 v = u8 v * 2 ^ 8 + u8 (v / 2 ^ 8).
Proof.
  unfold bswap16. rewrite shiftr_div by lia. pose proof (u8_range (v / 2 ^ 8)).
  apply lor_shiftl_add; lia.
Qed.

Lemma bswap32_spec v :
  bswap32 v = u8 v * 2 ^ 24 + u8 (v / 2 ^ 8) * 2 ^ 16 + u8 (v / 2 ^ 16) * 2 ^ 8 + u8 (v / 2 ^ 24).
Proof.
  unfold bswap32. rewrite !shiftr_div by lia.
  pose proof (u8_range v). pose proof (u8_range (v / 2 ^ 8)).
  pose proof (u8_range (v / 2 ^ 16)). pose proof (u8_range (v / 2 ^ 24)).
  rewrite (lor_shiftl_add _ _ 8) by lia.
  rewrite (lor_shiftl_add _ _ 16) by lia.
  rewrite (lor_shiftl_add _ _ 24) by lia. lia.
Qed.

Lemma bswap32_bytes a b c d :
  bswap32 (b2z a + b2z b * 2 ^ 8 + b2z c * 2 ^ 16 + b2z d * 2 ^ 24) = be32 a b c d.
Proof.
  rewrite bswap32_spec. unfold u8, be32.
  pose proof (b2z_range a). pose proof (b2z_range b).
  pose proof (b2z_range c). pose proof (b2z_range d).
  Z.to_euclidean_division_equations. lia.
Qed.

Lemma z2b_mod v w : u8 v = u8 w → z2b v = z2b w.
Proof. unfold z2b. by intros ->. Qed.

Lemma z2b_eq_b2z v b : u8 v = b2z b → z2b v = b.
Proof. intros H. apply b2z_inj. by rewrite b2z_z2b. Qed.

(** a value encoded through [htonl] / [htons] lies in the buffer most
    significant byte first *)
Lemma EncodeFixed32_htonl dst v : EncodeFixed32 dst (htonl v) = dst ++ be32_bytes v.
Proof.
  unfold EncodeFixed32, be32_bytes. f_equal.
  rewrite !shiftr_div by lia.
  repeat (apply (f_equal2 cons)); [..|done]; apply z2b_mod; rewrite bswap32_spec; unfold u8;
    Z.to_euclidean_division_equations; lia.
Qed.

Lemma EncodeFixed16_htons dst v : EncodeFixed16 dst (htons v) = dst ++ be16_bytes (u16 v).
Proof.
  unfold EncodeFixed16, be16_bytes. f_equal.
  change 255 with (Z.ones 8). rewrite Z.land_ones, !shiftr_div by lia.
  repeat (apply (f_equal2 cons)); [..|done]; apply z2b_mod; rewrite bswap16_spec; unfold u8, u16;
    Z.to_euclidean_division_equations; lia.
Qed.

(** decoding the four bytes at [p] and swapping gives their big-endian value *)
Lemma ntohl_DecodeFixed32 rd p a b c d :
  rd p = Ret a → rd (p + 1) = Ret b → rd (p + 2) = Ret c → rd (p + 3) = Ret d →
  (v ← DecodeFixed32 rd p; mret (ntohl v)) = Ret (be32 a b c d).
Proof.
  intros H0 H1 H2 H3. unfold DecodeFixed32. rewrite H0, H1, H2, H3. simpl.
  rewrite <-bswap32_bytes. unfold mret, outcome_ret. do 2 f_equal.
  pose proof (b2z_range a). pose proof (b2z_range b).
  pose proof (b2z_range c). pose proof (b2z_range d).
  rewrite (Z.lor_comm (b2z a)), lor_shiftl_add by lia.
  rewrite (Z.lor_comm _ (Z.shiftl (b2z c) 16)), lor_shiftl_add by lia.
  rewrite (Z.lor_comm _ (Z.shiftl (b2z d) 24)), lor_shiftl_add by lia. lia.
Qed.

Lemma ntohs_DecodeFixed16 rd p a b :
  rd p = Ret a → rd (p + 1) = Ret b →
  (v ← DecodeFixed16 rd p; mret (ntohs v)) = Ret (be16 a b).
Proof.
  intros H0 H1. unfold DecodeFixed16. rewrite H0, H1. simpl.
  unfold mret, outcome_ret. f_equal.
  pose proof (b2z_range a). pose proof (b2z_range b).
  rewrite (Z.lor_comm (b2z a)), lor_shiftl_add, bswap16_spec, be16_spec by lia.
  unfold u8. Z.to_euclidean_division_equations. lia.
Qed.

Lemma be32_be32_bytes v :
  0 <= v < 2 ^ 32 →
  be32 (z2b (Z.shiftr v 24)) (z2b (Z.shiftr v 16)) (z2b (Z.shiftr v 8)) (z2b v) = v.
Proof.
  intros. unfold be32. rewrite !b2z_z2b, !shiftr_div by lia. unfold u8.
  Z.to_euclidean_division_equations. lia.
Qed.

Lemma len_be32_bytes v : len (be32_bytes v) = 4.
Proof. done. Qed.

Lemma be32_bytes_be32 a b c d : be32_bytes (be32 a b c d) = [a; b; c; d].
Proof.
  unfold be32_bytes. rewrite !shiftr_div by lia.
  pose proof (b2z_range a). pose proof (b2z_range b).
  pose proof (b2z_range c). pose proof (b2z_range d).
  repeat (apply (f_equal2 cons)); [..|done]; apply z2b_eq_b2z;
    unfold u8, be32; Z.to_euclidean_division_equations; lia.
Qed.

End Coding.
#[export] Hint Rewrite Coding.len_be32_bytes : len_db.
