(* ===== verification/Float64.v ===== *)
(** Float64: the type [double] as the code uses it, IEEE 754 binary64 with rounding
    to nearest: the operations of the Standard Library's specification of
    floating-point numbers at 53 and 1024, the conversions from and to
    [uint64_t], and what rounding does to positive numbers. *)
From Stdlib Require Import SpecFloat.
From S2P Require Import Prelude.

Module Float64.
Notation double := spec_float.
Definition prec : Z := 53.
Definition emax : Z := 1024.
Definition mul : double → double → double := SFmul prec emax.
Definition add : double → double → double := SFadd prec emax.
Definition div : double → double → double := SFdiv prec emax.
(** the conversion from an integer *)
Definition of_Z (n : Z) : double := binary_normalize prec emax n 0 false.
(** [static_cast<uint64_t>]: the fraction is dropped; what does not fit is
    undefined behaviour *)
Definition to_uint64 (f : double) : outcome Z :=
  match f with
  | S754_zero _ => mret 0
  | S754_finite sign m e =>
      let n := Z.shiftl (Zpos m) e in
      if sign then if n =? 0 then mret 0 else Undef
      else if n <? 2 ^ 64 then mret n else Undef
  | _ => Undef
  end.

(** ** Digits *)
Lemma digits2_spec m : 2 ^ (Zpos (digits2_pos m) - 1) <= Zpos m < 2 ^ Zpos (digits2_pos m).
Proof.
  induction m as [m IH|m IH|]; cbn [digits2_pos]; [..|done].
  1,2: rewrite Pos2Z.inj_succ;
    replace (Z.succ (Zpos (digits2_pos m)) - 1) with (Z.succ (Zpos (digits2_pos m) - 1)) by lia;
    rewrite !Z.pow_succ_r by lia; lia.
Qed.
Lemma digits2_unique m d : 0 < d → 2 ^ (d - 1) <= Zpos m < 2 ^ d → Zpos (digits2_pos m) = d.
Proof.
  intros Hd [H1 H2]. destruct (digits2_spec m) as [H3 H4].
  assert (d - 1 < Zpos (digits2_pos m)) by (apply (Z.pow_lt_mono_r_iff 2); lia).
  assert (Zpos (digits2_pos m) - 1 < d) by (apply (Z.pow_lt_mono_r_iff 2); lia). lia.
Qed.

(** ** Shifting *)
Lemma shr_1_half r : 0 <= shr_m r → shr_m (shr_1 r) = shr_m r / 2.
Proof.
  destruct r as [[|[p|p|]|p] b1 b2]; cbn; intros Hr; try done; try lia.
  - change (Zpos p~1) with (2 * Zpos p + 1). rewrite Z.add_comm, Z.mul_comm, Z.div_add by lia. done.
  - change (Zpos p~0) with (2 * Zpos p). by rewrite Z.mul_comm, Z.div_mul.
Qed.
Lemma shr_iter p r : 0 <= shr_m r → shr_m (SpecFloat.iter_pos shr_1 p r) = shr_m r / 2 ^ Zpos p.
Proof.
  assert (∀ a k, 0 <= a → 0 <= k → 0 <= a / 2 ^ k) as Hnn
    by (intros a k ? ?; apply Z.div_pos; lia).
  revert r. induction p as [p IH|p IH|]; intros r Hr; cbn [SpecFloat.iter_pos].
  - assert (0 <= shr_m (shr_1 r)) as H1 by (rewrite shr_1_half by done; apply Z.div_pos; lia).
    rewrite IH by (rewrite IH by done; by apply Hnn). rewrite IH, shr_1_half by done.
    rewrite !Z.div_div by lia. f_equal.
    rewrite Pos2Z.inj_xI, Z.pow_add_r, Z.pow_mul_r, Z.pow_2_r, Z.pow_1_r by lia. 
    rewrite <-Z.pow_mul_l. lia.
  - rewrite IH by (rewrite IH by done; by apply Hnn). rewrite IH by done. rewrite Z.div_div by lia. f_equal.
    rewrite Pos2Z.inj_xO, <-Z.pow_add_r by lia. f_equal. lia.
  - by apply shr_1_half.
Qed.
Lemma shl_exact m e e' :
  let '(m', e1) := shl_align m e e' in
  e1 = Z.min e e' ∧ Zpos m' = Zpos m * 2 ^ (e - e1).
Proof.
  unfold shl_align. destruct (e' - e) as [|p|p] eqn:E.
  - split; [lia|]. rewrite Z.sub_diag. lia.
  - split; [lia|]. rewrite Z.sub_diag. lia.
  - split; [lia|]. replace (e - e') with (Zpos p) by lia.
    clear E. induction p as [|p IH] using Pos.peano_ind; [cbn; lia|].
    rewrite Pos.iter_succ, Pos2Z.inj_succ, Z.pow_succ_r by lia.
    change (Zpos (Pos.iter xO m p)~0) with (2 * Zpos (Pos.iter xO m p)). lia.
Qed.

(** ** Rounding *)
Lemma fexp_normal k : -1021 <= k → fexp prec emax k = k - 53.
Proof. unfold fexp, emin, prec, emax. lia. Qed.

(** the first shift leaves at most 53 digits *)
Lemma shr_fexp_few m e :
  -1022 <= e → Zpos (digits2_pos m) <= 53 →
  shr_fexp prec emax (Zpos m) e loc_Exact = (Build_shr_record (Zpos m) false false, e).
Proof.
  intros He Hd. unfold shr_fexp. cbn [Zdigits2 shr_record_of_loc]. rewrite fexp_normal by lia.
  destruct (_ - e) as [|p|p] eqn:E; [done|lia|done].
Qed.
Lemma shr_fexp_many m e :
  -1022 <= e → 53 < Zpos (digits2_pos m) →
  ∃ r, shr_fexp prec emax (Zpos m) e loc_Exact = (r, e + (Zpos (digits2_pos m) - 53)) ∧
    shr_m r = Zpos m / 2 ^ (Zpos (digits2_pos m) - 53).
Proof.
  intros He Hd. unfold shr_fexp. cbn [Zdigits2 shr_record_of_loc]. rewrite fexp_normal by lia.
  destruct (_ - e) as [|p|p] eqn:E; [lia| |lia]. unfold shr.
  assert (Zpos p = Zpos (digits2_pos m) - 53) as Hp by lia.
  eexists. split; [by rewrite Hp|]. rewrite shr_iter by done. cbn [shr_m]. by rewrite Hp.
Qed.
Lemma round_cases q l : round_nearest_even q l = q ∨ round_nearest_even q l = q + 1.
Proof. destruct l as [|[]]; cbn; auto. destruct (Z.even q); auto. Qed.

(** a number of 53 digits, or the power of two behind them, is represented *)
Lemma represent m e :
  -1022 <= e → 0 < m <= 2 ^ 53 → e <= 900 →
  ∃ m' k, (let '(r, e') := shr_fexp prec emax m e loc_Exact in
    match shr_m r with
    | Z0 => S754_zero false
    | Zpos m => if e' <=? emax - prec then S754_finite false m e' else S754_infinity false
    | _ => S754_nan
    end) = S754_finite false m' (e + k) ∧ 0 <= k <= 1 ∧ Zpos m' * 2 ^ k = m ∧
    Zpos (digits2_pos m') <= 53.
Proof.
  intros He [Hm H53] He'. destruct m as [|m|]; [lia| |lia].
  destruct (digits2_spec m) as [Hlo Hhi].
  destruct (decide (Zpos (digits2_pos m) <= 53)) as [Hd|Hd].
  - exists m, 0. rewrite shr_fexp_few by done. cbn [shr_m].
    rewrite (proj2 (Z.leb_le _ _)) by (unfold emax, prec; lia). rewrite Z.add_0_r. split_and!; [done|lia..].
  - assert (Zpos m = 2 ^ 53) as Hm53.
    { assert (2 ^ 53 <= 2 ^ (Zpos (digits2_pos m) - 1)) by (apply Z.pow_le_mono_r; lia). lia. }
    assert (Zpos (digits2_pos m) = 54) as Hd54 by (apply digits2_unique; rewrite ?Hm53; lia).
    destruct (shr_fexp_many m e He) as (r & -> & Hr); [lia|]. rewrite Hd54, Hm53 in *.
    change (2 ^ 53 / 2 ^ (54 - 53)) with (Zpos (2 ^ 52)) in Hr. rewrite Hr.
    rewrite (proj2 (Z.leb_le _ _)) by (unfold emax, prec; lia).
    exists (2 ^ 52)%positive, 1. split_and!; [done|lia|lia|lia|done].
Qed.

(** rounding changes a positive number by less than a 2^52th *)
Lemma round_near m e :
  -1022 <= e → Zpos (digits2_pos m) + e <= 900 →
  ∃ m' e', binary_round_aux prec emax false (Zpos m) e loc_Exact = S754_finite false m' e' ∧
    e <= e' ∧ e' <= Z.max e (Zpos (digits2_pos m) + e - 52) ∧
    2 ^ 52 * (Zpos m' * 2 ^ (e' - e)) <= (2 ^ 52 + 1) * Zpos m ∧
    (2 ^ 52 - 1) * Zpos m <= 2 ^ 52 * (Zpos m' * 2 ^ (e' - e)) ∧
    Zpos (digits2_pos m') <= 53 ∧ (Zpos (digits2_pos m) <= 53 → m' = m ∧ e' = e).
Proof.
  intros He Hmax. destruct (digits2_spec m) as [Hlo Hhi].
  unfold binary_round_aux. destruct (decide (Zpos (digits2_pos m) <= 53)) as [Hd|Hd].
  - rewrite shr_fexp_few by done. cbn [shr_m loc_of_shr_record round_nearest_even].
    rewrite shr_fexp_few by done. cbn [shr_m].
    rewrite (proj2 (Z.leb_le _ _)) by (unfold emax, prec; lia).
    exists m, e. rewrite Z.sub_diag. split_and!; try done; lia.
  - set (n := Zpos (digits2_pos m) - 53).
    destruct (shr_fexp_many m e He) as (r & -> & Hr); [lia|]. fold n in Hr |- *.
    assert (0 < 2 ^ n) as Hn by (apply Z.pow_pos_nonneg; lia).
    assert (2 ^ 52 * 2 ^ n <= Zpos m < 2 ^ 53 * 2 ^ n) as [Hmlo Hmhi].
    { rewrite <-!Z.pow_add_r by lia. replace (52 + n) with (Zpos (digits2_pos m) - 1) by lia.
      by replace (53 + n) with (Zpos (digits2_pos m)) by lia. }
    set (q := Zpos m / 2 ^ n) in *.
    assert (q * 2 ^ n <= Zpos m < (q + 1) * 2 ^ n) as [Hq1 Hq2].
    { pose proof (Z.div_mod (Zpos m) (2 ^ n) ltac:(lia)). pose proof (Z.mod_pos_bound (Zpos m) (2 ^ n) Hn).
      unfold q. nia. }
    assert (2 ^ 52 <= q < 2 ^ 53) as Hq by nia.
    set (q' := round_nearest_even (shr_m r) (loc_of_shr_record r)).
    assert (q' = q ∨ q' = q + 1) as Hq' by (unfold q'; rewrite Hr; apply round_cases).
    destruct (represent q' (e + n)) as (m' & k & -> & Hk & Hv & Hd'); [lia..|].
    exists m', (e + n + k). assert (Zpos m' * 2 ^ (e + n + k - e) = q' * 2 ^ n) as ->.
    { rewrite <-Hv, <-Z.mul_assoc, <-Z.pow_add_r by lia. do 2 f_equal. lia. }
    split_and!; try done; [lia|lia| |]; nia.
Qed.

(** ** Non-negative numbers *)
(** the value in units of 2^-1074, the smallest positive number; exponents are
    between [-k] and [k] *)
Definition unit : Z := 2 ^ 1074.
Inductive value (k : Z) : double → Z → Prop :=
  | value_zero : value k (S754_zero false) 0
  | value_finite m e :
      - k <= e <= k → Zpos (digits2_pos m) <= 53 →
      value k (S754_finite false m e) (Zpos m * 2 ^ (e + 1074)).

Lemma unit_pos : 0 < unit.
Proof. by apply Z.pow_pos_nonneg. Qed.
Lemma value_nonneg k f v : value k f v → 0 <= v.
Proof. intros []; [lia|]. apply Z.mul_nonneg_nonneg; [lia|]. apply Z.pow_nonneg. lia. Qed.
Lemma value_weaken k k' f v : k <= k' → value k f v → value k' f v.
Proof. intros Hk []; constructor; lia. Qed.

(** rounding the exact value [x * 2^(e + 1074)] *)
Lemma value_round m e k :
  -1022 <= e → Zpos (digits2_pos m) + e <= 900 → - k <= e → Z.max e (Zpos (digits2_pos m) + e - 52) <= k →
  ∃ w, value k (binary_round_aux prec emax false (Zpos m) e loc_Exact) w ∧
    2 ^ 52 * w <= (2 ^ 52 + 1) * (Zpos m * 2 ^ (e + 1074)) ∧
    (2 ^ 52 - 1) * (Zpos m * 2 ^ (e + 1074)) <= 2 ^ 52 * w ∧
    (Zpos (digits2_pos m) <= 53 → w = Zpos m * 2 ^ (e + 1074)).
Proof.
  intros He Hmax Hk1 Hk2. destruct (round_near m e He Hmax) as (m' & e' & -> & H1 & H2 & H3 & H4 & H5 & H6).
  exists (Zpos m' * 2 ^ (e' + 1074)). split; [constructor; lia|].
  assert (Zpos m' * 2 ^ (e' + 1074) = Zpos m' * 2 ^ (e' - e) * 2 ^ (e + 1074)) as ->.
  { rewrite <-Z.mul_assoc, <-Z.pow_add_r by lia. do 2 f_equal. lia. }
  assert (0 <= 2 ^ (e + 1074)) as Hp by (apply Z.pow_nonneg; lia).
  split_and!; [| |by intros [-> ->]%H6; rewrite Z.sub_diag, Z.mul_1_r];
    rewrite !Z.mul_assoc; (apply Z.mul_le_mono_nonneg_r; [done|]); by rewrite <-Z.mul_assoc.
Qed.

(** a product with a constant between 0 and 1 *)
Lemma value_mul mc ec f v k :
  Zpos (digits2_pos mc) <= 53 → 0 <= ec <= 60 → value k f v → 0 <= k <= 700 →
  ∃ w, value (k + 60) (mul (S754_finite false mc (- ec)) f) w ∧
    2 ^ 52 * (2 ^ ec * w) <= (2 ^ 52 + 1) * (Zpos mc * v) ∧
    (2 ^ 52 - 1) * (Zpos mc * v) <= 2 ^ 52 * (2 ^ ec * w).
Proof.
  intros Hmc Hec Hf Hk. destruct Hf as [|m e He Hd].
  { exists 0. split; [constructor|]. by rewrite !Z.mul_0_r. }
  assert (Zpos (digits2_pos (mc * m)) <= 106) as Hdig.
  { destruct (digits2_spec (mc * m)) as [Hlo _].
    assert (2 ^ (Zpos (digits2_pos (mc * m)) - 1) < 2 ^ 106) as Hlt.
    { eapply Z.le_lt_trans; [exact Hlo|]. rewrite Pos2Z.inj_mul. change (2 ^ 106) with (2 ^ 53 * 2 ^ 53).
      destruct (digits2_spec mc) as [_ H1], (digits2_spec m) as [_ H2].
      assert (2 ^ Zpos (digits2_pos mc) <= 2 ^ 53) by (apply Z.pow_le_mono_r; lia).
      assert (2 ^ Zpos (digits2_pos m) <= 2 ^ 53) by (apply Z.pow_le_mono_r; lia).
      apply Z.mul_lt_mono_nonneg; lia. }
    apply (Z.pow_lt_mono_r_iff 2) in Hlt; lia. }
  destruct (value_round (mc * m) (- ec + e) (k + 60)) as (w & Hw & H1 & H2 & _); [lia..|].
  exists w. split; [exact Hw|].
  assert (Zpos (mc * m) * 2 ^ (- ec + e + 1074) * 2 ^ ec = Zpos mc * (Zpos m * 2 ^ (e + 1074))) as E.
  { rewrite Pos2Z.inj_mul, <-!Z.mul_assoc, <-Z.pow_add_r by lia. do 3 f_equal. lia. }
  assert (0 < 2 ^ ec) as Hp by (apply Z.pow_pos_nonneg; lia).
  rewrite <-E. split; nia.
Qed.

Lemma digits2_shift m m' j :
  0 <= j → Zpos m' = Zpos m * 2 ^ j → Zpos (digits2_pos m') = Zpos (digits2_pos m) + j.
Proof.
  intros Hj E. destruct (digits2_spec m) as [H1 H2]. assert (0 < 2 ^ j) by (apply Z.pow_pos_nonneg; lia).
  apply digits2_unique; [lia|]. rewrite E.
  replace (Zpos (digits2_pos m) + j - 1) with (Zpos (digits2_pos m) - 1 + j) by lia.
  rewrite !Z.pow_add_r by lia. split; [apply Z.mul_le_mono_nonneg_r; lia|by apply Z.mul_lt_mono_pos_r].
Qed.

(** [binary_round] first shifts left as far as the 53 digits allow *)
Lemma value_binary_round m e k :
  -900 <= e → Zpos (digits2_pos m) + e <= 900 → - k <= e - 52 →
  Z.max e (Zpos (digits2_pos m) + e - 52) <= k →
  ∃ w, value k (binary_round prec emax false m e) w ∧
    2 ^ 52 * w <= (2 ^ 52 + 1) * (Zpos m * 2 ^ (e + 1074)) ∧
    (2 ^ 52 - 1) * (Zpos m * 2 ^ (e + 1074)) <= 2 ^ 52 * w ∧
    (Zpos (digits2_pos m) <= 53 → w = Zpos m * 2 ^ (e + 1074)).
Proof.
  intros He Hmax Hk1 Hk2. unfold binary_round. rewrite fexp_normal by lia.
  pose proof (shl_exact m e (Zpos (digits2_pos m) + e - 53)) as Hs.
  destruct (shl_align m e _) as [mz ez]. destruct Hs as [Hez Hmz].
  assert (0 < Zpos (digits2_pos m)) by lia.
  pose proof (digits2_shift m mz (e - ez) ltac:(lia) Hmz) as Hdig.
  destruct (value_round mz ez k) as (w & Hw & H1 & H2 & H3); [lia..|].
  assert (Zpos mz * 2 ^ (ez + 1074) = Zpos m * 2 ^ (e + 1074)) as E.
  { rewrite Hmz, <-Z.mul_assoc, <-Z.pow_add_r by lia. do 2 f_equal. lia. }
  rewrite E in *. exists w. split_and!; try done. intros Hd. apply H3. lia.
Qed.

(** the conversion of an integer of 53 digits is exact *)
Lemma value_of_Z n : 0 <= n < 2 ^ 53 → value 60 (of_Z n) (n * unit).
Proof.
  intros [Hn Hlt]. destruct n as [|n|]; [constructor| |lia].
  assert (Zpos (digits2_pos n) <= 53) as Hd.
  { destruct (digits2_spec n) as [H1 _]. 
    assert (2 ^ (Zpos (digits2_pos n) - 1) < 2 ^ 53) as Hp by lia.
    apply (Z.pow_lt_mono_r_iff 2) in Hp; lia. }
  destruct (value_binary_round n 0 60) as (w & Hw & _ & _ & E); [lia..|].
  rewrite E in Hw by done. exact Hw.
Qed.

(** a sum *)
Lemma value_add f g v w k :
  value k f v → value k g w → 0 <= k <= 150 →
  ∃ s, value (3 * k + 110) (add f g) s ∧
    2 ^ 52 * s <= (2 ^ 52 + 1) * (v + w) ∧ (2 ^ 52 - 1) * (v + w) <= 2 ^ 52 * s.
Proof.
  intros Hf Hg Hk. pose proof (value_nonneg _ _ _ Hf) as Hv. pose proof (value_nonneg _ _ _ Hg) as Hw.
  assert (∀ h x, value k h x → ∃ s, value (3 * k + 110) h s ∧
    2 ^ 52 * s <= (2 ^ 52 + 1) * x ∧ (2 ^ 52 - 1) * x <= 2 ^ 52 * s) as Hself.
  { intros h x Hx. exists x. pose proof (value_nonneg _ _ _ Hx).
    split_and!; [eapply value_weaken; [|done]; lia|lia|lia]. }
  destruct Hf as [|m1 e1 He1 Hd1]; [destruct Hg; by apply Hself; constructor|].
  destruct Hg as [|m2 e2 He2 Hd2]; [rewrite Z.add_0_r; apply Hself; by constructor|].
  unfold add, SFadd. cbn [cond_Zopp]. set (ez := Z.min e1 e2).
  pose proof (shl_exact m1 e1 ez) as H1. pose proof (shl_exact m2 e2 ez) as H2.
  destruct (shl_align m1 e1 ez) as [n1 f1], (shl_align m2 e2 ez) as [n2 f2]. cbn [fst].
  destruct H1 as [-> H1], H2 as [-> H2].
  rewrite (Z.min_r e1 ez) in H1 by lia. rewrite (Z.min_r e2 ez) in H2 by lia.
  assert (∀ m e, 0 <= e - ez <= 2 * k → Zpos (digits2_pos m) <= 53 →
    Zpos m * 2 ^ (e - ez) < 2 ^ (53 + 2 * k)) as Hbound.
  { intros m e He Hd. destruct (digits2_spec m) as [_ Hm]. rewrite Z.pow_add_r by lia.
    assert (2 ^ Zpos (digits2_pos m) <= 2 ^ 53) by (apply Z.pow_le_mono_r; lia).
    assert (2 ^ (e - ez) <= 2 ^ (2 * k)) by (apply Z.pow_le_mono_r; lia).
    assert (0 < 2 ^ (e - ez)) by (apply Z.pow_pos_nonneg; lia). nia. }
  pose proof (Hbound m1 e1 ltac:(lia) Hd1) as B1. pose proof (Hbound m2 e2 ltac:(lia) Hd2) as B2.
  change (Zpos n1 + Zpos n2) with (Zpos (n1 + n2)). cbn [binary_normalize].
  assert (Zpos (digits2_pos (n1 + n2)) <= 54 + 2 * k) as Hdig.
  { destruct (digits2_spec (n1 + n2)) as [Hlo _]. rewrite Pos2Z.inj_add in Hlo.
    assert (2 ^ (Zpos (digits2_pos (n1 + n2)) - 1) < 2 ^ (54 + 2 * k)) as Hp.
    { replace (54 + 2 * k) with (Z.succ (53 + 2 * k)) by lia. rewrite Z.pow_succ_r by lia. lia. }
    apply (Z.pow_lt_mono_r_iff 2) in Hp; lia. }
  destruct (value_binary_round (n1 + n2) ez (3 * k + 110)) as (s & Hs & S1 & S2 & _); [lia..|].
  exists s. split; [exact Hs|].
  assert (Zpos (n1 + n2) * 2 ^ (ez + 1074) = Zpos m1 * 2 ^ (e1 + 1074) + Zpos m2 * 2 ^ (e2 + 1074)) as <-; [|done].
  rewrite Pos2Z.inj_add, H1, H2, Z.mul_add_distr_r, <-!Z.mul_assoc, <-!Z.pow_add_r by lia.
  f_equal; do 2 f_equal; lia.
Qed.

(** dropping the fraction *)
Lemma value_to_uint64 k f v :
  value k f v → k <= 1000 → v < 2 ^ 64 * unit → to_uint64 f = Ret (v / unit).
Proof.
  intros Hf Hk Hv. destruct Hf as [|m e He Hd]; [done|]. unfold to_uint64.
  assert (Z.shiftl (Zpos m) e = Zpos m * 2 ^ (e + 1074) / unit) as ->.
  { unfold unit. destruct (Z.le_gt_cases 0 e) as [Hpos|Hneg].
    - rewrite Z.shiftl_mul_pow2 by lia. rewrite Z.pow_add_r, Z.mul_assoc by lia.
      by rewrite Z.div_mul by (by apply Z.pow_nonzero).
    - rewrite Z.shiftl_div_pow2 by lia.
      assert (2 ^ 1074 = 2 ^ (e + 1074) * 2 ^ (- e)) as -> by (rewrite <-Z.pow_add_r by lia; f_equal; lia).
      rewrite (Z.mul_comm (Zpos m)), Z.div_mul_cancel_l by (apply Z.pow_nonzero; lia). done. }
  rewrite (proj2 (Z.ltb_lt _ _)); [done|]. apply Z.div_lt_upper_bound; [apply unit_pos|]. lia.
Qed.
End Float64.
