(* ===== verification/Net.v ===== *)
(** Net: the values of [boost::asio::ip] the program passes around.  Only data
    and accessors whose meaning the library's reference states are used: an
    address is a tagged array of 4 or 16 network-order bytes, an endpoint pairs
    it with a port.  The textual form of an address ([to_string],
    [make_address]) is library code and stays a parameter ([AddressText],
    [AddressParser]). *)
From S2P Require Import Prelude.

Module Net.

Inductive address :=
  | address_v4 (b : bytes)
  | address_v6 (b : bytes).

Record endpoint := Endpoint { ep_address : address; ep_port : Z }.

#[global] Instance address_eq_dec : EqDecision address.
Proof. solve_decision. Defined.
#[global] Instance endpoint_eq_dec : EqDecision endpoint.
Proof. solve_decision. Defined.

#[global] Program Instance address_countable : Countable address :=
  inj_countable'
    (fun a => match a with address_v4 b => inl b | address_v6 b => inr b end)
    (fun s => match s with inl b => address_v4 b | inr b => address_v6 b end) _.
Next Obligation. by intros []. Qed.
#[global] Program Instance endpoint_countable : Countable endpoint :=
  inj_countable' (fun e => (ep_address e, ep_port e)) (fun p => Endpoint p.1 p.2) _.
Next Obligation. by intros []. Qed.

Definition is_v4 (a : address) : bool :=
  match a with address_v4 _ => true | address_v6 _ => false end.
Definition is_v6 (a : address) : bool := negb (is_v4 a).
Definition to_bytes (a : address) : bytes :=
  match a with address_v4 b => b | address_v6 b => b end.
Definition is_unspecified (a : address) : bool :=
  forallb (fun b => bool_decide (b = Byte.x00)) (to_bytes a).

(** the value of a default-constructed [udp::endpoint] *)
Definition no_endpoint : endpoint := Endpoint (address_v4 (replicate 4 Byte.x00)) 0.

(** the representation invariant of the library's types *)
Definition address_wf (a : address) : Prop :=
  length (to_bytes a) = if is_v4 a then 4%nat else 16%nat.
Definition endpoint_wf (e : endpoint) : Prop :=
  address_wf (ep_address e) ∧ 0 <= ep_port e < 2 ^ 16.

(** what the code uses of address formatting *)
Class AddressText := v4_to_string : bytes → bytes.
(** [make_address], which reads the text of an address; [None]: the text is not one
    (a host name is not), and the function throws a [system_error] *)
Class AddressParser := make_address : bytes → option address.

(** a 4-byte list is four bytes *)
Lemma length_4 (b : bytes) :
  length b = 4%nat → ∃ b0 b1 b2 b3, b = [b0; b1; b2; b3].
Proof. intros. repeat (destruct b as [|? b]; simpl in *; try lia). eauto. Qed.

End Net.
