(* ===== verification/Wire.v ===== *)
(** Wire: messages that delimit themselves in a stream of bytes.

    The trojan protocol sends UDP packets over a TCP connection, so the receiver
    has to find their ends; reads may cut the stream anywhere.  The class states
    what a format promises to such a receiver: a message is recognised whatever
    follows it, and an answer does not change when more bytes arrive.  Everything
    about cutting a stream is proved from these laws. *)
From S2P Require Import Prelude.

Module Wire.

(** [decode] looks for a message at the start of the data: what it says and how
    many bytes it takes, or nothing as long as it is not complete *)
Class SelfDelimiting {A B} (ok : A → Prop) (encode : A → bytes) (view : A → B)
    (decode : bytes → option (B * Z)) : Prop := {
  sd_whole a rest : ok a → decode (encode a ++ rest) = Some (view a, len (encode a));
  sd_stable data more b n :
    decode data = Some (b, n) → decode (data ++ more) = Some (b, n);
  sd_within data b n : decode data = Some (b, n) → 0 < n <= len data
}.

Section Stream.
Context {A B : Type} {ok : A → Prop} {encode : A → bytes} {view : A → B}.
Context {decode : bytes → option (B * Z)}.
Context `{!SelfDelimiting ok encode view decode}.

(** a sequence of messages on the wire *)
Definition stream (l : list A) : bytes := concat (encode <$> l).

Lemma stream_app l1 l2 : stream (l1 ++ l2) = stream l1 ++ stream l2.
Proof. unfold stream. by rewrite fmap_app, concat_app. Qed.

(** a part of a message is not taken for one *)
Lemma sd_part a q r : ok a → encode a = q ++ r → r ≠ [] → decode q = None.
Proof.
  intros Ha Hq Hr. destruct (decode q) as [[b n]|] eqn:E; [|done].
  destruct (sd_within _ _ _ E) as [_ Hn]. apply (sd_stable _ r) in E.
  rewrite <-Hq, <-(app_nil_r (encode a)), (sd_whole a []) in E by done.
  injection E as _ E. rewrite Hq in E. destruct r as [|x r]; [done|]. len_lia.
Qed.

(** what is found at the start of a cut-off stream is its first message *)
Lemma sd_cut data l b n :
  Forall ok l → data `prefix_of` stream l → decode data = Some (b, n) →
  ∃ a l' rest, l = a :: l' ∧ b = view a ∧ n = len (encode a) ∧
    data = encode a ++ rest ∧ rest `prefix_of` stream l'.
Proof.
  intros HF [z Hz] E. destruct (sd_within _ _ _ E) as [Hn0 Hn].
  apply (sd_stable _ z) in E. rewrite <-Hz in E.
  destruct HF as [|a l Ha HF].
  { destruct data; [|discriminate Hz]. len_lia. }
  change (stream (a :: l)) with (encode a ++ stream l) in Hz, E.
  rewrite (sd_whole a) in E by done. injection E as <- <-.
  destruct (app_eq_inv _ _ _ _ Hz) as [(k & Hk & Hs)|(k & Hk & Hs)].
  - assert (k = []) as ->.
    { apply len_0_nil. apply (f_equal len) in Hk. len_lia. }
    rewrite app_nil_r in Hk. exists a, l, []. rewrite app_nil_r.
    split_and!; [done..|apply prefix_nil].
  - exists a, l, k. split_and!; [done..|by exists z].
Qed.

(** a message that is there is found *)
Lemma sd_found data a : ok a → encode a `prefix_of` data →
  decode data = Some (view a, len (encode a)).
Proof. intros Ha [z ->]. by apply sd_whole. Qed.
End Stream.
End Wire.
