(* ===== verification/Decimal.v ===== *)
(** Decimal: decimal text, [std::to_string] on unsigned values and [std::stoi],
    and the host:port keys the program builds from them. *)
From S2P Require Import Prelude.

Module Decimal.

Definition is_digit (b : byte) : bool := (48 <=? b2z b) && (b2z b <=? 57).
(** [isspace] in the "C" locale *)
Definition is_space (b : byte) : bool :=
  (b2z b =? 32) || ((9 <=? b2z b) && (b2z b <=? 13)).

(** the digits at the front of [s], folded into [acc]; how many there were *)
Fixpoint digits (s : bytes) (acc : Z) (n : nat) : Z * nat :=
  match s with
  | b :: s' => if is_digit b then digits s' (acc * 10 + (b2z b - 48)) (S n) else (acc, n)
  | [] => (acc, n)
  end.

Fixpoint skip_space (s : bytes) : bytes :=
  match s with
  | b :: s' => if is_space b then skip_space s' else s
  | [] => []
  end.

(** [std::stoi(s)]: leading white space, an optional sign, digits *)
Definition stoi (s : bytes) : outcome Z :=
  let s := skip_space s in
  let '(neg, s) :=
    match s with
    | Byte.x2d :: s' => (true, s')
    | Byte.x2b :: s' => (false, s')
    | _ => (false, s)
    end in
  let '(v, n) := digits s 0 0 in
  let v := if neg : bool then - v else v in
  if (n =? 0)%nat then Throw invalid_argument
  else if (v <? - 2 ^ 31) || (2 ^ 31 - 1 <? v) then Throw out_of_range
  else Ret v.

(** [host + ":" + std::to_string(port)]: the key of the DNS cache and of the
    relay's sender table *)
Definition host_port (host : bytes) (port : Z) : bytes :=
  host ++ lit ":" ++ to_string port.

(** ** [to_string] writes digits, and [stoi] reads them back *)
Definition all_digits (s : bytes) : Prop := Forall (λ b, is_digit b = true) s.

Lemma pretty_char_digit x :
  (x < 10)%N →
  ∃ b, lit (String (pretty_N_char x) "") = [b] ∧ is_digit b = true ∧ b2z b = 48 + Z.of_N x.
Proof.
  intros. assert (x = 0 ∨ x = 1 ∨ x = 2 ∨ x = 3 ∨ x = 4 ∨ x = 5 ∨ x = 6 ∨ x = 7 ∨ x = 8 ∨ x = 9)%N
    as Hx by lia.
  destruct_or! Hx; subst; eexists; repeat split.
Qed.

Lemma lit_cons c s : lit (String c s) = lit (String c "") ++ lit s.
Proof. done. Qed.

Lemma pretty_go_spec x s :
  (0 < x)%N → ∃ ds, lit (pretty_N_go x s) = ds ++ lit s ∧ all_digits ds ∧ ds ≠ [] ∧
    ∀ acc n rest, digits (ds ++ rest) acc n =
                  digits rest (acc * 10 ^ len ds + Z.of_N x) (List.length ds + n)%nat.
Proof.
  revert s. induction (N.lt_wf_0 x) as [x _ IH]. intros s Hx.
  rewrite pretty_N_go_step by lia.
  destruct (pretty_char_digit (x mod 10)) as (b & Hb & Hd & Hv); [apply N.mod_lt; lia|].
  assert (x = 10 * (x / 10) + x mod 10)%N as Hdm by (apply N.div_mod; lia).
  destruct (decide (x / 10 = 0)%N) as [H0|H0].
  - rewrite H0, pretty_N_go_0, lit_cons, Hb. exists [b].
    split_and!; [done|by repeat constructor|done|].
    intros acc n rest. cbn. rewrite Hd, Hv. f_equal; change (len [b]) with 1; lia.
  - destruct (IH (x / 10)%N) with (s := String (pretty_N_char (x mod 10)) s)
      as (ds & Hds & Hall & Hne & Hval); [apply N.div_lt; lia|by apply N.neq_0_lt_0|].
    exists (ds ++ [b]). rewrite Hds, lit_cons, Hb, <-app_assoc.
    split_and!; [done|by apply Forall_app; split; [|repeat constructor]|by destruct ds|].
    intros acc n rest. rewrite <-app_assoc, Hval. cbn. rewrite Hd, Hv.
    rewrite length_app, len_app. change (len [b]) with 1. cbn.
    rewrite Z.pow_add_r by len_lia. f_equal; lia.
Qed.

Lemma to_string_spec v :
  0 <= v → all_digits (to_string v) ∧ to_string v ≠ [] ∧
  ∀ rest, digits (to_string v ++ rest) 0 0 = digits rest v (List.length (to_string v)).
Proof.
  intros Hv. unfold to_string, pretty, pretty_N.
  case_decide as H0.
  - assert (v = 0) as -> by lia. split_and!; [by repeat constructor|done|done].
  - destruct (pretty_go_spec (Z.to_N v) "") as (ds & Hds & Hall & Hne & Hval); [lia|].
    change (lit "") with (@nil byte) in Hds. rewrite app_nil_r in Hds. rewrite Hds.
    split_and!; [done|done|]. intros rest. rewrite Hval. f_equal; lia.
Qed.

Lemma all_digits_not_in s b : all_digits s → is_digit b = false → b ∉ s.
Proof.
  intros Hs Hb Hin. unfold all_digits in Hs. rewrite Forall_forall in Hs.
  apply list_elem_of_In in Hin. specialize (Hs b Hin). congruence.
Qed.

Lemma skip_space_digit b s : is_digit b = true → skip_space (b :: s) = b :: s.
Proof.
  intros H. cbn. replace (is_space b) with false; [done|].
  unfold is_digit, is_space in *. lia.
Qed.

Lemma stoi_to_string v rest :
  0 <= v < 2 ^ 31 → (∀ b r, rest = b :: r → is_digit b = false) →
  stoi (to_string v ++ rest) = Ret v.
Proof.
  intros Hv Hrest. destruct (to_string_spec v) as (Hall & Hne & Hval); [lia|].
  unfold stoi. destruct (to_string v) as [|b s] eqn:E; [done|].
  inversion_clear Hall as [|? ? Hb _].
  change ((b :: s) ++ rest) with (b :: s ++ rest).
  rewrite skip_space_digit by done.
  assert (match b :: s ++ rest with
          | Byte.x2d :: s' => (true, s') | Byte.x2b :: s' => (false, s')
          | _ => (false, b :: s ++ rest) end = (false, b :: s ++ rest)) as ->.
  { by destruct b. }
  specialize (Hval rest). change ((b :: s) ++ rest) with (b :: s ++ rest) in Hval.
  rewrite Hval.
  assert (digits rest v (List.length (b :: s)) = (v, List.length (b :: s))) as ->.
  { destruct rest as [|c r]; [done|]. cbn. by rewrite (Hrest c r). }
  cbn. rewrite !(proj2 (Z.ltb_ge _ _)) by lia. done.
Qed.

Lemma app_colon_inj h1 h2 t1 t2 :
  Byte.x3a ∉ t1 → Byte.x3a ∉ t2 →
  h1 ++ Byte.x3a :: t1 = h2 ++ Byte.x3a :: t2 → h1 = h2 ∧ t1 = t2.
Proof.
  intros N1 N2. revert h2.
  induction h1 as [|b h1 IH]; intros [|c h2] E; simplify_eq/=; try done.
  - exfalso. apply N1. set_solver.
  - exfalso. apply N2. set_solver.
  - destruct (IH h2) as [-> ->]; done.
Qed.

Lemma to_string_inj v w : 0 <= v → 0 <= w → to_string v = to_string w → v = w.
Proof.
  intros Hv Hw E.
  destruct (to_string_spec v Hv) as (_ & _ & H1). destruct (to_string_spec w Hw) as (_ & _ & H2).
  specialize (H1 []). specialize (H2 []). rewrite E, H2 in H1. cbn in H1. congruence.
Qed.

(** A key determines its host and port, so entries of different targets never
    share a key, whatever characters the host contains. *)
Lemma host_port_inj h1 p1 h2 p2 :
  0 <= p1 → 0 <= p2 → host_port h1 p1 = host_port h2 p2 → h1 = h2 ∧ p1 = p2.
Proof.
  intros H1 H2 E.
  assert (∀ p, 0 <= p → Byte.x3a ∉ to_string p) as Hn
    by (intros p Hp; by apply all_digits_not_in; [apply to_string_spec|]).
  unfold host_port in E. destruct (app_colon_inj h1 h2 (to_string p1) (to_string p2)) as [-> Hp];
    [auto..|]. split; [done|by apply to_string_inj].
Qed.

End Decimal.
