(* ===== verification/UdpFrame.v ===== *)
(** UdpFrame: the framing of one proxied datagram on the DTLS channel
    (src/Protocol/UdpFrame.h, src/Protocol/UdpFrame.cpp). *)
From S2P Require Import Prelude Net.

Module UdpFrame.

Definition ADDR_IPV4 : Z := 1.
Definition ADDR_DOMAIN : Z := 3.
Definition ADDR_IPV6 : Z := 6.
Definition MAGIC : Z := 0x0D0A.
Definition HEADER_SIZE : Z := 4.

Record t := Frame {
  addr_type : Z;      (* uint8_t *)
  address : bytes;
  port : Z;           (* uint16_t *)
  payload : bytes
}.
#[global] Instance eta_t : Eta t := fun r =>
  Frame (addr_type r) (address r) (port r) (payload r).

(** the default constructor *)
Definition init : t := Frame ADDR_IPV4 [] 0 [].

Definition put_u16_be (dst : bytes) (val : Z) : bytes := dst ++ be16_bytes val.

Definition get_u16_be (data : bytes) (p : Z) : outcome Z :=
  b0 ← str_at data p; b1 ← str_at data (p + 1); mret (be16 b0 b1).

(** The [switch] on the address type: the updated object, the advanced pointer
    and byte count, and [addr_len]; [None] is a [return false]. *)
Definition parse_addr (self : t) (data : bytes) (p remaining : Z)
    : outcome (t * option (Z * Z * Z)) :=
  let fixed n :=
    if remaining <? n + 2 then mret (self, None)
    else
      a ← str_assign data p n;
      prt ← get_u16_be data (p + n);
      mret (self <| address := a |> <| port := prt |>, Some (p, remaining, n + 2)) in
  if addr_type self =? ADDR_IPV4 then fixed 4
  else if addr_type self =? ADDR_DOMAIN then
    if remaining <? 1 then mret (self, None)
    else
      d ← str_at data p;
      let dlen := b2z d in
      let p := p + 1 in
      let remaining := u64 (remaining - 1) in
      if remaining <? dlen + 2 then mret (self, None)
      else
        a ← str_assign data p dlen;
        prt ← get_u16_be data (p + dlen);
        mret (self <| address := a |> <| port := prt |>, Some (p, remaining, 1 + dlen + 2))
  else if addr_type self =? ADDR_IPV6 then fixed 16
  else mret (self, None).

(** [bool parse(const string& data, size_t& frame_len)]: the object after the
    call and [Some frame_len] when it returns [true] *)
Definition parse (self : t) (data : bytes) : outcome (t * option Z) :=
  if len data <? HEADER_SIZE then mret (self, None)
  else
    magic ← get_u16_be data 0;
    if negb (magic =? MAGIC) then mret (self, None)
    else
      total_len ← get_u16_be data 2;
      if (total_len <? HEADER_SIZE) || (len data <? total_len) then mret (self, None)
      else
        let p := HEADER_SIZE in
        let remaining := u64 (total_len - HEADER_SIZE) in
        if remaining <? 1 then mret (self, None)
        else
          ty ← str_at data p;
          let self := self <| addr_type := b2z ty |> in
          r ← parse_addr self data (p + 1) (u64 (remaining - 1));
          match r with
          | (self, None) => mret (self, None)
          | (self, Some (p, remaining, addr_len)) =>
              let p := p + addr_len in
              let remaining := u64 (remaining - addr_len) in
              pl ← (if remaining =? 0 then mret [] else str_assign data p remaining);
              mret (self <| payload := pl |>, Some total_len)
          end.

(** [generate(endpoint, payload)] *)
Definition generate (ep : Net.endpoint) (pl : bytes) : bytes :=
  let addr := Net.ep_address ep in
  let addr_part :=
    [z2b (if Net.is_v4 addr then ADDR_IPV4 else ADDR_IPV6)]
      ++ Net.to_bytes addr ++ be16_bytes (Net.ep_port ep) in
  let total_len := u16 (HEADER_SIZE + len addr_part + len pl) in
  put_u16_be (put_u16_be [] MAGIC) total_len ++ addr_part ++ pl.

(** [generate(domain, port, payload)] *)
Definition generate_domain (domain : bytes) (prt : Z) (pl : bytes) : bytes :=
  let total_len := u16 (HEADER_SIZE + 1 + 1 + len domain + 2 + len pl) in
  let frame := put_u16_be (put_u16_be [] MAGIC) total_len in
  let frame := frame ++ [z2b ADDR_DOMAIN] ++ [z2b (len domain)] ++ domain in
  put_u16_be frame prt ++ pl.

Arguments get_u16_be : simpl never.
Arguments parse_addr : simpl never.

Definition addr_str (f : t) : outcome bytes :=
  if addr_type f =? ADDR_IPV4 then
    p0 ← str_at (address f) 0; p1 ← str_at (address f) 1;
    p2 ← str_at (address f) 2; p3 ← str_at (address f) 3;
    mret (to_string (b2z p0) ++ lit "." ++ to_string (b2z p1) ++ lit "."
          ++ to_string (b2z p2) ++ lit "." ++ to_string (b2z p3)
          ++ lit ":" ++ to_string (port f))
  else if addr_type f =? ADDR_DOMAIN then mret (address f ++ lit ":" ++ to_string (port f))
  else if addr_type f =? ADDR_IPV6 then mret (lit "[IPv6]:" ++ to_string (port f))
  else mret (lit "unknown").

(** ** Reading a frame back *)

(** The frame layout with the header fields spelled out. *)
Definition raw (total : Z) (body : bytes) : bytes :=
  Byte.x0d :: Byte.x0a :: be16_bytes total ++ body.

Lemma generate_raw ep pl :
  generate ep pl =
  raw (u16 (7 + len (Net.to_bytes (Net.ep_address ep)) + len pl))
    (z2b (if Net.is_v4 (Net.ep_address ep) then ADDR_IPV4 else ADDR_IPV6)
       :: Net.to_bytes (Net.ep_address ep) ++ be16_bytes (Net.ep_port ep) ++ pl).
Proof.
  unfold generate, raw, put_u16_be. simpl. rewrite <-!app_assoc. simpl.
  do 4 f_equal; [|f_equal]; do 3 f_equal; unfold HEADER_SIZE; len_lia.
Qed.

Lemma generate_domain_raw d prt pl :
  generate_domain d prt pl =
  raw (u16 (8 + len d + len pl))
    (z2b ADDR_DOMAIN :: z2b (len d) :: d ++ be16_bytes prt ++ pl).
Proof.
  unfold generate_domain, raw, put_u16_be. simpl. rewrite <-!app_assoc. simpl.
  do 4 f_equal; [|f_equal]; do 3 f_equal; unfold HEADER_SIZE; len_lia.
Qed.

(** the five header bytes as a prefix *)
Lemma raw_split total ty body rest :
  ∃ hdr, len hdr = 5 ∧ raw total (ty :: body) ++ rest = hdr ++ body ++ rest.
Proof.
  exists (Byte.x0d :: Byte.x0a :: be16_bytes total ++ [ty]). split; [done|].
  unfold raw. by rewrite <-!app_comm_cons, <-!app_assoc, <-!app_comm_cons.
Qed.

(** reading the frame header and the address type *)
Lemma parse_raw self total ty body rest :
  4 < total < 2 ^ 16 → total <= 5 + len body + len rest →
  parse self (raw total (ty :: body) ++ rest) =
    (r ← parse_addr (self <| addr_type := b2z ty |>)
           (raw total (ty :: body) ++ rest) 5 (total - 5);
     match r with
     | (self, None) => mret (self, None)
     | (self, Some (p, remaining, addr_len)) =>
         pl ← (if u64 (remaining - addr_len) =? 0 then mret []
               else str_assign (raw total (ty :: body) ++ rest) (p + addr_len)
                      (u64 (remaining - addr_len)));
         mret (self <| payload := pl |>, Some total)
     end).
Proof.
  intros Ht Hlen. unfold parse, get_u16_be.
  set (data := raw total (ty :: body) ++ rest).
  assert (len data = 5 + len body + len rest) as Hd.
  { unfold data, raw. simpl. len_lia. }
  rewrite (proj2 (Z.ltb_ge (len data) HEADER_SIZE))
    by (rewrite Hd; unfold HEADER_SIZE; len_lia).
  change (str_at data 0) with (@Ret byte Byte.x0d).
  change (str_at data (0 + 1)) with (@Ret byte Byte.x0a).
  change (str_at data 2) with (Ret (z2b (Z.shiftr total 8))).
  change (str_at data (2 + 1)) with (Ret (z2b (Z.land total 255))).
  cbn [mbind outcome_bind mret outcome_ret].
  change (negb (be16 Byte.x0d Byte.x0a =? MAGIC)) with false. cbv iota.
  rewrite be16_be16_bytes by lia.
  rewrite (proj2 (Z.ltb_ge total HEADER_SIZE)) by (unfold HEADER_SIZE; lia).
  rewrite (proj2 (Z.ltb_ge (len data) total)) by lia. cbn [orb].
  unfold HEADER_SIZE. rewrite (u64_small (total - 4)) by lia.
  rewrite (proj2 (Z.ltb_ge (total - 4) 1)) by lia.
  change (str_at data 4) with (Ret ty). cbn [mbind outcome_bind].
  change (4 + 1) with 5. replace (total - 4 - 1) with (total - 5) by lia.
  rewrite (u64_small (total - 5)) by lia. done.
Qed.

(** ** The address switch on well-formed input *)
Section ParseAddr.
Context (self : t) (hdr addr pl rest : bytes) (prt : Z).
Hypothesis (Hprt : 0 <= prt < 2 ^ 16).
Hypothesis (Hmax : len hdr + 1 + len addr + 2 + len pl + len rest < max_size).

Lemma get_port (pre post : bytes) p :
  p = len pre → get_u16_be (pre ++ be16_bytes prt ++ post) p = Ret prt.
Proof.
  intros. by apply be16_at.
Qed.

Lemma parse_addr_fixed n :
  (n = 4 ∧ addr_type self = ADDR_IPV4 ∨ n = 16 ∧ addr_type self = ADDR_IPV6) →
  len addr = n →
  parse_addr self (hdr ++ addr ++ be16_bytes prt ++ pl ++ rest) (len hdr) (n + 2 + len pl)
  = Ret (self <| address := addr |> <| port := prt |>,
         Some (len hdr, n + 2 + len pl, n + 2)).
Proof.
  intros Hn Hl. unfold parse_addr.
  assert ((n + 2 + len pl <? n + 2) = false) as Hlt by (apply Z.ltb_ge; len_lia).
  assert (str_assign (hdr ++ addr ++ be16_bytes prt ++ pl ++ rest) (len hdr) n = Ret addr)
    as Ha by (apply str_assign_mid; len_lia).
  assert (get_u16_be (hdr ++ addr ++ be16_bytes prt ++ pl ++ rest) (len hdr + n) = Ret prt)
    as Hp by (rewrite app_assoc; apply get_port; len_lia).
  destruct Hn as [[-> ->]|[-> ->]]; cbn; rewrite Hlt, Ha; cbn; by rewrite Hp.
Qed.

Lemma parse_addr_domain :
  addr_type self = ADDR_DOMAIN → len addr < 256 → 3 + len addr + len pl < 2 ^ 64 →
  parse_addr self (hdr ++ z2b (len addr) :: addr ++ be16_bytes prt ++ pl ++ rest)
    (len hdr) (1 + len addr + 2 + len pl)
  = Ret (self <| address := addr |> <| port := prt |>,
         Some (len hdr + 1, len addr + 2 + len pl, 1 + len addr + 2)).
Proof.
  intros Hty Hd Hw. unfold parse_addr. rewrite Hty. cbn.
  rewrite (proj2 (Z.ltb_ge _ _)) by len_lia.
  rewrite <-(Z.add_0_r (len hdr)), str_at_app_r, str_at_0 by lia. cbn.
  rewrite b2z_z2b, u8_small by len_lia.
  replace (1 + len addr + 2 + len pl - 1) with (len addr + 2 + len pl) by lia.
  rewrite u64_small by len_lia.
  rewrite (proj2 (Z.ltb_ge _ _)) by len_lia.
  rewrite (cons_middle _ hdr), app_assoc, Z.add_0_r.
  rewrite (str_assign_mid (hdr ++ [z2b (len addr)]) addr) by len_lia. cbn.
  rewrite app_assoc, get_port by len_lia. done.
Qed.
End ParseAddr.

(** ** Frames of endpoints *)

(** a frame of an endpoint is parsed back *)
Lemma frame_roundtrip self ep pl rest :
  Net.endpoint_wf ep →
  7 + len (Net.to_bytes (Net.ep_address ep)) + len pl < 2 ^ 16 →
  len rest < 2 ^ 62 →
  parse self (generate ep pl ++ rest) =
  Ret (Frame (if Net.is_v4 (Net.ep_address ep) then ADDR_IPV4 else ADDR_IPV6)
             (Net.to_bytes (Net.ep_address ep)) (Net.ep_port ep) pl,
       Some (len (generate ep pl))).
Proof.
  intros [Ha Hp] Hfit Hrest. rewrite generate_raw.
  destruct ep as [a prt]. unfold Net.address_wf in Ha.
  cbn [Net.ep_address Net.ep_port] in *.
  set (ty := if Net.is_v4 a then ADDR_IPV4 else ADDR_IPV6).
  set (n := len (Net.to_bytes a)) in *.
  assert (n = 4 ∧ ty = ADDR_IPV4 ∨ n = 16 ∧ ty = ADDR_IPV6) as Hn.
  { unfold n, ty, len. rewrite Ha. destruct a; simpl; lia. }
  assert (b2z (z2b ty) = ty) as Hty.
  { rewrite b2z_z2b. apply u8_small. unfold ADDR_IPV4, ADDR_IPV6 in Hn. lia. }
  rewrite u16_small by (pose proof (len_nonneg pl); lia).
  rewrite parse_raw by len_lia. rewrite Hty.
  set (total := 7 + n + len pl).
  assert (len (raw total (z2b ty :: Net.to_bytes a ++ be16_bytes prt ++ pl)) = total) as ->.
  { unfold raw. subst n. len_lia. }
  destruct (raw_split total (z2b ty) (Net.to_bytes a ++ be16_bytes prt ++ pl) rest)
    as (hdr & Hhdr & ->).
  rewrite <-Hhdr at 1. rewrite <-!app_assoc.
  replace (total - 5) with (n + 2 + len pl) by lia.
  rewrite parse_addr_fixed; [|done|unfold max_size; subst n; len_lia|done|done].
  cbn. replace (n + 2 + len pl - (n + 2)) with (len pl) by lia.
  rewrite u64_small by len_lia.
  replace (if len pl =? 0 then _ else _) with (Ret pl); [done|].
  destruct (Z.eqb_spec (len pl) 0) as [->%len_0_nil|]; [done|].
  rewrite (app_assoc (Net.to_bytes a)), (app_assoc hdr). symmetry.
  apply str_assign_mid; subst n; unfold max_size; len_lia.
Qed.

(** C38: a frame generated for an endpoint is parsed back, whatever bytes follow
    it in the buffer: the address bytes, the port, the payload and the frame
    length are the ones that went in (IPv4 and IPv6), as long as the frame fits
    the 16-bit length field. *)
Theorem parse_generate self ep pl rest :
  Net.endpoint_wf ep →
  7 + len (Net.to_bytes (Net.ep_address ep)) + len pl < 2 ^ 16 →
  len rest < 2 ^ 62 →
  parse self (generate ep pl ++ rest) =
  Ret (Frame (if Net.is_v4 (Net.ep_address ep) then ADDR_IPV4 else ADDR_IPV6)
             (Net.to_bytes (Net.ep_address ep)) (Net.ep_port ep) pl,
       Some (len (generate ep pl))).
Proof. apply frame_roundtrip. Qed.

Lemma parse_generate_witness :
  let ep := Net.Endpoint (Net.address_v4 [Byte.x08; Byte.x08; Byte.x04; Byte.x04]) 53 in
  parse init (generate ep (lit "query") ++ lit "next") =
  Ret (Frame 1 [Byte.x08; Byte.x08; Byte.x04; Byte.x04] 53 (lit "query"), Some 16).
Proof.
  apply (parse_generate init
    (Net.Endpoint (Net.address_v4 [Byte.x08; Byte.x08; Byte.x04; Byte.x04]) 53));
    [split; [reflexivity|cbn; lia]|reflexivity|reflexivity].
Defined.

(** ** Frames of domain names *)

(** what becomes of a frame of a domain name *)
Lemma domain_frame_parsed self d prt pl rest :
  0 <= prt < 2 ^ 16 → len d < 256 → 8 + len d + len pl < 2 ^ 16 → len rest < 2 ^ 62 →
  parse self (generate_domain d prt pl ++ rest) =
  match pl with
  | [] => Throw length_error
  | _ :: pl' => Ret (Frame ADDR_DOMAIN d prt pl', Some (len (generate_domain d prt pl)))
  end.
Proof.
  intros Hp Hd Hfit Hrest. rewrite generate_domain_raw.
  rewrite u16_small by len_lia. rewrite parse_raw by len_lia.
  set (total := 8 + len d + len pl).
  assert (len (raw total (z2b ADDR_DOMAIN :: z2b (len d) :: d ++ be16_bytes prt ++ pl)) = total)
    as -> by (unfold raw; len_lia).
  destruct (raw_split total (z2b ADDR_DOMAIN) (z2b (len d) :: d ++ be16_bytes prt ++ pl) rest)
    as (hdr & Hhdr & ->).
  rewrite <-Hhdr at 1. rewrite <-!app_comm_cons, <-!app_assoc.
  replace (total - 5) with (1 + len d + 2 + len pl) by lia.
  rewrite parse_addr_domain; [|done|unfold max_size; len_lia|done|done|len_lia].
  cbn. replace (len d + 2 + len pl - (1 + len d + 2)) with (len pl - 1) by lia.
  destruct pl as [|b pl].
  - change (u64 (len [] - 1)) with (2 ^ 64 - 1). cbn.
    by rewrite str_assign_huge.
  - replace (len (b :: pl) - 1) with (len pl) by len_lia.
    rewrite u64_small by len_lia.
    replace (if len pl =? 0 then _ else _) with (Ret pl); [done|].
    destruct (Z.eqb_spec (len pl) 0) as [->%len_0_nil|]; [done|].
    symmetry. rewrite (cons_middle (z2b (len d))).
    change ((b :: pl) ++ rest) with ([b] ++ pl ++ rest).
    rewrite !app_assoc, <-(app_assoc _ pl). apply str_assign_mid; unfold max_size; len_lia.
Qed.

(** What [parse] makes of a domain frame.  The address and the port come
    back, but after the length octet has been skipped the pointer advances by
    [1 + dlen + 2], one byte too far: the first payload byte is lost, and on an
    empty payload the remaining count wraps to 2^64 - 1, so that [assign]
    throws [std::length_error]. *)
Lemma parse_generate_domain self d prt pl rest :
  0 <= prt < 2 ^ 16 → len d < 256 → 8 + len d + len pl < 2 ^ 16 → len rest < 2 ^ 62 →
  parse self (generate_domain d prt pl ++ rest) =
  match pl with
  | [] => Throw length_error
  | _ :: pl' => Ret (Frame ADDR_DOMAIN d prt pl', Some (len (generate_domain d prt pl)))
  end.
Proof. apply domain_frame_parsed. Qed.

Lemma parse_generate_domain_witness :
  parse init (generate_domain (lit "dns.google") 53 (lit "query") ++ [])
    = Ret (Frame 3 (lit "dns.google") 53 (lit "uery"), Some 23) ∧
  parse init (generate_domain (lit "dns.google") 53 [] ++ []) = Throw length_error.
Proof.
  split; (rewrite parse_generate_domain; [reflexivity|lia|reflexivity|reflexivity|reflexivity]).
Defined.

(** ** Safety on arbitrary input *)
Lemma get_u16_be_ok data p :
  0 <= p → p + 1 <= len data → ∃ v, get_u16_be data p = Ret v ∧ 0 <= v < 2 ^ 16.
Proof.
  intros. unfold get_u16_be.
  destruct (str_at_ok data p) as [b0 ->]; [lia|].
  destruct (str_at_ok data (p + 1)) as [b1 ->]; [lia|].
  eexists. split; [done|apply be16_range].
Qed.

(** the switch either rejects or leaves address and port in range and the
    pointer inside the frame *)
Lemma parse_addr_safe self data p remaining :
  0 <= p → 0 <= remaining → p + remaining <= len data → len data < max_size →
  ∃ self' r, parse_addr self data p remaining = Ret (self', r) ∧
    addr_type self' = addr_type self ∧
    match r with
    | None => True
    | Some (p', rem', al) =>
        0 <= port self' < 2 ^ 16 ∧ len (address self') < 256 ∧
        addr_type self ∈ [ADDR_IPV4; ADDR_DOMAIN; ADDR_IPV6] ∧
        p' + rem' = p + remaining ∧ p <= p' ∧ 2 <= al ∧ 0 <= rem' <= remaining ∧
        (al <= rem' ∨ addr_type self' = ADDR_DOMAIN ∧ al = rem' + 1)
    end.
Proof.
  intros Hp Hr Hb Hm. unfold parse_addr. unfold max_size in Hm.
  pose proof (λ n (H0 : 0 <= n) H1, str_assign_in_range data p n Hp H0 H1 Hm) as Hassign.
  destruct (Z.eqb_spec (addr_type self) ADDR_IPV4) as [Ht|].
  { destruct (Z.ltb_spec remaining (4 + 2)); [by eauto|].
    rewrite Hassign by lia. cbn.
    destruct (get_u16_be_ok data (p + 4)) as (v & -> & ?); [lia..|].
    do 2 eexists. split; [done|]. cbn.
    rewrite len_slice, Ht by lia. split_and!; try lia; by apply (bool_decide_unpack _). }
  destruct (Z.eqb_spec (addr_type self) ADDR_DOMAIN) as [Ht|].
  { destruct (Z.ltb_spec remaining 1); [by eauto|].
    destruct (str_at_ok data p) as [d ->]; [lia|]. cbn.
    pose proof (b2z_range d). rewrite u64_small by lia.
    destruct (Z.ltb_spec (remaining - 1) (b2z d + 2)); [by eauto|].
    rewrite str_assign_in_range by (unfold max_size; lia). cbn.
    destruct (get_u16_be_ok data (p + 1 + b2z d)) as (v & -> & ?); [lia..|].
    do 2 eexists. split; [done|]. cbn.
    rewrite len_slice, Ht by lia. split_and!; try lia; by apply (bool_decide_unpack _). }
  destruct (Z.eqb_spec (addr_type self) ADDR_IPV6) as [Ht|]; [|by eauto].
  destruct (Z.ltb_spec remaining (16 + 2)); [by eauto|].
  rewrite Hassign by lia. cbn.
  destruct (get_u16_be_ok data (p + 16)) as (v & -> & ?); [lia..|].
  do 2 eexists. split; [done|]. cbn.
  rewrite len_slice, Ht by lia. split_and!; try lia; by apply (bool_decide_unpack _).
Qed.

(** On any input [parse] stays inside the buffer.  It never has undefined
    behaviour; it throws only [length_error], and only on a domain frame; when
    it accepts, the frame length is within the data, the address is at most 255
    bytes, the port is a 16-bit value and the payload is shorter than the
    frame. *)
Lemma parse_safe self data :
  len data < max_size →
  match parse self data with
  | Ret (_, None) => True
  | Ret (f, Some n) =>
      HEADER_SIZE < n <= len data ∧ len (address f) < 256 ∧ 0 <= port f < 2 ^ 16 ∧
      len (payload f) < n ∧ addr_type f ∈ [ADDR_IPV4; ADDR_DOMAIN; ADDR_IPV6]
  | Throw e => e = length_error ∧ str_at data 4 = Ret (z2b ADDR_DOMAIN)
  | Undef => False
  end.
Proof.
  intros Hm. unfold parse, HEADER_SIZE.
  destruct (Z.ltb_spec (len data) 4); [done|].
  destruct (get_u16_be_ok data 0) as (m & -> & _); [lia..|]. cbn.
  destruct (m =? MAGIC); [|done]. cbn.
  destruct (get_u16_be_ok data 2) as (total & -> & Htot); [lia..|]. cbn.
  destruct (Z.ltb_spec total 4); [done|].
  destruct (Z.ltb_spec (len data) total); [done|]. cbn.
  rewrite (u64_small (total - 4)) by lia.
  destruct (Z.ltb_spec (total - 4) 1); [done|].
  destruct (str_at_ok data 4) as [ty Hty]; [lia|]. rewrite Hty. cbn.
  rewrite (u64_small (total - 4 - 1)) by lia.
  match goal with |- context [parse_addr ?s data ?p0 ?r0] =>
    destruct (parse_addr_safe s data p0 r0)
      as (self' & [[[p rem] al]|] & -> & Hself & Hr); [lia..|done| |done] end.
  cbn in *. destruct Hr as (? & ? & Hin & ? & ? & ? & ? & Hal).
  destruct Hal as [Hal|[Hdom ->]].
  - rewrite (u64_small (rem - al)) by lia.
    destruct (Z.eqb_spec (rem - al) 0); cbn.
    + rewrite Hself. split_and!; done || len_lia.
    + rewrite str_assign_in_range by lia. cbn. rewrite Hself, len_slice by lia.
      split_and!; done || lia.
  - replace (rem - (rem + 1)) with (-1) by lia.
    change (u64 (-1)) with (2 ^ 64 - 1). cbn. rewrite str_assign_huge by done. cbn.
    split; [done|]. f_equal. rewrite <-Hdom, Hself, z2b_b2z. done.
Qed.

(** an accepted port is a 16-bit value *)
Lemma get_u16_be_range data p v : get_u16_be data p = Ret v → 0 <= v < 2 ^ 16.
Proof. intros H. do 2 inv_bind H. injection H as <-. apply be16_range. Qed.
Lemma parse_addr_port self data p rem self' q :
  parse_addr self data p rem = Ret (self', Some q) → 0 <= port self' < 2 ^ 16.
Proof.
  assert (∀ n, (if rem <? n + 2 then mret (self, None)
    else a ← str_assign data p n; prt ← get_u16_be data (p + n);
         mret (self <| address := a |> <| port := prt |>, Some (p, rem, n + 2))) = Ret (self', Some q) →
    0 <= port self' < 2 ^ 16) as Hfixed.
  { intros n Hp. destruct (_ <? _); [done|]. do 2 inv_bind Hp. injection Hp as <- _. by eapply get_u16_be_range. }
  unfold parse_addr. destruct (_ =? ADDR_IPV4); [apply Hfixed|]. destruct (_ =? ADDR_DOMAIN).
  - destruct (_ <? _); [done|]. intros Hp. inv_bind Hp. cbv zeta in Hp. destruct (_ <? _); [done|].
    do 2 inv_bind Hp. injection Hp as <- _. by eapply get_u16_be_range.
  - destruct (_ =? ADDR_IPV6); [apply Hfixed|done].
Qed.
Lemma parse_port self data f n : parse self data = Ret (f, Some n) → 0 <= port f < 2 ^ 16.
Proof.
  unfold parse. destruct (_ <? _); [done|]. intros Hp. inv_bind Hp. destruct (negb _); [done|].
  inv_bind Hp. destruct (_ || _); [done|]. cbv zeta in Hp. destruct (_ <? _); [done|].
  do 2 inv_bind Hp. destruct x2 as [f' [[[p' rem'] al]|]]; [|done].
  inv_bind Hp. injection Hp as <- _. by eapply parse_addr_port in E2.
Qed.

Lemma parse_safe_witness :
  len (generate_domain (lit "a.b") 80 []) < max_size ∧
  match parse init (generate_domain (lit "a.b") 80 []) with
  | Ret (_, None) => True
  | Ret (f, Some n) =>
      HEADER_SIZE < n <= len (generate_domain (lit "a.b") 80 []) ∧ len (address f) < 256 ∧
      0 <= port f < 2 ^ 16 ∧ len (payload f) < n ∧
      addr_type f ∈ [ADDR_IPV4; ADDR_DOMAIN; ADDR_IPV6]
  | Throw e =>
      e = length_error ∧
      str_at (generate_domain (lit "a.b") 80 []) 4 = Ret (z2b ADDR_DOMAIN)
  | Undef => False
  end.
Proof. split; [reflexivity|]. apply parse_safe. reflexivity. Defined.

End UdpFrame.
