(* ===== verification/Socks5.v ===== *)
(** Socks5: the SOCKS5 messages of the client side
    (src/Protocol/socks5/socks5.h, socks5.cpp, UdpRequest.h, UdpRequest.cpp). *)
From S2P Require Import Prelude Coding Net.

Module Socks5.

(** ** Method negotiation *)
Inductive AuthMethod :=
  | NO_AUTHENTICATION | GSSAPI | PASSWORD
  | IANA_ASSIGNED | RESERVED | NO_ACCEPTABLE_METHODS.
#[global] Instance AuthMethod_eq_dec : EqDecision AuthMethod.
Proof. solve_decision. Defined.

Definition method_to_string (m : AuthMethod) : bytes :=
  match m with
  | NO_AUTHENTICATION => lit "NO_AUTHENTICATION"
  | GSSAPI => lit "GSSAPI"
  | PASSWORD => lit "PASSWORD"
  | IANA_ASSIGNED => lit "IANA_ASSIGNED"
  | RESERVED => lit "RESERVED"
  | NO_ACCEPTABLE_METHODS => lit "NO_ACCEPTABLE_METHODS"
  end.

(** the enumerator values 0 to 5 *)
Definition method_code (m : AuthMethod) : Z :=
  match m with
  | NO_AUTHENTICATION => 0 | GSSAPI => 1 | PASSWORD => 2
  | IANA_ASSIGNED => 3 | RESERVED => 4 | NO_ACCEPTABLE_METHODS => 5
  end.

(** the chain of comparisons on [method_oct] *)
Definition method_of_octet (oct : Z) : AuthMethod :=
  if oct <=? 2 then
    (if oct =? 0 then NO_AUTHENTICATION else if oct =? 1 then GSSAPI else PASSWORD)
  else if oct <=? 0x7e then IANA_ASSIGNED
  else if oct <=? 0xfe then RESERVED
  else NO_ACCEPTABLE_METHODS.

Module AuthReq.
Record t := Req { version : Z; nmethod : Z; methods : list AuthMethod }.
#[global] Instance eta_t : Eta t := fun r => Req (version r) (nmethod r) (methods r).

(** the [for] loop: [k] iterations are left, [i] is the loop counter, [ptr] the
    read pointer, which stays on the last method octet *)
Fixpoint read_methods (buf : bytes) (k : nat) (i ptr : Z) (self : t) : outcome t :=
  match k with
  | O => mret self
  | S k' =>
      method_oct ← Coding.DecodeFixed8 (vec_at buf) ptr;
      let ptr := if i <? nmethod self - 1 then ptr + 1 else ptr in
      read_methods buf k' (i + 1) ptr
        (self <| methods := methods self ++ [method_of_octet method_oct] |>)
  end.

(** [bool unstream(std::vector<char>& buf)] *)
Definition unstream (self : t) (buf : bytes) : outcome (t * bool) :=
  v ← Coding.DecodeFixed8 (vec_at buf) 0;
  let self := self <| version := v |> in
  if negb (v =? 5) then mret (self, false)
  else
    n ← Coding.DecodeFixed8 (vec_at buf) 1;
    let self := self <| nmethod := n |> in
    self ← read_methods buf (Z.to_nat n) 0 2 self;
    mret (self, true).
End AuthReq.

Module AuthRes.
(** [void stream(std::string& buf)] *)
Definition stream (buf : bytes) (version : Z) (method : AuthMethod) : bytes :=
  Coding.EncodeFixed8 (Coding.EncodeFixed8 buf version) (method_code method).
End AuthRes.

(** ** Requests *)
Definition V4 : Z := 1.
Definition DOMAINNAME : Z := 3.
Definition V6 : Z := 4.
Definition CONNECT : Z := 1.
Definition BIND : Z := 2.
Definition UDP_ASSOCIATE : Z := 3.

Definition command_to_string (cmd : Z) : bytes :=
  if cmd =? CONNECT then lit "CONNECT"
  else if cmd =? BIND then lit "BIND"
  else if cmd =? UDP_ASSOCIATE then lit "UDP_ASSOCIATE"
  else lit "ERR".

Module Request.
Record t := Req {
  version : Z; cmd : Z; reserved : Z; addrType : Z;
  remote_host : bytes; remote_port : Z
}.
#[global] Instance eta_t : Eta t := fun r =>
  Req (version r) (cmd r) (reserved r) (addrType r) (remote_host r) (remote_port r).

(** [bool unsteam(std::vector<char>& buf, int length)] *)
Definition unsteam `{Net.AddressText} (self : t) (buf : bytes) (length : Z)
    : outcome (t * bool) :=
  let rd := vec_at buf in
  v ← Coding.DecodeFixed8 rd 0;
  let self := self <| version := v |> in
  if negb (v =? 5) then mret (self, false)
  else
    c ← Coding.DecodeFixed8 rd 1;
    r ← Coding.DecodeFixed8 rd 2;
    let self := self <| cmd := c |> <| reserved := r |> in
    if negb (r =? 0) then mret (self, false)
    else
      val ← Coding.DecodeFixed8 rd 3;
      if negb ((val =? 1) || (val =? 3) || (val =? 4)) then mret (self, false)
      else
        let self := self <| addrType := val |> in
        if val =? V4 then
          if negb (length =? 4 + 4 + 2) then mret (self, false)
          else
            ip ← (x ← Coding.DecodeFixed32 rd 4; mret (Coding.ntohl x));
            p ← (x ← Coding.DecodeFixed16 rd 8; mret (Coding.ntohs x));
            mret (self <| remote_host := Net.v4_to_string (Coding.be32_bytes ip) |>
                       <| remote_port := p |>, true)
        else if val =? DOMAINNAME then
          host_length ← Coding.DecodeFixed8 rd 4;
          if negb (length =? 5 + host_length + 2) then mret (self, false)
          else
            host ← (if 5 + host_length <=? len buf then mret (slice buf 5 host_length)
                    else Undef);
            p ← (x ← Coding.DecodeFixed16 rd (5 + host_length); mret (Coding.ntohs x));
            mret (self <| remote_host := host |> <| remote_port := p |>, true)
        else mret (self, false).
End Request.

Module Reply.
Record t := Rep {
  version : Z; repResult : Z; reserved : Z; addrtype : Z;
  realRemoteIP : Z; realRemotePort : Z
}.

(** [void stream(std::string& buf)] *)
Definition stream (r : t) (buf : bytes) : bytes :=
  let buf := Coding.EncodeFixed8 buf (version r) in
  let buf := Coding.EncodeFixed8 buf (repResult r) in
  let buf := Coding.EncodeFixed8 buf (reserved r) in
  let buf := Coding.EncodeFixed8 buf (addrtype r) in
  let buf := Coding.EncodeFixed32 buf (Coding.htonl (realRemoteIP r)) in
  Coding.EncodeFixed16 buf (Coding.htons (realRemotePort r)).
End Reply.

(** ** UDP datagrams of the local application (RFC 1928, section 7) *)
Module UdpRequest.
Record t := Req {
  rsv0 : Z; rsv1 : Z; frag : Z; addr_type : Z;
  dst_addr : bytes; dst_port : Z; payload : bytes
}.
#[global] Instance eta_t : Eta t := fun r =>
  Req (rsv0 r) (rsv1 r) (frag r) (addr_type r) (dst_addr r) (dst_port r) (payload r).
(** the default member initialisers *)
Definition init : t := Req 0 0 0 0 [] 0 [].

Definition port_at (data : bytes) (p : Z) : outcome Z :=
  hi ← vec_at data p; lo ← vec_at data (p + 1); mret (be16 hi lo).

(** copying [n] bytes from [data + p]; [data] is exactly the received datagram,
    so leaving it is undefined *)
Definition copy (data : bytes) (p n : Z) : outcome bytes :=
  if (0 <=? n) && (p + n <=? len data) then mret (slice data p n) else Undef.

(** [bool parse(const char* data, size_t len)] *)
Definition parse (self : t) (data : bytes) : outcome (t * bool) :=
  if len data <? 4 then mret (self, false)
  else
    d0 ← vec_at data 0; d1 ← vec_at data 1; d2 ← vec_at data 2;
    if negb (b2z d0 =? 0) || negb (b2z d1 =? 0) || negb (b2z d2 =? 0) then mret (self, false)
    else
      d3 ← vec_at data 3;
      let self := self <| rsv0 := b2z d0 |> <| rsv1 := b2z d1 |>
                       <| frag := b2z d2 |> <| addr_type := b2z d3 |> in
      let p := 4 in
      let remain := u64 (len data - 4) in
      let fixed n :=
        if remain <? n + 2 then mret (self, false)
        else
          a ← copy data p n; prt ← port_at data (p + n);
          pl ← copy data (p + n + 2) (u64 (remain - (n + 2)));
          mret (self <| dst_addr := a |> <| dst_port := prt |> <| payload := pl |>, true) in
      if addr_type self =? 1 then fixed 4
      else if addr_type self =? 3 then
        if remain <? 1 then mret (self, false)
        else
          d ← vec_at data p;
          let dlen := b2z d in
          if remain <? dlen + 2 + 1 then mret (self, false)
          else
            a ← copy data (p + 1) dlen; prt ← port_at data (p + 1 + dlen);
            pl ← copy data (p + 1 + dlen + 2) (u64 (remain - 1 - dlen - 2));
            mret (self <| dst_addr := a |> <| dst_port := prt |> <| payload := pl |>, true)
      else if addr_type self =? 4 then fixed 16
      else mret (self, false).

(** [std::string serialize() const] *)
Definition serialize (r : t) : bytes :=
  let buf := [z2b (rsv0 r); z2b (rsv1 r); z2b (frag r); z2b (addr_type r)] in
  let buf :=
    if addr_type r =? 1 then buf ++ dst_addr r
    else if addr_type r =? 3 then buf ++ [z2b (len (dst_addr r))] ++ dst_addr r
    else if addr_type r =? 4 then buf ++ dst_addr r
    else buf in
  buf ++ be16_bytes (dst_port r) ++ payload r.

(** [udp::endpoint dest_endpoint() const]; [memcpy] reads 4 or 16 bytes of
    [dst_addr] *)
Definition dest_endpoint (r : t) : outcome Net.endpoint :=
  if addr_type r =? 1 then
    b ← copy (dst_addr r ++ [Byte.x00]) 0 4;
    mret (Net.Endpoint (Net.address_v4 b) (dst_port r))
  else if addr_type r =? 4 then
    b ← copy (dst_addr r ++ [Byte.x00]) 0 16;
    mret (Net.Endpoint (Net.address_v6 b) (dst_port r))
  else mret Net.no_endpoint.

Definition dest_addr_str `{Net.AddressText} (r : t) : outcome bytes :=
  if addr_type r =? 1 then
    ep ← dest_endpoint r;
    mret (Net.v4_to_string (Net.to_bytes (Net.ep_address ep))
            ++ lit ":" ++ to_string (dst_port r))
  else if addr_type r =? 3 then mret (dst_addr r ++ lit ":" ++ to_string (dst_port r))
  else mret [].
End UdpRequest.

(** * Properties *)

(** ** Method negotiation *)
Lemma read_methods_spec buf pre ms rest i self :
  buf = pre ++ ms ++ rest → i + len ms = AuthReq.nmethod self →
  AuthReq.read_methods buf (length ms) i (len pre) self =
  Ret (self <| AuthReq.methods :=
         AuthReq.methods self ++ map (λ b, method_of_octet (b2z b)) ms |>).
Proof.
  revert pre i self. induction ms as [|m ms IH]; intros pre i self -> Hi; cbn.
  - rewrite app_nil_r. by destruct self.
  - unfold Coding.DecodeFixed8. rewrite vec_at_mid by done. cbn.
    destruct ms as [|m' ms].
    + cbn. done.
    + rewrite (proj2 (Z.ltb_lt _ _)) by len_lia.
      replace (len pre + 1) with (len (pre ++ [m])) by len_lia.
      rewrite IH; cbn; [by rewrite <-app_assoc| |len_lia].
      by rewrite <-app_assoc.
Qed.

(** Reading the SOCKS5 greeting.  A buffer that starts with version 5, a
    count [n] and [n] method octets is accepted, and [methods] receives exactly
    the classes of those octets, in order, whatever follows them. *)
Lemma AuthReq_unstream_spec ms rest self :
  len ms < 256 →
  AuthReq.unstream self (Byte.x05 :: z2b (len ms) :: ms ++ rest) =
  Ret (AuthReq.Req 5 (len ms)
         (AuthReq.methods self ++ map (λ b, method_of_octet (b2z b)) ms), true).
Proof.
  intros Hn. unfold AuthReq.unstream, Coding.DecodeFixed8. at_simpl.
  change (b2z Byte.x05) with 5. cbn.
  rewrite b2z_z2b, u8_small by len_lia.
  replace (Z.to_nat (len ms)) with (length ms) by (unfold len; lia).
  rewrite (read_methods_spec _ [Byte.x05; z2b (len ms)] ms rest) by done.
  done.
Qed.

(** in a buffer that holds the longest greeting, every greeting is read or
    refused *)
Lemma read_methods_total buf k i ptr self :
  0 <= ptr <= i + 2 → i + Z.of_nat k = AuthReq.nmethod self → AuthReq.nmethod self + 2 <= len buf →
  ∃ r, AuthReq.read_methods buf k i ptr self = Ret r.
Proof.
  revert i ptr self. induction k as [|k IH]; intros i ptr self Hp Hi Hb; cbn; [by eexists|].
  unfold Coding.DecodeFixed8. destruct (vec_at_in_range buf ptr) as [x ->]; [lia|]. cbn.
  apply IH; cbn; [|lia|done]. destruct (_ <? _); lia.
Qed.
Lemma AuthReq_unstream_total self buf :
  257 <= len buf → ∃ r ok, AuthReq.unstream self buf = Ret (r, ok).
Proof.
  intros Hb. unfold AuthReq.unstream, Coding.DecodeFixed8.
  destruct (vec_at_in_range buf 0) as [b0 ->]; [lia|]. cbn. destruct (negb _); [by eexists _, _|].
  destruct (vec_at_in_range buf 1) as [b1 ->]; [lia|]. cbn. pose proof (b2z_range b1).
  edestruct (read_methods_total buf (Z.to_nat (b2z b1)) 0 2) as [r ->]; [lia|cbn; lia|cbn; lia|].
  by eexists _, _.
Qed.

Lemma AuthReq_unstream_spec_witness :
  len [Byte.x00; Byte.x02] < 256 ∧
  AuthReq.unstream (AuthReq.Req 0 0 [])
    (Byte.x05 :: z2b (len [Byte.x00; Byte.x02]) :: [Byte.x00; Byte.x02] ++ [Byte.x99]) =
  Ret (AuthReq.Req 5 2 [NO_AUTHENTICATION; PASSWORD], true).
Proof. split; [reflexivity|]. apply (AuthReq_unstream_spec [Byte.x00; Byte.x02]). reflexivity. Defined.

(** ** Requests *)
Section Requests.
Context `{Net.AddressText}.

(** a CONNECT / UDP ASSOCIATE request as RFC 1928 lays it out *)
Inductive dest := to_ipv4 (a b c d : byte) | to_domain (host : bytes).
Definition dest_bytes (x : dest) : bytes :=
  match x with
  | to_ipv4 a b c d => [Byte.x01; a; b; c; d]
  | to_domain host => Byte.x03 :: z2b (len host) :: host
  end.
Definition dest_type (x : dest) : Z :=
  match x with to_ipv4 _ _ _ _ => V4 | to_domain _ => DOMAINNAME end.
Definition dest_host (x : dest) : bytes :=
  match x with
  | to_ipv4 a b c d => Net.v4_to_string [a; b; c; d]
  | to_domain host => host
  end.
Definition request_bytes (c : byte) (x : dest) (port : Z) : bytes :=
  Byte.x05 :: c :: Byte.x00 :: dest_bytes x ++ be16_bytes port.

Lemma port_after pre port rest p :
  0 <= port < 2 ^ 16 → p = len pre →
  (x ← Coding.DecodeFixed16 (vec_at (pre ++ be16_bytes port ++ rest)) p;
   mret (Coding.ntohs x)) = Ret port.
Proof.
  intros Hp ->.
  rewrite (Coding.ntohs_DecodeFixed16 _ _ (z2b (Z.shiftr port 8)) (z2b (Z.land port 255))).
  - by rewrite be16_be16_bytes.
  - by apply vec_at_mid.
  - by rewrite vec_at_app_r by lia.
Qed.

(** Reading a SOCKS5 request.  A request for an IPv4 address or a domain
    name, received with its exact length into a buffer with arbitrary stale
    bytes after it, is accepted with the command, host and port it carries. *)
Lemma Request_unsteam_spec self c x port stale :
  0 <= port < 2 ^ 16 → len (dest_host x) < 256 ∨ dest_type x = V4 →
  Request.unsteam self (request_bytes c x port ++ stale) (len (request_bytes c x port)) =
  Ret (Request.Req 5 (b2z c) 0 (dest_type x) (dest_host x) port, true).
Proof.
  intros Hp Hx. unfold Request.unsteam, Coding.DecodeFixed8, request_bytes.
  rewrite <-!app_comm_cons, <-app_assoc.
  destruct x as [a b d e|host]; cbn [dest_bytes dest_type dest_host].
  - rewrite <-!app_comm_cons. at_simpl.
    change (b2z Byte.x05) with 5. change (b2z Byte.x00) with 0.
    change (b2z Byte.x01) with 1. cbn [negb orb Z.eqb Pos.eqb V4 DOMAINNAME].
    replace (negb (len _ =? 4 + 4 + 2)) with false
      by (symmetry; apply negb_false_iff, Z.eqb_eq; len_lia).
    erewrite Coding.ntohl_DecodeFixed32 by (at_simpl; reflexivity).
    set (pre := [Byte.x05; c; Byte.x00; Byte.x01; a; b; d; e]).
    change (Byte.x05 :: _) with (pre ++ be16_bytes port ++ stale).
    rewrite port_after by done. cbn. by rewrite Coding.be32_bytes_be32.
  - rewrite <-!app_comm_cons. at_simpl.
    change (b2z Byte.x05) with 5. change (b2z Byte.x00) with 0.
    change (b2z Byte.x03) with 3. cbn [negb orb Z.eqb Pos.eqb V4 DOMAINNAME].
    assert (len host < 256) as Hl by (destruct Hx; [done|discriminate]).
    rewrite b2z_z2b, u8_small by len_lia.
    replace (negb (len _ =? 5 + len host + 2)) with false
      by (symmetry; apply negb_false_iff, Z.eqb_eq; len_lia).
    rewrite (proj2 (Z.leb_le _ _)) by len_lia.
    set (pre := [Byte.x05; c; Byte.x00; Byte.x03; z2b (len host)]).
    change (Byte.x05 :: _) with (pre ++ host ++ be16_bytes port ++ stale).
    rewrite app_assoc, port_after by (done || (subst pre; len_lia)).
    cbn [mbind outcome_bind mret outcome_ret].
    rewrite <-app_assoc. change 5 with (len pre). rewrite slice_app_mid. done.
Qed.

(** the message is rejected on this branch *)
Ltac reject := do 2 eexists; split; [reflexivity|discriminate].

(** Reading a request never leaves the session's 64 KiB buffer and never
    throws, whatever the buffer holds and whatever length was received; a
    request is accepted only when it has version 5, a zero reserved octet, an
    IPv4 or domain address and exactly the length its address type implies. *)
Lemma Request_unsteam_bounded self buf length :
  262 <= len buf →
  ∃ r ok, Request.unsteam self buf length = Ret (r, ok) ∧
    (ok = true → Request.version r = 5 ∧ Request.reserved r = 0 ∧
      0 <= Request.remote_port r < 2 ^ 16 ∧
      (Request.addrType r = V4 ∧ length = 10 ∨
       Request.addrType r = DOMAINNAME ∧ length = 7 + len (Request.remote_host r))).
Proof.
  intros Hb. unfold Request.unsteam, Coding.DecodeFixed8.
  destruct (vec_at_in_range buf 0) as [b0 ->]; [lia|]. cbn.
  destruct (Z.eqb_spec (b2z b0) 5) as [H0|]; [|reject]. cbn.
  destruct (vec_at_in_range buf 1) as [b1 ->]; [lia|]. cbn.
  destruct (vec_at_in_range buf 2) as [b2 ->]; [lia|]. cbn.
  destruct (Z.eqb_spec (b2z b2) 0) as [H2|]; [|reject]. cbn.
  destruct (vec_at_in_range buf 3) as [b3 ->]; [lia|]. cbn.
  destruct (negb _); [reject|]. unfold V4, DOMAINNAME.
  destruct (vec_at_in_range buf 4) as [b4 H4]; [lia|].
  destruct (vec_at_in_range buf 5) as [b5 H5]; [lia|].
  destruct (vec_at_in_range buf 6) as [b6 H6]; [lia|].
  destruct (vec_at_in_range buf 7) as [b7 H7]; [lia|].
  destruct (Z.eqb_spec (b2z b3) 1) as [->|].
  { destruct (Z.eqb_spec length (4 + 4 + 2)) as [->|]; [|reject]. cbn.
    destruct (vec_at_in_range buf 8) as [b8 H8]; [lia|].
    destruct (vec_at_in_range buf 9) as [b9 H9]; [lia|].
    rewrite (Coding.ntohl_DecodeFixed32 _ 4 b4 b5 b6 b7) by done. cbn.
    rewrite (Coding.ntohs_DecodeFixed16 _ 8 b8 b9) by done. cbn.
    do 2 eexists. split; [done|]. intros _. cbn. pose proof (be16_range b8 b9). lia. }
  destruct (Z.eqb_spec (b2z b3) 3) as [->|]; [|reject].
  rewrite H4. cbn. pose proof (b2z_range b4).
  destruct (Z.eqb_spec length (5 + b2z b4 + 2)) as [->|]; [|reject]. cbn.
  rewrite (proj2 (Z.leb_le _ _)) by lia. cbn.
  destruct (vec_at_in_range buf (5 + b2z b4)) as [b8 H8]; [lia|].
  destruct (vec_at_in_range buf (5 + b2z b4 + 1)) as [b9 H9]; [lia|].
  rewrite (Coding.ntohs_DecodeFixed16 _ _ b8 b9) by done. cbn.
  do 2 eexists. split; [done|]. intros _. cbn. pose proof (be16_range b8 b9).
  rewrite len_slice by lia. lia.
Qed.
End Requests.

Lemma Request_unsteam_spec_witness :
  let text : Net.AddressText := λ b, b in
  Request.unsteam (Request.Req 0 0 0 0 [] 0)
    (request_bytes Byte.x01 (to_domain (lit "example.org")) 443 ++ lit "stale")
    (len (request_bytes Byte.x01 (to_domain (lit "example.org")) 443)) =
  Ret (Request.Req 5 1 0 3 (lit "example.org") 443, true).
Proof.
  intros text.
  apply (@Request_unsteam_spec text (Request.Req 0 0 0 0 [] 0) Byte.x01
           (to_domain (lit "example.org")) 443 (lit "stale")); [lia|left; reflexivity].
Defined.

Lemma Request_unsteam_bounded_witness :
  let text : Net.AddressText := λ b, b in
  262 <= len (replicate 262 Byte.x05) ∧
  ∃ r ok, Request.unsteam (Request.Req 0 0 0 0 [] 0) (replicate 262 Byte.x05) 9 = Ret (r, ok) ∧
    (ok = true → Request.version r = 5 ∧ Request.reserved r = 0 ∧
      0 <= Request.remote_port r < 2 ^ 16 ∧
      (Request.addrType r = V4 ∧ 9 = 10 ∨
       Request.addrType r = DOMAINNAME ∧ 9 = 7 + len (Request.remote_host r))).
Proof.
  intros text. split; [vm_compute; discriminate|].
  apply (@Request_unsteam_bounded text). vm_compute. discriminate.
Defined.

(** ** Replies *)
(** A reply is ten bytes, the address and the port most significant byte
    first, appended to the message buffer. *)
Lemma Reply_stream_spec r buf :
  Reply.stream r buf =
  buf ++ [z2b (Reply.version r); z2b (Reply.repResult r); z2b (Reply.reserved r);
          z2b (Reply.addrtype r)]
    ++ Coding.be32_bytes (Reply.realRemoteIP r) ++ be16_bytes (u16 (Reply.realRemotePort r))
  ∧ len (Reply.stream r buf) = len buf + 10.
Proof.
  assert (Reply.stream r buf =
    buf ++ [z2b (Reply.version r); z2b (Reply.repResult r); z2b (Reply.reserved r);
            z2b (Reply.addrtype r)]
      ++ Coding.be32_bytes (Reply.realRemoteIP r)
      ++ be16_bytes (u16 (Reply.realRemotePort r))) as ->.
  { unfold Reply.stream. rewrite Coding.EncodeFixed32_htonl, Coding.EncodeFixed16_htons.
    unfold Coding.EncodeFixed8. by rewrite <-!app_assoc. }
  split; [done|]. len_lia.
Qed.

(** ** UDP requests *)
Module UdpRequestFacts.
Import UdpRequest.

Definition wf (r : t) : Prop :=
  rsv0 r = 0 ∧ rsv1 r = 0 ∧ frag r = 0 ∧ 0 <= dst_port r < 2 ^ 16 ∧
  (addr_type r = 1 ∧ len (dst_addr r) = 4 ∨
   addr_type r = 3 ∧ len (dst_addr r) < 256 ∨
   addr_type r = 4 ∧ len (dst_addr r) = 16).

Lemma copy_mid pre x post p n :
  p = len pre → n = len x → copy (pre ++ x ++ post) p n = Ret x.
Proof.
  intros -> ->. unfold copy. rewrite !(proj2 (Z.leb_le _ _)) by len_lia. cbn.
  by rewrite slice_app_mid.
Qed.
Lemma copy_end pre x p n : p = len pre → n = len x → copy (pre ++ x) p n = Ret x.
Proof. intros. rewrite <-(app_nil_r x) at 1. by apply copy_mid. Qed.
Lemma udp_port_at_mid pre hi lo post p :
  p = len pre → port_at (pre ++ hi :: lo :: post) p = Ret (be16 hi lo).
Proof.
  intros ->. unfold port_at. rewrite (vec_at_mid pre hi _ (len pre)) by done.
  rewrite vec_at_app_r by lia. done.
Qed.
Arguments copy : simpl never.
Arguments port_at : simpl never.

(** the two layouts [parse] accepts *)
Lemma parse_fixed self ty a hi lo pl n :
  (n = 4 ∧ ty = Byte.x01 ∨ n = 16 ∧ ty = Byte.x04) → len a = n → len pl < 2 ^ 62 →
  parse self (Byte.x00 :: Byte.x00 :: Byte.x00 :: ty :: a ++ hi :: lo :: pl) =
  Ret (Req 0 0 0 (b2z ty) a (be16 hi lo) pl, true).
Proof.
  intros Hn Ha Hpl. unfold parse.
  rewrite (proj2 (Z.ltb_ge _ _)) by len_lia. at_simpl.
  change (b2z Byte.x00) with 0. cbn [negb orb Z.eqb].
  set (data := _ :: _). set (hdr := [Byte.x00; Byte.x00; Byte.x00; ty]).
  assert (len data = 4 + n + 2 + len pl) as -> by (subst data; len_lia).
  rewrite (u64_small (4 + n + 2 + len pl - 4)) by len_lia.
  replace (4 + n + 2 + len pl - 4) with (n + 2 + len pl) by lia.
  assert ((n + 2 + len pl <? n + 2) = false) as Hlt by (apply Z.ltb_ge; len_lia).
  assert (copy data 4 n = Ret a) as Hc
    by (change data with (hdr ++ a ++ hi :: lo :: pl); apply copy_mid; [done|lia]).
  assert (port_at data (4 + n) = Ret (be16 hi lo)) as Hp.
  { change data with (hdr ++ a ++ hi :: lo :: pl). rewrite app_assoc.
    apply udp_port_at_mid. subst hdr. len_lia. }
  assert (copy data (4 + n + 2) (u64 (n + 2 + len pl - (n + 2))) = Ret pl) as Hq.
  { change data with (hdr ++ a ++ [hi; lo] ++ pl). rewrite !app_assoc.
    apply copy_end; [subst hdr; len_lia|]. rewrite u64_small by len_lia. lia. }
  destruct Hn as [[-> ->]|[-> ->]]; cbn; rewrite Hlt, Hc; cbn; rewrite Hp; cbn; by rewrite Hq.
Qed.

Lemma parse_domain self d a hi lo pl :
  len a = b2z d → len pl < 2 ^ 62 →
  parse self (Byte.x00 :: Byte.x00 :: Byte.x00 :: Byte.x03 :: d :: a ++ hi :: lo :: pl) =
  Ret (Req 0 0 0 3 a (be16 hi lo) pl, true).
Proof.
  intros Ha Hpl. pose proof (b2z_range d). unfold parse.
  rewrite (proj2 (Z.ltb_ge _ _)) by len_lia. at_simpl.
  change (b2z Byte.x00) with 0. change (b2z Byte.x03) with 3. cbn [negb orb Z.eqb].
  set (data := _ :: _). set (hdr := [Byte.x00; Byte.x00; Byte.x00; Byte.x03; d]).
  assert (len data = 7 + b2z d + len pl) as -> by (subst data; len_lia).
  rewrite (u64_small (7 + b2z d + len pl - 4)) by len_lia. cbn.
  rewrite !(proj2 (Z.ltb_ge _ _)) by len_lia.
  replace (7 + b2z d + len pl - 4 - 1 - b2z d - 2) with (len pl) by lia.
  rewrite u64_small by len_lia.
  assert (copy data (4 + 1) (b2z d) = Ret a) as ->
    by (change data with (hdr ++ a ++ hi :: lo :: pl); apply copy_mid; [done|lia]). cbn.
  assert (port_at data (4 + 1 + b2z d) = Ret (be16 hi lo)) as ->.
  { change data with (hdr ++ a ++ hi :: lo :: pl). rewrite app_assoc.
    apply udp_port_at_mid. subst hdr. len_lia. }
  cbn. change data with (hdr ++ a ++ [hi; lo] ++ pl). rewrite !app_assoc.
  by rewrite copy_end by (subst hdr; len_lia).
Qed.

(** both layouts at once *)
Lemma request_roundtrip self r :
  wf r → len (payload r) < 2 ^ 62 → parse self (serialize r) = Ret (r, true).
Proof.
  destruct r as [r0 r1 f ty a prt pl]. unfold wf. cbn.
  intros (-> & -> & -> & Hp & Hty) Hpl. unfold serialize, be16_bytes. cbn.
  pose proof (be16_be16_bytes prt Hp) as Hport.
  destruct Hty as [[-> Ha]|[[-> Ha]|[-> Ha]]]; cbn.
  - erewrite (parse_fixed self Byte.x01) by eauto. by rewrite Hport.
  - erewrite (parse_domain self); [by rewrite Hport| |done].
    rewrite b2z_z2b, u8_small by len_lia. done.
  - erewrite (parse_fixed self Byte.x04) by eauto. by rewrite Hport.
Qed.

(** C39: every well-formed SOCKS5 UDP request is read back from its serialised
    form, whatever the object held before. *)
Theorem parse_serialize self r :
  wf r → len (payload r) < 2 ^ 62 → parse self (serialize r) = Ret (r, true).
Proof. apply request_roundtrip. Qed.

Lemma parse_serialize_witness :
  parse init (serialize (Req 0 0 0 3 (lit "example.org") 53 (lit "q")))
  = Ret (Req 0 0 0 3 (lit "example.org") 53 (lit "q"), true).
Proof.
  apply parse_serialize; [|reflexivity].
  split_and!; try reflexivity; try (cbn; lia). right. left. split; reflexivity.
Defined.

(** a datagram too short for its address type, or of an unknown type *)
Lemma parse_reject self ty data :
  len data < 2 ^ 62 →
  (ty = Byte.x01 → len data < 6) → (ty = Byte.x04 → len data < 18) →
  (ty = Byte.x03 → ∀ d a, data = d :: a → len a < b2z d + 2) →
  ∃ r, parse self (Byte.x00 :: Byte.x00 :: Byte.x00 :: ty :: data) = Ret (r, false).
Proof.
  intros Hl H1 H4 H3. unfold parse.
  rewrite (proj2 (Z.ltb_ge _ _)) by len_lia. at_simpl.
  change (b2z Byte.x00) with 0. cbn [negb orb Z.eqb].
  set (d0 := _ :: _). assert (len d0 = 4 + len data) as -> by (subst d0; len_lia).
  replace (4 + len data - 4) with (len data) by lia. rewrite u64_small by len_lia.
  assert (∀ b, b2z ty = b2z b → ty = b) as Hty by apply b2z_inj. cbn.
  destruct (Z.eqb_spec (b2z ty) 1) as [E|_].
  { rewrite (proj2 (Z.ltb_lt _ _)); [by eauto|]. apply H1. by apply (Hty Byte.x01). }
  destruct (Z.eqb_spec (b2z ty) 3) as [E|_].
  { destruct data as [|d a]; [by eauto|]. subst d0.
    rewrite (proj2 (Z.ltb_ge _ 1)) by len_lia. at_simpl.
    rewrite (proj2 (Z.ltb_lt _ _)); [by eauto|].
    specialize (H3 (Hty Byte.x03 E) d a eq_refl). len_lia. }
  destruct (Z.eqb_spec (b2z ty) 4) as [E|_]; [|by eauto].
  rewrite (proj2 (Z.ltb_lt _ _)); [by eauto|]. apply H4. by apply (Hty Byte.x04).
Qed.

Lemma parse_reject_header self data :
  (∀ rest, data ≠ Byte.x00 :: Byte.x00 :: Byte.x00 :: rest) ∨ len data < 4 →
  parse self data = Ret (self, false).
Proof.
  intros H. unfold parse. destruct (Z.ltb_spec (len data) 4) as [|Hl]; [done|].
  destruct H as [H|]; [|lia].
  destruct data as [|d0 [|d1 [|d2 rest]]]; [len_simpl; lia..|]. at_simpl.
  assert (∀ b, (b2z b =? 0) = true → b = Byte.x00) as Hz
    by (intros b Hb%Z.eqb_eq; by apply b2z_inj).
  destruct (b2z d0 =? 0) eqn:E0; [|done]. destruct (b2z d1 =? 0) eqn:E1; [|done].
  destruct (b2z d2 =? 0) eqn:E2; [|done]. apply Hz in E0, E1, E2. naive_solver.
Qed.

Lemma parse_sound_fixed self ty data n :
  (n = 4 ∧ ty = Byte.x01 ∨ n = 16 ∧ ty = Byte.x04) → n + 2 <= len data → len data < 2 ^ 62 →
  ∃ r, parse self (Byte.x00 :: Byte.x00 :: Byte.x00 :: ty :: data) = Ret (r, true) ∧
       wf r ∧ serialize r = Byte.x00 :: Byte.x00 :: Byte.x00 :: ty :: data.
Proof.
  intros Hn Hd Hl. destruct (split_field data n) as (a & hi & lo & pl & -> & Ha); [lia..|].
  eexists. split; [by eapply parse_fixed; [exact Hn| |len_lia]|].
  pose proof (be16_range hi lo).
  destruct Hn as [[-> ->]|[-> ->]]; unfold wf, serialize; cbn; rewrite be16_bytes_be16.
  - change (b2z Byte.x01) with 1. split; [lia|done].
  - change (b2z Byte.x04) with 4. split; [lia|done].
Qed.

(** On any datagram [parse] reads only the received bytes (no undefined
    behaviour, no exception), and it accepts exactly the serialised well-formed
    requests: what it accepts serialises back to the datagram. *)
Lemma parse_sound self data :
  len data < 2 ^ 62 →
  ∃ r ok, parse self data = Ret (r, ok) ∧ (ok = true → wf r ∧ serialize r = data).
Proof.
  intros Hl.
  destruct (decide (take 3 data = replicate 3 Byte.x00 ∧ 4 <= len data)) as [[H3 H4]|Hne].
  2: { exists self, false. split; [|done]. apply parse_reject_header.
       destruct (decide (4 <= len data)); [left|right; lia].
       intros rest ->. by apply Hne. }
  destruct data as [|d0 [|d1 [|d2 [|ty data]]]]; try by len_simpl; lia.
  simpl in H3. simplify_eq. len_simpl.
  destruct (decide (ty = Byte.x01 ∧ 6 <= len data)) as [[-> Hf]|Hf1].
  { destruct (parse_sound_fixed self Byte.x01 data 4) as (r & -> & ?); [by auto|lia|len_lia|]. eauto. }
  destruct (decide (ty = Byte.x04 ∧ 18 <= len data)) as [[-> Hf]|Hf4].
  { destruct (parse_sound_fixed self Byte.x04 data 16) as (r & -> & ?); [by auto|lia|len_lia|]. eauto. }
  destruct (decide (ty = Byte.x03 ∧ 1 <= len data ∧
                    b2z (default Byte.x00 (head data)) + 3 <= len data)) as [(-> & H1 & Hd)|Hf3].
  { destruct data as [|d a']; [by len_simpl; lia|]. cbn in Hd. pose proof (b2z_range d).
    len_simpl. destruct (split_field a' (b2z d)) as (a & hi & lo & pl & -> & Ha); [lia..|].
    len_simpl. eexists _, true. split; [by eapply parse_domain; [|len_lia]|].
    intros _. pose proof (be16_range hi lo). unfold wf, serialize. cbn.
    rewrite be16_bytes_be16, Ha, z2b_b2z. split; [lia|done]. }
  destruct (parse_reject self ty data) as [r ->]; [len_lia|..|by do 2 eexists; split].
  - intros ->. apply Z.nle_gt. by intros ?; apply Hf1.
  - intros ->. apply Z.nle_gt. by intros ?; apply Hf4.
  - intros -> d a ->. apply Z.nle_gt. intros ?. apply Hf3. cbn. split_and!; [done|len_lia..].
Qed.

Lemma parse_sound_witness :
  len (serialize (Req 0 0 0 1 (lit "abcd") 53 (lit "q"))) < 2 ^ 62 ∧
  ∃ r ok, parse init (serialize (Req 0 0 0 1 (lit "abcd") 53 (lit "q"))) = Ret (r, ok) ∧
    (ok = true → wf r ∧ serialize r = serialize (Req 0 0 0 1 (lit "abcd") 53 (lit "q"))).
Proof. split; [reflexivity|]. apply parse_sound. reflexivity. Defined.

End UdpRequestFacts.

End Socks5.
