(* ===== verification/Trojan.v ===== *)
(** Trojan: the Trojan request header and the UDP packets of a Trojan
    UDP-associate session (src/Protocol/trojan/TrojanReq.h, TrojanReq.cpp,
    UDPPacket.h, UDPPacket.cpp). *)
From S2P Require Import Prelude Net.

Module Trojan.

Definition IPv4 : Z := 1.
Definition DOMAINNAME : Z := 3.
Definition IPv6 : Z := 4.
Definition CONNECT : Z := 1.
Definition UDP_ASSOCIATE : Z := 3.

(** [%02x] *)
Definition hex_digit (z : Z) : byte := z2b (if z <? 10 then 48 + z else 87 + z).
Definition hex02 (b : byte) : bytes :=
  [hex_digit (Z.shiftr (b2z b) 4); hex_digit (Z.land (b2z b) 15)].

(** ** Addresses *)
Module SOCKS5Address.
Record t := Addr { address_type : Z; address : bytes; port : Z }.
#[global] Instance eta_t : Eta t := fun r => Addr (address_type r) (address r) (port r).

Definition port_at (data : bytes) (i : Z) : outcome Z :=
  hi ← str_at data i; lo ← str_at data (i + 1); mret (be16 hi lo).

(** the text of 16 address bytes, as the [sprintf] format prints them *)
Fixpoint ipv6_text (b : bytes) : bytes :=
  match b with
  | x :: y :: [] => hex02 x ++ hex02 y
  | x :: y :: b' => hex02 x ++ hex02 y ++ lit ":" ++ ipv6_text b'
  | _ => []
  end.
Definition ipv4_text (a b c d : byte) : bytes :=
  to_string (b2z a) ++ lit "." ++ to_string (b2z b) ++ lit "."
    ++ to_string (b2z c) ++ lit "." ++ to_string (b2z d).

(** the bytes [data[i]], ..., [data[i + n - 1]] *)
Fixpoint read_bytes (data : bytes) (i : Z) (n : nat) : outcome bytes :=
  match n with
  | O => mret []
  | S n' => b ← str_at data i; r ← read_bytes data (i + 1) n'; mret (b :: r)
  end.

(** [bool parse(const string& data, size_t& address_len)] *)
Definition parse (self : t) (data : bytes) : outcome (t * option Z) :=
  if len data =? 0 then mret (self, None)
  else
    d0 ← str_at data 0;
    let ty := b2z d0 in
    if negb (ty =? IPv4) && negb (ty =? DOMAINNAME) && negb (ty =? IPv6)
    then mret (self, None)
    else
      let self := self <| address_type := ty |> in
      if ty =? IPv4 then
        if 4 + 2 <? len data then
          a ← str_at data 1; b ← str_at data 2; c ← str_at data 3; d ← str_at data 4;
          p ← port_at data 5;
          mret (self <| address := ipv4_text a b c d |> <| port := p |>, Some (1 + 4 + 2))
        else mret (self, None)
      else if ty =? DOMAINNAME then
        d1 ← str_at data 1;
        let domain_len := b2z d1 in
        if domain_len =? 0 then mret (self, None)
        else if 1 + domain_len + 2 <? len data then
          a ← substr_n data 2 domain_len;
          p ← port_at data (domain_len + 2);
          mret (self <| address := a |> <| port := p |>, Some (1 + 1 + domain_len + 2))
        else mret (self, None)
      else
        if 16 + 2 <? len data then
          a ← read_bytes data 1 16;
          p ← port_at data 17;
          mret (self <| address := ipv6_text a |> <| port := p |>, Some (1 + 16 + 2))
        else mret (self, None).

(** [static string generate(const udp::endpoint& endpoint)] *)
Definition generate (endpoint : Net.endpoint) : bytes :=
  let a := Net.ep_address endpoint in
  if Net.is_unspecified a then Byte.x01 :: replicate 6 Byte.x00
  else
    let ret := if Net.is_v4 a then Byte.x01 :: Net.to_bytes a else [] in
    let ret := if Net.is_v6 a then ret ++ Byte.x04 :: Net.to_bytes a else ret in
    ret ++ be16_bytes (Net.ep_port endpoint).
End SOCKS5Address.

(** ** Requests *)
Module TrojanReq.
Record t := Req {
  command : Z; password : bytes; address : SOCKS5Address.t; payload : bytes
}.
#[global] Instance eta_t : Eta t := fun r =>
  Req (command r) (password r) (address r) (payload r).

(** [int parse(const string& data)] *)
Definition parse (self : t) (data : bytes) : outcome (t * Z) :=
  match find crlf data with
  | None => mret (self, -1)
  | Some first =>
      pw ← substr_n data 0 first;
      pl ← substr data (first + 2);
      let self := self <| password := pw |> <| payload := pl |> in
      if len pl =? 0 then mret (self, -1)
      else
        p0 ← str_at pl 0;
        if negb (b2z p0 =? CONNECT) && negb (b2z p0 =? UDP_ASSOCIATE) then mret (self, -1)
        else
          let self := self <| command := b2z p0 |> in
          rest ← substr pl 1;
          r ← SOCKS5Address.parse (address self) rest;
          let self := self <| address := r.1 |> in
          match r.2 with
          | None => mret (self, -1)
          | Some address_len =>
              if len pl <? address_len + 3 then mret (self, -1)
              else
                sep ← substr_n pl (address_len + 1) 2;
                if bool_decide (sep = crlf) then
                  body ← substr pl (address_len + 3);
                  mret (self <| payload := body |>, s32 (len data))
                else mret (self, -1)
          end
  end.

(** [static string generate(password, domainname, port, tcp)] *)
Definition generate (pw domainname : bytes) (port : Z) (tcp : bool) : bytes :=
  let ret := pw ++ crlf in
  let ret := ret ++ [if tcp then Byte.x01 else Byte.x03] in
  let ret := ret ++ [Byte.x03] in
  let ret := ret ++ [z2b (len domainname)] in
  let ret := ret ++ domainname in
  let ret := ret ++ be16_bytes port in
  ret ++ crlf.
End TrojanReq.

(** ** UDP packets *)
Module UDPPacket.
Record t := Packet { address : SOCKS5Address.t; length : Z; payload : bytes }.
#[global] Instance eta_t : Eta t := fun r => Packet (address r) (length r) (payload r).

(** [bool parse(const string &data, size_t &udp_packet_len)] *)
Definition parse (self : t) (data : bytes) : outcome (t * option Z) :=
  if len data =? 0 then mret (self, None)
  else
    r ← SOCKS5Address.parse (address self) data;
    let self := self <| address := r.1 |> in
    match r.2 with
    | None => mret (self, None)
    | Some address_len =>
        if len data <? address_len + 2 then mret (self, None)
        else
          hi ← str_at data address_len; lo ← str_at data (address_len + 1);
          let n := be16 hi lo in
          let self := self <| length := n |> in
          if len data <? address_len + 4 + n then mret (self, None)
          else
            sep ← substr_n data (address_len + 2) 2;
            if bool_decide (sep = crlf) then
              pl ← substr_n data (address_len + 4) n;
              mret (self <| payload := pl |>, Some (address_len + 4 + n))
            else mret (self, None)
    end.

(** [generate(endpoint, payload)] *)
Definition generate (endpoint : Net.endpoint) (pl : bytes) : bytes :=
  SOCKS5Address.generate endpoint ++ be16_bytes (len pl) ++ crlf ++ pl.

(** [generate(domainname, port, payload)] *)
Definition generate_domain (domainname : bytes) (port : Z) (pl : bytes) : bytes :=
  [Byte.x03] ++ [z2b (len domainname)] ++ domainname ++ be16_bytes port
    ++ be16_bytes (len pl) ++ crlf ++ pl.
End UDPPacket.

(** * Properties *)

(** ** Addresses *)
Section Address.
Import SOCKS5Address.

Lemma port_at_mid pre p rest i :
  0 <= p < 2 ^ 16 → i = len pre → port_at (pre ++ be16_bytes p ++ rest) i = Ret p.
Proof. intros. by apply be16_at. Qed.

Lemma port_at_ok data i :
  0 <= i → i + 1 <= len data → ∃ p, port_at data i = Ret p ∧ 0 <= p < 2 ^ 16.
Proof.
  intros. unfold port_at. destruct (str_at_ok data i) as [b0 ->]; [lia|].
  destruct (str_at_ok data (i + 1)) as [b1 ->]; [lia|].
  eexists. split; [done|apply be16_range].
Qed.

Lemma read_bytes_app pre b rest i :
  i = len pre → read_bytes (pre ++ b ++ rest) i (List.length b) = Ret b.
Proof.
  revert pre i. induction b as [|x b IH]; intros pre i ->; [done|]. cbn [List.length read_bytes].
  rewrite <-app_comm_cons, str_at_mid by done. cbn.
  rewrite cons_middle, app_assoc, IH by len_lia. done.
Qed.

Lemma read_bytes_ok data i n :
  0 <= i → i + Z.of_nat n <= len data →
  ∃ b, read_bytes data i n = Ret b ∧ List.length b = n.
Proof.
  revert i. induction n as [|n IH]; intros i Hi Hn; cbn; [by eauto|].
  destruct (str_at_ok data i) as [x ->]; [lia|]. cbn.
  destruct (IH (i + 1)) as (b & -> & <-); [lia..|]. cbn. eauto.
Qed.

(** neither looks past what it reads *)
Lemma port_at_app data more i :
  0 <= i → i + 1 < len data → port_at (data ++ more) i = port_at data i.
Proof. intros. unfold port_at. by rewrite !str_at_app_l by lia. Qed.

Lemma read_bytes_app_l data more i n :
  0 <= i → i + Z.of_nat n <= len data → read_bytes (data ++ more) i n = read_bytes data i n.
Proof.
  revert i. induction n as [|n IH]; intros i Hi Hn; [done|]. cbn [read_bytes].
  rewrite str_at_app_l by lia. destruct (str_at data i); [|done..]. cbn [mbind outcome_bind].
  by rewrite IH by lia.
Qed.

Arguments port_at : simpl never.
Arguments read_bytes : simpl never.

Lemma address_parse_domain self d p rest :
  0 < len d < 256 → 0 <= p < 2 ^ 16 →
  parse self (Byte.x03 :: z2b (len d) :: d ++ be16_bytes p ++ rest) =
  Ret (Addr DOMAINNAME d p, Some (4 + len d)).
Proof.
  intros Hd Hp. unfold parse. rewrite (proj2 (Z.eqb_neq _ _)) by len_lia. at_simpl.
  change (b2z Byte.x03) with 3. cbn.
  rewrite b2z_z2b, u8_small by lia. rewrite (proj2 (Z.eqb_neq (len d) 0)) by lia.
  rewrite (proj2 (Z.ltb_lt _ _)) by len_lia.
  set (hdr := [Byte.x03; z2b (len d)]).
  change (Byte.x03 :: _) with (hdr ++ d ++ be16_bytes p ++ rest).
  rewrite (substr_n_mid hdr d) by done. cbn [mbind outcome_bind].
  rewrite app_assoc, port_at_mid by (done || (subst hdr; len_lia)). cbn.
  by replace (1 + 1 + len d + 2) with (4 + len d) by lia.
Qed.

Lemma address_parse_v4 self a b c d p rest :
  0 <= p < 2 ^ 16 →
  parse self (Byte.x01 :: a :: b :: c :: d :: be16_bytes p ++ rest) =
  Ret (Addr IPv4 (ipv4_text a b c d) p, Some 7).
Proof.
  intros Hp. unfold parse. rewrite (proj2 (Z.eqb_neq _ _)) by len_lia. at_simpl.
  change (b2z Byte.x01) with 1. cbn.
  rewrite (proj2 (Z.ltb_lt _ _)) by len_lia.
  change (Byte.x01 :: _) with ([Byte.x01; a; b; c; d] ++ be16_bytes p ++ rest).
  by rewrite port_at_mid.
Qed.

Lemma address_parse_v6 self a p rest :
  List.length a = 16%nat → 0 <= p < 2 ^ 16 →
  parse self (Byte.x04 :: a ++ be16_bytes p ++ rest) =
  Ret (Addr IPv6 (ipv6_text a) p, Some 19).
Proof.
  intros Ha Hp. assert (len a = 16) as Hl by (unfold len; lia).
  unfold parse. rewrite (proj2 (Z.eqb_neq _ _)) by len_lia. at_simpl.
  change (b2z Byte.x04) with 4. cbn.
  rewrite (proj2 (Z.ltb_lt _ _)) by len_lia.
  change (Byte.x04 :: _) with ([Byte.x04] ++ a ++ be16_bytes p ++ rest).
  rewrite <-Ha, (read_bytes_app [Byte.x04] a) by done. cbn [mbind outcome_bind].
  rewrite app_assoc, port_at_mid by len_lia. done.
Qed.

(** no input makes the address parser leave the string; an accepted address
    lies within it *)
Lemma address_parse_safe self data :
  ∃ a r, parse self data = Ret (a, r) ∧
    ∀ n, r = Some n → 5 <= n <= len data ∧ 0 <= port a < 2 ^ 16 ∧
                      address_type a ∈ [IPv4; DOMAINNAME; IPv6].
Proof.
  unfold parse, IPv4, DOMAINNAME, IPv6.
  destruct (Z.eqb_spec (len data) 0); [by do 2 eexists; split|].
  destruct (str_at_ok data 0) as [d0 ->]; [len_lia|]. cbn.
  destruct (negb _ && negb _ && negb _) eqn:Ht; [by do 2 eexists; split|].
  destruct (Z.eqb_spec (b2z d0) 1) as [->|].
  { destruct (Z.ltb_spec (4 + 2) (len data)); [|by do 2 eexists; split].
    destruct (str_at_ok data 1) as [? ->]; [lia|].
    destruct (str_at_ok data 2) as [? ->]; [lia|].
    destruct (str_at_ok data 3) as [? ->]; [lia|].
    destruct (str_at_ok data 4) as [? ->]; [lia|]. cbn.
    destruct (port_at_ok data 5) as (p & -> & ?); [lia..|]. cbn.
    do 2 eexists. split; [done|]. intros k [= <-]. cbn.
    split_and!; try lia; by apply (bool_decide_unpack _). }
  destruct (Z.eqb_spec (b2z d0) 3) as [->|].
  { destruct (str_at_ok data 1) as [d1 ->]; [len_lia|]. cbn. pose proof (b2z_range d1).
    destruct (Z.eqb_spec (b2z d1) 0); [by do 2 eexists; split|].
    destruct (Z.ltb_spec (1 + b2z d1 + 2) (len data)); [|by do 2 eexists; split].
    unfold substr_n. rewrite (proj2 (Z.ltb_ge _ _)) by lia. cbn.
    destruct (port_at_ok data (b2z d1 + 2)) as (p & -> & ?); [lia..|]. cbn.
    do 2 eexists. split; [done|]. intros k Hk. simplify_eq. cbn.
    split_and!; try lia; by apply (bool_decide_unpack _). }
  assert (b2z d0 = 4) as ->.
  { by destruct (Z.eqb_spec (b2z d0) 4). }
  destruct (Z.ltb_spec (16 + 2) (len data)); [|by do 2 eexists; split].
  destruct (read_bytes_ok data 1 16) as (a & -> & ?); [lia..|]. cbn.
  destruct (port_at_ok data 17) as (p & -> & ?); [lia..|]. cbn.
  do 2 eexists. split; [done|]. intros k [= <-]. cbn.
  split_and!; try lia; by apply (bool_decide_unpack _).
Qed.

(** an accepted address is accepted again when more bytes follow it *)
Lemma address_parse_stable self data more a n :
  parse self data = Ret (a, Some n) → parse self (data ++ more) = Ret (a, Some n).
Proof.
  unfold parse, IPv4, DOMAINNAME, IPv6. pose proof (len_nonneg data). pose proof (len_nonneg more).
  destruct (Z.eqb_spec (len data) 0); [done|].
  rewrite (proj2 (Z.eqb_neq (len (data ++ more)) 0)), (str_at_app_l data more 0) by len_lia.
  destruct (str_at data 0) as [d0| |]; [|done..]. cbn [mbind outcome_bind].
  destruct (negb _ && negb _ && negb _); [done|].
  destruct (Z.eqb_spec (b2z d0) 1).
  { destruct (Z.ltb_spec (4 + 2) (len data)); [|done].
    rewrite (proj2 (Z.ltb_lt _ (len (data ++ more)))) by len_lia.
    by rewrite !str_at_app_l, port_at_app by lia. }
  destruct (Z.eqb_spec (b2z d0) 3).
  - destruct (decide (len data = 1)) as [E|].
    { rewrite <-E at 1. rewrite str_at_end. discriminate. }
    rewrite (str_at_app_l data more 1) by lia.
    destruct (str_at data 1) as [d1| |]; [|done..]. cbn [mbind outcome_bind].
    pose proof (b2z_range d1). destruct (Z.eqb_spec (b2z d1) 0); [done|].
    destruct (Z.ltb_spec (1 + b2z d1 + 2) (len data)); [|done].
    rewrite (proj2 (Z.ltb_lt _ (len (data ++ more)))) by len_lia.
    by rewrite substr_n_app_l, port_at_app by lia.
  - destruct (Z.ltb_spec (16 + 2) (len data)); [|done].
    rewrite (proj2 (Z.ltb_lt _ (len (data ++ more)))) by len_lia.
    by rewrite read_bytes_app_l, port_at_app by lia.
Qed.
End Address.

(** ** Requests *)

(** what the request generator writes after the password line *)
Lemma generate_req_eq pw d p tcp payload :
  TrojanReq.generate pw d p tcp ++ payload =
  pw ++ crlf ++ (if tcp then Byte.x01 else Byte.x03)
    :: (Byte.x03 :: z2b (len d) :: d ++ be16_bytes p) ++ crlf ++ payload.
Proof. unfold TrojanReq.generate. by rewrite <-!app_comm_cons, <-!app_assoc. Qed.

(** what the parser makes of a generated request *)
Lemma TrojanReq_parse_generate_eq self pw d p tcp payload :
  Byte.x0d ∉ pw → 0 < len d < 256 → 0 <= p < 2 ^ 16 →
  TrojanReq.parse self (TrojanReq.generate pw d p tcp ++ payload) =
  Ret (TrojanReq.Req (if tcp then CONNECT else UDP_ASSOCIATE) pw
         (SOCKS5Address.Addr DOMAINNAME d p) payload,
       s32 (len (TrojanReq.generate pw d p tcp ++ payload))).
Proof.
  intros Hpw Hd Hp. rewrite generate_req_eq. unfold TrojanReq.parse.
  set (addr := Byte.x03 :: z2b (len d) :: d ++ be16_bytes p).
  set (cmd := if tcp then Byte.x01 else Byte.x03).
  assert (len addr = 4 + len d) as Haddr by (subst addr; len_lia).
  rewrite find_crlf by done.
  rewrite substr_n_prefix by done. cbn [mbind outcome_bind].
  rewrite (app_assoc pw crlf), substr_app by len_lia. cbn [mbind outcome_bind].
  rewrite (proj2 (Z.eqb_neq _ 0)) by len_lia. at_simpl.
  assert (b2z cmd = if tcp then 1 else 3) as -> by (by subst cmd; destruct tcp).
  replace (negb _ && negb _) with false by (by destruct tcp).
  rewrite substr_tail. cbn [mbind outcome_bind].
  assert (∀ a, SOCKS5Address.parse a (addr ++ crlf ++ payload) =
               Ret (SOCKS5Address.Addr DOMAINNAME d p, Some (4 + len d))) as ->.
  { intros a. subst addr. rewrite <-!app_comm_cons, <-app_assoc.
    by apply address_parse_domain. }
  cbn [mbind outcome_bind fst snd].
  rewrite (proj2 (Z.ltb_ge _ _)) by len_lia.
  change (cmd :: addr ++ crlf ++ payload) with ((cmd :: addr) ++ crlf ++ payload).
  rewrite (substr_n_mid (cmd :: addr) crlf) by len_lia. cbn [mbind outcome_bind].
  rewrite bool_decide_eq_true_2 by done.
  rewrite (app_assoc _ crlf), substr_app by len_lia. cbn.
  by destruct tcp.
Qed.

(** C35: a Trojan request is read back.  The header generated for a password
    without CR, a domain of 1 to 255 bytes and a port, followed by any payload,
    parses to exactly that password, command, address, port and payload. *)
Theorem TrojanReq_parse_generate self pw d p tcp payload :
  Byte.x0d ∉ pw → 0 < len d < 256 → 0 <= p < 2 ^ 16 →
  TrojanReq.parse self (TrojanReq.generate pw d p tcp ++ payload) =
  Ret (TrojanReq.Req (if tcp then CONNECT else UDP_ASSOCIATE) pw
         (SOCKS5Address.Addr DOMAINNAME d p) payload,
       s32 (len (TrojanReq.generate pw d p tcp ++ payload))).
Proof. apply TrojanReq_parse_generate_eq. Qed.

Lemma TrojanReq_parse_generate_witness :
  let blank := TrojanReq.Req 0 [] (SOCKS5Address.Addr 0 [] 0) [] in
  TrojanReq.parse blank (TrojanReq.generate (lit "5ebe2294") (lit "example.org") 443 true
                           ++ lit "GET /") =
  Ret (TrojanReq.Req 1 (lit "5ebe2294") (SOCKS5Address.Addr 3 (lit "example.org") 443)
         (lit "GET /"), 33).
Proof.
  intros blank.
  apply (TrojanReq_parse_generate blank (lit "5ebe2294") (lit "example.org") 443 true);
    [by apply (bool_decide_unpack _)|split; reflexivity|lia].
Defined.

(** what the request parser does on every input *)
Lemma TrojanReq_parse_total self data :
  ∃ r n, TrojanReq.parse self data = Ret (r, n) ∧
    (n ≠ -1 →
     n = s32 (len data) ∧ TrojanReq.command r ∈ [CONNECT; UDP_ASSOCIATE] ∧
     0 <= SOCKS5Address.port (TrojanReq.address r) < 2 ^ 16 ∧
     ∃ cmd addr, data = TrojanReq.password r ++ crlf ++ cmd :: addr ++ crlf ++ TrojanReq.payload r
                 ∧ b2z cmd = TrojanReq.command r).
Proof.
  unfold TrojanReq.parse.
  destruct (find crlf data) as [k|] eqn:Hf; [|by do 2 eexists; split].
  apply find_Some in Hf as (pw & pl & -> & ->).
  rewrite substr_n_prefix by done. cbn [mbind outcome_bind].
  rewrite (app_assoc pw crlf), substr_app by len_lia. cbn [mbind outcome_bind].
  destruct (Z.eqb_spec (len pl) 0) as [|Hpl]; [by do 2 eexists; split|].
  destruct pl as [|cmd pl]; [done|]. at_simpl.
  destruct (negb _ && negb _) eqn:Hc; [by do 2 eexists; split|].
  rewrite substr_tail. cbn [mbind outcome_bind].
  match goal with |- context [SOCKS5Address.parse ?a0 pl] =>
    destruct (address_parse_safe a0 pl) as (a & [n|] & -> & Ha) end; [|by do 2 eexists; split].
  destruct (Ha n eq_refl) as (Hn & Hport & _). cbn [mbind outcome_bind fst snd].
  destruct (Z.ltb_spec (len (cmd :: pl)) (n + 3)); [by do 2 eexists; split|]. len_simpl.
  destruct (split_field pl n) as (addr & x & y & body & -> & Haddr); [lia..|].
  change (cmd :: addr ++ x :: y :: body) with ((cmd :: addr) ++ [x; y] ++ body).
  rewrite (substr_n_mid (cmd :: addr) [x; y]) by len_lia. cbn [mbind outcome_bind].
  case_bool_decide as Hsep; [|by do 2 eexists; split].
  rewrite (app_assoc _ [x; y]), substr_app by len_lia. cbn [mbind outcome_bind mret outcome_ret].
  do 2 eexists. split; [done|]. intros _. cbn. split_and!; [done| |lia|lia|].
  - rewrite <-negb_orb, negb_false_iff, orb_true_iff, !Z.eqb_eq in Hc.
    destruct Hc as [->| ->]; repeat constructor.
  - exists cmd, addr. split; [|done]. injection Hsep as -> ->.
    rewrite <-!app_assoc. cbn. by rewrite <-?app_assoc.
Qed.

(** No byte sequence makes the Trojan request parser throw or leave its
    buffers, and what it accepts is consistent: the password line, the command
    octet, an address and a second CRLF make up the data in front of the
    payload. *)
Lemma TrojanReq_parse_safe self data :
  ∃ r n, TrojanReq.parse self data = Ret (r, n) ∧
    (n ≠ -1 →
     n = s32 (len data) ∧ TrojanReq.command r ∈ [CONNECT; UDP_ASSOCIATE] ∧
     0 <= SOCKS5Address.port (TrojanReq.address r) < 2 ^ 16 ∧
     ∃ cmd addr, data = TrojanReq.password r ++ crlf ++ cmd :: addr ++ crlf ++ TrojanReq.payload r
                 ∧ b2z cmd = TrojanReq.command r).
Proof. apply TrojanReq_parse_total. Qed.

(** ** UDP packets *)

(** the packet behind an address the address parser accepts *)
Lemma UDPPacket_parse_addr self addr a pl rest :
  (∀ s r, SOCKS5Address.parse s (addr ++ r) = Ret (a, Some (len addr))) →
  0 < len addr → len pl < 2 ^ 16 →
  UDPPacket.parse self (addr ++ be16_bytes (len pl) ++ crlf ++ pl ++ rest) =
  Ret (UDPPacket.Packet a (len pl) pl, Some (len addr + 4 + len pl)).
Proof.
  intros Ha Hpos Hpl. unfold UDPPacket.parse.
  rewrite (proj2 (Z.eqb_neq _ 0)) by len_lia.
  rewrite Ha. cbn [mbind outcome_bind fst snd].
  rewrite (proj2 (Z.ltb_ge _ _)) by len_lia.
  set (data := addr ++ be16_bytes (len pl) ++ crlf ++ pl ++ rest).
  assert (str_at data (len addr) = Ret (z2b (Z.shiftr (len pl) 8))) as ->.
  { rewrite <-(Z.add_0_r (len addr)). subst data. by rewrite str_at_app_r, str_at_be16_0 by lia. }
  assert (str_at data (len addr + 1) = Ret (z2b (Z.land (len pl) 255))) as ->.
  { subst data. by rewrite str_at_app_r, str_at_be16_1 by lia. }
  cbn [mbind outcome_bind]. rewrite be16_be16_bytes by len_lia.
  rewrite (proj2 (Z.ltb_ge _ _)) by (subst data; len_lia).
  subst data. rewrite (app_assoc addr).
  rewrite (substr_n_mid _ crlf _ (len addr + 2) 2) by len_lia. cbn [mbind outcome_bind].
  rewrite bool_decide_eq_true_2 by done.
  rewrite (app_assoc _ crlf), (substr_n_mid _ pl) by len_lia. done.
Qed.

(** what the address of a parsed endpoint packet looks like *)
Definition endpoint_addr (ep : Net.endpoint) : SOCKS5Address.t :=
  match Net.ep_address ep with
  | Net.address_v4 [a; b; c; d] =>
      SOCKS5Address.Addr IPv4 (SOCKS5Address.ipv4_text a b c d) (Net.ep_port ep)
  | Net.address_v4 _ => SOCKS5Address.Addr IPv4 [] (Net.ep_port ep)
  | Net.address_v6 b => SOCKS5Address.Addr IPv6 (SOCKS5Address.ipv6_text b) (Net.ep_port ep)
  end.

Lemma address_parse_generate ep :
  Net.endpoint_wf ep → Net.is_unspecified (Net.ep_address ep) = false →
  ∀ s r, SOCKS5Address.parse s (SOCKS5Address.generate ep ++ r) =
         Ret (endpoint_addr ep, Some (len (SOCKS5Address.generate ep))).
Proof.
  destruct ep as [[b|b] p]; intros [Ha Hp] Hu s r; unfold SOCKS5Address.generate; cbn in *;
    rewrite Hu; cbn.
  - destruct (Net.length_4 b Ha) as (b0 & b1 & b2 & b3 & ->).
    transitivity (SOCKS5Address.parse s (Byte.x01 :: b0 :: b1 :: b2 :: b3 :: be16_bytes p ++ r));
      [done|by rewrite address_parse_v4].
  - rewrite <-app_assoc, address_parse_v6 by done.
    unfold Net.address_wf in Ha. cbn in Ha. repeat f_equal. len_simpl. unfold len. lia.
Qed.

Lemma UDPPacket_parse_domain self d p pl rest :
  len pl < 2 ^ 16 → 0 < len d < 256 → 0 <= p < 2 ^ 16 →
  UDPPacket.parse self (UDPPacket.generate_domain d p pl ++ rest) =
  Ret (UDPPacket.Packet (SOCKS5Address.Addr DOMAINNAME d p) (len pl) pl,
       Some (len (UDPPacket.generate_domain d p pl))).
Proof.
  intros Hpl Hd Hp. unfold UDPPacket.generate_domain.
  set (addr := Byte.x03 :: z2b (len d) :: d ++ be16_bytes p).
  assert (len addr = 4 + len d) as Haddr by (subst addr; len_lia).
  change ([Byte.x03] ++ [z2b (len d)] ++ ?x) with (Byte.x03 :: z2b (len d) :: x).
  assert (Byte.x03 :: z2b (len d) :: d ++ be16_bytes p ++ be16_bytes (len pl) ++ crlf ++ pl
          = addr ++ be16_bytes (len pl) ++ crlf ++ pl) as ->.
  { subst addr. by rewrite <-!app_comm_cons, <-app_assoc. }
  rewrite <-!app_assoc.
  rewrite (UDPPacket_parse_addr self addr (SOCKS5Address.Addr DOMAINNAME d p));
    [do 3 f_equal; len_lia| |lia|done].
  intros s r. subst addr. rewrite <-!app_comm_cons, <-app_assoc, Haddr.
  by apply address_parse_domain.
Qed.

Lemma UDPPacket_parse_endpoint self ep pl rest :
  len pl < 2 ^ 16 → Net.endpoint_wf ep → Net.is_unspecified (Net.ep_address ep) = false →
  UDPPacket.parse self (UDPPacket.generate ep pl ++ rest) =
  Ret (UDPPacket.Packet (endpoint_addr ep) (len pl) pl,
       Some (len (UDPPacket.generate ep pl))).
Proof.
  intros Hpl Hep Hu. unfold UDPPacket.generate. rewrite <-!app_assoc.
  rewrite (UDPPacket_parse_addr self _ (endpoint_addr ep));
    [do 3 f_equal; len_lia|by apply address_parse_generate| |done].
  destruct Hep as [Ha _]. unfold SOCKS5Address.generate. rewrite Hu. len_lia.
Qed.

(** C36: UDP packets are self-delimiting and survive a round trip.  A packet
    generated for a domain, or for a specified IPv4 or IPv6 endpoint, followed
    by any further bytes of the stream, parses to its address, port and payload,
    and the reported length is exactly the packet's length. *)
Theorem UDPPacket_parse_generate self pl rest :
  len pl < 2 ^ 16 →
  (∀ d p, 0 < len d < 256 → 0 <= p < 2 ^ 16 →
   UDPPacket.parse self (UDPPacket.generate_domain d p pl ++ rest) =
   Ret (UDPPacket.Packet (SOCKS5Address.Addr DOMAINNAME d p) (len pl) pl,
        Some (len (UDPPacket.generate_domain d p pl)))) ∧
  (∀ ep, Net.endpoint_wf ep → Net.is_unspecified (Net.ep_address ep) = false →
   UDPPacket.parse self (UDPPacket.generate ep pl ++ rest) =
   Ret (UDPPacket.Packet (endpoint_addr ep) (len pl) pl,
        Some (len (UDPPacket.generate ep pl)))).
Proof.
  intros Hpl. split; intros; [by apply UDPPacket_parse_domain|by apply UDPPacket_parse_endpoint].
Qed.

Lemma UDPPacket_parse_generate_witness :
  len (lit "query") < 2 ^ 16 ∧
  let blank := UDPPacket.Packet (SOCKS5Address.Addr 0 [] 0) 0 [] in
  let ep := Net.Endpoint (Net.address_v4 [Byte.x08; Byte.x08; Byte.x04; Byte.x04]) 53 in
  UDPPacket.parse blank (UDPPacket.generate ep (lit "query") ++ lit "more") =
  Ret (UDPPacket.Packet (SOCKS5Address.Addr 1 (lit "8.8.4.4") 53) 5 (lit "query"), Some 16).
Proof.
  split; [reflexivity|]. cbv zeta.
  refine (proj2 (UDPPacket_parse_generate _ (lit "query") (lit "more") _)
            (Net.Endpoint (Net.address_v4 [Byte.x08; Byte.x08; Byte.x04; Byte.x04]) 53) _ _);
    [reflexivity|split; [reflexivity|cbn; lia]|reflexivity].
Defined.

(** what the packet parser does on every input *)
Lemma UDPPacket_parse_total self data :
  ∃ r n, UDPPacket.parse self data = Ret (r, n) ∧
    ∀ k, n = Some k →
      9 <= k <= len data ∧ 0 <= SOCKS5Address.port (UDPPacket.address r) < 2 ^ 16 ∧
      len (UDPPacket.payload r) = UDPPacket.length r ∧
      UDPPacket.length r < 2 ^ 16 ∧ UDPPacket.payload r = slice data (k - UDPPacket.length r)
                                                            (UDPPacket.length r).
Proof.
  unfold UDPPacket.parse.
  destruct (Z.eqb_spec (len data) 0); [by do 2 eexists; split|].
  match goal with |- context [SOCKS5Address.parse ?a0 data] =>
    destruct (address_parse_safe a0 data) as (a & [m|] & -> & Ha) end; [|by do 2 eexists; split].
  destruct (Ha m eq_refl) as (Hm & Hport & _). cbn [mbind outcome_bind fst snd].
  destruct (Z.ltb_spec (len data) (m + 2)); [by do 2 eexists; split|].
  destruct (str_at_ok data m) as [hi ->]; [lia|].
  destruct (str_at_ok data (m + 1)) as [lo ->]; [lia|]. cbn [mbind outcome_bind].
  pose proof (be16_range hi lo) as Hr. set (k := be16 hi lo) in *.
  destruct (Z.ltb_spec (len data) (m + 4 + k)); [by do 2 eexists; split|].
  unfold substr_n. rewrite !(proj2 (Z.ltb_ge _ _)) by lia. cbn [mbind outcome_bind].
  case_bool_decide; [|by do 2 eexists; split]. cbn.
  do 2 eexists. split; [done|]. intros ? [= <-]. cbn.
  rewrite len_slice by lia. replace (m + 4 + k - k) with (m + 4) by lia.
  split_and!; done || lia.
Qed.

(** an accepted packet is accepted again when more bytes follow it *)
Lemma UDPPacket_parse_stable self data more p n :
  UDPPacket.parse self data = Ret (p, Some n) →
  UDPPacket.parse self (data ++ more) = Ret (p, Some n).
Proof.
  unfold UDPPacket.parse. pose proof (len_nonneg data). pose proof (len_nonneg more).
  destruct (Z.eqb_spec (len data) 0); [done|].
  rewrite (proj2 (Z.eqb_neq (len (data ++ more)) 0)) by len_lia.
  match goal with |- context [SOCKS5Address.parse ?a0 data] =>
    destruct (address_parse_safe a0 data) as (a & [m|] & E & Ha) end; rewrite E; [|done].
  rewrite (address_parse_stable _ _ more _ _ E).
  destruct (Ha m eq_refl) as (Hm & _ & _). cbn [mbind outcome_bind fst snd].
  destruct (Z.ltb_spec (len data) (m + 2)); [done|].
  rewrite (proj2 (Z.ltb_ge (len (data ++ more)) (m + 2))), !str_at_app_l by len_lia.
  destruct (str_at data m) as [hi| |]; [|done..].
  destruct (str_at data (m + 1)) as [lo| |]; [|done..]. cbn [mbind outcome_bind].
  pose proof (be16_range hi lo). set (k := be16 hi lo) in *.
  destruct (Z.ltb_spec (len data) (m + 4 + k)); [done|].
  rewrite (proj2 (Z.ltb_ge (len (data ++ more)) (m + 4 + k))) by len_lia.
  by rewrite !substr_n_app_l by lia.
Qed.

(** The UDP packet parser is total and never leaves the buffer; a packet it
    accepts lies within the data, and its payload has the length of the length
    field. *)
Lemma UDPPacket_parse_safe self data :
  ∃ r n, UDPPacket.parse self data = Ret (r, n) ∧
    ∀ k, n = Some k →
      9 <= k <= len data ∧ len (UDPPacket.payload r) = UDPPacket.length r ∧
      UDPPacket.length r < 2 ^ 16 ∧ UDPPacket.payload r = slice data (k - UDPPacket.length r)
                                                            (UDPPacket.length r).
Proof.
  destruct (UDPPacket_parse_total self data) as (r & n & H & Hn). exists r, n.
  split; [done|]. intros k Hk. by destruct (Hn k Hk) as (? & _ & ?).
Qed.

End Trojan.
