(* ===== verification/VRequest.v ===== *)
(** VRequest: the request header of the V protocol
    (src/Protocol/VProtocal/VRequest.h, VRequest.cpp). *)
From S2P Require Import Prelude Coding.

Module VRequest.

Definition v_identifier : bytes := lit "v protocol".
Definition identifier_len : Z := 10.

Record t := Req {
  version : Z;            (* header.version, uint8_t *)
  header_len : Z;         (* header.len, uint32_t *)
  user_name : bytes;
  password : bytes;
  address : bytes;
  port : Z;               (* uint16_t *)
  packed_buff : bytes
}.
#[global] Instance eta_t : Eta t := fun r =>
  Req (version r) (header_len r) (user_name r) (password r) (address r) (port r)
      (packed_buff r).

(** [void stream(std::string &buf)]: sets [header.len] and appends to [buf] *)
Definition stream (self : t) (buf : bytes) : t * bytes :=
  let hl := u32 (5 + identifier_len + len (password self) + 4 + len (user_name self) + 4
                 + len (address self) + 4 + 2) in
  let self := self <| header_len := hl |> in
  let buf := Coding.EncodeCstr buf v_identifier in
  let buf := Coding.EncodeFixed8 buf (version self) in
  let buf := Coding.EncodeFixed32 buf (Coding.htonl (header_len self)) in
  let buf := Coding.EncodeFixed32 buf (Coding.htonl (u32 (len (user_name self)))) in
  let buf := Coding.EncodeStr buf (user_name self) in
  let buf := Coding.EncodeFixed32 buf (Coding.htonl (u32 (len (password self)))) in
  let buf := Coding.EncodeStr buf (password self) in
  let buf := Coding.EncodeFixed32 buf (Coding.htonl (u32 (len (address self)))) in
  let buf := Coding.EncodeStr buf (address self) in
  (self, Coding.EncodeFixed16 buf (Coding.htons (port self))).

(** one length-prefixed string: the 32-bit length at [ptr], then the bytes; the
    string and the advanced pointer *)
Definition read_str (buf : bytes) (ptr : Z) : outcome (bytes * Z) :=
  l ← (x ← Coding.DecodeFixed32 (str_at buf) ptr; mret (Coding.ntohl x));
  let ptr := ptr + 4 in
  s ← Coding.DecodeStr buf ptr l;
  mret (s, ptr + l).

(** [bool unstream(const std::string &buf)] *)
Definition unstream (self : t) (buf : bytes) : outcome (t * bool) :=
  if len buf <? identifier_len + 1 + 4 then mret (self, false)
  else
    let ptr := identifier_len in
    v ← str_at buf ptr;
    let self := self <| version := b2z v |> in
    let ptr := ptr + 1 in
    hl ← (x ← Coding.DecodeFixed32 (str_at buf) ptr; mret (Coding.ntohl x));
    let self := self <| header_len := hl |> in
    if len buf <? hl then mret (self, false)
    else
      let ptr := ptr + 4 in
      user ← read_str buf ptr;
      let self := self <| user_name := user.1 |> in
      pass ← read_str buf user.2;
      let self := self <| password := pass.1 |> in
      addr ← read_str buf pass.2;
      let self := self <| address := addr.1 |> in
      p ← (x ← Coding.DecodeFixed16 (str_at buf) addr.2; mret (Coding.ntohs x));
      let self := self <| port := p |> in
      packed ← (if hl <? len buf then str_assign buf (addr.2 + 2) (len buf - hl)
                else mret (packed_buff self));
      mret (self <| packed_buff := packed |>, true).

(** [static bool is_v_protocol(std::vector<char>& buf)] *)
Definition is_v_protocol (buf : bytes) : outcome bool :=
  if identifier_len <=? len buf
  then mret (bool_decide (take (Z.to_nat identifier_len) buf = v_identifier))
  else Undef.

(** * Properties *)

(** the port of an accepted request is a 16-bit value *)
Lemma unstream_port self buf r : unstream self buf = Ret (r, true) → 0 <= port r < 2 ^ 16.
Proof.
  unfold unstream. destruct (_ <? _); [done|]. intros H.
  do 2 inv_bind H. destruct (_ <? _); [done|]. do 5 inv_bind H.
  injection H as <-. cbn. inv_bind E4. injection E4 as <-.
  rewrite Coding.bswap16_spec.
  unfold u8. pose proof (Z.mod_pos_bound x6 (2 ^ 8)).
  pose proof (Z.mod_pos_bound (x6 / 2 ^ 8) (2 ^ 8)). lia.
Qed.

(** the bytes of a request *)
Definition wire (ver hl : Z) (user pass addr : bytes) (p : Z) : bytes :=
  v_identifier ++ z2b ver :: Coding.be32_bytes hl
    ++ Coding.be32_bytes (len user) ++ user
    ++ Coding.be32_bytes (len pass) ++ pass
    ++ Coding.be32_bytes (len addr) ++ addr ++ be16_bytes p.

Lemma stream_wire self buf :
  len (user_name self) < 2 ^ 32 → len (password self) < 2 ^ 32 → len (address self) < 2 ^ 32 →
  0 <= port self < 2 ^ 16 →
  (stream self buf).2 =
  buf ++ wire (version self)
    (u32 (29 + len (user_name self) + len (password self) + len (address self)))
    (user_name self) (password self) (address self) (port self).
Proof.
  intros. unfold stream, wire, identifier_len. cbn [snd].
  replace (5 + 10 + len (password self) + 4 + len (user_name self) + 4 + len (address self) + 4 + 2)
    with (29 + len (user_name self) + len (password self) + len (address self)) by lia.
  rewrite !Coding.EncodeFixed32_htonl, Coding.EncodeFixed16_htons.
  unfold Coding.EncodeStr, Coding.EncodeCstr, Coding.EncodeFixed8. cbn.
  rewrite u16_small by done. rewrite !(u32_small (len _)) by len_lia.
  by rewrite <-!app_assoc.
Qed.

Lemma len_v_identifier : len v_identifier = 10.
Proof. done. Qed.

Lemma len_wire ver hl user pass addr p :
  len (wire ver hl user pass addr p) = 29 + len user + len pass + len addr.
Proof. unfold wire. len_simpl. rewrite len_v_identifier. lia. Qed.

(** ** Reading at a cursor: [data] splits at the cursor into what was read and
    what is to come *)
Lemma be32_at data pre v rest :
  data = pre ++ Coding.be32_bytes v ++ rest → 0 <= v < 2 ^ 32 →
  (x ← Coding.DecodeFixed32 (str_at data) (len pre); mret (Coding.ntohl x)) = Ret v.
Proof.
  intros -> Hv.
  erewrite Coding.ntohl_DecodeFixed32.
  - by rewrite Coding.be32_be32_bytes.
  - rewrite <-(Z.add_0_r (len pre)). by rewrite str_at_app_r by lia.
  - by rewrite str_at_app_r by lia.
  - by rewrite str_at_app_r by lia.
  - by rewrite str_at_app_r by lia.
Qed.

Lemma be16_at_cursor data pre v rest :
  data = pre ++ be16_bytes v ++ rest → 0 <= v < 2 ^ 16 →
  (x ← Coding.DecodeFixed16 (str_at data) (len pre); mret (Coding.ntohs x)) = Ret v.
Proof.
  intros -> Hv. erewrite Coding.ntohs_DecodeFixed16.
  - by rewrite be16_be16_bytes.
  - rewrite <-(Z.add_0_r (len pre)). by rewrite str_at_app_r, str_at_be16_0 by lia.
  - by rewrite str_at_app_r, str_at_be16_1 by lia.
Qed.

Lemma s32_small z : 0 <= z < 2 ^ 31 → u64 (s32 z) = z.
Proof. intros. rewrite s32_id, u64_small; lia. Qed.

Lemma read_str_at data pre s rest :
  data = pre ++ (Coding.be32_bytes (len s) ++ s) ++ rest →
  len s < 2 ^ 31 → len data < max_size →
  read_str data (len pre) = Ret (s, len (pre ++ Coding.be32_bytes (len s) ++ s)).
Proof.
  intros Hd Hs Hm. unfold read_str.
  rewrite <-app_assoc in Hd. rewrite (be32_at _ _ _ _ Hd) by len_lia. cbn [mbind outcome_bind].
  unfold Coding.DecodeStr. rewrite s32_small by len_lia.
  rewrite Hd in Hm |- *. rewrite app_assoc, str_assign_mid by len_lia. cbn.
  unfold mret, outcome_ret. do 2 f_equal. len_lia.
Qed.

(** a length with the top bit set becomes a negative [int] and a huge [size_t] *)
Lemma read_str_huge data pre l rest :
  data = pre ++ Coding.be32_bytes l ++ rest → 2 ^ 31 <= l < 2 ^ 32 →
  read_str data (len pre) = Throw length_error.
Proof.
  intros Hd Hl. unfold read_str. rewrite (be32_at _ _ _ _ Hd) by lia. cbn [mbind outcome_bind].
  unfold Coding.DecodeStr. rewrite str_assign_huge; [done|].
  unfold s32, u64, max_size. Z.to_euclidean_division_equations. lia.
Qed.

Arguments read_str : simpl never.

(** reading a streamed request back *)
Lemma stream_unstreamed self r body :
  29 + len (user_name r) + len (password r) + len (address r) < 2 ^ 31 →
  0 <= port r < 2 ^ 16 → 0 <= version r < 2 ^ 8 → len body < 2 ^ 62 →
  unstream self ((stream r []).2 ++ body) =
  Ret (Req (version r) (len (stream r []).2) (user_name r) (password r) (address r) (port r)
         (match body with [] => packed_buff self | _ => body end), true).
Proof.
  intros Hl Hp Hv Hb. rewrite stream_wire by len_lia. cbn [app].
  destruct r as [ver hl0 user pass addr p pk].
  cbn [version user_name password address port packed_buff] in *.
  rewrite len_wire, u32_small by len_lia.
  set (hl := 29 + len user + len pass + len addr).
  set (data := wire ver hl user pass addr p ++ body).
  assert (len data = hl + len body) as Hlen by (subst data; len_simpl; rewrite len_wire; lia).
  set (f1 := Coding.be32_bytes (len user) ++ user).
  set (f2 := Coding.be32_bytes (len pass) ++ pass).
  set (f3 := Coding.be32_bytes (len addr) ++ addr).
  set (p0 := v_identifier ++ [z2b ver]). set (p1 := p0 ++ Coding.be32_bytes hl).
  assert (data = p0 ++ Coding.be32_bytes hl ++ f1 ++ f2 ++ f3 ++ be16_bytes p ++ body) as Hd.
  { subst data p0 f1 f2 f3. unfold wire. by rewrite <-!app_assoc, <-!app_comm_cons, <-!app_assoc. }
  clearbody data.
  assert (data = p1 ++ f1 ++ f2 ++ f3 ++ be16_bytes p ++ body) as Hd1
    by (unfold p1; by rewrite <-!app_assoc).
  assert (len data < max_size) as Hm by (unfold max_size; subst hl; len_lia).
  unfold unstream. rewrite Hlen.
  rewrite (proj2 (Z.ltb_ge _ _)) by (unfold identifier_len; subst hl; len_lia).
  assert (str_at data identifier_len = Ret (z2b ver)) as ->.
  { rewrite Hd. unfold p0. rewrite <-app_assoc. by apply str_at_mid. }
  cbn [mbind outcome_bind]. rewrite b2z_z2b, u8_small by lia.
  change (identifier_len + 1) with (len p0).
  rewrite (be32_at data p0 hl _ Hd) by (subst hl; len_lia). cbn [mbind outcome_bind].
  rewrite (proj2 (Z.ltb_ge _ _)) by len_lia.
  change (len p0 + 4) with (len p1).
  rewrite (read_str_at data p1 user _ Hd1) by (done || len_lia).
  cbn [mbind outcome_bind fst snd]. fold f1.
  rewrite (read_str_at data (p1 ++ f1) pass (f3 ++ be16_bytes p ++ body))
    by (done || len_lia || by rewrite <-!app_assoc).
  cbn [mbind outcome_bind fst snd]. fold f2.
  rewrite (read_str_at data ((p1 ++ f1) ++ f2) addr (be16_bytes p ++ body))
    by (done || len_lia || by rewrite <-!app_assoc).
  cbn [mbind outcome_bind fst snd]. fold f3.
  rewrite (be16_at_cursor data (((p1 ++ f1) ++ f2) ++ f3) p body)
    by (done || by rewrite <-!app_assoc).
  cbn [mbind outcome_bind]. replace (hl + len body - hl) with (len body) by lia.
  destruct body as [|b body].
  - rewrite (proj2 (Z.ltb_ge _ _)) by len_lia. done.
  - rewrite (proj2 (Z.ltb_lt _ _)) by len_lia.
    assert (data = ((((p1 ++ f1) ++ f2) ++ f3) ++ be16_bytes p) ++ (b :: body) ++ []) as Hd4
      by (rewrite Hd1, app_nil_r; by rewrite <-!app_assoc).
    rewrite Hd4 in Hm |- *. rewrite str_assign_mid by len_lia. done.
Qed.

(** C37: the V-protocol request survives the wire.  What [stream] writes for
    user, password, address and port, followed by any forwarded bytes, is
    accepted by [unstream], which returns the same user, password, address and
    port; [header.len] is the length of the header and the bytes behind it
    become [packed_buff] (unchanged when there are none). *)
Theorem unstream_stream self r body :
  29 + len (user_name r) + len (password r) + len (address r) < 2 ^ 31 →
  0 <= port r < 2 ^ 16 → 0 <= version r < 2 ^ 8 → len body < 2 ^ 62 →
  unstream self ((stream r []).2 ++ body) =
  Ret (Req (version r) (len (stream r []).2) (user_name r) (password r) (address r) (port r)
         (match body with [] => packed_buff self | _ => body end), true).
Proof. apply stream_unstreamed. Qed.

Lemma unstream_stream_witness :
  let r := Req 1 0 (lit "test_usr") (lit "d63dc919") (lit "example.org") 443 [] in
  let blank := Req 0 0 [] [] [] 0 [] in
  unstream blank ((stream r []).2 ++ lit "hello") =
  Ret (Req 1 56 (lit "test_usr") (lit "d63dc919") (lit "example.org") 443 (lit "hello"), true).
Proof.
  cbv zeta.
  apply (unstream_stream (Req 0 0 [] [] [] 0 [])
           (Req 1 0 (lit "test_usr") (lit "d63dc919") (lit "example.org") 443 []) (lit "hello"));
    [reflexivity|cbn; lia|cbn; lia|reflexivity].
Defined.

(** The inner length fields are not checked against the buffer.  After the
    identifier, version and [header.len], a request that ends right there is
    read past its end, and one whose user-name length has the top bit set makes
    [unstream] throw [std::length_error]; neither depends on a password. *)
Lemma unstream_unchecked_lengths self ver hl :
  0 <= hl →
  (hl <= 15 → unstream self (v_identifier ++ z2b ver :: Coding.be32_bytes hl) = Undef) ∧
  (∀ l rest, hl <= 19 + len rest → hl < 2 ^ 32 → 2 ^ 31 <= l < 2 ^ 32 →
   unstream self (v_identifier ++ z2b ver :: Coding.be32_bytes hl ++ Coding.be32_bytes l ++ rest)
   = Throw length_error).
Proof.
  intros Hhl. set (p0 := v_identifier ++ [z2b ver]).
  assert (∀ tl, str_at (p0 ++ tl) identifier_len = Ret (z2b ver)) as Hv.
  { intros tl. unfold p0. rewrite <-app_assoc. by apply str_at_mid. }
  split.
  - intros Hs.
    replace (v_identifier ++ _) with (p0 ++ Coding.be32_bytes hl ++ [])
      by (unfold p0; by rewrite app_nil_r, <-app_assoc).
    unfold unstream. rewrite (proj2 (Z.ltb_ge _ _)) by done.
    rewrite Hv. cbn [mbind outcome_bind]. change (identifier_len + 1) with (len p0).
    rewrite (be32_at _ p0 hl [] eq_refl) by lia. cbn [mbind outcome_bind].
    rewrite (proj2 (Z.ltb_ge _ _)) by (unfold p0; len_simpl; rewrite len_v_identifier; lia).
    done.
  - intros l rest Hs Hh Hl.
    replace (v_identifier ++ _) with (p0 ++ Coding.be32_bytes hl ++ Coding.be32_bytes l ++ rest)
      by (unfold p0; by rewrite <-app_assoc).
    set (data := p0 ++ _). assert (len data = 19 + len rest) as Hd
      by (unfold data, p0; len_simpl; rewrite len_v_identifier; lia).
    unfold unstream. rewrite Hd, (proj2 (Z.ltb_ge _ _)) by (unfold identifier_len; len_lia).
    assert (str_at data identifier_len = Ret (z2b ver)) as -> by apply Hv.
    cbn [mbind outcome_bind].
    change (identifier_len + 1) with (len p0).
    rewrite (be32_at data p0 hl _ eq_refl) by lia. cbn [mbind outcome_bind].
    rewrite (proj2 (Z.ltb_ge _ _)) by lia.
    change (len p0 + 4) with (len (p0 ++ Coding.be32_bytes hl)).
    rewrite (read_str_huge data (p0 ++ Coding.be32_bytes hl) l rest); [done| |done].
    unfold data. by rewrite <-app_assoc.
Qed.

Lemma unstream_unchecked_lengths_witness :
  let blank := Req 0 0 [] [] [] 0 [] in
  unstream blank (v_identifier ++ z2b 1 :: Coding.be32_bytes 0) = Undef ∧
  unstream blank (v_identifier ++ z2b 1 :: Coding.be32_bytes 0
                    ++ Coding.be32_bytes 0xffffffff ++ lit "x") = Throw length_error.
Proof.
  cbv zeta. split.
  - refine (proj1 (unstream_unchecked_lengths (Req 0 0 [] [] [] 0 []) 1 0 _) _); lia.
  - refine (proj2 (unstream_unchecked_lengths (Req 0 0 [] [] [] 0 []) 1 0 _) 0xffffffff (lit "x") _ _ _);
      [lia|vm_compute; discriminate|lia|lia].
Defined.

End VRequest.
