(* ===== verification/Http.v ===== *)
(** Http: the HTTP CONNECT front end of the client
    (src/Protocol/http/http.h, http.cpp). *)
From S2P Require Import Prelude Decimal.

Module Http.

Module HttpRequest.
Record t := Req { host : bytes; port : Z }.
#[global] Instance eta_t : Eta t := fun r => Req (host r) (port r).
(** the default member initialisers *)
Definition init : t := Req [] 443.

(** [bool unstream(std::string& buf)] *)
Definition unstream (self : t) (buf : bytes) : outcome (t * bool) :=
  match find crlf buf with
  | None => mret (self, false)
  | Some line_end =>
      line ← substr_n buf 0 line_end;
      method ← substr_n line 0 8;
      if negb (bool_decide (method = lit "CONNECT ")) then mret (self, false)
      else
        address ← substr line 8;
        address ← match find (lit " ") address with
                  | Some space_pos => substr_n address 0 space_pos
                  | None => mret address
                  end;
        self ← match find (lit ":") address with
               | Some colon_pos =>
                   h ← substr_n address 0 colon_pos;
                   digits ← substr address (colon_pos + 1);
                   p ← Decimal.stoi digits;
                   mret (self <| host := h |> <| port := u16 p |>)
               | None => mret (self <| host := address |> <| port := 443 |>)
               end;
        mret (self, negb (bool_decide (host self = [])))
  end.
End HttpRequest.

Module HttpResponse.
(** [static void ok(std::string& buf)]: the buffer is overwritten *)
Definition ok : bytes := lit "HTTP/1.1 200 Connection Established" ++ crlf ++ crlf.
End HttpResponse.

Import HttpRequest.

(** whatever is sent, the parser reads within the line; it throws only where
    [std::stoi] does, or where a substring would start behind the text *)
Definition only_text_errors {A} (x : outcome A) : Prop :=
  match x with
  | Ret _ => True
  | Throw e => e = invalid_argument ∨ e = out_of_range
  | Undef => False
  end.
Lemma only_text_errors_bind {A B} (m : outcome A) (k : A → outcome B) :
  only_text_errors m → (∀ a, only_text_errors (k a)) → only_text_errors (m ≫= k).
Proof. destruct m; cbn; auto. Qed.
Lemma substr_text s p : only_text_errors (substr s p).
Proof. unfold substr. destruct (_ <? _); cbn; auto. Qed.
Lemma substr_n_text s p n : only_text_errors (substr_n s p n).
Proof. unfold substr_n. destruct (_ <? _); cbn; auto. Qed.
Lemma stoi_text s : only_text_errors (Decimal.stoi s).
Proof.
  unfold Decimal.stoi. repeat case_match; cbn; auto.
Qed.
Lemma unstream_total self buf : only_text_errors (unstream self buf).
Proof.
  unfold unstream. destruct (find crlf buf); [|exact I].
  apply only_text_errors_bind; [apply substr_n_text|intros line].
  apply only_text_errors_bind; [apply substr_n_text|intros method].
  destruct (negb _); [exact I|].
  apply only_text_errors_bind; [apply substr_text|intros address].
  apply only_text_errors_bind; [destruct (find _ _); [apply substr_n_text|exact I]|intros addr].
  apply only_text_errors_bind; [|intros ?; exact I].
  destruct (find _ _); [|exact I].
  apply only_text_errors_bind; [apply substr_n_text|intros h].
  apply only_text_errors_bind; [apply substr_text|intros ds].
  apply only_text_errors_bind; [apply stoi_text|intros ?; exact I].
Qed.

(** ** Text without a character *)
Lemma not_in_app (b : byte) s t : b ∉ s → b ∉ t → b ∉ s ++ t.
Proof. set_solver. Qed.

(** the request line of a CONNECT request *)
Definition connect_line (target version : bytes) : bytes :=
  lit "CONNECT " ++ target ++ lit " " ++ version.

(** the branch of [unstream] after the request line has been cut out *)
Lemma unstream_line self target version more :
  Byte.x0d ∉ target → Byte.x0d ∉ version → Byte.x20 ∉ target →
  unstream self (connect_line target version ++ crlf ++ more) =
  (self ← match find (lit ":") target with
          | Some colon_pos =>
              h ← substr_n target 0 colon_pos;
              digits ← substr target (colon_pos + 1);
              p ← Decimal.stoi digits;
              mret (self <| host := h |> <| port := u16 p |>)
          | None => mret (self <| host := target |> <| port := 443 |>)
          end;
   mret (self, negb (bool_decide (host self = [])))).
Proof.
  intros Ht Hv Hs. unfold unstream, connect_line.
  rewrite find_crlf.
  2: { repeat apply not_in_app; try done; by apply (bool_decide_unpack _). }
  rewrite substr_n_prefix by done. cbn [mbind outcome_bind].
  rewrite substr_n_prefix by done. cbn [mbind outcome_bind].
  rewrite bool_decide_eq_true_2 by done. cbn [negb].
  rewrite substr_app by done. cbn [mbind outcome_bind].
  change (lit " " ++ version) with (Byte.x20 :: version).
  change (lit " ") with [Byte.x20]. rewrite find_char by done.
  rewrite substr_n_prefix by done. done.
Qed.

(** An HTTP CONNECT request line with an explicit decimal port yields
    exactly that host and port, and one without a port yields the host and 443;
    what follows the line is ignored. *)
Lemma unstream_connect self h p version more :
  Byte.x0d ∉ h → Byte.x20 ∉ h → Byte.x3a ∉ h → h ≠ [] → Byte.x0d ∉ version →
  0 <= p < 2 ^ 16 →
  unstream self (connect_line (Decimal.host_port h p) version ++ crlf ++ more)
    = Ret (Req h p, true) ∧
  unstream self (connect_line h version ++ crlf ++ more) = Ret (Req h 443, true).
Proof.
  intros Hcr Hsp Hco Hne Hv Hp.
  destruct (Decimal.to_string_spec p) as (Hdig & _ & _); [lia|].
  split; rewrite unstream_line;
    try (done || (unfold Decimal.host_port; repeat apply not_in_app;
                  (done || (by apply (bool_decide_unpack _)) ||
                   (by apply Decimal.all_digits_not_in)))).
  - unfold Decimal.host_port. change (lit ":" ++ to_string p) with (Byte.x3a :: to_string p).
    change (lit ":") with [Byte.x3a]. rewrite find_char by done.
    rewrite substr_n_prefix by done. cbn [mbind outcome_bind].
    rewrite cons_middle, app_assoc, substr_app by len_lia. cbn [mbind outcome_bind].
    pose proof (Decimal.stoi_to_string p []) as Hst. rewrite app_nil_r in Hst.
    rewrite Hst by (done || lia). cbn. rewrite u16_small by lia.
    by rewrite bool_decide_eq_false_2.
  - change (lit ":") with [Byte.x3a]. unfold find. rewrite find_from_char_None by done. cbn.
    by rewrite bool_decide_eq_false_2.
Qed.

Lemma unstream_connect_witness :
  unstream init (connect_line (Decimal.host_port (lit "example.org") 8443) (lit "HTTP/1.1")
                   ++ crlf ++ lit "Host: x")
    = Ret (Req (lit "example.org") 8443, true) ∧
  unstream init (connect_line (lit "example.org") (lit "HTTP/1.1") ++ crlf ++ lit "Host: x")
    = Ret (Req (lit "example.org") 443, true).
Proof.
  apply unstream_connect;
    [by apply (bool_decide_unpack _)..|lia].
Defined.

(** A CONNECT target whose port does not start with a digit (a missing
    port, or the address part of a bracketed IPv6 literal such as "[::1]:443")
    makes [unstream] throw [std::invalid_argument] from [std::stoi], out of the
    completion handler that calls it. *)
Lemma unstream_bad_port self h t version more :
  Byte.x0d ∉ h ++ t → Byte.x20 ∉ h ++ t → Byte.x3a ∉ h → Byte.x0d ∉ version →
  (∀ b r, t = b :: r → Decimal.is_digit b = false ∧ Decimal.is_space b = false ∧
                       b ≠ Byte.x2d ∧ b ≠ Byte.x2b) →
  unstream self (connect_line (h ++ lit ":" ++ t) version ++ crlf ++ more)
    = Throw invalid_argument.
Proof.
  intros Hcr Hsp Hco Hv Ht.
  rewrite unstream_line.
  - change (lit ":" ++ t) with (Byte.x3a :: t). change (lit ":") with [Byte.x3a].
    rewrite find_char by done. rewrite substr_n_prefix by done. cbn [mbind outcome_bind].
    rewrite cons_middle, app_assoc, substr_app by len_lia. cbn [mbind outcome_bind].
    replace (Decimal.stoi t) with (@Throw Z invalid_argument); [done|].
    unfold Decimal.stoi. destruct t as [|b t]; [done|].
    destruct (Ht b t eq_refl) as (Hd & Hs & H1 & H2). cbn. rewrite Hs.
    destruct b; try done; cbn; by rewrite Hd.
  - set_solver.
  - done.
  - set_solver.
Qed.

Lemma unstream_bad_port_witness :
  unstream init (connect_line (lit "[" ++ lit ":" ++ lit ":1]:443") (lit "HTTP/1.1") ++ crlf ++ [])
    = Throw invalid_argument.
Proof.
  apply unstream_bad_port; try (by apply (bool_decide_unpack _)).
  intros b r [= <- _]. repeat split; discriminate.
Defined.

End Http.
