(* ===== verification/Ring.v ===== *)
(** Ring: the per-direction ring buffer [SessionBuffer] of src/Server/Session.h
    and the copy loop of [Session::enqueue_write] that fills it. *)
From S2P Require Import Prelude.

Module SessionBuffer.

Record t := Buf { buf_ : bytes; capacity_ : Z; read_pos_ : Z; used_ : Z }.
#[global] Instance eta_t : Eta t := fun r =>
  Buf (buf_ r) (capacity_ r) (read_pos_ r) (used_ r).

(** [explicit SessionBuffer(size_t cap = 64 * 1024)] *)
Definition make (cap : Z) : t := Buf (replicate (Z.to_nat cap) Byte.x00) cap 0 0.

(** [mutable_buffer prepare(size_t& len)]: the updated [len] and the region
    (offset and size) of [buf_] the returned buffer denotes *)
Definition prepare (r : t) (len : Z) : Z * (Z * Z) :=
  let avail := u64 (capacity_ r - used_ r) in
  if avail =? 0 then (0, (0, 0))
  else
    let n := len `min` avail in
    let wpos := u64 (read_pos_ r + used_ r) mod capacity_ r in
    let n := n `min` u64 (capacity_ r - wpos) in
    (n, (wpos, n)).

Definition commit (r : t) (n : Z) : t := r <| used_ := u64 (used_ r + n) |>.

(** [const_buffer peek() const]: a region of [buf_] *)
Definition peek (r : t) : Z * Z :=
  (read_pos_ r, used_ r `min` u64 (capacity_ r - read_pos_ r)).

Definition consume (r : t) (n : Z) : t :=
  r <| read_pos_ := u64 (read_pos_ r + n) mod capacity_ r |> <| used_ := u64 (used_ r - n) |>.

Definition empty (r : t) : bool := used_ r =? 0.
Definition size (r : t) : Z := used_ r.
Definition capacity (r : t) : Z := capacity_ r.
Definition has_space (r : t) (n : Z) : bool := u64 (used_ r + n) <=? capacity_ r.
Definition reset (r : t) : t := r <| read_pos_ := 0 |> <| used_ := 0 |>.

(** the bytes a region of the buffer holds *)
Definition region (r : t) (x : Z * Z) : bytes := slice (buf_ r) x.1 x.2.

(** The [while (remaining > 0)] loop of [enqueue_write]: [data] is what is left
    to copy.  Each iteration prepares a region, copies into it and commits, or
    stops when the ring is full; every iteration that goes on copies at least
    one byte, so the length of the data bounds their number. *)
Fixpoint enqueue_loop (fuel : nat) (r : t) (data : bytes) : t :=
  match fuel with
  | O => r
  | S fuel =>
      if 0 <? len data then
        let '(n, (wpos, _)) := prepare r (len data) in
        if n =? 0 then r
        else
          let chunk := take (Z.to_nat n) data in
          let r := r <| buf_ := overwrite (buf_ r) wpos chunk |> in
          enqueue_loop fuel (commit r n) (drop (Z.to_nat n) data)
      else r
  end.
Definition enqueue (r : t) (data : bytes) : t := enqueue_loop (length data) r data.

(** ** The invariant and the abstract content *)
Record wf (r : t) : Prop := Wf {
  wf_cap : 0 < capacity_ r < 2 ^ 62;
  wf_len : len (buf_ r) = capacity_ r;
  wf_pos : 0 <= read_pos_ r < capacity_ r;
  wf_used : 0 <= used_ r <= capacity_ r
}.

(** the position of the [i]-th unread byte *)
Definition pos (r : t) (i : nat) : nat :=
  Z.to_nat ((read_pos_ r + Z.of_nat i) mod capacity_ r).
(** the unread bytes, oldest first *)
Definition contents (r : t) : bytes :=
  (λ i, buf_ r !!! pos r i) <$> seq 0 (Z.to_nat (used_ r)).

Lemma mod_wrap x c : 0 <= x < 2 * c → x mod c = if x <? c then x else x - c.
Proof.
  intros. destruct (Z.ltb_spec x c); [apply Z.mod_small; lia|].
  symmetry. apply (Z.mod_unique _ _ 1); lia.
Qed.

Section Laws.
Context (r : t) (Hwf : wf r).

Lemma make_wf cap : 0 < cap < 2 ^ 62 → wf (make cap).
Proof. intros. split; cbn; try lia. unfold len. rewrite length_replicate. lia. Qed.

Lemma len_contents : len (contents r) = used_ r.
Proof. destruct Hwf. unfold len, contents. rewrite length_fmap, length_seq. lia. Qed.

Lemma contents_lookup i :
  (i < Z.to_nat (used_ r))%nat → contents r !! i = Some (buf_ r !!! pos r i).
Proof. intros. unfold contents. rewrite list_lookup_fmap, lookup_seq_lt by lia. done. Qed.

Lemma pos_eq i :
  Z.of_nat i < capacity_ r →
  Z.of_nat (pos r i) = if read_pos_ r + Z.of_nat i <? capacity_ r
                       then read_pos_ r + Z.of_nat i
                       else read_pos_ r + Z.of_nat i - capacity_ r.
Proof.
  intros. destruct Hwf. unfold pos. rewrite mod_wrap by lia.
  destruct (Z.ltb_spec (read_pos_ r + Z.of_nat i) (capacity_ r)); lia.
Qed.

Lemma empty_spec : empty r = bool_decide (contents r = []).
Proof.
  unfold empty. apply eq_true_iff_eq. rewrite Z.eqb_eq, bool_decide_eq_true.
  rewrite <-len_contents. split; [apply len_0_nil|]. by intros ->.
Qed.

Lemma reset_wf : wf (reset r) ∧ contents (reset r) = [].
Proof. destruct Hwf. split; [|done]. split; cbn; lia. Qed.

Lemma has_space_spec n :
  0 <= n < 2 ^ 62 → has_space r n = (len (contents r) + n <=? capacity_ r).
Proof. intros. destruct Hwf. unfold has_space. rewrite len_contents, u64_small by lia. done. Qed.

(** the peeked region is a prefix of the content, non-empty unless the ring is *)
Lemma peek_spec :
  let n := (peek r).2 in
  0 <= n <= used_ r ∧ (used_ r ≠ 0 → 0 < n) ∧ (peek r).1 + n <= capacity_ r ∧
  region r (peek r) = take (Z.to_nat n) (contents r).
Proof.
  destruct Hwf as [Hc Hl Hp Hu]. unfold peek, region. cbn [fst snd].
  rewrite u64_small by lia. split_and!; [lia..|].
  unfold slice. apply list_eq. intros i.
  destruct (decide (Z.of_nat i < used_ r `min` (capacity_ r - read_pos_ r))).
  - rewrite !lookup_take_lt, lookup_drop, contents_lookup by lia.
    assert (pos r i = (Z.to_nat (read_pos_ r) + i)%nat) as ->.
    { apply Nat2Z.inj. rewrite pos_eq by lia.
      destruct (Z.ltb_spec (read_pos_ r + Z.of_nat i) (capacity_ r)); lia. }
    apply list_lookup_lookup_total_lt. unfold len in Hl. lia.
  - rewrite !lookup_take_ge by lia. done.
Qed.

(** consuming drops from the front *)
Lemma consume_spec n :
  0 <= n <= used_ r → wf (consume r n) ∧ contents (consume r n) = drop (Z.to_nat n) (contents r).
Proof.
  intros Hn. destruct Hwf as [Hc Hl Hp Hu].
  assert (wf (consume r n)) as Hwf'.
  { unfold consume. cbn. rewrite !u64_small by lia.
    split; cbn; [lia|done|apply Z.mod_pos_bound; lia|lia]. }
  split; [done|]. apply list_eq. intros i. rewrite lookup_drop.
  unfold contents at 1. rewrite list_lookup_fmap. cbn. rewrite u64_small by lia.
  destruct (decide (Z.of_nat i < used_ r - n)).
  - rewrite lookup_seq_lt, contents_lookup by lia. cbn. f_equal. f_equal.
    unfold pos, consume. cbn. rewrite !u64_small by lia.
    rewrite Z.add_mod_idemp_l by lia. f_equal. f_equal. lia.
  - rewrite lookup_seq_ge by lia. cbn. symmetry. apply lookup_ge_None.
    pose proof len_contents as Hlc. unfold len in Hlc. lia.
Qed.

(** a prepared region lies behind the content and inside the free space *)
Lemma prepare_spec l :
  0 < l →
  let n := (prepare r l).1 in let wpos := (prepare r l).2.1 in
  (n = 0 ↔ used_ r = capacity_ r) ∧ 0 <= n <= l ∧ n <= capacity_ r - used_ r ∧
  (n ≠ 0 → wpos = Z.of_nat (pos r (Z.to_nat (used_ r))) ∧ 0 <= wpos ∧
           wpos + n <= capacity_ r).
Proof.
  intros Hl0. destruct Hwf as [Hc Hl Hp Hu]. unfold prepare.
  rewrite (u64_small (capacity_ r - used_ r)) by lia.
  destruct (Z.eqb_spec (capacity_ r - used_ r) 0); cbn; [lia|].
  pose proof (Z.mod_pos_bound (read_pos_ r + used_ r) (capacity_ r) ltac:(lia)) as Hm.
  unfold pos. rewrite (Z2Nat.id (used_ r)), Z2Nat.id by lia. rewrite (u64_small (read_pos_ r + used_ r)) by lia.
  rewrite u64_small by lia. lia.
Qed.

(** copying into a prepared region and committing appends *)
Lemma write_commit_spec n data :
  0 < n <= capacity_ r - used_ r → len data = n →
  let wpos := Z.of_nat (pos r (Z.to_nat (used_ r))) in
  wpos + n <= capacity_ r →
  let r' := commit (r <| buf_ := overwrite (buf_ r) wpos data |>) n in
  wf r' ∧ contents r' = contents r ++ data.
Proof.
  intros Hn Hd wpos Hfit r'. destruct Hwf as [Hc Hl Hp Hu].
  assert (used_ r' = used_ r + n) as Hu' by (cbn; apply u64_small; lia).
  assert (wf r') as Hwf' by (split; cbn in *; rewrite ?len_overwrite; lia).
  split; [done|].
  assert (wpos = if read_pos_ r + used_ r <? capacity_ r then read_pos_ r + used_ r
                 else read_pos_ r + used_ r - capacity_ r) as Hwpos.
  { unfold wpos. rewrite pos_eq by lia. rewrite Z2Nat.id by lia. done. }
  apply list_eq. intros i. unfold len in Hl, Hd.
  unfold contents at 1. rewrite list_lookup_fmap, Hu'.
  destruct (decide (Z.of_nat i < used_ r + n)).
  2: { rewrite lookup_seq_ge by lia. cbn. symmetry. apply lookup_ge_None.
       pose proof len_contents as Hlc. unfold len in Hlc. rewrite length_app. lia. }
  rewrite lookup_seq_lt by lia. cbn [fmap option_fmap option_map]. simpl.
  change (pos r' i) with (pos r i). pose proof (pos_eq i ltac:(lia)) as Hi.
  unfold overwrite. destruct (decide (Z.of_nat i < used_ r)).
  - rewrite lookup_app_l by (pose proof len_contents as Hlc; unfold len in Hlc; lia).
    rewrite contents_lookup by lia. f_equal.
    destruct (decide (Z.of_nat (pos r i) < wpos)).
    + apply list_lookup_total_inserts_lt. lia.
    + apply list_lookup_total_inserts_ge. revert Hi Hwpos.
      destruct (Z.ltb_spec (read_pos_ r + Z.of_nat i) (capacity_ r));
        destruct (Z.ltb_spec (read_pos_ r + used_ r) (capacity_ r)); lia.
  - assert (Z.of_nat (pos r i) = wpos + (Z.of_nat i - used_ r)) as Hpi.
    { revert Hi Hwpos. 
      destruct (Z.ltb_spec (read_pos_ r + Z.of_nat i) (capacity_ r));
        destruct (Z.ltb_spec (read_pos_ r + used_ r) (capacity_ r)); lia. }
    rewrite lookup_app_r by (pose proof len_contents as Hlc; unfold len in Hlc; lia).
    rewrite list_lookup_total_inserts by lia.
    replace (i - length (contents r))%nat with (pos r i - Z.to_nat wpos)%nat
      by (pose proof len_contents as Hlc; unfold len in Hlc; lia).
    symmetry. apply list_lookup_lookup_total_lt. lia.
Qed.
End Laws.

Lemma peek_nonempty r : wf r → contents r ≠ [] → region r (peek r) ≠ [].
Proof.
  intros Hwf Hne Hnil. apply Hne, len_0_nil. rewrite len_contents by done.
  destruct (peek_spec r Hwf) as (Hp0 & Hp1 & _ & Hp2).
  destruct (decide (used_ r = 0)) as [|Hu]; [done|].
  specialize (Hp1 Hu). rewrite Hp2 in Hnil. apply (f_equal len) in Hnil.
  rewrite len_take, len_contents in Hnil by (done || lia). rewrite len_nil in Hnil. lia.
Qed.

Lemma capacity_commit r b n : capacity_ (commit (r <| buf_ := b |>) n) = capacity_ r.
Proof. done. Qed.

Lemma enqueue_loop_spec fuel r data :
  wf r → (length data <= fuel)%nat →
  wf (enqueue_loop fuel r data) ∧ capacity_ (enqueue_loop fuel r data) = capacity_ r ∧
  contents (enqueue_loop fuel r data) =
    contents r ++ take (Z.to_nat (capacity_ r - used_ r)) data.
Proof.
  revert r data. induction fuel as [|fuel IH]; intros r data Hwf Hf; cbn [enqueue_loop].
  { destruct data; [|simpl in Hf; lia]. by rewrite take_nil, app_nil_r. }
  destruct (Z.ltb_spec 0 (len data)) as [Hd|Hd].
  2: { rewrite (len_0_nil data) by len_lia. by rewrite take_nil, app_nil_r. }
  destruct (prepare_spec r Hwf (len data) Hd) as (H0 & Hn & Havail & Hw).
  destruct (prepare r (len data)) as [n [wpos m]]. cbn [fst snd] in *.
  destruct (Z.eqb_spec n 0) as [E|E].
  { rewrite (proj1 H0 E), Z.sub_diag. by rewrite app_nil_r. }
  destruct (Hw E) as (-> & _ & Hfit).
  set (chunk := take (Z.to_nat n) data).
  assert (len chunk = n) as Hc by (unfold chunk; rewrite len_take; lia).
  destruct (write_commit_spec r Hwf n chunk) as [Hwf' Hcont]; [lia|done|done|].
  set (r' := commit _ _) in *.
  destruct (IH r' (drop (Z.to_nat n) data)) as (Hwf'' & Hcap & ->);
    [done|rewrite length_drop; lia|].
  split; [done|]. split; [by rewrite Hcap|].
  assert (used_ r' = used_ r + n) as Hu.
  { pose proof (len_contents r' Hwf') as L. pose proof (len_contents r Hwf).
    rewrite Hcont in L. len_lia. }
  rewrite Hcont, <-app_assoc. f_equal.
  change (capacity_ r') with (capacity_ r). rewrite Hu.
  unfold chunk.
  rewrite <-(take_drop (Z.to_nat n) (take (Z.to_nat (capacity_ r - used_ r)) data)).
  rewrite take_take, skipn_firstn_comm. f_equal; f_equal; lia.
Qed.

(** C33: the ring buffer is a bounded FIFO queue.  Filling it through the copy
    loop of [enqueue_write] keeps its invariant and appends the data, cut to the
    free space; [peek] shows a prefix of the content, non-empty unless the
    content is; [consume] removes exactly the first bytes.  All of this holds
    across the wrap-around of the buffer. *)
Theorem ring_is_fifo r data :
  wf r →
  (wf (enqueue r data) ∧
   contents (enqueue r data) =
     contents r ++ take (Z.to_nat (capacity_ r - len (contents r))) data) ∧
  region r (peek r) = take (Z.to_nat (peek r).2) (contents r) ∧
  (contents r ≠ [] → region r (peek r) ≠ []) ∧
  (∀ n, 0 <= n <= len (contents r) →
   wf (consume r n) ∧ contents (consume r n) = drop (Z.to_nat n) (contents r)).
Proof.
  intros Hwf. rewrite len_contents by done.
  destruct (enqueue_loop_spec (length data) r data Hwf) as (H1 & _ & H2); [done|].
  destruct (peek_spec r Hwf) as (_ & _ & _ & Hp).
  split_and!; [done|done|done|by apply peek_nonempty|by apply consume_spec].
Qed.

(** a ring of four bytes that has wrapped around *)
Definition wrapped : t := enqueue (consume (enqueue (make 4) (lit "abc")) 2) (lit "def").

Lemma wrapped_wf : wf wrapped.
Proof. split; vm_compute; try split; try reflexivity; intros; discriminate. Qed.

Lemma ring_is_fifo_witness :
  wf wrapped ∧ contents wrapped = lit "cdef" ∧
  region wrapped (peek wrapped) = take (Z.to_nat (peek wrapped).2) (contents wrapped).
Proof.
  split; [exact wrapped_wf|]. split; [reflexivity|].
  exact (proj1 (proj2 (ring_is_fifo wrapped [] wrapped_wf))).
Defined.

End SessionBuffer.
