(* ===== verification/DnsCache.v ===== *)
(** DnsCache: the process-wide cache of resolved endpoints
    (src/Shared/DnsCache.h, DnsCache.cpp).  Every operation holds the mutex from
    start to end, so operations are atomic steps on the state; the value of
    [time(nullptr)] at the step is the argument [now]. *)
From S2P Require Import Prelude Net.

Module DnsCache.

(** [UdpEntry] and [TcpEntry] have the same fields *)
Record entry := Entry { endpoint : Net.endpoint; expire_time : Z }.

Record t := Manager {
  default_ttl_ : Z;
  udp_cache_ : gmap bytes entry;
  tcp_cache_ : gmap bytes entry
}.
#[global] Instance eta_t : Eta t := fun r =>
  Manager (default_ttl_ r) (udp_cache_ r) (tcp_cache_ r).
Definition init : t := Manager 600 ∅ ∅.

Definition set_default_ttl (m : t) (ttl : Z) : t := m <| default_ttl_ := ttl |>.

(** the body the two getters share: [Some ep] is [true] with [ep] assigned *)
Definition get (c : gmap bytes entry) (now : Z) (key : bytes) : option Net.endpoint :=
  match c !! key with
  | Some e => if now <? expire_time e then Some (endpoint e) else None
  | None => None
  end.
Definition get_udp (m : t) (now : Z) (key : bytes) : option Net.endpoint :=
  get (udp_cache_ m) now key.
Definition get_tcp (m : t) (now : Z) (key : bytes) : option Net.endpoint :=
  get (tcp_cache_ m) now key.

Definition put_udp (m : t) (now : Z) (key : bytes) (ep : Net.endpoint) : t :=
  m <| udp_cache_ := <[key := Entry ep (now + default_ttl_ m)]> (udp_cache_ m) |>.
Definition put_tcp (m : t) (now : Z) (key : bytes) (ep : Net.endpoint) : t :=
  m <| tcp_cache_ := <[key := Entry ep (now + default_ttl_ m)]> (tcp_cache_ m) |>.

(** the two erase loops of [cleanup_expired] *)
Definition sweep (now : Z) (c : gmap bytes entry) : gmap bytes entry :=
  filter (λ kv, ¬ (expire_time kv.2 <= now)) c.
Definition cleanup_expired (m : t) (now : Z) : t :=
  m <| udp_cache_ := sweep now (udp_cache_ m) |> <| tcp_cache_ := sweep now (tcp_cache_ m) |>.

(** ** The specification: what a history of operations promises a reader *)
Inductive proto := UDP | TCP.
#[global] Instance proto_eq_dec : EqDecision proto.
Proof. solve_decision. Defined.

(** the operations that change the state, with the time they run at *)
Inductive op :=
  | Put (p : proto) (now : Z) (key : bytes) (ep : Net.endpoint)
  | Cleanup (now : Z)
  | SetTtl (now : Z) (ttl : Z).
Definition op_time (o : op) : Z :=
  match o with Put _ n _ _ => n | Cleanup n => n | SetTtl n _ => n end.

Definition step (m : t) (o : op) : t :=
  match o with
  | Put UDP n k ep => put_udp m n k ep
  | Put TCP n k ep => put_tcp m n k ep
  | Cleanup n => cleanup_expired m n
  | SetTtl _ ttl => set_default_ttl m ttl
  end.
(** a history is listed newest operation first *)
Fixpoint run (h : list op) : t :=
  match h with [] => init | o :: h => step (run h) o end.
Definition lookup (m : t) (p : proto) (now : Z) (key : bytes) : option Net.endpoint :=
  match p with UDP => get_udp m now key | TCP => get_tcp m now key end.

Fixpoint spec_ttl (h : list op) : Z :=
  match h with [] => 600 | SetTtl _ ttl :: _ => ttl | _ :: h => spec_ttl h end.
(** the most recent [Put] of the key, if it has not expired *)
Fixpoint spec_lookup (h : list op) (p : proto) (now : Z) (key : bytes) : option Net.endpoint :=
  match h with
  | [] => None
  | Put p' n k ep :: h =>
      if decide (p' = p ∧ k = key)
      then (if now <? n + spec_ttl h then Some ep else None)
      else spec_lookup h p now key
  | _ :: h => spec_lookup h p now key
  end.

(** ** Refinement *)
Lemma run_ttl h : default_ttl_ (run h) = spec_ttl h.
Proof. induction h as [|[[]| |] h IH]; done. Qed.

Lemma get_insert c k e now key :
  get (<[k := e]> c) now key =
  if decide (k = key) then (if now <? expire_time e then Some (endpoint e) else None)
  else get c now key.
Proof. unfold get. rewrite lookup_insert. by case_decide. Qed.

(** sweeping at an earlier time removes nothing a later reader would see *)
Lemma get_sweep c n now key : n <= now → get (sweep n c) now key = get c now key.
Proof.
  intros Hn. unfold get, sweep. destruct (c !! key) as [e|] eqn:E.
  - destruct (decide (expire_time e <= n)) as [He|He].
    + rewrite map_lookup_filter_None_2; [|right; intros ? [= <-]%(eq_trans (eq_sym E)); cbn; tauto].
      destruct (Z.ltb_spec now (expire_time e)); [lia|done].
    + by rewrite (map_lookup_filter_Some_2 _ _ _ e).
  - by rewrite map_lookup_filter_None_2 by (by left).
Qed.

(** C29: the cache implements its specification.  After any history of puts,
    TTL changes and periodic clean-ups, a reader whose clock is not behind the
    operations gets exactly the endpoint of the most recent put of that key in
    that protocol if it has not expired, and nothing otherwise; clean-ups are
    invisible to readers and the two protocols do not interfere. *)
Theorem lookup_refines_spec h p now key :
  Forall (λ o, op_time o <= now) h →
  lookup (run h) p now key = spec_lookup h p now key.
Proof.
  induction 1 as [|o h Ho _ IH]; [by destruct p|].
  destruct o as [p' n k ep|n|n ttl]; cbn in Ho |- *.
  - rewrite <-run_ttl.
    destruct p', p; cbn in *; unfold get_udp, get_tcp in *; cbn; rewrite ?get_insert, ?IH; cbn;
      repeat case_decide; naive_solver.
  - destruct p; cbn in *; unfold get_udp, get_tcp in *; cbn; by rewrite get_sweep.
  - by destruct p.
Qed.

Lemma lookup_refines_spec_witness :
  let ep := Net.Endpoint (Net.address_v4 [Byte.x01; Byte.x02; Byte.x03; Byte.x04]) 80 in
  lookup (run [Cleanup 1200; Put UDP 1000 (lit "a:80") ep; SetTtl 900 300]) UDP 1250 (lit "a:80")
    = spec_lookup [Cleanup 1200; Put UDP 1000 (lit "a:80") ep; SetTtl 900 300] UDP 1250 (lit "a:80")
  ∧ lookup (run [Cleanup 1200; Put UDP 1000 (lit "a:80") ep; SetTtl 900 300]) UDP 1250 (lit "a:80")
    = Some ep.
Proof.
  split; [|vm_compute; reflexivity].
  apply lookup_refines_spec. repeat constructor; vm_compute; discriminate.
Defined.

End DnsCache.
