(* ===== verification/ServerSession.v ===== *)
(** ServerSession: one proxied client connection of the server
    (src/Server/Session.h, Session.cpp, TlsSession.cpp, WebsocketSession.cpp).

    The code is a set of completion handlers of asynchronous operations.  The
    session's state is a record; an asynchronous operation that has been started
    is an element of [pending]; running the handler of a completed operation is
    the function [handle], whose arguments are the operation and its result, and
    which adds the operations the handler starts.  The environment (sockets,
    resolver, clock, the other sessions' use of the DNS cache) chooses which
    pending operation completes next and how. *)
From S2P Require Import Prelude Net Decimal Trojan VRequest Ring DnsCache.

Module ServerSession.

Definition MAX_BUFF_SIZE : Z := 64 * 1024.

Inductive State := HANDSHAKE | FORWARD | DESTROY.
#[global] Instance State_eq_dec : EqDecision State.
Proof. solve_decision. Defined.

(** [DIR_DOWN] is client to target, [DIR_UP] target to client *)
Inductive direction := DOWN | UP.
#[global] Instance direction_eq_dec : EqDecision direction.
Proof. solve_decision. Defined.

(** the two session classes differ in the transport to the client *)
Inductive transport := Tls | Websocket.

(** ** Asynchronous operations in flight *)
Inductive op :=
  | Handshake                                   (* of TLS *)
  | AcceptWs                                    (* of the websocket *)
  | ReadRequest                                 (* handle_custom_protocol *)
  | Resolve (host : bytes) (port : bytes) (key : bytes)
  | Connect (ep : Net.endpoint)
  | WritePayload (data : bytes)
  | Read (d : direction)                        (* async_bidirectional_read *)
  | Send (d : direction) (data : bytes) (socket_open : bool)
  | UdpRead                                     (* udp_upstream_read *)
  | UdpReadDown                                 (* udp_async_bidirectional_read *)
  | UdpRecvUp
  | UdpResolveFirst (p : Trojan.UDPPacket.t) (key : bytes)
  | UdpResolveNext (p : Trojan.UDPPacket.t) (key : bytes)
  | UdpSendFirst (p : Trojan.UDPPacket.t) (ep : Net.endpoint)  (* the payload of [p], to [ep] *)
  | UdpSendNext (p : Trojan.UDPPacket.t) (ep : Net.endpoint)
  | UdpWriteUp (packet : bytes).

(** how an operation completes *)
Inductive result :=
  | Failed                                      (* ec is set *)
  | Done                                        (* handshake, connect, async_write *)
  | Received (data : bytes)
  | Sent (n : Z)
  | Resolved (eps : list Net.endpoint).

(** what a handler asks of the system synchronously: the clock, whether opening
    the UDP socket, setting the options of the target's socket and closing a
    target's socket succeed, and whether the datagram a receive completes with
    was already there when the receive was started *)
Record env := Env {
  now : Z; udp_open_ok : bool; options_ok : bool; close_ok : bool; datagram_waiting : bool
}.

(** ** State *)
(** the members a direction has of its own; [read_total] and [sent_total] record
    the bytes taken from the source socket and accepted by the sink socket *)
Record lane := Lane {
  ring : SessionBuffer.t; sending : bool; pausing : bool;
  read_total : bytes; sent_total : bytes
}.
#[global] Instance eta_lane : Eta lane := fun r =>
  Lane (ring r) (sending r) (pausing r) (read_total r) (sent_total r).

Record session := Session {
  state_ : State;
  down : lane; up : lane;
  upstream_open : bool;                          (* upstream_socket *)
  downstream_open : bool;                        (* downstream_socket *)
  downstream_udp_open : bool;                    (* downstream_udp_socket *)
  trojanReq : Trojan.TrojanReq.t;
  v_req : VRequest.t;
  password : bytes;
  upstream_udp_buff : bytes;
  udp_buff_offset_ : Z;
  in_buf : bytes;
  out_buf : bytes;
  remote_host : bytes;
  remote_port : bytes;
  vprotocol : bool;
  dns : DnsCache.t;                              (* DnsCacheManager::instance() *)
  pending : list op
}.
#[global] Instance eta_session : Eta session := fun r =>
  Session (state_ r) (down r) (up r) (upstream_open r) (downstream_open r)
    (downstream_udp_open r) (trojanReq r) (v_req r) (password r) (upstream_udp_buff r)
    (udp_buff_offset_ r) (in_buf r) (out_buf r) (remote_host r) (remote_port r)
    (vprotocol r) (dns r) (pending r).

Definition lane_init : lane := Lane (SessionBuffer.make MAX_BUFF_SIZE) false false [] [].

(** the constructor, called for an accepted connection *)
Definition init (cache : DnsCache.t) : session :=
  Session HANDSHAKE lane_init lane_init true false false
    (Trojan.TrojanReq.Req 0 [] (Trojan.SOCKS5Address.Addr 0 [] 0) [])
    (VRequest.Req 0 0 [] [] [] 0 [])
    [] [] 0 (replicate (Z.to_nat MAX_BUFF_SIZE) Byte.x00)
    (replicate (Z.to_nat MAX_BUFF_SIZE) Byte.x00) [] [] false cache [].

Definition get_lane (d : direction) (s : session) : lane :=
  match d with DOWN => down s | UP => up s end.
Definition set_lane (d : direction) (l : lane) (s : session) : session :=
  match d with DOWN => s <| down := l |> | UP => s <| up := l |> end.

(** start an asynchronous operation *)
Definition start_op (o : op) (s : session) : session := s <| pending := pending s ++ [o] |>.

(** whether the socket a direction sends to is open *)
Definition sink_open (d : direction) (s : session) : bool :=
  match d with DOWN => downstream_open s | UP => upstream_open s end.

(** ** destroy *)
(** [Session<T>::destroy].  The UDP socket's [close()] and the target socket's
    [cancel()] and [close()] are the overloads that throw; they are called on an
    open socket only. *)
Definition base_destroy (e : env) (s : session) : outcome session :=
  let clear l := l <| ring := SessionBuffer.reset (ring l) |> <| sending := false |>
                   <| pausing := false |> in
  let s := s <| down := clear (down s) |> <| up := clear (up s) |> in
  s ← (if downstream_udp_open s then
         if close_ok e then mret (s <| downstream_udp_open := false |>)
         else Throw system_error
       else mret s);
  if downstream_open s then
    if close_ok e then mret (s <| downstream_open := false |>) else Throw system_error
  else mret s.

(** [TlsSession::destroy], [WebsocketSession::destroy], and the virtual call *)
Definition tls_destroy (e : env) (s : session) : outcome session :=
  if decide (state_ s = DESTROY) then mret s
  else
    s ← base_destroy e (s <| state_ := DESTROY |>);
    mret (s <| upstream_open := false |>).
Definition websocket_destroy (e : env) (s : session) : outcome session :=
  if decide (state_ s = DESTROY) then mret s
  else base_destroy e (s <| state_ := DESTROY |> <| upstream_open := false |>).
Definition destroy (tr : transport) : env → session → outcome session :=
  match tr with Tls => tls_destroy | Websocket => websocket_destroy end.

(** what [destroy] leaves behind when it does not throw *)
Definition destroyed (s : session) : session :=
  let clear l := l <| ring := SessionBuffer.reset (ring l) |> <| sending := false |>
                   <| pausing := false |> in
  if decide (state_ s = DESTROY) then s
  else s <| state_ := DESTROY |> <| down := clear (down s) |> <| up := clear (up s) |>
         <| downstream_udp_open := false |> <| downstream_open := false |>
         <| upstream_open := false |>.

(** [destroy] throws exactly if closing an open socket fails *)
Definition destroy_throws (e : env) (s : session) : bool :=
  bool_decide (state_ s ≠ DESTROY) && (downstream_udp_open s || downstream_open s)
  && negb (close_ok e).

Lemma destroy_spec tr e s :
  destroy tr e s = if destroy_throws e s then Throw system_error else Ret (destroyed s).
Proof.
  unfold destroy_throws, destroyed, destroy, tls_destroy, websocket_destroy, base_destroy.
  destruct s as [st ? ? ? td tu]. cbn.
  destruct tr, st, td, tu, (close_ok e); cbn; reflexivity.
Qed.
Lemma destroy_Ret tr e s s' : destroy tr e s = Ret s' → s' = destroyed s.
Proof. rewrite destroy_spec. destruct (destroy_throws e s); [done|]. by intros [= <-]. Qed.
(** nothing throws when no socket to a target is open *)
Lemma destroy_closed tr e s :
  downstream_udp_open s = false → downstream_open s = false →
  destroy tr e s = Ret (destroyed s).
Proof.
  intros H1 H2. rewrite destroy_spec. unfold destroy_throws. by rewrite H1, H2, andb_false_r.
Qed.

(** the state after a handler that returned, whichever way it ended *)
Ltac ret_inv H := first [ injection H as <- | apply destroy_Ret in H as -> ].

(** ** TCP forwarding *)
(** one [async_read_some] of [async_bidirectional_read] *)
Definition start_read (d : direction) (s : session) : session := start_op (Read d) s.
(** [async_bidirectional_read(DIR_BOTH)] *)
Definition read_both (s : session) : session := start_read UP (start_read DOWN s).

(** [do_send_down] and [do_send_up] *)
Definition do_send (d : direction) (s : session) : session :=
  let l := get_lane d s in
  if SessionBuffer.empty (ring l) then
    let l := l <| sending := false |> in
    if pausing l then start_read d (set_lane d (l <| pausing := false |>) s)
    else set_lane d l s
  else
    start_op (Send d (SessionBuffer.region (ring l) (SessionBuffer.peek (ring l)))
                (sink_open d s)) s.

(** [enqueue_write] *)
Definition enqueue_write (d : direction) (data : bytes) (s : session) : session :=
  let l := get_lane d s in
  let l := l <| ring := SessionBuffer.enqueue (ring l) data |> in
  if sending l then set_lane d l s
  else do_send d (set_lane d (l <| sending := true |>) s).

(** [async_bidirectional_write] *)
Definition async_bidirectional_write (d : direction) (data : bytes) (s : session) : session :=
  let s := enqueue_write d data s in
  if SessionBuffer.has_space (ring (get_lane d s)) MAX_BUFF_SIZE then start_read d s
  else set_lane d ((get_lane d s) <| pausing := true |>) s.

(** the buffer a direction's reads fill *)
Definition fill (d : direction) (data : bytes) (s : session) : session :=
  match d with
  | DOWN => s <| in_buf := overwrite (in_buf s) 0 data |>
  | UP => s <| out_buf := overwrite (out_buf s) 0 data |>
  end.

(** the handler of a read *)
Definition on_read (tr : transport) (e : env) (d : direction) (r : result) (s : session)
    : outcome session :=
  match r with
  | Received data =>
      let s := fill d data s in
      if decide (state_ s = DESTROY) then mret s
      else
        let l := get_lane d s in
        mret (async_bidirectional_write d data
                (set_lane d (l <| read_total := read_total l ++ data |>) s))
  | _ => if decide (state_ s = DESTROY) then mret s else destroy tr e s
  end.

(** the handler of a send: there is no test of [state_] here *)
Definition sent (d : direction) (data : bytes) (n : Z) (s : session) : session :=
  let l := get_lane d s in
  do_send d (set_lane d
    (l <| ring := SessionBuffer.consume (ring l) n |>
       <| sent_total := sent_total l ++ take (Z.to_nat n) data |>) s).
Definition on_sent (tr : transport) (e : env) (d : direction) (data : bytes) (r : result)
    (s : session) : outcome session :=
  match r with Sent n => mret (sent d data n s) | _ => destroy tr e s end.

(** ** Connecting to the target *)
(** [do_connect]: [async_connect] opens the socket *)
Definition do_connect (ep : Net.endpoint) (s : session) : session :=
  start_op (Connect ep) (s <| state_ := FORWARD |> <| downstream_open := true |>).

(** [do_resolve] *)
Definition do_resolve (e : env) (s : session) : session :=
  let host := if vprotocol s then VRequest.address (v_req s)
              else Trojan.SOCKS5Address.address (Trojan.TrojanReq.address (trojanReq s)) in
  let port := if vprotocol s then VRequest.port (v_req s)
              else Trojan.SOCKS5Address.port (Trojan.TrojanReq.address (trojanReq s)) in
  let s := s <| remote_host := host |> <| remote_port := to_string port |> in
  let dns_key := remote_host s ++ lit ":" ++ remote_port s in
  match DnsCache.get_tcp (dns s) (now e) dns_key with
  | Some cached_ep => do_connect cached_ep s
  | None => start_op (Resolve (remote_host s) (remote_port s) dns_key) s
  end.

Definition on_resolved (tr : transport) (e : env) (key : bytes) (r : result) (s : session)
    : outcome session :=
  match r with
  | Resolved (ep :: _) =>
      mret (do_connect ep (s <| dns := DnsCache.put_tcp (dns s) (now e) key ep |>))
  | _ => destroy tr e s
  end.

(** the payload behind the request header *)
Definition first_payload (s : session) : bytes :=
  if vprotocol s then VRequest.packed_buff (v_req s)
  else Trojan.TrojanReq.payload (trojanReq s).

(** the two [set_option] calls are the overload that throws, for example when the
    target has reset the connection by then *)
Definition on_connected (tr : transport) (e : env) (r : result) (s : session)
    : outcome session :=
  match r with
  | Done =>
      if options_ok e then
        if negb (bool_decide (first_payload s = []))
        then mret (start_op (WritePayload (first_payload s)) s)
        else mret (read_both s)
      else Throw system_error
  | _ => destroy tr e s
  end.

Definition on_payload_written (tr : transport) (e : env) (r : result) (s : session)
    : outcome session :=
  match r with Done => mret (read_both s) | _ => destroy tr e s end.

(** ** Trojan UDP associate *)
(** [udp_async_bidirectional_read] *)
Definition udp_read_both (s : session) : session :=
  start_op UdpRecvUp (start_op UdpReadDown s).

(** the bytes not yet parsed *)
Definition udp_remaining (s : session) : bytes :=
  drop (Z.to_nat (udp_buff_offset_ s)) (upstream_udp_buff s).

Definition blank_packet : Trojan.UDPPacket.t :=
  Trojan.UDPPacket.Packet (Trojan.SOCKS5Address.Addr 0 [] 0) 0 [].

(** [udp_buff_offset_ += packet_len] and the compaction that follows it *)
Definition udp_advance (packet_len : Z) (s : session) : session :=
  let off := udp_buff_offset_ s + packet_len in
  if (MAX_BUFF_SIZE / 2 <? off) && (off <? len (upstream_udp_buff s))
  then s <| upstream_udp_buff := drop (Z.to_nat off) (upstream_udp_buff s) |>
         <| udp_buff_offset_ := 0 |>
  else s <| udp_buff_offset_ := off |>.

Definition udp_key (p : Trojan.UDPPacket.t) : bytes :=
  Decimal.host_port (Trojan.SOCKS5Address.address (Trojan.UDPPacket.address p))
    (Trojan.SOCKS5Address.port (Trojan.UDPPacket.address p)).

(** the first IPv4 result, or the first result *)
Definition pick_endpoint (eps : list Net.endpoint) : option Net.endpoint :=
  match List.find (λ ep, Net.is_v4 (Net.ep_address ep)) eps with
  | Some ep => Some ep
  | None => head eps
  end.

(** open the UDP socket if it is not open, then [async_send_to] *)
Definition udp_send_first (tr : transport) (e : env) (p : Trojan.UDPPacket.t)
    (ep : Net.endpoint) (s : session) : outcome session :=
  if downstream_udp_open s then mret (start_op (UdpSendFirst p ep) s)
  else if udp_open_ok e
       then mret (start_op (UdpSendFirst p ep) (s <| downstream_udp_open := true |>))
       else destroy tr e s.

(** [handle_trojan_udp_proxy] *)
Definition handle_trojan_udp_proxy (tr : transport) (e : env) (s : session) : outcome session :=
  let s := s <| state_ := FORWARD |> in
  r ← Trojan.UDPPacket.parse blank_packet (udp_remaining s);
  match r with
  | (_, None) =>
      if MAX_BUFF_SIZE <? len (upstream_udp_buff s) - udp_buff_offset_ s
      then destroy tr e s
      else mret (start_op UdpRead s)
  | (p, Some packet_len) =>
      let s := udp_advance packet_len s in
      match DnsCache.get_udp (dns s) (now e) (udp_key p) with
      | Some ep => udp_send_first tr e p ep s
      | None => mret (start_op (UdpResolveFirst p (udp_key p)) s)
      end
  end.

(** the handler of [udp_upstream_read] *)
Definition on_udp_read (tr : transport) (e : env) (r : result) (s : session) : outcome session :=
  match r with
  | Received data =>
      let s := fill DOWN data s in
      handle_trojan_udp_proxy tr e
        (s <| upstream_udp_buff := upstream_udp_buff s ++ data |>)
  | _ => destroy tr e s
  end.

Definition on_udp_resolved_first (tr : transport) (e : env) (p : Trojan.UDPPacket.t)
    (key : bytes) (r : result) (s : session) : outcome session :=
  match r with
  | Resolved eps =>
      match pick_endpoint eps with
      | Some ep =>
          udp_send_first tr e p ep
            (s <| dns := DnsCache.put_udp (dns s) (now e) key ep |>)
      | None => destroy tr e s
      end
  | _ => destroy tr e s
  end.

Definition on_udp_sent_first (tr : transport) (e : env) (r : result) (s : session)
    : outcome session :=
  match r with Sent _ => mret (udp_read_both s) | _ => destroy tr e s end.

(** the client half of [udp_async_bidirectional_read] *)
Definition on_udp_read_down (tr : transport) (e : env) (r : result) (s : session)
    : outcome session :=
  match r with
  | Received data =>
      let s := fill DOWN data s in
      let s := s <| upstream_udp_buff := upstream_udp_buff s ++ data |> in
      r ← Trojan.UDPPacket.parse blank_packet (udp_remaining s);
      match r with
      | (p, Some packet_len) =>
          let s := udp_advance packet_len s in
          match DnsCache.get_udp (dns s) (now e) (udp_key p) with
          | Some ep => mret (start_op (UdpSendNext p ep) s)
          | None => mret (start_op (UdpResolveNext p (udp_key p)) s)
          end
      | (_, None) =>
          if MAX_BUFF_SIZE <? len (upstream_udp_buff s) - udp_buff_offset_ s
          then destroy tr e s
          else mret (start_op UdpReadDown s)
      end
  | _ => destroy tr e s
  end.

Definition on_udp_resolved_next (tr : transport) (e : env) (p : Trojan.UDPPacket.t)
    (key : bytes) (r : result) (s : session) : outcome session :=
  match r with
  | Resolved eps =>
      match pick_endpoint eps with
      | Some ep =>
          mret (start_op (UdpSendNext p ep)
                  (s <| dns := DnsCache.put_udp (dns s) (now e) key ep |>))
      | None => destroy tr e s
      end
  | _ => destroy tr e s
  end.

Definition on_udp_sent_next (tr : transport) (e : env) (r : result) (s : session)
    : outcome session :=
  match r with Sent _ => mret (start_op UdpReadDown s) | _ => destroy tr e s end.

(** the target half.  [udp_sender_endpoint] is copied into the handler when the
    receive is started, so the packet always carries the default endpoint; and the
    receive keeps a reference to that local variable, which is gone once
    [udp_async_bidirectional_read] has returned.  Only a datagram that is read while the
    receive is being started finds it; one that comes later is written through a
    dangling reference. *)
Definition on_udp_recv_up (tr : transport) (e : env) (r : result) (s : session)
    : outcome session :=
  match r with
  | Received data =>
      if datagram_waiting e then
        let s := fill UP data s in
        mret (start_op (UdpWriteUp (Trojan.UDPPacket.generate Net.no_endpoint data)) s)
      else Undef
  | _ => destroy tr e s
  end.

Definition on_udp_written_up (tr : transport) (e : env) (r : result) (s : session)
    : outcome session :=
  match r with Done => mret (start_op UdpRecvUp s) | _ => destroy tr e s end.

(** ** The request *)
(** [start]: the handshake, for a websocket the handshake on top of it, then
    [handle_custom_protocol] *)
Definition start (s : session) : session := start_op Handshake s.
Definition handle_custom_protocol (s : session) : session := start_op ReadRequest s.
Definition tls_on_handshake (e : env) (r : result) (s : session) : outcome session :=
  match r with Done => mret (handle_custom_protocol s) | _ => tls_destroy e s end.
Definition websocket_on_handshake (e : env) (r : result) (s : session) : outcome session :=
  match r with Done => mret (start_op AcceptWs s) | _ => websocket_destroy e s end.
Definition on_accept (e : env) (r : result) (s : session) : outcome session :=
  match r with Done => mret (handle_custom_protocol s) | _ => websocket_destroy e s end.
Definition on_handshake (tr : transport) : env → result → session → outcome session :=
  match tr with Tls => tls_on_handshake | Websocket => websocket_on_handshake end.

Lemma on_handshake_cases tr e r s s' :
  on_handshake tr e r s = Ret s' →
  s' = destroyed s ∨ s' = start_op ReadRequest s ∨ s' = start_op AcceptWs s.
Proof.
  intros H. destruct tr, r; cbn in H; try (injection H as <-; by auto); left;
    [by apply (destroy_Ret Tls e)..|by apply (destroy_Ret Websocket e)
    |by apply (destroy_Ret Websocket e)|by apply (destroy_Ret Websocket e)
    |by apply (destroy_Ret Websocket e)].
Qed.
Lemma on_accept_cases e r s s' :
  on_accept e r s = Ret s' → s' = destroyed s ∨ s' = start_op ReadRequest s.
Proof.
  intros H. destruct r; cbn in H; try (injection H as <-; by auto); left;
    by apply (destroy_Ret Websocket e).
Qed.

Section Request.
Context (allowed_passwords : gset bytes).

(** the handler of [handle_custom_protocol] *)
Definition on_request (tr : transport) (e : env) (r : result) (s : session) : outcome session :=
  match r with
  | Received data =>
      let s := fill DOWN data s in
      v ← VRequest.is_v_protocol (in_buf s);
      '(valid, s) ←
        (if v : bool then
           u ← VRequest.unstream (v_req s) data;
           mret (u.2, s <| v_req := u.1 |> <| password := VRequest.password u.1 |>
                        <| vprotocol := true |>)
         else
           u ← Trojan.TrojanReq.parse (trojanReq s) data;
           mret (negb (u.2 =? -1),
                 s <| trojanReq := u.1 |> <| password := Trojan.TrojanReq.password u.1 |>));
      if valid : bool then
        if decide (password s ∈ allowed_passwords) then
          if negb (vprotocol s)
               && (Trojan.TrojanReq.command (trojanReq s) =? Trojan.UDP_ASSOCIATE)
          then handle_trojan_udp_proxy tr e
                 (s <| upstream_udp_buff := Trojan.TrojanReq.payload (trojanReq s) |>)
          else mret (do_resolve e s)
        else destroy tr e s
      else destroy tr e s
  | _ => destroy tr e s
  end.

(** ** Running the handler of a completed operation *)
Definition handle (tr : transport) (e : env) (o : op) (r : result) (s : session)
    : outcome session :=
  match o with
  | Handshake => on_handshake tr e r s
  | AcceptWs => on_accept e r s
  | ReadRequest => on_request tr e r s
  | Resolve _ _ key => on_resolved tr e key r s
  | Connect _ => on_connected tr e r s
  | WritePayload _ => on_payload_written tr e r s
  | Read d => on_read tr e d r s
  | Send d data _ => on_sent tr e d data r s
  | UdpRead => on_udp_read tr e r s
  | UdpReadDown => on_udp_read_down tr e r s
  | UdpRecvUp => on_udp_recv_up tr e r s
  | UdpResolveFirst p key => on_udp_resolved_first tr e p key r s
  | UdpResolveNext p key => on_udp_resolved_next tr e p key r s
  | UdpSendFirst _ _ => on_udp_sent_first tr e r s
  | UdpSendNext _ _ => on_udp_sent_next tr e r s
  | UdpWriteUp _ => on_udp_written_up tr e r s
  end.
End Request.

(** ** The transition system *)
(** The resolver is library code: [resolves host service ep] is the relation
    between a query and the endpoints it may answer with. *)
Section System.
Context (allowed_passwords : gset bytes) (tr : transport).
Context (resolves : bytes → bytes → Net.endpoint → Prop).

(** whether a send completes only when everything has been written, as
    [websocket::stream::async_write] does *)
Definition writes_all (d : direction) : bool :=
  match tr, d with Websocket, UP => true | _, _ => false end.

(** how an operation may complete.  A read yields at most the buffer's size; a
    send accepts a part of its data, and only if the socket was open when it
    was started. *)
Inductive legal : op → result → Prop :=
  | legal_failed o : legal o Failed
  | legal_handshake : legal Handshake Done
  | legal_accept : legal AcceptWs Done
  | legal_connect ep : legal (Connect ep) Done
  | legal_payload data : legal (WritePayload data) Done
  | legal_udp_write packet : legal (UdpWriteUp packet) Done
  | legal_received o data :
      o ∈ [ReadRequest; Read DOWN; Read UP; UdpRead; UdpReadDown; UdpRecvUp] →
      len data <= MAX_BUFF_SIZE → legal o (Received data)
  | legal_sent d data n :
      0 <= n <= len data → (writes_all d = true → n = len data) →
      legal (Send d data true) (Sent n)
  | legal_udp_first p ep n : legal (UdpSendFirst p ep) (Sent n)
  | legal_udp_next p ep n : legal (UdpSendNext p ep) (Sent n)
  | legal_resolve host port key eps :
      Forall (resolves host port) eps → legal (Resolve host port key) (Resolved eps)
  | legal_resolve_first p key eps :
      Forall (resolves (Trojan.SOCKS5Address.address (Trojan.UDPPacket.address p))
                (to_string (Trojan.SOCKS5Address.port (Trojan.UDPPacket.address p)))) eps →
      legal (UdpResolveFirst p key) (Resolved eps)
  | legal_resolve_next p key eps :
      Forall (resolves (Trojan.SOCKS5Address.address (Trojan.UDPPacket.address p))
                (to_string (Trojan.SOCKS5Address.port (Trojan.UDPPacket.address p)))) eps →
      legal (UdpResolveNext p key) (Resolved eps).

(** what the other sessions and the clean-up timer do to the shared cache: they
    store endpoints the resolver gave for the host and port of the key *)
Definition cache_op_sound (o : DnsCache.op) : Prop :=
  match o with
  | DnsCache.Put _ _ key ep =>
      ∃ host port, 0 <= port ∧ key = Decimal.host_port host port ∧
                   resolves host (to_string port) ep
  | _ => True
  end.

(** one handler runs, or another session uses the cache *)
Inductive step : session → session → Prop :=
  | step_complete s l1 o l2 e r s' :
      pending s = l1 ++ o :: l2 → legal o r →
      handle allowed_passwords tr e o r (s <| pending := l1 ++ l2 |>) = Ret s' →
      step s s'
  | step_cache s o :
      cache_op_sound o → step s (s <| dns := DnsCache.step (dns s) o |>).

(** an accepted session is started with whatever the cache holds then *)
Definition reachable (cache : DnsCache.t) : session → Prop :=
  rtc step (start (init cache)).
End System.

End ServerSession.
