(* ===== verification/ServerSessionFacts.v ===== *)
(** ServerSessionFacts: what holds of every run of a server session.

    The invariant [inv] says where a session is: setting up with one operation
    in flight, forwarding TCP, relaying UDP, or destroyed.  It is shown for
    every reachable state by induction on the run. *)
From S2P Require Import Prelude Net Decimal Trojan VRequest Ring DnsCache ServerSession.
Import ServerSession.

Module ServerSessionFacts.

(** ** Lanes and the operations of a lane *)
Definition op_dir (o : op) : option direction :=
  match o with Read d => Some d | Send d _ _ => Some d | _ => None end.
Definition ops (d : direction) (s : session) : list op :=
  filter (λ o, op_dir o = Some d) (pending s).

(** the operations of the UDP relay once both of its directions run *)
Definition is_udp_chain (o : op) : bool :=
  match o with
  | UdpReadDown | UdpRecvUp | UdpResolveNext _ _ | UdpSendNext _ _ | UdpWriteUp _ => true
  | _ => false
  end.
Definition is_forward (o : op) : bool :=
  match op_dir o with Some _ => true | None => is_udp_chain o end.

(** the bytes a lane holds between its two sockets *)
Definition queued (l : lane) : bytes := SessionBuffer.contents (ring l).

(** A lane that forwards: what was read is what was sent and what is queued, and
    exactly one operation is in flight, a read into the empty queue or a send of
    the front of the queue. *)
Record lane_live (d : direction) (s : session) : Prop := LaneLive {
  live_wf : SessionBuffer.wf (ring (get_lane d s));
  live_cap : SessionBuffer.capacity_ (ring (get_lane d s)) = MAX_BUFF_SIZE;
  live_total : read_total (get_lane d s) = sent_total (get_lane d s) ++ queued (get_lane d s);
  live_sink : sink_open d s = true;
  live_op :
    (ops d s = [Read d] ∧ queued (get_lane d s) = [] ∧
     sending (get_lane d s) = false ∧ pausing (get_lane d s) = false) ∨
    (queued (get_lane d s) ≠ [] ∧ sending (get_lane d s) = true ∧
     pausing (get_lane d s) = true ∧
     ops d s = [Send d (SessionBuffer.region (ring (get_lane d s))
                          (SessionBuffer.peek (ring (get_lane d s)))) true])
}.

(** A lane of any session: at most one operation is in flight, and what was sent
    is a prefix of what was read, also once the send in flight has completed. *)
Record lane_ok (d : direction) (s : session) : Prop := LaneOk {
  ok_total : sent_total (get_lane d s) `prefix_of` read_total (get_lane d s);
  ok_op : ops d s = [] ∨ ops d s = [Read d] ∨
          ∃ data b, ops d s = [Send d data b] ∧
            (b = true → sent_total (get_lane d s) ++ data `prefix_of` read_total (get_lane d s))
}.

(** the operations of the set-up chain, of which only one is ever in flight *)
Definition is_setup (o : op) : bool := negb (is_forward o).

(** the set-up operations that run in state [FORWARD], and with the socket to
    the target open *)
Definition needs_forward (o : op) : bool :=
  match o with Handshake | AcceptWs | ReadRequest | Resolve _ _ _ => false | _ => true end.
Definition needs_target (o : op) : bool :=
  match o with Connect _ | WritePayload _ => true | _ => false end.

(** a session whose lanes have not been used *)
Record fresh (s : session) : Prop := Fresh {
  fresh_state : state_ s ≠ DESTROY;
  fresh_down : down s = lane_init;
  fresh_up : up s = lane_init;
  fresh_upstream : upstream_open s = true
}.

Inductive inv (s : session) : Prop :=
  | inv_setup o :
      pending s = [o] → is_setup o = true → fresh s →
      (needs_forward o = true → state_ s = FORWARD) →
      (needs_target o = true → downstream_open s = true) → inv s
  | inv_tcp :
      state_ s = FORWARD → Forall (λ o, op_dir o ≠ None) (pending s) →
      lane_live DOWN s → lane_live UP s → inv s
  | inv_udp :
      state_ s = FORWARD → Forall (λ o, is_udp_chain o = true) (pending s) →
      down s = lane_init → up s = lane_init → inv s
  | inv_dead :
      state_ s = DESTROY → Forall (λ o, is_forward o = true) (pending s) →
      upstream_open s = false → downstream_open s = false → downstream_udp_open s = false →
      lane_ok DOWN s → lane_ok UP s → inv s.

(** ** Reading back what the state functions write *)
Lemma get_set_lane d l s : get_lane d (set_lane d l s) = l.
Proof. by destruct d. Qed.
Lemma get_set_lane_ne d d' l s : d ≠ d' → get_lane d' (set_lane d l s) = get_lane d' s.
Proof. by destruct d, d'. Qed.
Lemma sink_set_lane d d' l s : sink_open d' (set_lane d l s) = sink_open d' s.
Proof. by destruct d, d'. Qed.
Lemma pending_set_lane d l s : pending (set_lane d l s) = pending s.
Proof. by destruct d. Qed.
Lemma state_set_lane d l s : state_ (set_lane d l s) = state_ s.
Proof. by destruct d. Qed.
Lemma ops_set_lane d d' l s : ops d' (set_lane d l s) = ops d' s.
Proof. by destruct d. Qed.
Lemma ops_start d o s :
  ops d (start_op o s) = ops d s ++ (if decide (op_dir o = Some d) then [o] else []).
Proof.
  unfold ops, start_op. cbn. rewrite list.filter_app, filter_cons, filter_nil. done.
Qed.
Lemma get_lane_start d o s : get_lane d (start_op o s) = get_lane d s.
Proof. by destruct d. Qed.
Lemma sink_start d o s : sink_open d (start_op o s) = sink_open d s.
Proof. by destruct d. Qed.

Create Rewrite HintDb sess_db.
#[export] Hint Rewrite get_set_lane sink_set_lane pending_set_lane state_set_lane ops_set_lane
  ops_start get_lane_start sink_start : sess_db.
Ltac sess_simpl := autorewrite with sess_db in *.

(** [s'] differs from [s] only in lane [d] and in operations of lane [d] *)
Record frame (d : direction) (s s' : session) : Prop := Frame {
  fr_lane d' : d ≠ d' → get_lane d' s' = get_lane d' s;
  fr_ops d' : d ≠ d' → ops d' s' = ops d' s;
  fr_sink d' : sink_open d' s' = sink_open d' s;
  fr_state : state_ s' = state_ s;
  fr_sockets : upstream_open s' = upstream_open s ∧
    downstream_open s' = downstream_open s ∧ downstream_udp_open s' = downstream_udp_open s;
  fr_pending (P : op → Prop) : Forall P (pending s) → (∀ o, op_dir o = Some d → P o) →
    Forall P (pending s')
}.

#[global] Instance frame_preorder d : PreOrder (frame d).
Proof.
  split.
  - by intros s; split.
  - intros s1 s2 s3 H1 H2. destruct H1, H2. split; intros; try naive_solver congruence.
Qed.

Lemma frame_set_lane d l s : frame d s (set_lane d l s).
Proof. split; intros; destruct d; try destruct d'; done. Qed.
Lemma frame_start d o s : op_dir o = Some d → frame d s (start_op o s).
Proof.
  intros Ho. split; [..|done|done|].
  - intros d' _. by destruct d'.
  - intros d' Hd. rewrite ops_start, decide_False, app_nil_r by congruence. done.
  - intros d'. by destruct d'.
  - intros P HP Hd. cbn. apply Forall_app. auto.
Qed.
Lemma frame_fill d d' data s : frame d s (fill d' data s).
Proof. split; intros; destruct d'; try destruct d'0; done. Qed.

Lemma frame_live d d' s s' : frame d s s' → d ≠ d' → lane_live d' s → lane_live d' s'.
Proof.
  intros [Hl Ho Hs _ _] Hne [? ? ? ? ?].
  split; rewrite ?Hl, ?Ho, ?Hs by done; done.
Qed.
Lemma frame_ok d d' s s' : frame d s s' → d ≠ d' → lane_ok d' s → lane_ok d' s'.
Proof. intros [Hl Ho _ _ _] Hne [? ?]. split; rewrite ?Hl, ?Ho by done; done. Qed.

Lemma frame_do_send d s : frame d s (do_send d s).
Proof.
  unfold do_send. destruct (SessionBuffer.empty _); [|by apply frame_start].
  cbn. destruct (pausing _); [|apply frame_set_lane].
  etrans; [apply frame_set_lane|by apply frame_start].
Qed.

Lemma frame_write d data s : frame d s (async_bidirectional_write d data s).
Proof.
  unfold async_bidirectional_write, enqueue_write. cbn.
  match goal with |- context [if sending ?l then ?a else ?b] =>
    set (s1 := if sending l then a else b) end.
  assert (frame d s s1) as H1.
  { subst s1. destruct (sending _); [apply frame_set_lane|].
    etrans; [apply frame_set_lane|apply frame_do_send]. }
  destruct (SessionBuffer.has_space _ _); etrans;
    [exact H1|by apply frame_start|exact H1|apply frame_set_lane].
Qed.

(** ** A lane that forwards goes on forwarding *)
(** after a send has completed *)
Lemma do_send_live d s :
  SessionBuffer.wf (ring (get_lane d s)) →
  SessionBuffer.capacity_ (ring (get_lane d s)) = MAX_BUFF_SIZE →
  read_total (get_lane d s) = sent_total (get_lane d s) ++ queued (get_lane d s) →
  sink_open d s = true → ops d s = [] →
  sending (get_lane d s) = true → pausing (get_lane d s) = true →
  lane_live d (do_send d s).
Proof.
  intros Hwf Hcap Htot Hsink Hops Hs Hp. unfold do_send.
  rewrite SessionBuffer.empty_spec by done. case_bool_decide as Hq; cbn.
  - rewrite Hp. unfold start_read. split; sess_simpl; cbn; try done.
    left. rewrite Hops, decide_True by done. done.
  - split; sess_simpl; cbn; try done. right.
    rewrite Hops, Hsink, decide_True by done. done.
Qed.

Lemma sent_live d (n : Z) s :
  let l := get_lane d s in
  let data := SessionBuffer.region (ring l) (SessionBuffer.peek (ring l)) in
  SessionBuffer.wf (ring l) → SessionBuffer.capacity_ (ring l) = MAX_BUFF_SIZE →
  read_total l = sent_total l ++ queued l → sink_open d s = true → ops d s = [] →
  sending l = true → pausing l = true → 0 <= n <= len data →
  lane_live d (sent d data n s).
Proof.
  intros l data Hwf Hcap Htot Hsink Hops Hs Hp Hn. unfold sent.
  destruct (SessionBuffer.peek_spec (ring l) Hwf) as (Hk & _ & _ & Hreg).
  assert (n <= (SessionBuffer.peek (ring l)).2) as Hn'.
  { revert Hn. subst data. rewrite Hreg, len_take by lia. lia. }
  destruct (SessionBuffer.consume_spec (ring l) Hwf n) as [Hwf' Hc]; [lia|].
  apply do_send_live; sess_simpl; cbn; try done.
  fold l. rewrite Htot. unfold queued. cbn. rewrite Hc. subst data. rewrite Hreg, take_take.
  rewrite Nat.min_l by lia. by rewrite <-app_assoc, take_drop.
Qed.

(** after a read has completed: the queue was empty, so the data fits *)
Lemma write_live d data s :
  let l := get_lane d s in
  SessionBuffer.wf (ring l) → SessionBuffer.capacity_ (ring l) = MAX_BUFF_SIZE →
  queued l = [] → read_total l = sent_total l ++ data → sink_open d s = true → ops d s = [] →
  sending l = false → pausing l = false → len data <= MAX_BUFF_SIZE →
  lane_live d (async_bidirectional_write d data s).
Proof.
  intros l Hwf Hcap Hq Htot Hsink Hops Hs Hp Hd.
  pose proof (SessionBuffer.len_contents (ring l) Hwf) as Hu.
  unfold queued in Hq. rewrite Hq, len_nil in Hu.
  destruct (SessionBuffer.enqueue_loop_spec (length data) (ring l) data Hwf)
    as (Hwf' & Hcap' & Hc); [done|].
  rewrite Hq, Hcap, <-Hu, Z.sub_0_r, app_nil_l in Hc.
  rewrite take_ge in Hc by (unfold len in Hd; lia).
  unfold async_bidirectional_write, enqueue_write. fold l. cbn. rewrite Hs.
  set (rg := SessionBuffer.enqueue (ring l) data) in *.
  assert (SessionBuffer.wf rg ∧ SessionBuffer.capacity_ rg = MAX_BUFF_SIZE ∧
          SessionBuffer.contents rg = data) as (Hw & Hcp & Hct).
  { subst rg. unfold SessionBuffer.enqueue. rewrite Hcap', Hc. done. }
  unfold do_send. sess_simpl. cbn.
  rewrite SessionBuffer.empty_spec, Hct by done.
  case_bool_decide as Hnil.
  - rewrite Hp. sess_simpl. cbn.
    rewrite SessionBuffer.has_space_spec by (done || (unfold MAX_BUFF_SIZE; lia)).
    rewrite Hct, Hcp, Hnil, len_nil, Z.add_0_l, Z.leb_refl. unfold start_read.
    split; sess_simpl; cbn; unfold queued; cbn; rewrite ?Hct; try done.
    left. rewrite Hops, decide_True by done. done.
  - sess_simpl. cbn.
    rewrite SessionBuffer.has_space_spec by (done || (unfold MAX_BUFF_SIZE; lia)).
    assert (0 < len data) by (destruct data; [done|len_lia]).
    rewrite Hct, Hcp, (proj2 (Z.leb_gt _ _)) by lia.
    split; sess_simpl; cbn; unfold queued; cbn; rewrite ?Hct; try done.
    right. rewrite Hops, Hsink, decide_True by done. done.
Qed.

(** ** A lane of a destroyed session *)
Lemma live_ok d s : lane_live d s → lane_ok d s.
Proof.
  intros [Hwf Hcap Htot Hsink Hop]. split; [rewrite Htot; by eexists|].
  destruct Hop as [(-> & _)|(_ & _ & _ & ->)]; [by auto|]. right. right.
  do 2 eexists. split; [done|]. intros _. rewrite Htot. unfold queued.
  destruct (SessionBuffer.peek_spec _ Hwf) as (_ & _ & _ & ->).
  apply prefix_app, prefix_take.
Qed.

Lemma do_send_ok d s :
  sent_total (get_lane d s) `prefix_of` read_total (get_lane d s) →
  sink_open d s = false → ops d s = [] → lane_ok d (do_send d s).
Proof.
  intros Hpre Hsink Hops. unfold do_send.
  destruct (SessionBuffer.empty _); cbn; [destruct (pausing _)|];
    unfold start_read; (split; sess_simpl; cbn; [done|]);
    rewrite Hops, ?decide_True by done; [by auto..|].
  right. right. do 2 eexists. split; [done|]. by rewrite Hsink.
Qed.

Lemma destroy_dead s :
  state_ s ≠ DESTROY → Forall (λ o, is_forward o = true) (pending s) →
  lane_ok DOWN s → lane_ok UP s → inv (destroyed s).
Proof.
  intros Hst Hp [Hd1 Hd2] [Hu1 Hu2]. unfold destroyed. rewrite decide_False by done.
  apply inv_dead; try done; by split.
Qed.

(** ** Taking an operation out of the pending ones *)
Section Remove.
Context (s : session) (l1 l2 : list op) (o : op).
Context (Hpend : pending s = l1 ++ o :: l2).
Definition rest : session := s <| pending := l1 ++ l2 |>.

Lemma ops_rest_ne d : op_dir o ≠ Some d → ops d rest = ops d s.
Proof.
  intros Ho. unfold ops, rest. cbn. rewrite Hpend, !list.filter_app, filter_cons_False; done.
Qed.
Lemma ops_rest d x : op_dir o = Some d → ops d s = [x] → o = x ∧ ops d rest = [].
Proof.
  intros Ho. unfold ops, rest. cbn. rewrite Hpend, !list.filter_app, filter_cons.
  rewrite decide_True by done.
  destruct (filter _ l1) as [|? [|]]; intros E; simplify_list_eq; done.
Qed.
Lemma forall_rest (P : op → Prop) : Forall P (pending s) → P o ∧ Forall P (pending rest).
Proof. rewrite Hpend. cbn. rewrite !list.Forall_app, list.Forall_cons. tauto. Qed.
End Remove.

Lemma op_dir_forward o d : op_dir o = Some d → is_forward o = true.
Proof. unfold is_forward. by intros ->. Qed.

(** ** The steps of the forwarding phase *)
Section Forward.
Context (tr : transport) (resolves : bytes → bytes → Net.endpoint → Prop).
Context (s : session) (l1 l2 : list op) (o : op).
Context (Hpend : pending s = l1 ++ o :: l2).
Abbreviation s0 := (rest s l1 l2).

Definition other (d : direction) : direction := match d with DOWN => UP | UP => DOWN end.
Lemma both_lanes (P : direction → Prop) d : P d → P (other d) → P DOWN ∧ P UP.
Proof. by destruct d. Qed.

Lemma other_live d : op_dir o = Some d → lane_live (other d) s → lane_live (other d) s0.
Proof.
  intros Ho [? ? ? ? ?].
  assert (ops (other d) s0 = ops (other d) s) as E.
  { apply (ops_rest_ne s l1 l2 o Hpend). rewrite Ho. by destruct d. }
  split; rewrite ?E; by destruct d.
Qed.
Lemma other_ok d : op_dir o = Some d → lane_ok (other d) s → lane_ok (other d) s0.
Proof.
  intros Ho [? ?].
  assert (ops (other d) s0 = ops (other d) s) as E.
  { apply (ops_rest_ne s l1 l2 o Hpend). rewrite Ho. by destruct d. }
  split; rewrite ?E; by destruct d.
Qed.

(** a step on lane [d] that keeps it live *)
Lemma tcp_frame d s' :
  op_dir o = Some d → state_ s = FORWARD → Forall (λ o, op_dir o ≠ None) (pending s) →
  lane_live (other d) s → frame d s0 s' → lane_live d s' → inv s'.
Proof.
  intros Ho Hst HF Hlo Hfr Hl.
  assert (lane_live (other d) s') as Hl' by
    (eapply frame_live; [done|by destruct d|by apply other_live]).
  destruct (both_lanes (λ d, lane_live d s') d Hl Hl').
  apply inv_tcp; [by rewrite (fr_state _ _ _ Hfr)| |done..].
  apply (fr_pending _ _ _ Hfr); [by apply (forall_rest s l1 l2 o Hpend)|congruence].
Qed.

(** a step on lane [d] that destroys the session *)
Lemma tcp_destroy d :
  op_dir o = Some d → state_ s = FORWARD → Forall (λ o, op_dir o ≠ None) (pending s) →
  lane_live DOWN s → lane_live UP s → inv (destroyed s0).
Proof.
  intros Ho Hst HF Hd Hu.
  assert (lane_live d s ∧ lane_live (other d) s) as [Hl Hlo] by (by destruct d).
  assert (lane_ok d s0) as H1.
  { split; [destruct (ok_total _ _ (live_ok _ _ Hl)) as [k Hk]; exists k; by destruct d|]. left.
    destruct Hl as [_ _ _ _ [(E & _)|(_ & _ & _ & E)]];
      by apply (ops_rest s l1 l2 o Hpend d _ Ho E). }
  assert (lane_ok (other d) s0) as H2 by (by apply other_ok, live_ok).
  destruct (both_lanes (λ d, lane_ok d s0) d H1 H2).
  apply destroy_dead; [change (state_ s ≠ DESTROY); by rewrite Hst| |done..].
  apply (forall_rest s l1 l2 o Hpend). eapply list.Forall_impl; [done|].
  intros x Hx. destruct (op_dir x) eqn:E; [by apply (op_dir_forward _ d0)|by destruct Hx].
Qed.

Lemma read_step d r allowed e s' :
  o = Read d → state_ s = FORWARD → Forall (λ o, op_dir o ≠ None) (pending s) →
  lane_live DOWN s → lane_live UP s → legal tr resolves o r →
  handle allowed tr e o r s0 = Ret s' → inv s'.
Proof.
  intros Ho Hst HF Hd Hu Hlegal Hh. rewrite Ho in Hlegal, Hh.
  assert (op_dir o = Some d) as Hdir by (by rewrite Ho).
  assert (inv (destroyed s0)) as Hdes by (by apply (tcp_destroy d)).
  assert (lane_live d s ∧ lane_live (other d) s) as [Hl Hlo] by (by destruct d).
  assert (state_ s0 = FORWARD) as Hst0 by done.
  cbn [handle] in Hh. unfold on_read in Hh.
  destruct r; try (rewrite Hst0, decide_False in Hh by done; by ret_inv Hh).
  assert (state_ (fill d data s0) = FORWARD) as Hst1 by (by destruct d).
  cbv zeta in Hh. rewrite Hst1, decide_False in Hh by done. injection Hh as <-.
  assert (len data <= MAX_BUFF_SIZE) as Hlen by (by inversion Hlegal).
  destruct Hl as [Hwf Hcap Htot Hsink [(E & Hq & Hs & Hp)|(_ & _ & _ & E)]];
    destruct (ops_rest s l1 l2 o Hpend d _ Hdir E) as [E0 Hops]; rewrite Ho in E0; [|done].
  apply (tcp_frame d); [done..| |].
  { etrans; [apply frame_fill|]. etrans; [apply frame_set_lane|]. apply frame_write. }
  apply write_live; rewrite ?get_set_lane, ?sink_set_lane, ?ops_set_lane;
    rewrite ?Hq, ?app_nil_r in Htot; try (by destruct d).
  assert (get_lane d (fill d data s0) = get_lane d s) as -> by (by destruct d).
  cbn. by rewrite Htot.
Qed.

Lemma send_step d data b r allowed e s' :
  o = Send d data b → state_ s = FORWARD → Forall (λ o, op_dir o ≠ None) (pending s) →
  lane_live DOWN s → lane_live UP s → legal tr resolves o r →
  handle allowed tr e o r s0 = Ret s' → inv s'.
Proof.
  intros Ho Hst HF Hd Hu Hlegal Hh. rewrite Ho in Hlegal, Hh.
  assert (op_dir o = Some d) as Hdir by (by rewrite Ho).
  assert (inv (destroyed s0)) as Hdes by (by apply (tcp_destroy d)).
  assert (lane_live d s ∧ lane_live (other d) s) as [Hl Hlo] by (by destruct d).
  destruct r; try (by ret_inv Hh). injection Hh as <-. inversion Hlegal; subst data0 d0 b n0.
  destruct Hl as [Hwf Hcap Htot Hsink [(E & _)|(Hq & Hs & Hp & E)]];
    destruct (ops_rest s l1 l2 o Hpend d _ Hdir E) as [E0 Hops]; rewrite Ho in E0; [done|].
  injection E0 as ->.
  apply (tcp_frame d); [done..| |].
  { etrans; [apply frame_set_lane|]. apply frame_do_send. }
  assert (get_lane d s0 = get_lane d s) as El by (by destruct d). rewrite <-El.
  apply sent_live; rewrite ?El; try done; by destruct d.
Qed.

(** a destroyed session stays destroyed: its lanes' last operations complete *)
Lemma dead_lane_step d r allowed e s' :
  op_dir o = Some d → state_ s = DESTROY → Forall (λ o, is_forward o = true) (pending s) →
  upstream_open s = false → downstream_open s = false → downstream_udp_open s = false →
  lane_ok DOWN s → lane_ok UP s → legal tr resolves o r →
  handle allowed tr e o r s0 = Ret s' → inv s'.
Proof.
  intros Hdir Hst HF Hup Hdn Hudp Hd Hu Hlegal Hh.
  assert (lane_ok d s ∧ lane_ok (other d) s) as [Hl Hlo] by (by destruct d).
  assert (sink_open d s0 = false) as Hsink by (by destruct d).
  enough (frame d s0 s' ∧ lane_ok d s') as [Hfr Hl'].
  { assert (lane_ok (other d) s') as Hlo' by
      (eapply frame_ok; [done|by destruct d|by apply other_ok]).
    destruct (both_lanes (λ d, lane_ok d s') d Hl' Hlo'), (fr_sockets _ _ _ Hfr) as (? & ? & ?).
    apply inv_dead; [by rewrite (fr_state _ _ _ Hfr)| |by etrans|by etrans|by etrans|done|done].
    apply (fr_pending _ _ _ Hfr); [by apply (forall_rest s l1 l2 o Hpend)|].
    intros. by eapply op_dir_forward. }
  assert (state_ s0 = DESTROY) as Hst0 by done.
  assert (destroyed s0 = s0) as Hid by (unfold destroyed; by rewrite decide_True).
  destruct Hl as [Hpre Hl].
  assert (ops d s0 = [] ∧ ∀ data, o = Send d data true →
    sent_total (get_lane d s) ++ data `prefix_of` read_total (get_lane d s)) as [Hops Hsend].
  { destruct Hl as [E|[E|(data & b & E & Hb)]].
    - exfalso. assert (o ∈ ops d s); [|rewrite E in *; set_solver].
      apply list_elem_of_filter. split; [done|]. rewrite Hpend. set_solver.
    - destruct (ops_rest s l1 l2 o Hpend d _ Hdir E) as [-> ->]. done.
    - destruct (ops_rest s l1 l2 o Hpend d _ Hdir E) as [-> ->].
      split; [done|]. intros ? [= -> ->]. auto. }
  assert (lane_ok d s0) as Hok by (split; [by destruct d|by left]).
  destruct o; try discriminate Hdir; injection Hdir as ->; cbn [handle] in Hh.
  - assert (∀ data, frame d s0 (fill d data s0)) as Hfill by (intros; apply frame_fill).
    unfold on_read in Hh.
    destruct r; try (rewrite decide_True in Hh by done; by injection Hh as <-).
    cbv zeta in Hh. rewrite decide_True in Hh by (by destruct d). injection Hh as <-.
    split; [done|]. destruct Hok. by split; destruct d.
  - destruct r; try (ret_inv Hh; by rewrite ?Hid). injection Hh as <-. inversion Hlegal; subst.
    split; [etrans; [apply frame_set_lane|apply frame_do_send]|].
    apply do_send_ok; sess_simpl; cbn; [|done..].
    etrans; [|exact (Hsend data eq_refl)].
    assert (get_lane d s0 = get_lane d s) as -> by (by destruct d).
    apply prefix_app, prefix_take.
Qed.
End Forward.

(** ** The steps of the UDP relay *)
(** [s'] has the lanes, sockets and state of [s], and new operations of the UDP
    relay only *)
Record quiet (s s' : session) : Prop := Quiet {
  q_down : down s' = down s;
  q_up : up s' = up s;
  q_state : state_ s' = state_ s;
  q_sockets : upstream_open s' = upstream_open s ∧
    downstream_open s' = downstream_open s ∧ downstream_udp_open s' = downstream_udp_open s;
  q_pending : ∃ l, pending s' = pending s ++ l ∧ Forall (λ o, is_udp_chain o = true) l
}.

Lemma quiet_refl s : quiet s s.
Proof. split; try done. exists []. by rewrite app_nil_r. Qed.

Ltac quiet_tac :=
  split; try reflexivity; try (split_and!; reflexivity);
  cbn; first [by exists []; rewrite app_nil_r | eexists; split; [reflexivity|by repeat constructor]].

Lemma udp_advance_fields n s :
  down (udp_advance n s) = down s ∧ up (udp_advance n s) = up s ∧
  state_ (udp_advance n s) = state_ s ∧ upstream_open (udp_advance n s) = upstream_open s ∧
  downstream_open (udp_advance n s) = downstream_open s ∧
  downstream_udp_open (udp_advance n s) = downstream_udp_open s ∧
  pending (udp_advance n s) = pending s ∧ dns (udp_advance n s) = dns s ∧
  password (udp_advance n s) = password s.
Proof. unfold udp_advance. cbn. by destruct (_ && _). Qed.

Lemma udp_handle_quiet allowed tr e o r s s' :
  is_udp_chain o = true → handle allowed tr e o r s = Ret s' →
  ∃ s1, quiet s s1 ∧ (s' = s1 ∨ s' = destroyed s1).
Proof.
  intros Ho Hh. destruct o; try discriminate Ho; clear Ho;
    destruct r; cbn in Hh;
    try (apply destroy_Ret in Hh as ->; exists s; split; [apply quiet_refl|by right]).
  - match type of Hh with context [udp_remaining ?x] => set (s2 := x) in Hh end.
    assert (quiet s s2) as Hq by quiet_tac.
    destruct (Trojan.UDPPacket_parse_total blank_packet (udp_remaining s2))
      as (p & [k|] & Hp & _); rewrite Hp in Hh; cbn in Hh.
    + destruct (udp_advance_fields k s2) as (H1 & H2 & H3 & H4 & H5 & H6 & H7 & H8 & _).
      destruct (DnsCache.get_udp _ _ _); injection Hh as <-; eexists; (split; [|by left]);
        split; cbn; rewrite ?H1, ?H2, ?H3, ?H4, ?H5, ?H6, ?H7; try (by split_and!);
        eexists; (split; [reflexivity|by repeat constructor]).
    + destruct (_ <? _); ret_inv Hh; [exists s2; auto|].
      eexists; split; [|by left]. quiet_tac.
  - destruct (datagram_waiting e); [|done]. injection Hh as <-.
    eexists; split; [|by left]. quiet_tac.
  - destruct (pick_endpoint eps); ret_inv Hh; [|exists s; split; [apply quiet_refl|by right]].
    eexists; split; [|by left]. quiet_tac.
  - injection Hh as <-. eexists; split; [|by left]. quiet_tac.
  - injection Hh as <-. eexists; split; [|by left]. quiet_tac.
Qed.

Lemma udp_chain_ops d l : Forall (λ o, is_udp_chain o = true) l →
  filter (λ o, op_dir o = Some d) l = [].
Proof. induction 1 as [|o l Ho _ IH]; [done|]. rewrite filter_cons, IH. by destruct o. Qed.

Lemma lane_init_ok d s : get_lane d s = lane_init → ops d s = [] → lane_ok d s.
Proof. intros E H. split; [by rewrite E|by left]. Qed.

Lemma quiet_ok d s s' : quiet s s' → lane_ok d s → lane_ok d s'.
Proof.
  intros [H1 H2 _ _ (l & Hl & HF)] [? ?].
  assert (get_lane d s' = get_lane d s) as E by (by destruct d).
  assert (ops d s' = ops d s) as E'.
  { unfold ops. rewrite Hl, list.filter_app, (udp_chain_ops d l HF). apply app_nil_r. }
  split; rewrite ?E, ?E'; done.
Qed.

Lemma is_udp_forward o : is_udp_chain o = true → is_forward o = true.
Proof. by destruct o. Qed.

Lemma udp_step allowed tr e l1 o l2 r s s' :
  pending s = l1 ++ o :: l2 → state_ s = FORWARD →
  Forall (λ o, is_udp_chain o = true) (pending s) → down s = lane_init → up s = lane_init →
  handle allowed tr e o r (rest s l1 l2) = Ret s' → inv s'.
Proof.
  intros Hp Hst HF Hd Hu Hh. destruct (forall_rest s l1 l2 o Hp _ HF) as [Ho HF0].
  destruct (udp_handle_quiet _ _ _ _ _ _ _ Ho Hh)
    as (s1 & [H1 H2 H3 H4 (l & Hl & HFl)] & Hs1).
  assert (Forall (λ o, is_udp_chain o = true) (pending s1)) as HF1
    by (rewrite Hl; by apply list.Forall_app).
  assert (down s1 = lane_init) by by rewrite H1. assert (up s1 = lane_init) by by rewrite H2.
  assert (state_ s1 = FORWARD) as Hst1 by by rewrite H3.
  destruct Hs1 as [->| ->]; [by apply inv_udp|].
  apply destroy_dead; [by rewrite Hst1| |by apply lane_init_ok; [|apply udp_chain_ops]..].
  eapply list.Forall_impl; [done|apply is_udp_forward].
Qed.

Lemma dead_udp_step allowed tr e l1 o l2 r s s' :
  pending s = l1 ++ o :: l2 → is_udp_chain o = true → state_ s = DESTROY →
  Forall (λ o, is_forward o = true) (pending s) →
  upstream_open s = false → downstream_open s = false → downstream_udp_open s = false →
  lane_ok DOWN s → lane_ok UP s →
  handle allowed tr e o r (rest s l1 l2) = Ret s' → inv s'.
Proof.
  intros Hp Ho Hst HF Hup Hdn Hudp Hd Hu Hh.
  assert (∀ d, lane_ok d (rest s l1 l2)) as Hok.
  { intros d. assert (lane_ok d s) as [? ?] by (by destruct d).
    assert (ops d (rest s l1 l2) = ops d s) as E
      by (apply (ops_rest_ne s l1 l2 o Hp); by destruct o).
    split; rewrite ?E; by destruct d. }
  destruct (udp_handle_quiet _ _ _ _ _ _ _ Ho Hh) as (s1 & Hq & Hs1).
  assert (state_ s1 = DESTROY) as Hst1 by by rewrite (q_state _ _ Hq).
  assert (s' = s1) as ->.
  { destruct Hs1 as [->| ->]; [done|]. unfold destroyed. by rewrite decide_True. }
  destruct (q_sockets _ _ Hq) as (? & ? & ?), (q_pending _ _ Hq) as (l & Hl & HFl).
  apply inv_dead; [done| |by etrans|by etrans|by etrans|by eapply quiet_ok..].
  rewrite Hl. apply list.Forall_app. split; [by apply (forall_rest s l1 l2 o Hp)|].
  eapply list.Forall_impl; [done|apply is_udp_forward].
Qed.

(** ** The steps of the set-up chain *)
Lemma fresh_destroy s : fresh s → pending s = [] → inv (destroyed s).
Proof.
  intros [Hst Hd Hu _] Hp.
  apply destroy_dead; [done|by rewrite Hp|..]; apply lane_init_ok; try done;
    unfold ops; by rewrite Hp.
Qed.

Lemma fresh_start o s :
  fresh s → pending s = [] → is_setup o = true →
  (needs_forward o = true → state_ s = FORWARD) →
  (needs_target o = true → downstream_open s = true) → inv (start_op o s).
Proof.
  intros [? ? ? ?] Hp Ho H1 H2. apply (inv_setup _ o); try done.
  unfold start_op. cbn. by rewrite Hp.
Qed.

Lemma init_live d s :
  get_lane d s = lane_init → sink_open d s = true → ops d s = [Read d] → lane_live d s.
Proof.
  intros E Hs Ho. split; rewrite ?E, ?Ho; try reflexivity; [|exact Hs|].
  - apply SessionBuffer.make_wf. unfold MAX_BUFF_SIZE. lia.
  - left. repeat split; reflexivity.
Qed.

Lemma fresh_read_both s :
  fresh s → pending s = [] → state_ s = FORWARD → downstream_open s = true → inv (read_both s).
Proof.
  intros [_ Hd Hu Hup] Hp Hst Hdn.
  assert (pending (read_both s) = [Read DOWN; Read UP]) as Hp'
    by (unfold read_both, start_read, start_op; cbn; by rewrite Hp).
  apply inv_tcp; [exact Hst|rewrite Hp'; by repeat constructor| |];
    (apply init_live; [assumption|assumption|unfold ops; by rewrite Hp']).
Qed.

Lemma fresh_do_connect ep s : fresh s → pending s = [] → inv (do_connect ep s).
Proof. intros [? ? ? ?] Hp. by apply fresh_start. Qed.

Lemma fresh_do_resolve e s : fresh s → pending s = [] → inv (do_resolve e s).
Proof.
  intros [? ? ? ?] Hp. unfold do_resolve. cbv zeta.
  destruct (DnsCache.get_tcp _ _ _); [apply fresh_do_connect|apply fresh_start]; try done; by split.
Qed.

Lemma fresh_udp_send_first tr e p ep s s' :
  fresh s → pending s = [] → state_ s = FORWARD → udp_send_first tr e p ep s = Ret s' → inv s'.
Proof.
  intros [? ? ? ?] Hp Hst. unfold udp_send_first.
  destruct (downstream_udp_open s); [intros [= <-]; by apply fresh_start|].
  destruct (udp_open_ok e); intros H'; ret_inv H'; [apply fresh_start|apply fresh_destroy];
    try done; by split.
Qed.

Lemma fresh_udp_proxy tr e s s' :
  fresh s → pending s = [] → handle_trojan_udp_proxy tr e s = Ret s' → inv s'.
Proof.
  intros [? ? ? ?] Hp. unfold handle_trojan_udp_proxy. cbv zeta.
  set (s2 := s <| state_ := FORWARD |>).
  assert (fresh s2) as Hf by (by split).
  destruct (Trojan.UDPPacket_parse_total blank_packet (udp_remaining s2))
    as (p & [k|] & -> & _); cbn [mbind outcome_bind].
  - destruct (udp_advance_fields k s2) as (H1' & H2' & H3' & H4' & H5' & H6' & H7' & _).
    assert (fresh (udp_advance k s2)) by (split; rewrite ?H3', ?H1', ?H2', ?H4'; by destruct Hf).
    assert (pending (udp_advance k s2) = []) by by rewrite H7'.
    destruct (DnsCache.get_udp _ _ _); [by apply fresh_udp_send_first|].
    intros [= <-]. by apply fresh_start.
  - destruct (_ <? _); intros Hh; ret_inv Hh; [by apply fresh_destroy|by apply fresh_start].
Qed.

Lemma fresh_on_request allowed tr e r s s' :
  fresh s → pending s = [] → on_request allowed tr e r s = Ret s' → inv s'.
Proof.
  intros Hf Hp. destruct r; cbn; try (intros ->%destroy_Ret; by apply fresh_destroy).
  destruct (VRequest.is_v_protocol _) as [v| |]; [|done..]. cbn.
  intros H. apply bind_Ret_inv in H as ([valid s2] & E & H).
  assert (fresh s2 ∧ pending s2 = []) as [Hf2 Hp2].
  { destruct Hf, v; apply bind_Ret_inv in E as (u & _ & E); injection E as <- <-; by split. }
  destruct valid; [|apply destroy_Ret in H as ->; by apply fresh_destroy].
  case_decide; [|apply destroy_Ret in H as ->; by apply fresh_destroy].
  destruct (_ && _); [|injection H as <-; by apply fresh_do_resolve].
  eapply fresh_udp_proxy; [..|done]; [|done]. destruct Hf2. by split.
Qed.

Lemma setup_step allowed tr e o r s s' :
  fresh s → pending s = [] → is_setup o = true →
  (needs_forward o = true → state_ s = FORWARD) →
  (needs_target o = true → downstream_open s = true) →
  handle allowed tr e o r s = Ret s' → inv s'.
Proof.
  intros Hf Hp Ho H1 H2 Hh.
  assert (inv (destroyed s)) as Hdes by by apply fresh_destroy.
  destruct o; try discriminate Ho; cbn in Hh.
  - apply on_handshake_cases in Hh as [->|[->| ->]]; [done|by apply fresh_start..].
  - apply on_accept_cases in Hh as [->| ->]; [done|by apply fresh_start].
  - by eapply fresh_on_request.
  - destruct r as [| | | |[|ep eps]]; cbn in Hh; ret_inv Hh; try done.
    apply fresh_do_connect; [|done]. destruct Hf. by split.
  - destruct r; cbn in Hh; try (by ret_inv Hh). destruct (options_ok e); [|done].
    destruct (negb _); injection Hh as <-; [apply fresh_start|apply fresh_read_both]; auto.
  - destruct r; cbn in Hh; ret_inv Hh; try done. apply fresh_read_both; auto.
  - destruct r; cbn in Hh; try (by ret_inv Hh).
    eapply fresh_udp_proxy; [..|done]; [|done]. destruct Hf. by split.
  - destruct r; cbn in Hh; try (by ret_inv Hh).
    destruct (pick_endpoint eps); [|by ret_inv Hh].
    eapply fresh_udp_send_first; [..|exact Hh]; [destruct Hf; by split|done|by apply H1].
  - destruct r; cbn in Hh; ret_inv Hh; try done. destruct Hf as [_ Hd Hu _].
    apply inv_udp; [by apply H1| |done|done].
    unfold udp_read_both. cbn. rewrite Hp. by repeat constructor.
Qed.

(** ** The invariant holds of every reachable state *)
Lemma inv_step allowed tr resolves s s' : inv s → step allowed tr resolves s s' → inv s'.
Proof.
  intros Hinv Hstep. revert Hinv.
  destruct Hstep as [s l1 o l2 e r s' Hp Hlegal Hh|s c Hc]; intros Hinv.
  - destruct Hinv as [o' Hp' Ho Hf H1 H2|Hst HF Hd Hu|Hst HF Hd Hu|Hst HF Hup Hdn Hudp Hd Hu].
    + rewrite Hp' in Hp.
      destruct l1 as [|? [|]]; simplify_list_eq. eapply setup_step; [..|exact Hh]; try done.
      destruct Hf. by split.
    + destruct (forall_rest _ l1 l2 o Hp _ HF) as [Ho _].
      destruct o as [| | | | | |d|d data b| | | | | | | |]; try done;
        [by eapply (read_step tr resolves s l1 l2)|by eapply (send_step tr resolves s l1 l2)].
    + by eapply udp_step.
    + destruct (forall_rest _ l1 l2 o Hp _ HF) as [Ho _].
      unfold is_forward in Ho. destruct (op_dir o) as [d|] eqn:Hdir;
        [by eapply (dead_lane_step tr resolves s l1 l2)|by eapply dead_udp_step].
  - destruct Hinv as [o' Hp' Ho Hf H1 H2|Hst HF Hd Hu|Hst HF Hd Hu|Hst HF Hup Hdn Hudp Hd Hu].
    + apply (inv_setup _ o'); try done. destruct Hf. by split.
    + apply inv_tcp; try done; [destruct Hd|destruct Hu]; by split.
    + by apply inv_udp.
    + apply inv_dead; try done; [destruct Hd|destruct Hu]; by split.
Qed.

(** a step leaves the state [DESTROY] alone *)
Lemma dead_step_state allowed tr resolves s s' :
  inv s → state_ s = DESTROY → step allowed tr resolves s s' → state_ s' = DESTROY.
Proof.
  intros Hinv Hs Hstep. revert Hinv Hs.
  destruct Hstep as [s l1 o l2 e r s' Hp Hlegal Hh|s c Hc]; intros Hinv Hs; [|done].
  assert (Forall (λ o, is_forward o = true) (pending s)) as HF.
  { by destruct Hinv as [? _ _ [? _ _ _] _ _|? _ _ _|? _ _ _|_ ? _ _ _ _ _]; try congruence. }
  destruct (forall_rest s l1 l2 o Hp _ HF) as [Ho _].
  assert (destroyed (rest s l1 l2) = rest s l1 l2) as Hid
    by (unfold destroyed; by rewrite decide_True).
  unfold is_forward in Ho. destruct (op_dir o) as [d|] eqn:Hdir.
  - destruct o; try discriminate Hdir; cbn [handle] in Hh; fold (rest s l1 l2) in Hh.
    + unfold on_read in Hh.
      destruct r; try (rewrite decide_True in Hh by done; by injection Hh as <-).
      cbv zeta in Hh. rewrite decide_True in Hh by (by destruct d0).
      injection Hh as <-. by destruct d0.
    + destruct r; cbn [on_sent] in Hh; ret_inv Hh; rewrite ?Hid; try done.
      unfold sent. rewrite (fr_state _ _ _ (frame_do_send _ _)), state_set_lane. done.
  - destruct (udp_handle_quiet _ _ _ _ _ _ _ Ho Hh) as (s1 & Hq & Hs1).
    assert (state_ s1 = DESTROY) as Hst1 by by rewrite (q_state _ _ Hq).
    destruct Hs1 as [->| ->]; [done|]. unfold destroyed. by rewrite decide_True.
Qed.

Lemma inv_reachable allowed tr resolves cache s :
  reachable allowed tr resolves cache s → inv s.
Proof.
  apply (rtc_ind_r (λ s, inv s)).
  - by apply fresh_start.
  - intros s1 s2 _ Hs Hinv. by eapply inv_step.
Qed.

(** what a direction has sent is a prefix of what it has read *)
Lemma inv_prefix s d :
  inv s → sent_total (get_lane d s) `prefix_of` read_total (get_lane d s).
Proof.
  intros [o _ _ [? Hd Hu _] _ _|_ _ Hd Hu|_ _ Hd Hu|_ _ _ _ _ Hd Hu].
  1,3: (assert (get_lane d s = lane_init) as -> by (by destruct d)); apply prefix_nil.
  - assert (lane_live d s) as Hl by (by destruct d). apply (live_ok _ _ Hl).
  - assert (lane_ok d s) as [Hl _] by (by destruct d). exact Hl.
Qed.

(** ** Who is served, and where the session connects *)
Section Target.
Context (allowed : gset bytes) (tr : transport).
Context (resolves : bytes → bytes → Net.endpoint → Prop).

(** the operations of a session that has not been authenticated *)
Definition is_pre (o : op) : bool :=
  match o with Handshake | AcceptWs | ReadRequest => true | _ => false end.

(** what the client asked for *)
Definition request_host (s : session) : bytes :=
  if vprotocol s then VRequest.address (v_req s)
  else Trojan.SOCKS5Address.address (Trojan.TrojanReq.address (trojanReq s)).
Definition request_port (s : session) : Z :=
  if vprotocol s then VRequest.port (v_req s)
  else Trojan.SOCKS5Address.port (Trojan.TrojanReq.address (trojanReq s)).
Definition packet_host (p : Trojan.UDPPacket.t) : bytes :=
  Trojan.SOCKS5Address.address (Trojan.UDPPacket.address p).
Definition packet_port (p : Trojan.UDPPacket.t) : Z :=
  Trojan.SOCKS5Address.port (Trojan.UDPPacket.address p).

(** every cached endpoint is one the resolver gave for the key's host and port *)
Definition entries_sound (c : gmap bytes DnsCache.entry) : Prop :=
  map_Forall (λ k x, ∃ host port, 0 <= port ∧ k = Decimal.host_port host port ∧
                resolves host (to_string port) (DnsCache.endpoint x)) c.
Definition cache_sound (c : DnsCache.t) : Prop :=
  entries_sound (DnsCache.udp_cache_ c) ∧ entries_sound (DnsCache.tcp_cache_ c).

(** where an operation may go *)
Definition good (s : session) (o : op) : Prop :=
  match o with
  | Resolve host port key =>
      host = request_host s ∧ port = to_string (request_port s) ∧ 0 <= request_port s ∧
      key = Decimal.host_port (request_host s) (request_port s)
  | Connect ep => resolves (request_host s) (to_string (request_port s)) ep
  | WritePayload data => data = first_payload s
  | UdpResolveFirst p key | UdpResolveNext p key =>
      0 <= packet_port p ∧ key = Decimal.host_port (packet_host p) (packet_port p)
  | UdpSendFirst p ep | UdpSendNext p ep =>
      resolves (packet_host p) (to_string (packet_port p)) ep
  | _ => True
  end.

(** the parts of the state that a request fixes *)
Definition identity (s : session) := (password s, vprotocol s, v_req s, trojanReq s).

Lemma identity_good s s' o : identity s' = identity s → good s o → good s' o.
Proof.
  intros [= _ H1 H2 H3]. destruct o; cbn; unfold request_host, request_port, first_payload;
    by rewrite ?H1, ?H2, ?H3.
Qed.

Lemma get_sound c now host port ep :
  entries_sound c → 0 <= port → DnsCache.get c now (Decimal.host_port host port) = Some ep →
  resolves host (to_string port) ep.
Proof.
  intros Hc Hp. unfold DnsCache.get. destruct (c !! _) as [x|] eqn:E; [|done].
  destruct (_ <? _); [|done]. intros [= <-].
  destruct (Hc _ _ E) as (h & p & Hp' & Hk & Hr).
  by destruct (Decimal.host_port_inj _ _ _ _ Hp Hp' Hk) as [-> ->].
Qed.

Lemma entries_sound_insert c host port ep t :
  entries_sound c → 0 <= port → resolves host (to_string port) ep →
  entries_sound (<[Decimal.host_port host port := DnsCache.Entry ep t]> c).
Proof. intros Hc Hp Hr. apply map_Forall_insert_2; [|done]. by exists host, port. Qed.

Lemma cache_step_sound c o :
  cache_sound c → cache_op_sound resolves o → cache_sound (DnsCache.step c o).
Proof.
  intros [Hu Ht] Ho. destruct o as [[] n key ep|n|n ttl]; [..|done].
  - destruct Ho as (h & p & ? & -> & ?). split; [by apply entries_sound_insert|done].
  - destruct Ho as (h & p & ? & -> & ?). split; [done|by apply entries_sound_insert].
  - split; cbn; intros k x [Hx _]%map_lookup_filter_Some; [by apply Hu|by apply Ht].
Qed.

(** [s'] serves the request of [s] and has started only operations that may run *)
Record serves (s s' : session) : Prop := Serves {
  sv_identity : identity s' = identity s;
  sv_cache : cache_sound (dns s) → cache_sound (dns s');
  sv_pending : ∃ l, pending s' = pending s ++ l ∧ Forall (λ o, is_pre o = false ∧ good s o) l
}.

Lemma serves_refl s : serves s s.
Proof. split; try done. exists []. by rewrite app_nil_r. Qed.
Lemma serves_trans s1 s2 s3 : serves s1 s2 → serves s2 s3 → serves s1 s3.
Proof.
  intros [H1 H2 (l & H3 & H4)] [H1' H2' (l' & H3' & H4')].
  split; [congruence|auto|]. exists (l ++ l'). rewrite H3', H3, app_assoc.
  split; [done|]. apply list.Forall_app. split; [done|].
  eapply list.Forall_impl; [done|]. intros o [? ?]. split; [done|].
  by eapply identity_good; [symmetry|].
Qed.
Lemma serves_start s o : is_pre o = false → good s o → serves s (start_op o s).
Proof. intros. split; try done. exists [o]. by repeat constructor. Qed.
(** changes of the other members *)
Lemma serves_same s s' :
  identity s' = identity s → dns s' = dns s → pending s' = pending s → serves s s'.
Proof. intros H1 H2 H3. split; [done|by rewrite H2|]. exists []. by rewrite H3, app_nil_r. Qed.

Lemma serves_destroy s : serves s (destroyed s).
Proof. unfold destroyed. case_decide; [apply serves_refl|by apply serves_same]. Qed.
Lemma serves_set_lane d l s : serves s (set_lane d l s).
Proof. by destruct d; apply serves_same. Qed.
Lemma serves_fill d data s : serves s (fill d data s).
Proof. by destruct d; apply serves_same. Qed.
Lemma serves_advance n s : serves s (udp_advance n s).
Proof. unfold udp_advance. cbn. by destruct (_ && _); apply serves_same. Qed.
Lemma serves_read d s : serves s (start_read d s).
Proof. by apply serves_start. Qed.
Lemma serves_do_send d s : serves s (do_send d s).
Proof.
  unfold do_send. destruct (SessionBuffer.empty _); [|by apply serves_start].
  cbn. destruct (pausing _); [|apply serves_set_lane].
  eapply serves_trans; [apply serves_set_lane|apply serves_read].
Qed.
Lemma serves_write d data s : serves s (async_bidirectional_write d data s).
Proof.
  unfold async_bidirectional_write, enqueue_write. cbn.
  eapply (serves_trans _ (if sending (get_lane d s) then _ else _)).
  2: { destruct (SessionBuffer.has_space _ _); [apply serves_read|apply serves_set_lane]. }
  destruct (sending _); [apply serves_set_lane|].
  eapply serves_trans; [apply serves_set_lane|apply serves_do_send].
Qed.
Lemma serves_udp_send_first e p ep s s' :
  resolves (packet_host p) (to_string (packet_port p)) ep →
  udp_send_first tr e p ep s = Ret s' → serves s s'.
Proof.
  intros Hr. unfold udp_send_first.
  destruct (downstream_udp_open s); [intros [= <-]; by apply serves_start|].
  destruct (udp_open_ok e); intros H'; ret_inv H'; [|apply serves_destroy].
  eapply serves_trans; [by apply (serves_same s (s <| downstream_udp_open := true |>))|].
  by apply serves_start.
Qed.

Lemma serves_dns s c :
  (cache_sound (dns s) → cache_sound c) → serves s (s <| dns := c |>).
Proof. intros. split; try done. exists []. by rewrite app_nil_r. Qed.

(** the endpoint picked is one of the resolver's *)
Lemma pick_endpoint_resolves host port eps ep :
  Forall (resolves host port) eps → pick_endpoint eps = Some ep → resolves host port ep.
Proof.
  rewrite list.Forall_forall. intros HF. unfold pick_endpoint.
  destruct (List.find _ eps) as [x|] eqn:E.
  - intros [= <-]. apply find_some in E as [E _]. by apply HF, list_elem_of_In.
  - destruct eps; cbn; [done|]. intros [= <-]. apply HF. set_solver.
Qed.

Lemma serves_udp_proxy e s s' :
  cache_sound (dns s) → handle_trojan_udp_proxy tr e s = Ret s' → serves s s'.
Proof.
  intros Hc. unfold handle_trojan_udp_proxy. cbv zeta.
  set (s2 := s <| state_ := FORWARD |>).
  assert (serves s s2) as H2 by by apply serves_same.
  destruct (Trojan.UDPPacket_parse_total blank_packet (udp_remaining s2))
    as (p & [k|] & -> & Hp); cbn [mbind outcome_bind].
  - destruct (Hp k eq_refl) as (_ & Hport & _).
    pose proof (serves_advance k s2) as H3.
    assert (serves s (udp_advance k s2)) as H4 by by eapply serves_trans.
    assert (dns (udp_advance k s2) = dns s) as E by by apply (udp_advance_fields k s2).
    destruct (DnsCache.get_udp _ _ _) as [ep|] eqn:Hg; [intros Hh|intros [= <-]];
      (eapply serves_trans; [exact H4|]).
    + eapply serves_udp_send_first; [|exact Hh]. rewrite E in Hg.
      eapply get_sound; [apply (proj1 Hc)|apply Hport|exact Hg].
    + apply serves_start; [done|]. split; [apply Hport|done].
  - destruct (_ <? _); intros Hh; ret_inv Hh; (eapply serves_trans; [exact H2|]);
      [apply serves_destroy|by apply serves_start].
Qed.

Lemma serves_udp_read_down e r s s' :
  cache_sound (dns s) → on_udp_read_down tr e r s = Ret s' → serves s s'.
Proof.
  intros Hc. destruct r; cbn; try (intros ->%destroy_Ret; apply serves_destroy).
  match goal with |- context [udp_remaining ?x] => set (s2 := x) end.
  assert (serves s s2) as H2 by by apply serves_same.
  destruct (Trojan.UDPPacket_parse_total blank_packet (udp_remaining s2))
    as (p & [k|] & -> & Hp); cbn [mbind outcome_bind].
  - destruct (Hp k eq_refl) as (_ & Hport & _).
    assert (serves s (udp_advance k s2)) as H4
      by by eapply serves_trans; [|apply serves_advance].
    assert (dns (udp_advance k s2) = dns s) as E by by apply (udp_advance_fields k s2).
    destruct (DnsCache.get_udp _ _ _) as [ep|] eqn:Hg; intros [= <-];
      (eapply serves_trans; [exact H4|]); apply serves_start; try done.
    + rewrite E in Hg. eapply get_sound; [apply (proj1 Hc)|apply Hport|exact Hg].
    + split; [apply Hport|done].
  - destruct (_ <? _); intros Hh; ret_inv Hh; (eapply serves_trans; [exact H2|]);
      [apply serves_destroy|by apply serves_start].
Qed.

Lemma serves_read_both s : serves s (read_both s).
Proof. eapply serves_trans; apply serves_read. Qed.

Lemma serves_put_udp e host port ep s :
  0 <= port → resolves host (to_string port) ep →
  serves s (s <| dns := DnsCache.put_udp (dns s) (now e) (Decimal.host_port host port) ep |>).
Proof.
  intros Hp Hr. apply serves_dns. intros Hc.
  apply (cache_step_sound _ (DnsCache.Put DnsCache.UDP (now e) _ ep) Hc). by exists host, port.
Qed.
Lemma serves_put_tcp e host port ep s :
  0 <= port → resolves host (to_string port) ep →
  serves s (s <| dns := DnsCache.put_tcp (dns s) (now e) (Decimal.host_port host port) ep |>).
Proof.
  intros Hp Hr. apply serves_dns. intros Hc.
  apply (cache_step_sound _ (DnsCache.Put DnsCache.TCP (now e) _ ep) Hc). by exists host, port.
Qed.
Lemma serves_do_connect ep s :
  resolves (request_host s) (to_string (request_port s)) ep → serves s (do_connect ep s).
Proof.
  intros Hr. unfold do_connect.
  eapply serves_trans; [|by apply serves_start]. by apply serves_same.
Qed.
Lemma serves_connect e ep s :
  0 <= request_port s → resolves (request_host s) (to_string (request_port s)) ep →
  serves s (do_connect ep (s <| dns := DnsCache.put_tcp (dns s) (now e)
    (Decimal.host_port (request_host s) (request_port s)) ep |>)).
Proof.
  intros Hp Hr. eapply serves_trans; [by apply serves_put_tcp|by apply serves_do_connect].
Qed.

(** every handler but the one of the request goes on serving the request *)
Lemma serves_handle e o r s s' :
  is_pre o = false → good s o → cache_sound (dns s) → legal tr resolves o r →
  handle allowed tr e o r s = Ret s' → serves s s'.
Proof.
  intros Ho Hg Hc Hlegal Hh.
  pose proof (serves_destroy s) as Hdes. pose proof (serves_refl s) as Hrefl.
  destruct o; try discriminate Ho; cbn [handle] in Hh.
  - destruct r as [| | | |[|ep eps]]; cbn in Hh; ret_inv Hh; try done.
    assert (Forall (resolves host port) (ep :: eps)) as [Hep _]%list.Forall_cons
      by by inversion Hlegal.
    destruct Hg as (-> & -> & Hp & ->). by apply serves_connect.
  - destruct r; cbn in Hh; try (by ret_inv Hh). destruct (options_ok e); [|done].
    destruct (negb _); injection Hh as <-; [by apply serves_start|apply serves_read_both].
  - destruct r; cbn in Hh; ret_inv Hh; try done. apply serves_read_both.
  - unfold on_read in Hh. destruct r; try (case_decide; by ret_inv Hh).
    pose proof (serves_fill d data s). cbv zeta in Hh. case_decide; injection Hh as <-; [done|].
    eapply serves_trans; [done|]. eapply serves_trans; [apply serves_set_lane|apply serves_write].
  - destruct r; cbn in Hh; ret_inv Hh; try done.
    eapply serves_trans; [apply serves_set_lane|apply serves_do_send].
  - destruct r; cbn in Hh; try (by ret_inv Hh).
    eapply serves_trans; [|by eapply (serves_udp_proxy e); [|exact Hh]]. by apply serves_same.
  - by eapply serves_udp_read_down.
  - destruct r; cbn in Hh; try (by ret_inv Hh). destruct (datagram_waiting e); [|done].
    injection Hh as <-. eapply serves_trans; [by apply (serves_fill UP data)|].
    by apply serves_start.
  - destruct r; cbn in Hh; try (by ret_inv Hh).
    destruct (pick_endpoint eps) as [ep|] eqn:Hep; [|by ret_inv Hh].
    assert (resolves (packet_host p) (to_string (packet_port p)) ep) as Hr
      by (eapply pick_endpoint_resolves; [|exact Hep]; by inversion Hlegal).
    destruct Hg as [Hp ->].
    eapply serves_trans; [by apply serves_put_udp|by eapply serves_udp_send_first].
  - destruct r; cbn in Hh; try (by ret_inv Hh).
    destruct (pick_endpoint eps) as [ep|] eqn:Hep; ret_inv Hh; [|done].
    assert (resolves (packet_host p) (to_string (packet_port p)) ep) as Hr
      by (eapply pick_endpoint_resolves; [|exact Hep]; by inversion Hlegal).
    destruct Hg as [Hp ->].
    eapply serves_trans; [by apply serves_put_udp|by apply serves_start].
  - destruct r; cbn in Hh; ret_inv Hh; try done. eapply serves_trans; by apply serves_start.
  - destruct r; cbn in Hh; ret_inv Hh; try done. by apply serves_start.
  - destruct r; cbn in Hh; ret_inv Hh; try done. by apply serves_start.
Qed.

Lemma do_resolve_spec e s :
  password (do_resolve e s) = password s ∧
  pending (do_resolve e s) = pending s ++
    [match DnsCache.get_tcp (dns s) (now e)
             (Decimal.host_port (request_host s) (request_port s)) with
     | Some ep => Connect ep
     | None => Resolve (request_host s) (to_string (request_port s))
                 (Decimal.host_port (request_host s) (request_port s))
     end].
Proof.
  unfold do_resolve. fold (request_host s). fold (request_port s). cbv zeta.
  set (s2 := s <| remote_host := request_host s |>
               <| remote_port := to_string (request_port s) |>).
  change (remote_host s2 ++ lit ":" ++ remote_port s2)
    with (Decimal.host_port (request_host s) (request_port s)).
  change (dns s2) with (dns s). by destruct (DnsCache.get_tcp _ _ _).
Qed.

Lemma serves_do_resolve e s :
  0 <= request_port s → cache_sound (dns s) → serves s (do_resolve e s).
Proof.
  intros Hp Hc. unfold do_resolve.
  fold (request_host s). fold (request_port s). cbv zeta.
  set (s2 := s <| remote_host := request_host s |>
               <| remote_port := to_string (request_port s) |>).
  assert (serves s s2) as H2 by by apply serves_same.
  destruct (DnsCache.get_tcp _ _ _) as [ep|] eqn:E; (eapply serves_trans; [exact H2|]).
  - apply serves_do_connect. eapply get_sound; [apply (proj2 Hc)|exact Hp|exact E].
  - by apply serves_start.
Qed.

(** A session serves a client whose password is allowed, or it has opened no
    socket to a target and is still waiting for the request. *)
Definition auth (s : session) : Prop :=
  (password s ∈ allowed ∧ Forall (λ o, is_pre o = false ∧ good s o) (pending s)) ∨
  (Forall (λ o, is_pre o = true) (pending s) ∧
   downstream_open s = false ∧ downstream_udp_open s = false ∧
   (pending s ≠ [] → vprotocol s = false)).

Lemma serves_auth s s' :
  password s ∈ allowed → Forall (λ o, is_pre o = false ∧ good s o) (pending s) →
  serves s s' → auth s'.
Proof.
  intros Hp HF [Hid _ (l & Hl & HFl)]. left. split; [by injection Hid as -> _|].
  rewrite Hl. apply list.Forall_app.
  split; (eapply list.Forall_impl; [done|]); intros o [? ?]; (split; [done|]);
    by eapply identity_good.
Qed.

Lemma destroy_auth s :
  pending s = [] → downstream_open s = false → downstream_udp_open s = false →
  auth (destroyed s).
Proof.
  intros Hp Hd Hu. right. unfold destroyed. case_decide; [rewrite Hp; naive_solver|].
  cbn. rewrite Hp. naive_solver.
Qed.

(** the parser of a request, by its protocol *)
Definition parsed (v : bool) (data : bytes) (s : session) : outcome (bool * session) :=
  if v then
    u ← VRequest.unstream (v_req s) data;
    mret (u.2, s <| v_req := u.1 |> <| password := VRequest.password u.1 |>
                 <| vprotocol := true |>)
  else
    u ← Trojan.TrojanReq.parse (trojanReq s) data;
    mret (negb (u.2 =? -1),
          s <| trojanReq := u.1 |> <| password := Trojan.TrojanReq.password u.1 |>).
Lemma request_parsed v data s valid s2 :
  parsed v data s = Ret (valid, s2) → vprotocol s = false →
  pending s2 = pending s ∧ dns s2 = dns s ∧ downstream_open s2 = downstream_open s ∧
  downstream_udp_open s2 = downstream_udp_open s ∧ (valid = true → 0 <= request_port s2 < 2 ^ 16).
Proof.
  intros E Hv. destruct v; apply bind_Ret_inv in E as ([u1 u2] & Eu & E);
    injection E as <- <-; cbn; split_and!; try done.
  - unfold request_port. cbn. intros ->. by eapply VRequest.unstream_port.
  - destruct (Trojan.TrojanReq_parse_total (trojanReq s) data) as (r & n & Er & Hn).
    rewrite Er in Eu. injection Eu as -> ->. unfold request_port. cbn. rewrite Hv.
    destruct (Z.eqb_spec u2 (-1)) as [|Hne]; [done|]. intros _.
    by destruct (Hn Hne) as (_ & _ & ? & _).
Qed.

Lemma request_auth e r s s' :
  pending s = [] → vprotocol s = false → downstream_open s = false →
  downstream_udp_open s = false → cache_sound (dns s) →
  on_request allowed tr e r s = Ret s' → auth s' ∧ cache_sound (dns s').
Proof.
  intros Hp Hv Hd Hu Hc.
  assert (∀ s, dns (destroyed s) = dns s) as Hdns
    by (intros; unfold destroyed; by case_decide).
  destruct r; cbn; try (intros ->%destroy_Ret; rewrite Hdns; split; [by apply destroy_auth|done]).
  destruct (VRequest.is_v_protocol _) as [v| |]; [|done..]. cbn.
  intros H. apply bind_Ret_inv in H as ([valid s2] & E & H).
  destruct (request_parsed v data _ valid s2 E Hv) as (Hp2 & Hc2 & Hd2 & Hu2 & Hport).
  assert (auth (destroyed s2) ∧ cache_sound (dns (destroyed s2))) as Hbad.
  { rewrite Hdns, Hc2. split; [apply destroy_auth; by etrans|done]. }
  destruct valid; [|by ret_inv H].
  destruct (decide (password s2 ∈ allowed)) as [Hin|]; [|by ret_inv H].
  enough (serves s2 s') as Hs.
  { split; [|apply (sv_cache _ _ Hs); by rewrite Hc2].
    eapply serves_auth; [done| |done]. by rewrite (eq_trans Hp2 Hp). }
  destruct (_ && _).
  - eapply serves_trans; [|eapply serves_udp_proxy; [|exact H]]; [by apply serves_same|].
    cbn. by rewrite Hc2.
  - injection H as <-. apply serves_do_resolve; [by apply Hport|by rewrite Hc2].
Qed.

(** the handlers before the request end the session or start one operation *)
Lemma entry_auth s s' :
  pending s = [] → vprotocol s = false → downstream_open s = false → downstream_udp_open s = false →
  s' = destroyed s ∨ (∃ o, s' = start_op o s ∧ is_pre o = true) → auth s' ∧ dns s' = dns s.
Proof.
  intros Hp Hv Hd Hu.
  assert (auth (destroyed s) ∧ dns (destroyed s) = dns s) as Hdes.
  { split; [by apply destroy_auth|]. unfold destroyed. by case_decide. }
  intros [->|(o & -> & Ho)]; [done|]. split; [|done]. right. cbn. rewrite Hp. by repeat constructor.
Qed.

Lemma auth_step s s' :
  inv s → auth s → cache_sound (dns s) → step allowed tr resolves s s' →
  auth s' ∧ cache_sound (dns s').
Proof.
  intros Hinv Ha Hc Hstep. revert Hinv Ha Hc.
  destruct Hstep as [s l1 o l2 e r s' Hp Hlegal Hh|s c Hop]; intros Hinv Ha Hc.
  2: { split; [|by apply cache_step_sound]. destruct Ha as [?|?]; [by left|by right]. }
  destruct Ha as [[Hpw HF]|(HF & Hd & Hu & Hv)].
  - destruct (forall_rest s l1 l2 o Hp _ HF) as [[Ho Hg] HF0].
    assert (serves (rest s l1 l2) s') as Hs
      by (eapply serves_handle; [exact Ho| |exact Hc|exact Hlegal|exact Hh];
          by eapply identity_good).
    split; [|by apply (sv_cache _ _ Hs)]. eapply serves_auth; [| |exact Hs]; done.
  - destruct (forall_rest s l1 l2 o Hp _ HF) as [Ho HF0].
    assert (l1 ++ l2 = []) as Hnil.
    { destruct Hinv as [o' Hp' _ _ _ _|_ HF' _ _|_ HF' _ _|_ HF' _ _ _ _ _].
      - rewrite Hp in Hp'. destruct l1 as [|? [|]]; simplify_list_eq. done.
      - destruct (forall_rest s l1 l2 o Hp _ HF') as [? _]. by destruct o.
      - destruct (forall_rest s l1 l2 o Hp _ HF') as [? _]. by destruct o.
      - destruct (forall_rest s l1 l2 o Hp _ HF') as [? _]. by destruct o. }
    assert (vprotocol s = false) as Hv' by (apply Hv; rewrite Hp; by destruct l1).
    destruct o; try discriminate Ho; cbn in Hh.
    + destruct (entry_auth (rest s l1 l2) s') as [Hok E];
        try done; [|split; [exact Hok|exact (eq_ind_r cache_sound Hc E)]].
      apply on_handshake_cases in Hh as [|[|]]; eauto 6.
    + destruct (entry_auth (rest s l1 l2) s') as [Hok E];
        try done; [|split; [exact Hok|exact (eq_ind_r cache_sound Hc E)]].
      apply on_accept_cases in Hh as [|]; eauto.
    + by eapply request_auth; [..|exact Hh].
Qed.

Lemma auth_reachable cache s :
  cache_sound cache → reachable allowed tr resolves cache s → auth s ∧ cache_sound (dns s).
Proof.
  intros Hc Hr. enough (inv s ∧ auth s ∧ cache_sound (dns s)) by tauto. revert Hr.
  apply (rtc_ind_r (λ s, inv s ∧ auth s ∧ cache_sound (dns s))).
  - split_and!; [by apply fresh_start| |done]. right. by repeat constructor.
  - intros s1 s2 _ Hs (? & ? & ?). split; [by eapply inv_step|by eapply auth_step].
Qed.

(** Nobody is served without an allowed password.  In every reachable state in
    which a socket to a target is open, or any operation other than the handshakes
    and the reading of the request is in flight, the session's password is one of
    the configured ones. *)
Lemma served_only_with_password cache s :
  cache_sound cache → reachable allowed tr resolves cache s →
  downstream_open s = true ∨ downstream_udp_open s = true ∨
    (∃ o, o ∈ pending s ∧ o ≠ Handshake ∧ o ≠ AcceptWs ∧ o ≠ ReadRequest) →
  password s ∈ allowed.
Proof.
  intros Hc Hr Ho. destruct (auth_reachable cache s Hc Hr) as [Ha _].
  destruct Ha as [[? _]|(HF & Hd & Hu & _)]; [done|]. rewrite Hd, Hu in Ho.
  destruct Ho as [?|[?|(o & Ho & ? & ? & ?)]]; [done..|].
  rewrite list.Forall_forall in HF. specialize (HF o Ho). by destruct o.
Qed.
End Target.

(** ** The first read *)
Lemma init_in_buf cache : len (in_buf (init cache)) = MAX_BUFF_SIZE.
Proof.
  unfold init. cbn [in_buf]. unfold len. rewrite length_replicate. apply Z2Nat.id.
  unfold MAX_BUFF_SIZE. lia.
Qed.
Lemma init_fresh cache : fresh (init cache).
Proof. split; [discriminate|exact eq_refl..]. Qed.

(** the protocol is told from the first bytes of the read *)
Lemma is_v_filled s data :
  VRequest.identifier_len <= len data <= MAX_BUFF_SIZE → len (in_buf s) = MAX_BUFF_SIZE →
  VRequest.is_v_protocol (in_buf (fill DOWN data s)) =
  Ret (bool_decide (take (Z.to_nat VRequest.identifier_len) data = VRequest.v_identifier)).
Proof.
  intros [Hid Hfit] Hbuf. change (in_buf (fill DOWN data s)) with (overwrite (in_buf s) 0 data).
  unfold VRequest.is_v_protocol. rewrite len_overwrite, Hbuf.
  replace (VRequest.identifier_len <=? MAX_BUFF_SIZE) with true by reflexivity.
  assert (take (Z.to_nat VRequest.identifier_len) (overwrite (in_buf s) 0 data) =
          take (Z.to_nat VRequest.identifier_len) data) as ->; [|done].
  rewrite <-(take_overwrite (in_buf s) data) at 2 by lia.
  rewrite take_take, Nat.min_l by (unfold len in *; lia). done.
Qed.

(** ** A request of the V protocol *)
(** the session after a read that holds a whole request and [body] behind it *)
Definition with_request (r : VRequest.t) (body : bytes) (s : session) : session :=
  let wire := (VRequest.stream r []).2 in
  (fill DOWN (wire ++ body) s)
    <| v_req := VRequest.Req (VRequest.version r) (len wire) (VRequest.user_name r)
         (VRequest.password r) (VRequest.address r) (VRequest.port r)
         (match body with [] => VRequest.packed_buff (v_req s) | _ => body end) |>
    <| password := VRequest.password r |> <| vprotocol := true |>.

(** such a read sets the session on its way to the requested host, or ends it *)
Lemma v_request_read allowed tr e s r body :
  let wire := (VRequest.stream r []).2 in
  len (wire ++ body) <= MAX_BUFF_SIZE → 0 <= VRequest.port r < 2 ^ 16 →
  len (VRequest.user_name r) < 2 ^ 20 → len (VRequest.password r) < 2 ^ 20 →
  len (VRequest.address r) < 2 ^ 20 →
  0 <= VRequest.version r < 2 ^ 8 → len (in_buf s) = MAX_BUFF_SIZE →
  on_request allowed tr e (Received (wire ++ body)) s =
  (if decide (VRequest.password r ∈ allowed) then Ret (do_resolve e (with_request r body s))
   else destroy tr e (with_request r body s)).
Proof.
  intros wire Hfit Hport Hu Hp Ha Hver Hbuf. unfold MAX_BUFF_SIZE in *.
  assert (take (Z.to_nat VRequest.identifier_len) wire = VRequest.v_identifier ∧ 10 <= len wire)
    as [Hid Hlen].
  { subst wire. rewrite VRequest.stream_wire by lia. cbn [app]. rewrite VRequest.len_wire.
    pose proof (len_nonneg (VRequest.user_name r)). pose proof (len_nonneg (VRequest.password r)).
    pose proof (len_nonneg (VRequest.address r)). split; [done|lia]. }
  cbn [on_request]. set (s1 := fill DOWN (wire ++ body) s).
  assert (VRequest.is_v_protocol (in_buf s1) = Ret true) as ->.
  { subst s1. rewrite is_v_filled; [|unfold VRequest.identifier_len, MAX_BUFF_SIZE; len_lia|done].
    rewrite take_app_le, Hid by (unfold VRequest.identifier_len, len in *; lia).
    by rewrite bool_decide_eq_true_2. }
  cbn [mbind outcome_bind].
  change (v_req s1) with (v_req s).
  pose proof (VRequest.stream_unstreamed (v_req s) r body) as Hparse. fold wire in Hparse.
  rewrite Hparse by (len_lia || done).
  cbn [mbind outcome_bind mret outcome_ret fst snd].
  change (password _) with (VRequest.password r) at 1.
  by destruct (decide (VRequest.password r ∈ allowed)).
Qed.

(** ** The UDP stream buffer *)
Definition udp_buffer_ok (s : session) : Prop :=
  0 <= udp_buff_offset_ s <= len (upstream_udp_buff s).

Lemma len_udp_remaining s :
  udp_buffer_ok s → len (udp_remaining s) = len (upstream_udp_buff s) - udp_buff_offset_ s.
Proof. unfold udp_buffer_ok. intros. unfold udp_remaining. rewrite len_drop by lia. lia. Qed.

Lemma udp_advance_spec n s :
  udp_buffer_ok s → 0 <= n <= len (udp_remaining s) →
  udp_buffer_ok (udp_advance n s) ∧
  udp_remaining (udp_advance n s) = drop (Z.to_nat n) (udp_remaining s).
Proof.
  intros Hok Hn. rewrite len_udp_remaining in Hn by done. unfold udp_buffer_ok in *.
  assert (drop (Z.to_nat n) (udp_remaining s) =
          drop (Z.to_nat (udp_buff_offset_ s + n)) (upstream_udp_buff s)) as ->.
  { unfold udp_remaining. rewrite drop_drop. f_equal. lia. }
  unfold udp_advance, udp_remaining. cbn.
  destruct (_ && _) eqn:E; cbn; [|split; [lia|done]].
  rewrite len_drop by lia. split; [lia|done].
Qed.

(** receiving client bytes *)
Lemma udp_append_spec data s :
  udp_buffer_ok s →
  let s' := (fill DOWN data s) <| upstream_udp_buff := upstream_udp_buff s ++ data |> in
  udp_buffer_ok s' ∧ udp_remaining s' = udp_remaining s ++ data.
Proof.
  intros Hok. unfold udp_buffer_ok, udp_remaining in *. cbn. split; [len_lia|].
  rewrite drop_app_le; [done|unfold len in *; lia].
Qed.

(** a run of reads of the relay's client half *)
Fixpoint udp_reads (tr : transport) (e : env) (ds : list bytes) (s : session) : outcome session :=
  match ds with
  | [] => Ret s
  | d :: ds => s' ← on_udp_read_down tr e (Received d) s; udp_reads tr e ds s'
  end.

End ServerSessionFacts.
