(* ===== verification/ServerSessionProps.v ===== *)
(** ServerSessionProps: the guarantees of a server session
    (src/Server/Session.cpp, TlsSession.cpp, WebsocketSession.cpp), for every
    order in which its asynchronous operations complete. *)
From S2P Require Import Prelude Net Decimal Trojan VRequest Ring DnsCache ServerSession.
From S2P Require Import ServerSessionFacts.
Import ServerSession ServerSessionFacts.

Module ServerSessionProps.

Section Runs.
Context (allowed : gset bytes) (tr : transport).
Context (resolves : bytes → bytes → Net.endpoint → Prop).
Context (cache : DnsCache.t).

Lemma init_integrity :
  read_total lane_init = sent_total lane_init ++ SessionBuffer.contents (ring lane_init) ∧
  len (SessionBuffer.contents (ring lane_init)) <= MAX_BUFF_SIZE.
Proof.
  split; [reflexivity|].
  change (len (@nil byte) <= MAX_BUFF_SIZE). rewrite len_nil. unfold MAX_BUFF_SIZE. lia.
Qed.

(** C1: bytes are forwarded unchanged and in order.  In every reachable state
    and for both directions, what the sink socket has accepted is a prefix of
    what the source socket has delivered; and while the session lives, nothing
    is lost: what was read is exactly what was sent followed by what the ring
    buffer holds, and the buffer never overflows. *)
Theorem tcp_stream_integrity s d :
  reachable allowed tr resolves cache s →
  let l := get_lane d s in
  sent_total l `prefix_of` read_total l ∧
  (state_ s ≠ DESTROY →
   read_total l = sent_total l ++ SessionBuffer.contents (ring l) ∧
   len (SessionBuffer.contents (ring l)) <= MAX_BUFF_SIZE).
Proof.
  intros Hr l. apply inv_reachable in Hr. split; [by apply inv_prefix|].
  destruct Hr as [o _ _ [? Hd Hu _] _ _|_ _ Hd Hu|_ _ Hd Hu|Hs _ _ _ _ _ _]; intros Hlive.
  1,3: (assert (get_lane d s = lane_init) as E by (by destruct d)); subst l; rewrite E;
    exact init_integrity.
  - assert (lane_live d s) as [Hwf Hcap Htot _ _] by (by destruct d). split; [done|].
    rewrite SessionBuffer.len_contents, <-Hcap by done. apply (SessionBuffer.wf_used _ Hwf).
  - congruence.
Qed.

(** C9: reads and writes never overlap and forwarding never stalls.  At most one
    operation per direction is in flight (so no socket has two reads or two
    writes at once); as soon as one direction is forwarding, both are, each with
    exactly one operation; and a read is only in flight when the direction's
    buffer is empty, so its data always fits. *)
Theorem one_operation_per_direction s :
  reachable allowed tr resolves cache s →
  (∀ d, length (ops d s) <= 1)%nat ∧
  (state_ s = FORWARD → (∃ d, ops d s ≠ []) →
   ∀ d, (ops d s = [Read d] ∧ SessionBuffer.contents (ring (get_lane d s)) = []) ∨
        ∃ data, data ≠ [] ∧ ops d s = [Send d data true]).
Proof.
  intros Hr. apply inv_reachable in Hr as [o Hp Ho Hf _ _|_ _ Hd Hu|Hs HF _ _|Hs _ _ _ _ Hd Hu].
  - assert (∀ d, ops d s = []) as Hops by (intros d; unfold ops; rewrite Hp; by destruct o).
    split; [intros d; rewrite Hops; cbn; lia|]. intros _ [d Hd]. by rewrite Hops in Hd.
  - assert (∀ d, lane_live d s) as Hl by (by intros []).
    split; [|intros _ _]; intros d; destruct (Hl d) as [Hwf _ _ _ Hop].
    + destruct Hop as [(-> & _)|(_ & _ & _ & ->)]; cbn; lia.
    + destruct Hop as [(-> & Hq & _)|(Hq & _ & _ & ->)]; [by left|right].
      eexists. split; [|done]. by apply SessionBuffer.peek_nonempty.
  - assert (∀ d, ops d s = []) as Hops by (intros d; by apply udp_chain_ops).
    split; [intros d; rewrite Hops; cbn; lia|]. intros _ [d Hd]. by rewrite Hops in Hd.
  - split; [|by rewrite Hs]. intros d. assert (lane_ok d s) as [_ Hop] by (by destruct d).
    destruct Hop as [->|[->|(? & ? & -> & _)]]; cbn; lia.
Qed.

(** C8: the session connects only where the client asked it to.  Every TCP
    connect goes to an endpoint the resolver returned for the host and port of
    the request, and every UDP send to an endpoint it returned for the host and
    port of that very packet, whether the endpoint came from the resolver or
    from the cache that all sessions share. *)
Theorem connects_only_to_requested s o :
  cache_sound resolves cache → reachable allowed tr resolves cache s → o ∈ pending s →
  match o with
  | Connect ep => resolves (request_host s) (to_string (request_port s)) ep
  | WritePayload data => data = first_payload s
  | UdpSendFirst p ep | UdpSendNext p ep =>
      resolves (packet_host p) (to_string (packet_port p)) ep
  | _ => True
  end.
Proof.
  intros Hc Hr Ho. destruct (auth_reachable allowed tr resolves cache s Hc Hr) as [Ha _].
  destruct Ha as [[_ HF]|(HF & _)]; rewrite list.Forall_forall in HF; specialize (HF o Ho).
  - destruct HF as [_ HF]. by destruct o.
  - by destruct o.
Qed.

(** C10: a destroyed session is finished.  All of its sockets are closed, no
    later handler revives it or opens a socket again, and destroying it once
    more changes nothing. *)
Theorem destroyed_is_final s s' :
  reachable allowed tr resolves cache s → state_ s = DESTROY →
  rtc (step allowed tr resolves) s s' →
  state_ s' = DESTROY ∧ upstream_open s' = false ∧ downstream_open s' = false ∧
  downstream_udp_open s' = false ∧ ∀ e, destroy tr e s' = Ret s'.
Proof.
  intros Hr Hs Hrun. apply inv_reachable in Hr.
  enough (inv s' ∧ state_ s' = DESTROY) as [Hinv Hs'].
  { destruct Hinv as [? _ _ [? _ _ _] _ _|? _ _ _|? _ _ _|_ _ ? ? ? _ _]; try congruence.
    split_and!; try done. intros e. rewrite destroy_spec. unfold destroy_throws, destroyed.
    rewrite Hs'. by rewrite decide_True. }
  revert Hrun. apply (rtc_ind_r (λ s', inv s' ∧ state_ s' = DESTROY)); [done|].
  intros s1 s2 _ Hstep [Hinv Hs1]. split; [by eapply inv_step|]. by eapply dead_step_state.
Qed.
End Runs.

(** ** How a handler can fail *)
(** a request that claims to be of the V protocol, whose parser may leave its buffer *)
Definition claims_v (o : op) (r : result) (s : session) : Prop :=
  ∃ data, o = ReadRequest ∧ r = Received data ∧
    take (Z.to_nat VRequest.identifier_len) (in_buf (fill DOWN data s)) = VRequest.v_identifier.

(** a handler returns, or throws for a reason the environment [e] gives *)
Definition excused (e : env) (o : op) (r : result) (s : session) (res : outcome session) : Prop :=
  match res with
  | Ret _ => True
  | Throw x =>
      x = system_error ∧
      ((∃ ep, o = Connect ep ∧ r = Done ∧ options_ok e = false) ∨
       (close_ok e = false ∧ (downstream_udp_open s = true ∨ downstream_open s = true)))
  | Undef => o = UdpRecvUp ∧ (∃ data, r = Received data) ∧ datagram_waiting e = false
  end.

Lemma destroy_excused tr e o r s s1 :
  downstream_udp_open s1 = downstream_udp_open s → downstream_open s1 = downstream_open s →
  excused e o r s (destroy tr e s1).
Proof.
  intros H1 H2. rewrite destroy_spec. unfold destroy_throws. rewrite H1, H2.
  destruct (_ && negb (close_ok e)) eqn:E; [|done]. cbn.
  apply andb_true_iff in E as [[_ E]%andb_true_iff Hc]. split; [done|right].
  split; [by destruct (close_ok e)|by apply orb_true_iff].
Qed.

Lemma udp_send_first_excused tr e o r p ep s s1 :
  downstream_udp_open s1 = downstream_udp_open s → downstream_open s1 = downstream_open s →
  excused e o r s (udp_send_first tr e p ep s1).
Proof.
  intros H1 H2. unfold udp_send_first. destruct (downstream_udp_open s1) eqn:Ho; [done|].
  destruct (udp_open_ok e); [done|apply destroy_excused; congruence].
Qed.

Lemma udp_proxy_excused tr e o r s s1 :
  downstream_udp_open s1 = downstream_udp_open s → downstream_open s1 = downstream_open s →
  excused e o r s (handle_trojan_udp_proxy tr e s1).
Proof.
  intros H1 H2. unfold handle_trojan_udp_proxy. cbv zeta. set (s2 := s1 <| state_ := FORWARD |>).
  destruct (Trojan.UDPPacket_parse_total blank_packet (udp_remaining s2)) as (p & [k|] & -> & _);
    cbn [mbind outcome_bind].
  - destruct (udp_advance_fields k s2) as (_ & _ & _ & _ & E1 & E2 & _).
    destruct (DnsCache.get_udp _ _ _); [|done].
    apply udp_send_first_excused; [by rewrite E2|by rewrite E1].
  - destruct (_ <? _); [by apply destroy_excused|done].
Qed.

Lemma read_down_excused tr e o r r0 s :
  excused e o r0 s (on_udp_read_down tr e r s).
Proof.
  destruct r; cbn [on_udp_read_down]; try by apply destroy_excused.
  match goal with |- context [Trojan.UDPPacket.parse ?a ?b] =>
    destruct (Trojan.UDPPacket_parse_total a b) as (p & [k|] & -> & _) end;
    cbn [mbind outcome_bind]; [by destruct (DnsCache.get_udp _ _ _)|].
  destruct (_ <? _); [by apply destroy_excused|done].
Qed.

Lemma request_excused allowed tr e o r r0 s :
  VRequest.identifier_len <= len (in_buf s) → ¬ claims_v ReadRequest r s →
  excused e o r0 s (on_request allowed tr e r s).
Proof.
  intros Hin Hv. destruct r; cbn [on_request]; try by apply destroy_excused.
  unfold VRequest.is_v_protocol. rewrite (proj2 (Z.leb_le _ _)).
  2: { cbn. rewrite len_overwrite. done. }
  rewrite bool_decide_eq_false_2 by (intros E; apply Hv; by exists data).
  cbn [mbind outcome_bind mret outcome_ret].
  match goal with |- context [Trojan.TrojanReq.parse ?a ?b] =>
    destruct (Trojan.TrojanReq_parse_total a b) as (q & k & -> & _) end.
  cbn [mbind outcome_bind mret outcome_ret].
  destruct (negb (_ =? -1)); [|by apply destroy_excused].
  case_decide; [|by apply destroy_excused].
  destruct (_ && _); [by apply udp_proxy_excused|done].
Qed.

Lemma handle_excused allowed tr e o r s :
  VRequest.identifier_len <= len (in_buf s) → ¬ claims_v o r s →
  excused e o r s (handle allowed tr e o r s).
Proof.
  intros Hin Hv.
  assert (∀ tr s1, destroy tr e s = s1 → excused e o r s s1) as Hd
    by (intros ? ? <-; by apply destroy_excused).
  destruct o; cbn [handle].
  - destruct tr, r; first [exact I|by apply (Hd Tls)|by apply (Hd Websocket)].
  - destruct r; try exact I; by apply (Hd Websocket).
  - by apply request_excused.
  - destruct r as [| | | |[|]]; by first [exact I|apply (Hd tr)].
  - destruct r; try (by apply (Hd tr)). cbn [on_connected].
    destruct (options_ok e) eqn:Ho; [by destruct (negb _)|]. split; [done|]. left. eauto.
  - destruct r; by first [exact I|apply (Hd tr)].
  - unfold on_read. destruct r; try (case_decide; [exact I|by apply (Hd tr)]).
    cbv zeta. by case_decide.
  - destruct r; by first [exact I|apply (Hd tr)].
  - destruct r; try (by apply (Hd tr)). by apply udp_proxy_excused.
  - apply read_down_excused.
  - destruct r; try (by apply (Hd tr)). cbn [on_udp_recv_up].
    destruct (datagram_waiting e) eqn:Hw; [exact I|]. cbn. eauto.
  - destruct r; try (by apply (Hd tr)). cbn [on_udp_resolved_first].
    destruct (pick_endpoint eps); [by apply udp_send_first_excused|by apply (Hd tr)].
  - destruct r; try (by apply (Hd tr)). cbn [on_udp_resolved_next].
    destruct (pick_endpoint eps); [exact I|by apply (Hd tr)].
  - destruct r; by first [exact I|apply (Hd tr)].
  - destruct r; by first [exact I|apply (Hd tr)].
  - destruct r; by first [exact I|apply (Hd tr)].
Qed.

(** C11: how every completion handler of a session ends, whatever the client,
    the target and the resolver do, unless the request it reads claims to be of
    the V protocol.  It returns, except that: it throws [system_error] if the
    options of the connected target socket cannot be set, or if closing an open
    target socket fails while it ends the session; and it is undefined if a
    datagram of the target arrived after the receive had been started.  Each of
    the three does fail in that way: the handler of a connect, the handler of any failed
    operation of a live session with a socket open, and the handler of a late datagram. *)
Theorem handlers_total allowed tr e o r s :
  VRequest.identifier_len <= len (in_buf s) → ¬ claims_v o r s →
  excused e o r s (handle allowed tr e o r s) ∧
  (options_ok e = true → close_ok e = true → datagram_waiting e = true →
   ∃ s', handle allowed tr e o r s = Ret s') ∧
  (∀ ep, o = Connect ep → r = Done → options_ok e = false →
   handle allowed tr e o r s = Throw system_error) ∧
  (r = Failed → state_ s ≠ DESTROY → downstream_udp_open s = true ∨ downstream_open s = true →
   close_ok e = false →
   handle allowed tr e o r s = Throw system_error) ∧
  (∀ data, o = UdpRecvUp → r = Received data → datagram_waiting e = false →
   handle allowed tr e o r s = Undef).
Proof.
  intros Hin Hv.
  assert (excused e o r s (handle allowed tr e o r s)) as Hex by by apply handle_excused.
  split; [exact Hex|split_and!].
  - intros H1 H2 H3. destruct (handle _ _ _ _ _ _) as [s'|x|]; [by exists s'|exfalso..]; cbn in Hex.
    + destruct Hex as (_ & [(? & _ & _ & E)|[E _]]); congruence.
    + destruct Hex as (_ & _ & E). congruence.
  - intros ep -> -> H. cbn. by rewrite H.
  - intros -> Hst Ho Hc.
    assert (∀ tr, destroy tr e s = Throw system_error) as Hd.
    { intros tr'. rewrite destroy_spec. unfold destroy_throws.
      rewrite bool_decide_eq_true_2, Hc by done. by destruct Ho as [-> | ->]; rewrite ?orb_true_r. }
    destruct o; cbn; try apply Hd; unfold on_handshake, tls_on_handshake;
      [destruct tr; [apply (Hd Tls)|apply (Hd Websocket)]|apply (Hd Websocket)|].
    rewrite decide_False by done. apply Hd.
  - intros data -> -> H. cbn. by rewrite H.
Qed.

(** the relay's receive from the target: a datagram that arrives while the relay waits for it
    is written through the reference to the variable that is gone *)
Lemma udp_answer_dangles allowed tr e data s :
  datagram_waiting e = false → handle allowed tr e UdpRecvUp (Received data) s = Undef.
Proof. intros H. cbn. by rewrite H. Qed.

(** ** The UDP relay *)
(** UDP packets are cut out of the client's byte stream wherever the reads
    cut it.  When the unparsed bytes and the data of a read together begin with
    the encoding of a packet for a domain, exactly that packet's payload is
    forwarded to its host and port (through the cache or the resolver) and
    exactly the packet's bytes are consumed, also when the buffer is compacted. *)
Lemma udp_packet_forwarded tr e s data d p pl more :
  udp_buffer_ok s → 0 < len d < 256 → 0 <= p < 2 ^ 16 → len pl < 2 ^ 16 →
  udp_remaining s ++ data = Trojan.UDPPacket.generate_domain d p pl ++ more →
  let packet := Trojan.UDPPacket.Packet
                  (Trojan.SOCKS5Address.Addr Trojan.DOMAINNAME d p) (len pl) pl in
  ∃ s', on_udp_read_down tr e (Received data) s = Ret s' ∧
    udp_buffer_ok s' ∧ udp_remaining s' = more ∧
    pending s' = pending s ++
      [match DnsCache.get_udp (dns s) (now e) (Decimal.host_port d p) with
       | Some ep => UdpSendNext packet ep
       | None => UdpResolveNext packet (Decimal.host_port d p)
       end].
Proof.
  intros Hok Hd Hp Hpl Hstream packet. cbn [on_udp_read_down].
  destruct (udp_append_spec data s Hok) as [Hok1 Hrem1].
  set (s1 := fill DOWN data s <| upstream_udp_buff := _ |>) in *.
  rewrite Hrem1, Hstream, Trojan.UDPPacket_parse_domain by done. cbn [mbind outcome_bind].
  set (n := len (Trojan.UDPPacket.generate_domain d p pl)).
  destruct (udp_advance_spec n s1 Hok1) as [Hok2 Hrem2].
  { rewrite Hrem1, Hstream. subst n. len_lia. }
  assert (drop (Z.to_nat n) (udp_remaining s1) = more) as Hmore.
  { rewrite Hrem1, Hstream. subst n. unfold len. by rewrite Nat2Z.id, drop_app_length. }
  rewrite Hmore in Hrem2.
  destruct (udp_advance_fields n s1) as (_ & _ & _ & _ & _ & _ & Hpend & Hdns & _).
  rewrite Hdns. change (dns s1) with (dns s).
  change (udp_key packet) with (Decimal.host_port d p).
  destruct (DnsCache.get_udp _ _ _); eexists; (split; [reflexivity|]);
    split_and!; try done; cbn; by rewrite Hpend.
Qed.

(** The relay's buffer grows for as long as the session lives.  Compaction
    asks for unparsed bytes behind the offset, so when each read brings exactly
    one whole packet the consumed bytes are never released: after any number of
    such reads the buffer still holds every byte ever received. *)
Lemma udp_buffer_never_shrinks tr e ds s :
  udp_buff_offset_ s = len (upstream_udp_buff s) →
  Forall (λ data, ∃ d p pl, 0 < len d < 256 ∧ 0 <= p < 2 ^ 16 ∧ len pl < 2 ^ 16 ∧
            data = Trojan.UDPPacket.generate_domain d p pl) ds →
  ∃ s', udp_reads tr e ds s = Ret s' ∧
    upstream_udp_buff s' = upstream_udp_buff s ++ concat ds ∧
    udp_buff_offset_ s' = len (upstream_udp_buff s').
Proof.
  intros Hoff HF. revert s Hoff. induction HF as [|data ds (d & p & pl & Hd & Hp & Hpl & ->) _ IH];
    intros s Hoff; [exists s; by rewrite app_nil_r|].
  cbn [udp_reads on_udp_read_down].
  assert (udp_buffer_ok s) as Hok by (unfold udp_buffer_ok; len_lia).
  destruct (udp_append_spec (Trojan.UDPPacket.generate_domain d p pl) s Hok) as [_ Hrem].
  set (data := Trojan.UDPPacket.generate_domain d p pl) in *.
  set (s1 := fill DOWN data s <| upstream_udp_buff := _ |>) in *.
  assert (udp_remaining s = []) as Hnil.
  { apply len_0_nil. rewrite len_udp_remaining by done. lia. }
  pose proof (Trojan.UDPPacket_parse_domain blank_packet d p pl [] Hpl Hd Hp) as Hparse.
  rewrite app_nil_r in Hparse. fold data in Hparse.
  rewrite Hrem, Hnil. cbn [app]. rewrite Hparse. cbn [mbind outcome_bind].
  assert (udp_advance (len data) s1 = s1 <| udp_buff_offset_ := len (upstream_udp_buff s1) |>)
    as ->.
  { unfold udp_advance. subst s1. cbn. rewrite Hoff, len_app.
    by rewrite Z.ltb_irrefl, andb_false_r. }
  match goal with |- context [DnsCache.get_udp ?a ?b ?c] =>
    destruct (DnsCache.get_udp a b c) end; cbn [mbind outcome_bind mret outcome_ret];
    (match goal with |- context [udp_reads tr e ds ?s2] =>
       destruct (IH s2) as (s' & Hr & Hb & Ho) end; [reflexivity|]);
    exists s'; (split; [exact Hr|split; [|exact Ho]]); rewrite Hb; cbn; by rewrite <-app_assoc.
Qed.

(** ** Concrete runs *)
Section Exec.
Context (allowed : gset bytes) (tr : transport).
Context (resolves_b : bytes → bytes → Net.endpoint → bool).

Definition legal_b (o : op) (r : result) : bool :=
  match o, r with
  | _, Failed => true
  | (Handshake | AcceptWs | Connect _ | WritePayload _ | UdpWriteUp _), Done => true
  | (ReadRequest | Read _ | UdpRead | UdpReadDown | UdpRecvUp), Received data =>
      len data <=? MAX_BUFF_SIZE
  | Send d data true, Sent n =>
      (0 <=? n) && (n <=? len data) && (negb (writes_all tr d) || (n =? len data))
  | (UdpSendFirst _ _ | UdpSendNext _ _), Sent _ => true
  | Resolve host port _, Resolved eps => forallb (resolves_b host port) eps
  | (UdpResolveFirst p _ | UdpResolveNext p _), Resolved eps =>
      forallb (resolves_b (packet_host p) (to_string (packet_port p))) eps
  | _, _ => false
  end.

(** complete the [i]-th pending operation with the given result, for each entry
    of a schedule *)
Fixpoint exec (sched : list (nat * env * result)) (s : session) : option session :=
  match sched with
  | [] => Some s
  | (i, e, r) :: sched =>
      o ← pending s !! i;
      if legal_b o r then
        match handle allowed tr e o r (s <| pending := delete i (pending s) |>) with
        | Ret s' => exec sched s'
        | _ => None
        end
      else None
  end.

Definition resolves_of (host port : bytes) (ep : Net.endpoint) : Prop :=
  resolves_b host port ep = true.

Lemma forallb_resolves host port eps :
  forallb (resolves_b host port) eps = true → Forall (resolves_of host port) eps.
Proof. rewrite forallb_forall, list.Forall_forall. intros H x Hx. by apply H, list_elem_of_In. Qed.

Lemma legal_b_sound o r : legal_b o r = true → legal tr resolves_of o r.
Proof.
  destruct o, r; cbn; intros H; try discriminate H;
    try (constructor; by try apply forallb_resolves);
    try (constructor; [set_solver|by apply Z.leb_le]).
  - constructor; [destruct d; set_solver|by apply Z.leb_le].
  - by destruct socket_open.
  - by destruct socket_open.
  - destruct socket_open; [|done].
    apply andb_true_iff in H as [[H1%Z.leb_le H2%Z.leb_le]%andb_true_iff H3].
    constructor; [done|]. intros Hw. rewrite Hw in H3. by apply Z.eqb_eq.
  - by destruct socket_open.
Qed.

Lemma exec_steps sched s s' : exec sched s = Some s' → rtc (step allowed tr resolves_of) s s'.
Proof.
  revert s. induction sched as [|[[i e] r] sched IH]; intros s; cbn.
  { intros [= <-]. apply rtc_refl. }
  destruct (pending s !! i) as [o|] eqn:E; [|done]. cbn.
  destruct (legal_b o r) eqn:Hl; [|done].
  destruct (handle _ _ _ _ _ _) as [s1| |] eqn:Hh; [|done..]. intros Hx.
  eapply rtc_l; [|by apply IH].
  apply (step_complete _ _ _ s (take i (pending s)) o (drop (S i) (pending s)) e r);
    [by rewrite take_drop_middle|by apply legal_b_sound|].
  by rewrite <-delete_take_drop.
Qed.
End Exec.

(** A client asks for example.org:443 with a first payload, then sends "hello",
    of which the target has accepted "he" so far. *)
Definition demo_ep : Net.endpoint :=
  Net.Endpoint (Net.address_v4 [Byte.x5d; Byte.xb8; Byte.xd8; Byte.x22]) 443.
Definition demo_resolves (host port : bytes) (ep : Net.endpoint) : bool :=
  bool_decide (host = lit "example.org" ∧ port = lit "443" ∧ ep = demo_ep).
Definition demo_allowed : gset bytes := {[ lit "5ebe2294" ]}.
Definition demo_env : env := Env 1000 true true true true.
Definition demo_request : bytes :=
  Trojan.TrojanReq.generate (lit "5ebe2294") (lit "example.org") 443 true ++ lit "GET /".
Definition demo_sched : list (nat * env * result) :=
  [(0%nat, demo_env, Done); (0%nat, demo_env, Received demo_request);
   (0%nat, demo_env, Resolved [demo_ep]); (0%nat, demo_env, Done); (0%nat, demo_env, Done);
   (0%nat, demo_env, Received (lit "hello")); (1%nat, demo_env, Sent 2)].
Definition demo_at (n : nat) : session :=
  default (init DnsCache.init)
    (exec demo_allowed Tls demo_resolves (take n demo_sched) (start (init DnsCache.init))).

Lemma demo_reachable n :
  reachable demo_allowed Tls (resolves_of demo_resolves) DnsCache.init (demo_at n) ∨
  exec demo_allowed Tls demo_resolves (take n demo_sched) (start (init DnsCache.init)) = None.
Proof.
  unfold demo_at. destruct (exec _ _ _ _ _) as [s|] eqn:E; [left|by right].
  by apply exec_steps in E.
Qed.
Lemma demo_runs n :
  bool_decide (is_Some (exec demo_allowed Tls demo_resolves (take n demo_sched)
                          (start (init DnsCache.init)))) = true →
  reachable demo_allowed Tls (resolves_of demo_resolves) DnsCache.init (demo_at n).
Proof.
  intros [s Hs]%bool_decide_eq_true. destruct (demo_reachable n) as [?|E]; [done|].
  by rewrite E in Hs.
Qed.

Lemma demo3_runs :
  reachable demo_allowed Tls (resolves_of demo_resolves) DnsCache.init (demo_at 3).
Proof. apply demo_runs. vm_cast_no_check (eq_refl true). Qed.
Lemma demo7_runs :
  reachable demo_allowed Tls (resolves_of demo_resolves) DnsCache.init (demo_at 7).
Proof. apply demo_runs. vm_cast_no_check (eq_refl true). Qed.
Lemma demo7_forward : state_ (demo_at 7) = FORWARD.
Proof. vm_cast_no_check (eq_refl FORWARD). Qed.
Lemma demo7_live : state_ (demo_at 7) ≠ DESTROY.
Proof. exact (λ E, match eq_trans (eq_sym demo7_forward) E with end). Qed.
Lemma demo7_sent : sent_total (get_lane DOWN (demo_at 7)) = lit "he".
Proof. by_evaluation. Qed.
Lemma demo7_one : length (ops DOWN (demo_at 7)) = 1%nat.
Proof. by_evaluation. Qed.
Lemma length_pos_ne {A} (l : list A) n : length l = S n → l ≠ [].
Proof. by destruct l. Qed.
Lemma demo7_ops : ∃ d, ops d (demo_at 7) ≠ [].
Proof. exact (ex_intro _ DOWN (length_pos_ne _ _ demo7_one)). Qed.
Lemma demo7_target : downstream_open (demo_at 7) = true.
Proof. vm_cast_no_check (eq_refl true). Qed.
Lemma demo_cache : cache_sound (resolves_of demo_resolves) DnsCache.init.
Proof. split; apply map_Forall_empty. Qed.
Lemma demo3_connect : pending (demo_at 3) = [Connect demo_ep].
Proof. vm_cast_no_check (eq_refl [Connect demo_ep]). Qed.

Lemma tcp_stream_integrity_witness :
  let l := get_lane DOWN (demo_at 7) in
  sent_total l = lit "he" ∧
  read_total l = sent_total l ++ SessionBuffer.contents (ring l).
Proof.
  exact (conj demo7_sent
    (proj1 (proj2 (tcp_stream_integrity _ _ _ _ (demo_at 7) DOWN demo7_runs) demo7_live))).
Defined.

Lemma one_operation_per_direction_witness :
  (ops UP (demo_at 7) = [Read UP] ∧
   SessionBuffer.contents (ring (get_lane UP (demo_at 7))) = []) ∨
  ∃ data, data ≠ [] ∧ ops UP (demo_at 7) = [Send UP data true].
Proof.
  exact (proj2 (one_operation_per_direction _ _ _ _ (demo_at 7) demo7_runs)
           demo7_forward demo7_ops UP).
Defined.

Lemma served_only_with_password_witness :
  downstream_open (demo_at 7) = true ∧ password (demo_at 7) ∈ demo_allowed.
Proof.
  exact (conj demo7_target (served_only_with_password _ _ _ _ (demo_at 7) demo_cache
           demo7_runs (or_introl demo7_target))).
Defined.

Lemma connects_only_to_requested_witness :
  resolves_of demo_resolves (request_host (demo_at 3))
    (to_string (request_port (demo_at 3))) demo_ep.
Proof.
  refine (connects_only_to_requested _ _ _ _ (demo_at 3) (Connect demo_ep) demo_cache
            demo3_runs _).
  rewrite demo3_connect. apply list_elem_of_here.
Defined.

(** the same session when the target closes the connection *)
Definition demo_dead : session :=
  default (init DnsCache.init)
    (exec demo_allowed Tls demo_resolves (demo_sched ++ [(0%nat, demo_env, Failed)])
       (start (init DnsCache.init))).
Lemma demo_dead_runs :
  reachable demo_allowed Tls (resolves_of demo_resolves) DnsCache.init demo_dead.
Proof.
  unfold demo_dead.
  assert (bool_decide (is_Some (exec demo_allowed Tls demo_resolves
    (demo_sched ++ [(0%nat, demo_env, Failed)]) (start (init DnsCache.init)))) = true) as H
    by vm_cast_no_check (eq_refl true).
  apply bool_decide_eq_true in H as [s Hs]. rewrite Hs. by apply exec_steps in Hs.
Qed.
Lemma demo_dead_state : state_ demo_dead = DESTROY.
Proof. vm_cast_no_check (eq_refl DESTROY). Qed.

Lemma destroyed_is_final_witness :
  state_ demo_dead = DESTROY ∧ upstream_open demo_dead = false ∧
  downstream_open demo_dead = false ∧ downstream_udp_open demo_dead = false ∧
  ∀ e, destroy Tls e demo_dead = Ret demo_dead.
Proof.
  exact (destroyed_is_final _ _ _ _ demo_dead demo_dead demo_dead_runs demo_dead_state
           (rtc_refl _ _)).
Defined.

Lemma demo_in_buf : VRequest.identifier_len <= len (in_buf (init DnsCache.init)).
Proof. apply Z.leb_le. vm_cast_no_check (eq_refl true). Qed.
Lemma demo7_in_buf : VRequest.identifier_len <= len (in_buf (demo_at 7)).
Proof. apply Z.leb_le. vm_cast_no_check (eq_refl true). Qed.
Lemma demo_not_v :
  take (Z.to_nat VRequest.identifier_len) (in_buf (fill DOWN demo_request (init DnsCache.init)))
  ≠ VRequest.v_identifier.
Proof. apply (bool_decide_eq_false_1 _). vm_cast_no_check (eq_refl false). Qed.

Lemma handlers_total_witness :
  (∃ s', handle demo_allowed Tls demo_env ReadRequest (Received demo_request)
           (init DnsCache.init) = Ret s') ∧
  handle demo_allowed Tls (Env 1000 true true false true) (Read UP) Failed (demo_at 7)
  = Throw system_error.
Proof.
  split.
  - destruct (handlers_total demo_allowed Tls demo_env ReadRequest (Received demo_request)
      (init DnsCache.init) demo_in_buf) as (_ & H & _); [|exact (H eq_refl eq_refl eq_refl)].
    intros (data & _ & E & Hv). injection E as <-. exact (demo_not_v Hv).
  - destruct (handlers_total demo_allowed Tls (Env 1000 true true false true) (Read UP) Failed
      (demo_at 7) demo7_in_buf) as (_ & _ & _ & H & _); [by intros (data & E & _)|].
    exact (H eq_refl demo7_live (or_intror demo7_target) eq_refl).
Defined.

Definition demo_packet : bytes :=
  Trojan.UDPPacket.generate_domain (lit "dns.example") 53 (lit "query").

Lemma udp_packet_forwarded_witness :
  ∃ s', on_udp_read_down Tls demo_env (Received (demo_packet ++ lit "more"))
          (init DnsCache.init) = Ret s' ∧
    udp_buffer_ok s' ∧ udp_remaining s' = lit "more" ∧
    pending s' = [UdpResolveNext
      (Trojan.UDPPacket.Packet (Trojan.SOCKS5Address.Addr 3 (lit "dns.example") 53) 5
         (lit "query")) (lit "dns.example:53")].
Proof.
  refine (udp_packet_forwarded Tls demo_env (init DnsCache.init) (demo_packet ++ lit "more")
    (lit "dns.example") 53 (lit "query") (lit "more") _ _ _ _ _);
    [split; reflexivity|split; reflexivity|lia|reflexivity|reflexivity].
Defined.

Lemma udp_buffer_never_shrinks_witness :
  ∃ s', udp_reads Tls demo_env [demo_packet; demo_packet] (init DnsCache.init) = Ret s' ∧
    upstream_udp_buff s' = demo_packet ++ demo_packet ++ [] ∧
    udp_buff_offset_ s' = len (upstream_udp_buff s').
Proof.
  refine (udp_buffer_never_shrinks Tls demo_env [demo_packet; demo_packet]
            (init DnsCache.init) _ _); [reflexivity|].
  assert (∃ d p pl, 0 < len d < 256 ∧ 0 <= p < 2 ^ 16 ∧ len pl < 2 ^ 16 ∧
            demo_packet = Trojan.UDPPacket.generate_domain d p pl) as H.
  { exists (lit "dns.example"), 53, (lit "query").
    split; [split; reflexivity|split; [lia|split; reflexivity]]. }
  constructor; [exact H|constructor; [exact H|constructor]].
Defined.

End ServerSessionProps.
