(* ===== verification/UdpStream.v ===== *)
(** UdpStream: the UDP packets of a trojan session as a stream
    (src/Server/Session.cpp, handle_trojan_udp_proxy and
    udp_async_bidirectional_read, on the packets of
    src/Protocol/trojan/UDPPacket.cpp).

    A run of a session is annotated with the bytes its client has sent and the
    packets it has set out to forward; the reads may cut the stream anywhere and
    everything else the session does may come in between. *)
From S2P Require Import Prelude Net Coding Decimal VRequest Trojan Ring DnsCache Wire.
From S2P Require Import ServerSession ServerSessionFacts ServerSessionProps.

Module UdpStream.
Import Trojan ServerSession ServerSessionFacts.

(** ** The packets as self-delimiting messages *)
Inductive target := Domain (d : bytes) (p : Z) | Endpoint (ep : Net.endpoint).

(** a packet as the protocol means it: where to, and what *)
Definition message : Type := target * bytes.

Definition message_ok (m : message) : Prop :=
  len m.2 < 2 ^ 16 ∧
  match m.1 with
  | Domain d p => 0 < len d < 256 ∧ 0 <= p < 2 ^ 16
  | Endpoint ep => Net.endpoint_wf ep ∧ Net.is_unspecified (Net.ep_address ep) = false
  end.
Definition encode (m : message) : bytes :=
  match m.1 with
  | Domain d p => UDPPacket.generate_domain d p m.2
  | Endpoint ep => UDPPacket.generate ep m.2
  end.
Definition packet_of (m : message) : UDPPacket.t :=
  UDPPacket.Packet
    match m.1 with
    | Domain d p => SOCKS5Address.Addr DOMAINNAME d p
    | Endpoint ep => endpoint_addr ep
    end (len m.2) m.2.

(** what the session's parser finds in its buffer *)
Definition next_packet (data : bytes) : option (UDPPacket.t * Z) :=
  match UDPPacket.parse blank_packet data with
  | Ret (p, Some n) => Some (p, n)
  | _ => None
  end.

Lemma next_packet_parse data p n :
  next_packet data = Some (p, n) ↔ UDPPacket.parse blank_packet data = Ret (p, Some n).
Proof.
  unfold next_packet. destruct (UDPPacket.parse blank_packet data) as [[? [?|]]| |]; naive_solver.
Qed.

#[export] Instance packets_delimited :
  Wire.SelfDelimiting message_ok encode packet_of next_packet.
Proof.
  split.
  - intros [[d p|ep] pl] rest [Hpl [? ?]]; apply next_packet_parse; unfold encode, packet_of;
      cbn [fst snd] in *.
    + by apply UDPPacket_parse_domain.
    + by apply UDPPacket_parse_endpoint.
  - intros data more b n E%next_packet_parse. by apply next_packet_parse, UDPPacket_parse_stable.
  - intros data b n E%next_packet_parse.
    destruct (UDPPacket_parse_total blank_packet data) as (p & k & E' & Hk).
    rewrite E in E'. injection E' as <- <-. destruct (Hk n eq_refl) as [? _]. lia.
Qed.

(** ** Annotated runs *)
(** the packet an operation sends, or looks up the target of *)
Definition op_packet (o : op) : list UDPPacket.t :=
  match o with
  | UdpResolveFirst p _ | UdpResolveNext p _ | UdpSendFirst p _ | UdpSendNext p _ => [p]
  | _ => []
  end.
Definition is_reader (o : op) : bool :=
  match o with UdpRead | UdpReadDown => true | _ => false end.
Definition is_first (o : op) : bool := match o with UdpRead => true | _ => false end.
(** the bytes of the packet stream a completion delivers *)
Definition input (o : op) (r : result) : bytes :=
  match r with Received data => if is_reader o then data else [] | _ => [] end.
(** the packets a reading handler hands on: those of the operations it starts,
    which stand behind the [n] that were pending *)
Definition handed (o : op) (n : nat) (s : session) : list UDPPacket.t :=
  if is_reader o then drop n (pending s) ≫= op_packet else [].

Section Run.
Context (allowed : gset bytes) (tr : transport).
Context (resolves : bytes → bytes → Net.endpoint → Prop).

Inductive run (s : session) : bytes → list UDPPacket.t → session → Prop :=
  | run_refl : run s [] [] s
  | run_handle bs ps s1 l1 o l2 e r s2 :
      run s bs ps s1 → pending s1 = l1 ++ o :: l2 → legal tr resolves o r →
      handle allowed tr e o r (s1 <| pending := l1 ++ l2 |>) = Ret s2 →
      run s (bs ++ input o r) (ps ++ handed o (length (l1 ++ l2)) s2) s2
  | run_cache bs ps s1 o :
      run s bs ps s1 → cache_op_sound resolves o →
      run s bs ps (s1 <| dns := DnsCache.step (dns s1) o |>).

(** the annotations leave out nothing a session can do *)
Lemma run_complete s s' :
  rtc (step allowed tr resolves) s s' ↔ ∃ bs ps, run s bs ps s'.
Proof.
  split.
  - revert s'. apply (rtc_ind_r (λ s', ∃ bs ps, run s bs ps s')).
    + do 2 eexists. constructor.
    + intros s1 s2 _ Hstep (bs & ps & Hrun). revert Hrun.
      destruct Hstep as [s1 l1 o l2 e r s2 Hp Hl Hh|s1 o Ho]; intros Hrun; do 2 eexists;
        [by eapply run_handle|by eapply run_cache].
  - intros (bs & ps & Hrun). induction Hrun; [done|..]; (eapply rtc_r; [done|]);
      [by eapply step_complete|by apply step_cache].
Qed.
End Run.

(** ** What the handlers do to the buffer *)
(** the buffer is left alone, and operations are only added *)
Record still (s s' : session) : Prop := Still {
  st_buff : upstream_udp_buff s' = upstream_udp_buff s;
  st_offset : udp_buff_offset_ s' = udp_buff_offset_ s;
  st_pending : ∃ l, pending s' = pending s ++ l ∧ Forall (λ o, is_pre o = false) l
}.
#[global] Instance still_preorder : PreOrder still.
Proof.
  split.
  - intros s. split; try done. exists []. by rewrite app_nil_r.
  - intros s1 s2 s3 [? ? (l1 & H1 & ?)] [? ? (l2 & H2 & ?)]. split; try congruence.
    exists (l1 ++ l2). rewrite H2, H1, app_assoc. by rewrite list.Forall_app.
Qed.
Lemma still_start o s : is_pre o = false → still s (start_op o s).
Proof. intros. split; try done. exists [o]. by repeat constructor. Qed.
Lemma still_same s s' :
  upstream_udp_buff s' = upstream_udp_buff s → udp_buff_offset_ s' = udp_buff_offset_ s →
  pending s' = pending s → still s s'.
Proof. intros. split; try done. exists []. by rewrite app_nil_r. Qed.
Lemma still_destroy s : still s (destroyed s).
Proof. unfold destroyed. case_decide; [done|by apply still_same]. Qed.
Lemma still_set_lane d l s : still s (set_lane d l s).
Proof. destruct d; by apply still_same. Qed.
Lemma still_fill d data s : still s (fill d data s).
Proof. destruct d; by apply still_same. Qed.
Lemma still_dns s c : still s (s <| dns := c |>).
Proof. by apply still_same. Qed.
Lemma still_do_send d s : still s (do_send d s).
Proof.
  unfold do_send. destruct (SessionBuffer.empty _); [|by apply still_start]. cbn.
  destruct (pausing _); [|apply still_set_lane].
  etrans; [apply still_set_lane|by apply still_start].
Qed.
Lemma still_write d data s : still s (async_bidirectional_write d data s).
Proof.
  unfold async_bidirectional_write. cbv zeta.
  assert (still s (enqueue_write d data s)) as Hs.
  { unfold enqueue_write. cbn. destruct (sending _); [apply still_set_lane|].
    etrans; [apply still_set_lane|apply still_do_send]. }
  etrans; [exact Hs|]. destruct (SessionBuffer.has_space _ _); [by apply still_start|].
  apply still_set_lane.
Qed.
Lemma still_read_both s : still s (read_both s).
Proof. etrans; by apply still_start. Qed.
Lemma still_udp_send_first tr e p ep s s' : udp_send_first tr e p ep s = Ret s' → still s s'.
Proof.
  unfold udp_send_first. destruct (downstream_udp_open s); [intros [= <-]; by apply still_start|].
  destruct (udp_open_ok e); intros H'; ret_inv H'; [|apply still_destroy].
  etrans; [|by apply still_start]. by apply still_same.
Qed.
Lemma still_do_connect ep s : still s (do_connect ep s).
Proof. etrans; [|by apply still_start]. by apply still_same. Qed.

(** only the handlers of requests and of reads from the client touch it *)
Lemma still_handle allowed tr e o r s s' :
  is_reader o = false → is_pre o = false → handle allowed tr e o r s = Ret s' → still s s'.
Proof.
  intros Ho Hpre Hh. pose proof (still_destroy s) as Hdes.
  destruct o; try discriminate Ho; try discriminate Hpre; cbn [handle] in Hh;
    destruct r; cbn in Hh;
    try (by apply destroy_Ret in Hh as ->);
    try (case_decide; [by injection Hh as <-|by apply destroy_Ret in Hh as ->]).
  - destruct eps as [|ep eps]; ret_inv Hh; [done|].
    etrans; [apply still_dns|apply still_do_connect].
  - destruct (options_ok e); [|done].
    destruct (negb _); injection Hh as <-; [by apply still_start|apply still_read_both].
  - injection Hh as <-. apply still_read_both.
  - case_decide; injection Hh as <-; (etrans; [apply (still_fill d data)|]); [reflexivity|].
    etrans; [apply still_set_lane|apply still_write].
  - injection Hh as <-. etrans; [apply still_set_lane|apply still_do_send].
  - destruct (datagram_waiting e); [|done]. injection Hh as <-.
    etrans; [apply (still_fill UP data)|by apply still_start].
  - destruct (pick_endpoint eps); [|by apply destroy_Ret in Hh as ->].
    etrans; [apply still_dns|by eapply still_udp_send_first].
  - destruct (pick_endpoint eps); ret_inv Hh; [|done].
    etrans; [apply still_dns|by apply still_start].
  - injection Hh as <-. etrans; by apply still_start.
  - injection Hh as <-. by apply still_start.
  - injection Hh as <-. by apply still_start.
Qed.

(** ** What a handler that reads does *)
(** out of the unparsed bytes [rem] it hands on nothing, or the one packet at
    their start; only the first packet can be dropped, with the session *)
Definition takes (s : session) (rem : bytes) (first : bool) (s' : session) : Prop :=
  udp_buffer_ok s' ∧ ∃ new, pending s' = pending s ++ new ∧ Forall (λ o, is_pre o = false) new ∧
    ((new ≫= op_packet = [] ∧ udp_remaining s' = rem) ∨
     ∃ p n, next_packet rem = Some (p, n) ∧ udp_remaining s' = drop (Z.to_nat n) rem ∧
            (new ≫= op_packet = [p] ∨ first = true ∧ new = [])).

Lemma still_ok s s' : still s s' → udp_buffer_ok s → udp_buffer_ok s'.
Proof. intros [Hb Ho _]. unfold udp_buffer_ok. by rewrite Hb, Ho. Qed.
Lemma still_remaining s s' : still s s' → udp_remaining s' = udp_remaining s.
Proof. intros [Hb Ho _]. unfold udp_remaining. by rewrite Hb, Ho. Qed.

Lemma still_new s s' l : still s s' → pending s' = pending s ++ l →
  Forall (λ o, is_pre o = false) l.
Proof. intros [_ _ (l' & -> & HF)] E. by apply app_inv_head in E as <-. Qed.

Lemma takes_none s s2 rem first l s' :
  udp_buffer_ok s2 → udp_remaining s2 = rem → pending s2 = pending s →
  still s2 s' → pending s' = pending s2 ++ l → l ≫= op_packet = [] → takes s rem first s'.
Proof.
  intros Hok Hrem Hp Hs Hp' Hl. split; [by eapply still_ok|]. exists l.
  split_and!; [by rewrite Hp', Hp|by eapply still_new|]. left. by rewrite (still_remaining _ _ Hs).
Qed.

(** the parser's answer, and the buffer behind the packet it found *)
Lemma parse_advance s :
  udp_buffer_ok s →
  (∃ p, UDPPacket.parse blank_packet (udp_remaining s) = Ret (p, None)) ∨
  ∃ p n, UDPPacket.parse blank_packet (udp_remaining s) = Ret (p, Some n) ∧
    next_packet (udp_remaining s) = Some (p, n) ∧ udp_buffer_ok (udp_advance n s) ∧
    udp_remaining (udp_advance n s) = drop (Z.to_nat n) (udp_remaining s) ∧
    pending (udp_advance n s) = pending s.
Proof.
  intros Hok. destruct (UDPPacket_parse_total blank_packet (udp_remaining s))
    as (p & [n|] & E & Hn); [right|by left; exists p].
  exists p, n. destruct (Hn n eq_refl) as [Hle _].
  destruct (udp_advance_spec n s Hok) as [H1 H2]; [lia|].
  split_and!; [done|by apply next_packet_parse|done|done|apply (udp_advance_fields n s)].
Qed.

Lemma takes_packet s s2 p n first l s' :
  let s3 := udp_advance n s2 in
  next_packet (udp_remaining s2) = Some (p, n) → udp_buffer_ok s3 →
  udp_remaining s3 = drop (Z.to_nat n) (udp_remaining s2) → pending s3 = pending s →
  still s3 s' → pending s' = pending s3 ++ l →
  l ≫= op_packet = [p] ∨ first = true ∧ l = [] → takes s (udp_remaining s2) first s'.
Proof.
  intros s3 Hnext Hok Hrem Hp Hs Hp' Hl. split; [by eapply still_ok|]. exists l.
  split_and!; [by rewrite Hp', Hp|by eapply still_new|]. right. exists p, n.
  by rewrite (still_remaining _ _ Hs).
Qed.

Lemma destroy_nothing s : pending (destroyed s) = pending s ++ [].
Proof. rewrite app_nil_r. unfold destroyed. by case_decide. Qed.

(** [handle_trojan_udp_proxy] *)
Lemma first_takes tr e s s' :
  udp_buffer_ok s → handle_trojan_udp_proxy tr e s = Ret s' →
  takes s (udp_remaining s) true s'.
Proof.
  intros Hok Hh. unfold handle_trojan_udp_proxy in Hh. set (s2 := s <| state_ := FORWARD |>) in *.
  assert (still s s2) as Hs by by apply still_same.
  rewrite <-(still_remaining _ _ Hs). apply (still_ok _ _ Hs) in Hok.
  destruct (parse_advance s2 Hok) as [(p & E)|(p & n & E & Hnext & Hok3 & Hrem & Hp)];
    rewrite E in Hh; cbn [mbind outcome_bind] in Hh.
  - destruct (_ <? _); ret_inv Hh;
      (eapply (takes_none s s2); [done..| | |]);
      [apply still_destroy|apply destroy_nothing|done|by apply still_start|done|done].
  - assert (pending (udp_advance n s2) = pending s) as Hp2 by by rewrite Hp.
    destruct (DnsCache.get_udp _ _ _); [|injection Hh as <-;
      eapply (takes_packet s s2); [done..|by apply still_start|done|by left]].
    pose proof (still_udp_send_first tr e p e0 (udp_advance n s2) s' Hh) as Hst.
    revert Hst. unfold udp_send_first in Hh. destruct (downstream_udp_open _).
    { injection Hh as <-. intros. eapply (takes_packet s s2); [done..|by left]. }
    destruct (udp_open_ok e); ret_inv Hh.
    + intros. eapply (takes_packet s s2); [done..|by left].
    + intros. eapply (takes_packet s s2); [done..|apply destroy_nothing|by right].
Qed.

Lemma takes_weaken s s1 rem first s' :
  pending s1 = pending s → takes s1 rem first s' → takes s rem first s'.
Proof. intros Hp [? (new & Hn & ?)]. split; [done|]. exists new. by rewrite <-Hp. Qed.

Lemma reader_takes allowed tr e o r s s' :
  is_reader o = true → udp_buffer_ok s → handle allowed tr e o r s = Ret s' →
  takes s (udp_remaining s ++ input o r) (is_first o) s'.
Proof.
  intros Ho Hok Hh.
  assert (takes s (udp_remaining s ++ []) (is_first o) (destroyed s)) as Hdes.
  { rewrite app_nil_r. by eapply (takes_none s s);
      [..|apply still_destroy|apply destroy_nothing|]. }
  destruct o; try discriminate Ho; destruct r as [|data| | |]; try (by apply destroy_Ret in Hh as ->);
    cbn [input is_reader] in *; cbn [handle on_udp_read on_udp_read_down] in Hh;
    destruct (udp_append_spec data s Hok) as [Hok2 Hrem2];
    set (s2 := fill DOWN data s <| upstream_udp_buff := _ |>) in *; rewrite <-Hrem2.
  - apply (takes_weaken s s2); [done|]. by eapply first_takes.
  - destruct (parse_advance s2 Hok2) as [(p & E)|(p & n & E & Hnext & Hok3 & Hrem & Hp)];
      rewrite E in Hh; cbn [mbind outcome_bind] in Hh.
    + destruct (_ <? _); ret_inv Hh;
        (eapply (takes_none s s2); [done..| | |]);
        [apply still_destroy|apply destroy_nothing|done|by apply still_start|done|done].
    + destruct (DnsCache.get_udp _ _ _); injection Hh as <-;
        (eapply (takes_packet s s2); [done..|by apply still_start|done|by left]).
Qed.

(** a read before the first packet has the session to itself *)
Lemma first_read_alone s l1 l2 : inv s → pending s = l1 ++ UdpRead :: l2 → l1 ++ l2 = [].
Proof.
  intros Hinv Hp. destruct Hinv as [o Hp' _ _ _ _|_ HF _ _|_ HF _ _|_ HF _ _ _ _ _];
    [|destruct (forall_rest s l1 l2 UdpRead Hp _ HF) as [Hx _]; first [discriminate Hx|by destruct (Hx eq_refl)]..].
  rewrite Hp in Hp'. destruct l1 as [|? [|]]; by simplify_list_eq.
Qed.

(** ** Packets are handed on in order *)
Section Order.
Context (allowed : gset bytes) (tr : transport).
Context (resolves : bytes → bytes → Net.endpoint → Prop).

(** [fw] are the first of the messages [ms], and what the session has received
    beyond them is in its buffer, unless it has ended *)
Definition accounts (ms : list message) (fw : list UDPPacket.t) (received : bytes)
    (s : session) : Prop :=
  ∃ k, fw = packet_of <$> take k ms ∧
    (pending s = [] ∨
     udp_buffer_ok s ∧ received = Wire.stream (encode:=encode) (take k ms) ++ udp_remaining s).

Lemma accounts_takes ms fw received more s s' first :
  Forall message_ok ms → (received ++ more) `prefix_of` Wire.stream (encode:=encode) ms →
  udp_buffer_ok s →
  (∃ k, fw = packet_of <$> take k ms ∧
        received = Wire.stream (encode:=encode) (take k ms) ++ udp_remaining s) →
  takes s (udp_remaining s ++ more) first s' → (first = true → pending s = []) →
  accounts ms (fw ++ (drop (length (pending s)) (pending s') ≫= op_packet))
    (received ++ more) s'.
Proof.
  intros HF Hpre Hok (k & -> & ->) [Hok' (new & Hp & _ & Hnew)] Halone.
  rewrite <-app_assoc in Hpre |- *. rewrite Hp, drop_app_length.
  destruct Hnew as [[-> Hrem]|(p & n & Hnext & Hrem & Hnew)].
  { exists k. rewrite app_nil_r, Hrem. split; [done|by right]. }
  rewrite <-(take_drop k ms) in HF. apply list.Forall_app in HF as [_ HF].
  assert (Wire.stream (encode:=encode) ms =
    Wire.stream (encode:=encode) (take k ms) ++ Wire.stream (encode:=encode) (drop k ms)) as Hcut
    by by rewrite <-Wire.stream_app, take_drop.
  rewrite Hcut in Hpre. apply prefix_app_inv in Hpre.
  destruct (Wire.sd_cut _ _ _ _ HF Hpre Hnext) as (m & ms' & rest & Hms & -> & -> & Hd & _).
  assert (take (S k) ms = take k ms ++ [m]) as Htake.
  { apply take_S_r. by rewrite <-(Nat.add_0_r k), <-lookup_drop, Hms. }
  assert (udp_remaining s' = rest) as Hrest.
  { rewrite Hrem, Hd. unfold len. by rewrite Nat2Z.id, drop_app_length. }
  destruct Hnew as [->|[Hf ->]].
  - exists (S k). rewrite Htake, fmap_app. split; [done|right]. split; [done|].
    rewrite Wire.stream_app, Hrest, Hd, <-app_assoc. unfold Wire.stream at 3. cbn.
    by rewrite app_nil_r.
  - exists k. rewrite app_nil_r. split; [done|left]. by rewrite Hp, Halone.
Qed.

(** what holds of a session of which [fw] has been handed on *)
Definition relays (ms : list message) (fw : list UDPPacket.t) (received : bytes)
    (s : session) : Prop :=
  inv s ∧ Forall (λ o, is_pre o = false) (pending s) ∧ accounts ms fw received s.

Lemma added_pre s s' new :
  pending s' = pending s ++ new → Forall (λ o, is_pre o = false) (pending s) →
  Forall (λ o, is_pre o = false) new → Forall (λ o, is_pre o = false) (pending s').
Proof. intros ->. rewrite list.Forall_app. done. Qed.

Lemma accounts_step ms fw received l1 o l2 e r s s' :
  Forall message_ok ms → inv s → Forall (λ o, is_pre o = false) (pending s) →
  pending s = l1 ++ o :: l2 → handle allowed tr e o r (s <| pending := l1 ++ l2 |>) = Ret s' →
  (received ++ input o r) `prefix_of` Wire.stream (encode:=encode) ms →
  accounts ms fw received s →
  Forall (λ o, is_pre o = false) (pending s') ∧
  accounts ms (fw ++ handed o (length (l1 ++ l2)) s') (received ++ input o r) s'.
Proof.
  intros HF Hinv Hpre Hp Hh Hsent (k & Hfw & [Hnil|[Hok Hrec]]).
  { rewrite Hp in Hnil. by destruct l1. }
  destruct (forall_rest s l1 l2 o Hp _ Hpre) as [Ho Hpre0].
  destruct (is_reader o) eqn:Hr.
  - change (s <| pending := l1 ++ l2 |>) with (rest s l1 l2) in Hh.
    assert (udp_buffer_ok (rest s l1 l2)) as Hok0 by exact Hok.
    pose proof (reader_takes allowed tr e o r (rest s l1 l2) s' Hr Hok0 Hh) as Ht.
    split; [destruct Ht as [_ (new & Hn & HFn & _)]; exact (added_pre _ _ _ Hn Hpre0 HFn)|].
    unfold handed. rewrite Hr.
    refine (accounts_takes ms fw received (input o r) (rest s l1 l2) s' (is_first o)
      HF Hsent Hok0 (ex_intro _ k (conj Hfw Hrec)) Ht _).
    intros Hf. destruct o; try discriminate Hf. exact (first_read_alone s l1 l2 Hinv Hp).
  - apply (still_handle _ _ _ _ _ _ _ Hr Ho) in Hh as Hs.
    split; [destruct Hs as [_ _ (l & Hl & HFl)]; exact (added_pre _ _ _ Hl Hpre0 HFl)|].
    unfold handed, input. rewrite Hr, app_nil_r.
    assert (udp_remaining s' = udp_remaining s) as Hrem by by apply (still_remaining _ _ Hs).
    exists k. split; [done|]. right. split; [by eapply (still_ok _ _ Hs)|].
    rewrite Hrem. destruct r; by rewrite app_nil_r.
Qed.

Lemma relays_run ms fw0 received0 s0 bs fw s :
  Forall message_ok ms → relays ms fw0 received0 s0 → run allowed tr resolves s0 bs fw s →
  (received0 ++ bs) `prefix_of` Wire.stream (encode:=encode) ms →
  relays ms (fw0 ++ fw) (received0 ++ bs) s.
Proof.
  intros HF H0 Hrun. induction Hrun as [|bs ps s1 l1 o l2 e r s2 _ IH Hp Hl Hh|bs ps s1 o _ IH Ho];
    intros Hsent; [by rewrite !app_nil_r| |].
  - rewrite (app_assoc fw0), (app_assoc received0). rewrite app_assoc in Hsent.
    destruct IH as (Hinv & Hpre & Hacc); [by etrans; [apply prefix_app_r|]|].
    split; [exact (inv_step _ _ _ _ _ Hinv (step_complete _ _ _ s1 l1 o l2 e r s2 Hp Hl Hh))|].
    by eapply accounts_step.
  - destruct (IH Hsent) as (Hinv & Hpre & Hacc). split; [|done].
    exact (inv_step allowed tr resolves _ _ Hinv (step_cache _ _ _ s1 o Ho)).
Qed.

(** the read that holds a trojan request for UDP: what follows the request is
    the start of the packet stream *)
Lemma trojan_udp_accepted e pw d p first s :
  let request := TrojanReq.generate pw d p false ++ first in
  Byte.x0d ∉ pw → 0 < len d < 256 → 0 <= p < 2 ^ 16 → len request <= MAX_BUFF_SIZE →
  VRequest.identifier_len <= len pw →
  take (Z.to_nat VRequest.identifier_len) pw ≠ VRequest.v_identifier → pw ∈ allowed →
  len (in_buf s) = MAX_BUFF_SIZE → vprotocol s = false →
  ∃ s1, on_request allowed tr e (Received request) s = handle_trojan_udp_proxy tr e s1 ∧
    upstream_udp_buff s1 = first ∧ udp_buff_offset_ s1 = udp_buff_offset_ s ∧
    pending s1 = pending s ∧ (fresh s → fresh s1).
Proof.
  intros request Hpw Hd Hp Hfit Hlen Hid Ha Hbuf Hv. cbn [on_request].
  assert (len pw <= len request) as Hle
    by (subst request; unfold TrojanReq.generate; len_lia).
  assert (take (Z.to_nat VRequest.identifier_len) request =
          take (Z.to_nat VRequest.identifier_len) pw) as Htake.
  { subst request. unfold TrojanReq.generate. rewrite <-!app_assoc.
    apply take_app_le. unfold VRequest.identifier_len, len in *. lia. }
  rewrite is_v_filled, Htake, bool_decide_eq_false_2 by (done || lia).
  cbn [mbind outcome_bind]. set (s1 := fill DOWN request s).
  pose proof (TrojanReq_parse_generate_eq (trojanReq s1) pw d p false first Hpw Hd Hp) as Hparse.
  fold request in Hparse. rewrite Hparse. cbn [mbind outcome_bind mret outcome_ret fst snd].
  rewrite s32_id by (unfold MAX_BUFF_SIZE in *; len_lia).
  rewrite (proj2 (Z.eqb_neq _ _)) by len_lia. cbn [negb].
  change (password _) with pw at 1. rewrite decide_True by done.
  lazymatch goal with |- context [negb (vprotocol ?x)] =>
    assert (vprotocol x = false) as -> by exact Hv end. cbn [negb andb].
  eexists. split; [reflexivity|]. split_and!; try done. intros []. by split.
Qed.

(** a session that has read such a request *)
Lemma request_relays e pw d p first s s0 ms :
  let request := TrojanReq.generate pw d p false ++ first in
  Byte.x0d ∉ pw → 0 < len d < 256 → 0 <= p < 2 ^ 16 → len request <= MAX_BUFF_SIZE →
  VRequest.identifier_len <= len pw →
  take (Z.to_nat VRequest.identifier_len) pw ≠ VRequest.v_identifier → pw ∈ allowed →
  len (in_buf s) = MAX_BUFF_SIZE → vprotocol s = false → fresh s → pending s = [] →
  udp_buff_offset_ s = 0 → Forall message_ok ms →
  first `prefix_of` Wire.stream (encode:=encode) ms →
  on_request allowed tr e (Received request) s = Ret s0 →
  relays ms (pending s0 ≫= op_packet) first s0.
Proof.
  intros request Hpw Hd Hp Hfit Hlen Hid Ha Hbuf Hv Hf Hnil Hoff HF Hsent Hh.
  destruct (trojan_udp_accepted e pw d p first s Hpw Hd Hp Hfit Hlen Hid Ha Hbuf Hv)
    as (s1 & E & Hb1 & Ho1 & Hp1 & Hf1).
  assert (udp_buffer_ok s1 ∧ udp_remaining s1 = first) as [Hok Hrem].
  { unfold udp_buffer_ok, udp_remaining. rewrite Hb1, Ho1, Hoff. by split; [len_lia|]. }
  rewrite Hnil in Hp1. fold request in E.
  assert (inv s0) as Hinv.
  { apply (setup_step allowed tr e ReadRequest (Received request) s); [done..|exact Hh]. }
  rewrite E in Hh. pose proof (first_takes tr e s1 s0 Hok Hh) as Ht. rewrite Hrem in Ht.
  split; [exact Hinv|]. split.
  { destruct Ht as [_ (new & Hn & HFn & _)]. rewrite Hn, Hp1. exact HFn. }
  rewrite <-(app_nil_r first), <-(app_nil_l (pending s0 ≫= op_packet)).
  assert (pending s0 = drop (length (pending s1)) (pending s0)) as -> by by rewrite Hp1.
  apply (accounts_takes ms [] first [] s1 s0 true HF); rewrite ?Hrem, ?app_nil_r; try done.
  by exists 0%nat.
Qed.

(** C18: the packets of a trojan UDP session are forwarded in order, whole, and
    once.  Take a session whose first read held a trojan request for UDP with a
    configured password and the first bytes of a stream of packets, and any
    further run of it in which the client sends on with that stream, cut into
    reads in any way.  The packets handed on to the resolver or the UDP socket
    are then the first packets of the stream, in order; and as long as the
    session has not ended, the bytes received beyond them are exactly what its
    buffer holds. *)
Theorem udp_stream_in_order e cache pw d p first s0 bs fw s ms :
  let request := TrojanReq.generate pw d p false ++ first in
  Byte.x0d ∉ pw → 0 < len d < 256 → 0 <= p < 2 ^ 16 → len request <= MAX_BUFF_SIZE →
  VRequest.identifier_len <= len pw →
  take (Z.to_nat VRequest.identifier_len) pw ≠ VRequest.v_identifier → pw ∈ allowed →
  on_request allowed tr e (Received request) (init cache) = Ret s0 →
  run allowed tr resolves s0 bs fw s →
  Forall message_ok ms → (first ++ bs) `prefix_of` Wire.stream (encode:=encode) ms →
  ∃ k, (pending s0 ≫= op_packet) ++ fw = packet_of <$> take k ms ∧
    (pending s = [] ∨
     first ++ bs = Wire.stream (encode:=encode) (take k ms) ++ udp_remaining s).
Proof.
  intros request Hpw Hd Hp Hfit Hlen Hid Ha Hreq Hrun HF Hsent.
  assert (relays ms (pending s0 ≫= op_packet) first s0) as H0.
  { refine (request_relays e pw d p first (init cache) s0 ms Hpw Hd Hp Hfit Hlen Hid Ha
      (init_in_buf cache) eq_refl (init_fresh cache) eq_refl eq_refl HF _ Hreq).
    by etrans; [apply prefix_app_r|]. }
  destruct (relays_run ms _ _ s0 bs fw s HF H0 Hrun Hsent) as (_ & _ & k & Hk & Hs).
  exists k. split; [exact Hk|]. destruct Hs as [Hs|[_ Hs]]; [by left|by right].
Qed.
End Order.

(** ** A concrete run *)
Import ServerSessionProps.
Section Exec.
Context (allowed : gset bytes) (tr : transport).
Context (resolves_b : bytes → bytes → Net.endpoint → bool).

(** [ServerSessionProps.exec] with the annotations *)
Fixpoint annotate (sched : list (nat * env * result)) (bs : bytes) (ps : list UDPPacket.t)
    (s : session) : option (bytes * list UDPPacket.t * session) :=
  match sched with
  | [] => Some (bs, ps, s)
  | (i, e, r) :: sched =>
      o ← pending s !! i;
      if legal_b tr resolves_b o r then
        match handle allowed tr e o r (s <| pending := delete i (pending s) |>) with
        | Ret s' =>
            annotate sched (bs ++ input o r)
              (ps ++ handed o (length (delete i (pending s))) s') s'
        | _ => None
        end
      else None
  end.

Lemma annotate_run sched s0 bs ps s bs' ps' s' :
  annotate sched bs ps s = Some (bs', ps', s') →
  run allowed tr (resolves_of resolves_b) s0 bs ps s →
  run allowed tr (resolves_of resolves_b) s0 bs' ps' s'.
Proof.
  revert bs ps s. induction sched as [|[[i e] r] sched IH]; intros bs ps s; cbn.
  { by intros [= <- <- <-]. }
  destruct (pending s !! i) as [o|] eqn:E; [|done]. cbn.
  destruct (legal_b tr resolves_b o r) eqn:Hl; [|done].
  destruct (handle _ _ _ _ _ _) as [s1| |] eqn:Hh; [|done..]. intros Hx Hrun.
  apply (IH _ _ _ Hx). rewrite delete_take_drop in Hh |- *.
  eapply run_handle; [done|by rewrite take_drop_middle|by apply legal_b_sound|done].
Qed.
Definition annotated (sched : list (nat * env * result)) (s : session) :=
  default ([], [], s) (annotate sched [] [] s).
Lemma annotated_run sched s :
  run allowed tr (resolves_of resolves_b) s
    (annotated sched s).1.1 (annotated sched s).1.2 (annotated sched s).2.
Proof.
  unfold annotated. destruct (annotate sched [] [] s) as [[[bs ps] s']|] eqn:E; [|constructor].
  by eapply annotate_run; [exact E|constructor].
Qed.
End Exec.

(** The client sends two packets; the second read brings the rest of the second
    one while the first is on its way. *)
Definition stream_demo_messages : list message :=
  [(Domain (lit "example.org") 443, lit "one"); (Domain (lit "example.org") 443, lit "two")].
Definition stream_demo_stream : bytes := Wire.stream (encode:=encode) stream_demo_messages.
Definition stream_demo_pw : bytes := lit "5ebe229412".
Definition stream_demo_users : gset bytes := {[ stream_demo_pw ]}.
Definition stream_demo_first : bytes := take 30 stream_demo_stream.
Definition stream_demo_request : outcome session :=
  on_request stream_demo_users Tls demo_env
    (Received (TrojanReq.generate stream_demo_pw (lit "x.org") 1 false ++ stream_demo_first))
    (init DnsCache.init).
Definition returned {A} (d : A) (o : outcome A) : A := match o with Ret a => a | _ => d end.
Definition returns {A} (o : outcome A) : bool := match o with Ret _ => true | _ => false end.
Lemma returned_eq {A} (d : A) o : returns o = true → o = Ret (returned d o).
Proof. by destruct o. Qed.
Definition stream_demo_s0 : session := returned (init DnsCache.init) stream_demo_request.
Definition stream_demo_schedule : list (nat * env * result) :=
  [(0%nat, demo_env, Resolved [demo_ep]); (0%nat, demo_env, Sent 3);
   (0%nat, demo_env, Received (drop 30 stream_demo_stream))].
Definition stream_demo_end : bytes * list UDPPacket.t * session :=
  annotated stream_demo_users Tls demo_resolves stream_demo_schedule stream_demo_s0.

Lemma stream_demo_accepted :
  on_request stream_demo_users Tls demo_env
    (Received (TrojanReq.generate stream_demo_pw (lit "x.org") 1 false ++ stream_demo_first))
    (init DnsCache.init) = Ret stream_demo_s0.
Proof.
  unfold stream_demo_s0, stream_demo_request. apply returned_eq. vm_cast_no_check (eq_refl true).
Qed.
Lemma stream_demo_annotated :
  run stream_demo_users Tls (resolves_of demo_resolves) stream_demo_s0
    stream_demo_end.1.1 stream_demo_end.1.2 stream_demo_end.2.
Proof. exact (annotated_run _ _ _ stream_demo_schedule stream_demo_s0). Qed.
Lemma stream_demo_read : stream_demo_first ++ stream_demo_end.1.1 = stream_demo_stream.
Proof. by_evaluation. Qed.
Lemma stream_demo_buffer : len (udp_remaining stream_demo_end.2) = 0 ∧ len (pending stream_demo_end.2) = 2.
Proof. split; by_evaluation. Qed.
Lemma stream_demo_handed : len (pending stream_demo_s0 ≫= op_packet) + len stream_demo_end.1.2 = 2.
Proof. by_evaluation. Qed.

Lemma udp_stream_in_order_witness :
  (pending stream_demo_s0 ≫= op_packet) ++ stream_demo_end.1.2 = packet_of <$> stream_demo_messages.
Proof.
  destruct (udp_stream_in_order stream_demo_users Tls (resolves_of demo_resolves) demo_env DnsCache.init
    stream_demo_pw (lit "x.org") 1 stream_demo_first stream_demo_s0 stream_demo_end.1.1 stream_demo_end.1.2 stream_demo_end.2
    stream_demo_messages) as (k & Hk & _).
  - by apply (bool_decide_unpack _).
  - split; reflexivity.
  - lia.
  - discriminate.
  - discriminate.
  - discriminate.
  - apply elem_of_singleton. reflexivity.
  - exact stream_demo_accepted.
  - exact stream_demo_annotated.
  - repeat constructor; discriminate.
  - rewrite stream_demo_read. exists []. by rewrite app_nil_r.
  - rewrite Hk. apply (f_equal len) in Hk. rewrite len_app, stream_demo_handed in Hk.
    destruct k as [|[|[|k]]]; [discriminate Hk|discriminate Hk|reflexivity..].
Defined.
End UdpStream.
