(* ===== verification/ServerSessionTypes.v ===== *)
(** ServerSessionTypes: the ranges and sizes of a server session's members
    (src/Server/Session.h), and of what it passes to its sockets. *)
From S2P Require Import Prelude Net Decimal VRequest Trojan Ring DnsCache Wire.
From S2P Require Import ServerSession ServerSessionFacts ServerSessionProps UdpStream.

Module ServerSessionTypes.
Import Trojan ServerSession ServerSessionFacts ServerSessionProps UdpStream.

(** ** Well-formed operations *)
(** the packet's length field is the length of its payload, its port is a
    [uint16_t] *)
Definition packet_wf (p : UDPPacket.t) : Prop :=
  len (UDPPacket.payload p) = UDPPacket.length p ∧ UDPPacket.length p < 2 ^ 16 ∧
  0 <= packet_port p < 2 ^ 16.

(** what an operation is given: never an empty write, and never a packet its
    receiver cannot take *)
Definition op_wf (o : op) : Prop :=
  match o with
  | WritePayload data => data ≠ []
  | UdpResolveFirst p _ | UdpResolveNext p _ | UdpSendFirst p _ | UdpSendNext p _ => packet_wf p
  | UdpWriteUp packet => 11 <= len packet <= MAX_BUFF_SIZE + 11
  | _ => True
  end.

(** ** What every handler but that of the request keeps *)
Record typed (s s' : session) : Prop := Typed {
  ty_in : len (in_buf s') = len (in_buf s);
  ty_out : len (out_buf s') = len (out_buf s);
  ty_port : request_port s' = request_port s;
  ty_new : ∃ l, pending s' = pending s ++ l ∧ Forall (λ o, op_wf o ∧ is_pre o = false) l
}.
#[global] Instance typed_preorder : PreOrder typed.
Proof.
  split.
  - intros s. split; try done. exists []. by rewrite app_nil_r.
  - intros s1 s2 s3 [? ? ? (l1 & H1 & ?)] [? ? ? (l2 & H2 & ?)]. split; try congruence.
    exists (l1 ++ l2). rewrite H2, H1, app_assoc. by rewrite list.Forall_app.
Qed.
Lemma typed_start o s : op_wf o → is_pre o = false → typed s (start_op o s).
Proof. intros. split; try done. exists [o]. by repeat constructor. Qed.
Lemma typed_same s s' :
  in_buf s' = in_buf s → out_buf s' = out_buf s → request_port s' = request_port s →
  pending s' = pending s → typed s s'.
Proof.
  intros H1 H2 H3 H4. split; [by rewrite H1|by rewrite H2|done|].
  exists []. by rewrite app_nil_r.
Qed.
Lemma typed_destroy s : typed s (destroyed s).
Proof. unfold destroyed. case_decide; [done|by apply typed_same]. Qed.
Lemma typed_set_lane d l s : typed s (set_lane d l s).
Proof. destruct d; by apply typed_same. Qed.
Lemma typed_fill d data s : typed s (fill d data s).
Proof.
  destruct d; split; try done; try (by exists []; rewrite app_nil_r); apply len_overwrite.
Qed.
Lemma typed_dns s c : typed s (s <| dns := c |>).
Proof. by apply typed_same. Qed.
Lemma typed_do_send d s : typed s (do_send d s).
Proof.
  unfold do_send. destruct (SessionBuffer.empty _); [|by apply typed_start]. cbn.
  destruct (pausing _); [|apply typed_set_lane].
  etrans; [apply typed_set_lane|by apply typed_start].
Qed.
Lemma typed_write d data s : typed s (async_bidirectional_write d data s).
Proof.
  unfold async_bidirectional_write. cbv zeta.
  assert (typed s (enqueue_write d data s)) as Hs.
  { unfold enqueue_write. cbn. destruct (sending _); [apply typed_set_lane|].
    etrans; [apply typed_set_lane|apply typed_do_send]. }
  etrans; [exact Hs|]. destruct (SessionBuffer.has_space _ _); [by apply typed_start|].
  apply typed_set_lane.
Qed.
Lemma typed_read_both s : typed s (read_both s).
Proof. etrans; by apply typed_start. Qed.
Lemma typed_do_connect ep s : typed s (do_connect ep s).
Proof. etrans; [|by apply typed_start]. by apply typed_same. Qed.
Lemma typed_udp_send_first tr e p ep s s' :
  packet_wf p → udp_send_first tr e p ep s = Ret s' → typed s s'.
Proof.
  intros Hp. unfold udp_send_first.
  destruct (downstream_udp_open s); [intros [= <-]; by apply typed_start|].
  destruct (udp_open_ok e); intros H'; ret_inv H'; [|apply typed_destroy].
  etrans; [|by apply typed_start]. by apply typed_same.
Qed.
Lemma typed_advance n s : typed s (udp_advance n s).
Proof. unfold udp_advance. cbn. destruct (_ && _); by apply typed_same. Qed.

(** a packet cut out of the buffer is well formed *)
Lemma parsed_packet_wf data p n :
  UDPPacket.parse blank_packet data = Ret (p, Some n) → packet_wf p.
Proof.
  intros E. destruct (UDPPacket_parse_total blank_packet data) as (p' & k & E' & Hk).
  rewrite E in E'. injection E' as <- <-. by destruct (Hk n eq_refl) as (_ & ? & ? & ? & _).
Qed.

Lemma typed_udp_proxy tr e s s' : handle_trojan_udp_proxy tr e s = Ret s' → typed s s'.
Proof.
  unfold handle_trojan_udp_proxy. set (s2 := s <| state_ := FORWARD |>).
  assert (typed s s2) as H2 by by apply typed_same.
  destruct (UDPPacket.parse _ _) as [[p [n|]]| |] eqn:E; [| |done..]; cbn [mbind outcome_bind].
  - apply parsed_packet_wf in E. pose proof (typed_advance n s2).
    destruct (DnsCache.get_udp _ _ _); [intros Hh|intros [= <-]];
      (etrans; [exact H2|]); (etrans; [done|]);
      [by eapply typed_udp_send_first|by apply typed_start].
  - destruct (_ <? _); intros Hh; ret_inv Hh; (etrans; [exact H2|]);
      [apply typed_destroy|by apply typed_start].
Qed.

Lemma typed_udp_read_down tr e r s s' : on_udp_read_down tr e r s = Ret s' → typed s s'.
Proof.
  destruct r; cbn [on_udp_read_down]; try (intros ->%destroy_Ret; apply typed_destroy).
  match goal with |- context [udp_remaining ?x] => set (s2 := x) end.
  assert (typed s s2) as H2 by (etrans; [apply (typed_fill DOWN data)|by apply typed_same]).
  destruct (UDPPacket.parse _ _) as [[p [n|]]| |] eqn:E; [| |done..]; cbn [mbind outcome_bind].
  - apply parsed_packet_wf in E. pose proof (typed_advance n s2).
    destruct (DnsCache.get_udp _ _ _); intros [= <-];
      (etrans; [exact H2|]); (etrans; [done|]); by apply typed_start.
  - destruct (_ <? _); intros Hh; ret_inv Hh; (etrans; [exact H2|]);
      [apply typed_destroy|by apply typed_start].
Qed.

Lemma typed_handle allowed tr resolves e o r s s' :
  is_pre o = false → op_wf o → legal tr resolves o r →
  handle allowed tr e o r s = Ret s' → typed s s'.
Proof.
  intros Ho Hwf Hl Hh. pose proof (typed_destroy s) as Hdes.
  destruct o; try discriminate Ho.
  6: { destruct r; cbn [handle on_udp_read] in Hh; try (by apply destroy_Ret in Hh as ->).
       etrans; [|exact (typed_udp_proxy _ _ _ _ Hh)]. etrans; [apply (typed_fill DOWN data)|].
       by apply typed_same. }
  6: by eapply typed_udp_read_down.
  all: cbn [handle] in Hh; destruct r; cbn in Hh; try (by apply destroy_Ret in Hh as ->);
    try (case_decide; [by injection Hh as <-|by apply destroy_Ret in Hh as ->]).
  - destruct eps as [|ep eps]; ret_inv Hh; [done|].
    etrans; [apply typed_dns|apply typed_do_connect].
  - destruct (options_ok e); [|done].
    case_bool_decide; injection Hh as <-; [apply typed_read_both|by apply typed_start].
  - injection Hh as <-. apply typed_read_both.
  - case_decide; injection Hh as <-; (etrans; [apply (typed_fill d data)|]); [reflexivity|].
    etrans; [apply typed_set_lane|apply typed_write].
  - injection Hh as <-. etrans; [apply typed_set_lane|apply typed_do_send].
  - destruct (datagram_waiting e); [|done]. injection Hh as <-.
    assert (len data <= MAX_BUFF_SIZE) by by inversion Hl.
    etrans; [apply (typed_fill UP data)|]. apply typed_start; [|done].
    assert (len (UDPPacket.generate Net.no_endpoint data) = 11 + len data) as E
      by (unfold UDPPacket.generate; len_simpl; change (len (SOCKS5Address.generate _)) with 7; lia).
    unfold op_wf. rewrite E. len_lia.
  - destruct (pick_endpoint eps); [|by apply destroy_Ret in Hh as ->].
    etrans; [apply typed_dns|by eapply typed_udp_send_first].
  - destruct (pick_endpoint eps); ret_inv Hh; [|done].
    etrans; [apply typed_dns|by apply typed_start].
  - injection Hh as <-. etrans; by apply typed_start.
  - injection Hh as <-. by apply typed_start.
  - injection Hh as <-. by apply typed_start.
Qed.

(** ** The invariant *)
Record wf (s : session) : Prop := Wf {
  wf_in : len (in_buf s) = MAX_BUFF_SIZE;
  wf_out : len (out_buf s) = MAX_BUFF_SIZE;
  wf_udp : udp_buffer_ok s;
  wf_ops : Forall op_wf (pending s);
  wf_port : state_ s ≠ DESTROY → 0 <= request_port s < 2 ^ 16;
  wf_request :
    Forall (λ o, is_pre o = false) (pending s) ∨
    (∃ o, pending s = [o] ∧ is_pre o = true) ∧
    vprotocol s = false ∧ (upstream_udp_buff s = [] ∧ udp_buff_offset_ s = 0) ∧
    downstream_open s = false ∧ downstream_udp_open s = false
}.

Lemma wf_typed s l1 o l2 s' :
  wf s → pending s = l1 ++ o :: l2 → is_pre o = false →
  Forall (λ o, is_pre o = false) (l1 ++ l2) →
  typed (rest s l1 l2) s' → udp_buffer_ok s' → (state_ s = DESTROY → state_ s' = DESTROY) → wf s'.
Proof.
  intros [Hin Hout Hu Hops Hport _] Hp Ho Hpre [H1 H2 H3 (l & H4 & HF)] Hu' Hst.
  apply (forall_rest s l1 l2 o Hp) in Hops as [_ Hops].
  split; [by rewrite H1|by rewrite H2|done|..].
  - rewrite H4. apply list.Forall_app. split; [done|].
    eapply list.Forall_impl; [exact HF|]. by intros ? [].
  - intros Hne. rewrite H3. apply Hport. by intros E; apply Hst in E.
  - left. rewrite H4. apply list.Forall_app. split; [done|].
    eapply list.Forall_impl; [exact HF|]. by intros ? [].
Qed.

(** ** The request *)
Lemma parsed_buffers v data s valid s2 :
  parsed v data s = Ret (valid, s2) →
  in_buf s2 = in_buf s ∧ out_buf s2 = out_buf s ∧ udp_buff_offset_ s2 = udp_buff_offset_ s ∧
  upstream_udp_buff s2 = upstream_udp_buff s.
Proof. intros E. destruct v; apply bind_Ret_inv in E as (u & _ & E); by injection E as _ <-. Qed.

Lemma typed_do_resolve e s : typed s (do_resolve e s).
Proof.
  unfold do_resolve. cbv zeta.
  destruct (DnsCache.get_tcp _ _ _); (etrans; [|first [apply typed_do_connect|by apply typed_start]]);
    by apply typed_same.
Qed.
Lemma still_do_resolve e s : still s (do_resolve e s).
Proof.
  unfold do_resolve. cbv zeta.
  destruct (DnsCache.get_tcp _ _ _); (etrans; [|first [apply still_do_connect|by apply still_start]]);
    by apply still_same.
Qed.
Lemma destroy_state s : state_ (destroyed s) = DESTROY.
Proof. unfold destroyed. by case_decide. Qed.

(** what holds after the handler of a request *)
Definition answered (s s' : session) : Prop :=
  len (in_buf s') = len (in_buf s) ∧ len (out_buf s') = len (out_buf s) ∧ udp_buffer_ok s' ∧
  Forall (λ o, op_wf o ∧ is_pre o = false) (pending s') ∧
  (state_ s' ≠ DESTROY → 0 <= request_port s' < 2 ^ 16).

Lemma typed_answered s s1 s2 :
  typed s1 s2 → udp_buffer_ok s2 → pending s1 = [] → len (in_buf s1) = len (in_buf s) →
  len (out_buf s1) = len (out_buf s) → (state_ s2 ≠ DESTROY → 0 <= request_port s1 < 2 ^ 16) →
  answered s s2.
Proof.
  intros [H1 H2 H3 (l & H4 & H5)] Hok Hp1 Hi Ho Hr. unfold answered.
  rewrite H1, H2, H3, H4, Hp1. by split_and!.
Qed.
Lemma destroy_answered s s1 :
  pending s1 = [] → len (in_buf s1) = len (in_buf s) → len (out_buf s1) = len (out_buf s) →
  udp_buffer_ok s1 → answered s (destroyed s1).
Proof.
  intros Hp1 Hi Ho Hok. apply (typed_answered _ s1); [apply typed_destroy| |done..|].
  - by eapply still_ok; [apply still_destroy|].
  - by rewrite destroy_state.
Qed.

Lemma typed_request allowed tr e r s s' :
  on_request allowed tr e r s = Ret s' → pending s = [] → vprotocol s = false →
  udp_buff_offset_ s = 0 → upstream_udp_buff s = [] → answered s s'.
Proof.
  intros Hh Hp Hv Hoff Hbuf.
  assert (udp_buffer_ok s) as Hok by (unfold udp_buffer_ok; rewrite Hoff; len_lia).
  destruct r; cbn [on_request] in Hh; try (apply destroy_Ret in Hh as ->; by apply destroy_answered).
  set (s1 := fill DOWN data s) in *. inv_bind Hh. apply bind_Ret_inv in Hh as ([valid s2] & E2 & Hh).
  destruct (request_parsed x data s1 valid s2 E2 Hv) as (Hp2 & _ & _ & _ & Hport).
  destruct (parsed_buffers x data s1 valid s2 E2) as (Hin2 & Hout2 & Hoff2 & Hbuf2).
  assert (len (in_buf s2) = len (in_buf s)) as Hi by (rewrite Hin2; apply len_overwrite).
  assert (len (out_buf s2) = len (out_buf s)) as Ho by by rewrite Hout2.
  assert (pending s2 = []) as Hp2' by by etrans.
  assert (udp_buffer_ok s2) as Hok2 by (unfold udp_buffer_ok; rewrite Hoff2, Hbuf2; exact Hok).
  destruct valid; [|apply destroy_Ret in Hh as ->; by apply destroy_answered].
  destruct (decide (password s2 ∈ allowed)); [|apply destroy_Ret in Hh as ->; by apply destroy_answered].
  destruct (_ && _).
  - set (s3 := s2 <| upstream_udp_buff := _ |>) in *.
    assert (udp_buffer_ok s3) as Hok3.
    { unfold udp_buffer_ok. change (udp_buff_offset_ s3) with (udp_buff_offset_ s2).
      rewrite Hoff2. change (udp_buff_offset_ s1) with (udp_buff_offset_ s). rewrite Hoff. len_lia. }
    apply (typed_answered _ s3); [by eapply typed_udp_proxy| |done..|by intros _; apply Hport].
    by apply (first_takes tr e s3 s' Hok3 Hh).
  - injection Hh as <-. apply (typed_answered _ s2); [apply typed_do_resolve| |done..|by intros _; apply Hport].
    by eapply still_ok; [apply still_do_resolve|].
Qed.

(** ** Every reachable session is well formed *)
Lemma wf_start cache : wf (start (init cache)).
Proof.
  split; [exact (init_in_buf cache)|exact (init_in_buf cache)|..].
  - by split.
  - by repeat constructor.
  - intros _. change (0 <= 0 < 2 ^ 16). lia.
  - right. split; [by exists Handshake|done].
Qed.

Section Steps.
Context (allowed : gset bytes) (tr : transport).
Context (resolves : bytes → bytes → Net.endpoint → Prop).

Lemma alone (s : session) l1 o l2 o' : pending s = l1 ++ o :: l2 → pending s = [o'] → l1 ++ l2 = [].
Proof. intros -> E. destruct l1 as [|? [|]]; by simplify_list_eq. Qed.

(** what is left of a session in which only the request was awaited *)
Lemma wf_alone s l1 o l2 :
  wf s → pending s = l1 ++ o :: l2 → is_pre o = true →
  l1 ++ l2 = [] ∧ vprotocol s = false ∧ (upstream_udp_buff s = [] ∧ udp_buff_offset_ s = 0) ∧
  downstream_open s = false ∧ downstream_udp_open s = false.
Proof.
  intros [_ _ _ _ _ Hreq] Hp Ho. destruct Hreq as [HF|((o' & Hp' & _) & Hv & Hbuf & Hclosed)].
  { destruct (forall_rest s l1 l2 o Hp _ HF) as [Hx _]. by rewrite Ho in Hx. }
  pose proof (alone _ _ _ _ _ Hp Hp'). done.
Qed.
(** a handler before the request ends the session or starts one operation *)
Lemma wf_entry s l1 o l2 s' :
  wf s → pending s = l1 ++ o :: l2 → is_pre o = true →
  s' = destroyed (rest s l1 l2) ∨ (∃ o', s' = start_op o' (rest s l1 l2) ∧ is_pre o' = true) → wf s'.
Proof.
  intros Hwf Hp Ho Hs. destruct (wf_alone s l1 o l2 Hwf Hp Ho) as (Hnil & Hv & [Hbuf Hoff] & Hclosed).
  destruct Hwf as [Hin Hout Hu _ Hport _]. destruct Hs as [->|(o' & -> & Ho')].
  - assert (typed (rest s l1 l2) (destroyed (rest s l1 l2))) as [H1 H2 H3 (l & H4 & HFl)]
      by apply typed_destroy.
    assert (l = []) as ->.
    { rewrite destroy_nothing in H4. by apply app_inv_head in H4 as <-. }
    split; [by rewrite H1|by rewrite H2|by eapply still_ok; [apply still_destroy|]|..].
    + rewrite H4. cbn. by rewrite Hnil.
    + by rewrite destroy_state.
    + left. rewrite H4. cbn. by rewrite Hnil.
  - split; try done; [|right; split; [|done]]; cbn; rewrite Hnil.
    + constructor; [by destruct o'|done].
    + by exists o'.
Qed.

Lemma wf_pre_step s l1 o l2 e r s' :
  wf s → pending s = l1 ++ o :: l2 → is_pre o = true →
  handle allowed tr e o r (rest s l1 l2) = Ret s' → wf s'.
Proof.
  intros Hwf Hp Ho Hh. destruct o; try discriminate Ho.
  - apply (wf_entry s l1 _ l2 s' Hwf Hp Ho).
    apply on_handshake_cases in Hh as [|[|]]; eauto 6.
  - apply (wf_entry s l1 _ l2 s' Hwf Hp Ho).
    apply on_accept_cases in Hh as [|]; eauto 6.
  - destruct (wf_alone s l1 _ l2 Hwf Hp Ho) as (Hnil & Hv & [Hbuf Hoff] & _).
    destruct (typed_request allowed tr e r (rest s l1 l2) s' Hh Hnil Hv Hoff Hbuf)
      as (H1 & H2 & H3 & H4 & H5). destruct Hwf as [Hin Hout _ _ _ _].
    split; [by rewrite H1|by rewrite H2|done| |done|left];
      (eapply list.Forall_impl; [exact H4|]; by intros ? []).
Qed.

Lemma wf_step s s' : inv s → wf s → step allowed tr resolves s s' → wf s'.
Proof.
  intros Hinv Hwf Hstep.
  assert (state_ s = DESTROY → state_ s' = DESTROY) as Hst
    by (intros E; by eapply dead_step_state).
  revert Hinv Hwf Hst. destruct Hstep as [s l1 o l2 e r s' Hp Hl Hh|s c Hc]; intros Hinv Hwf Hst.
  2: { destruct Hwf. by split. }
  destruct (is_pre o) eqn:Ho; [by eapply wf_pre_step|].
  pose proof Hwf as [_ _ Hu Hops _ Hreq].
  assert (Forall (λ o, is_pre o = false) (l1 ++ l2)) as Hpre.
  { destruct Hreq as [HF|((o' & Hp' & Ho') & _)]; [by apply (forall_rest s l1 l2 o Hp)|].
    by rewrite (alone _ _ _ _ _ Hp Hp'). }
  destruct (forall_rest s l1 l2 o Hp _ Hops) as [Hop _].
  apply (wf_typed s l1 o l2); [done..| | |done].
  - by eapply (typed_handle allowed tr resolves).
  - assert (udp_buffer_ok (rest s l1 l2)) as Hu0 by exact Hu.
    destruct (is_reader o) eqn:Hr.
    + by apply (reader_takes allowed tr e o r (rest s l1 l2) s' Hr Hu0 Hh).
    + by apply (still_ok (rest s l1 l2)); [eapply still_handle|].
Qed.

Lemma unused_ring s d :
  get_lane d s = lane_init →
  SessionBuffer.wf (ring (get_lane d s)) ∧
  SessionBuffer.capacity_ (ring (get_lane d s)) = MAX_BUFF_SIZE.
Proof.
  intros ->. split; [|reflexivity]. apply SessionBuffer.make_wf. unfold MAX_BUFF_SIZE. lia.
Qed.

(** the send in flight carries the front of its ring *)
Lemma live_send d s data b :
  lane_live d s → Send d data b ∈ pending s →
  data = SessionBuffer.region (ring (get_lane d s)) (SessionBuffer.peek (ring (get_lane d s))) ∧
  queued (get_lane d s) ≠ [] ∧ sending (get_lane d s) = true ∧ pausing (get_lane d s) = true.
Proof.
  intros [_ _ _ _ Hop] Hin.
  assert (Send d data b ∈ ops d s) as Ho by by apply list_elem_of_filter.
  destruct Hop as [(E & _)|(Hq & Hs & Hp & E)]; rewrite E in Ho;
    apply list_elem_of_singleton in Ho; [done|]. by injection Ho as -> _.
Qed.

(** the region a live lane sends next *)
Lemma live_region d s :
  lane_live d s → queued (get_lane d s) ≠ [] →
  0 < len (SessionBuffer.region (ring (get_lane d s)) (SessionBuffer.peek (ring (get_lane d s))))
    <= MAX_BUFF_SIZE.
Proof.
  intros [Hwf Hcap _ _ _] Hq. destruct (SessionBuffer.peek_spec _ Hwf) as (Hk & Hpos & _ & ->).
  pose proof (SessionBuffer.len_contents _ Hwf) as Hlen.
  pose proof (SessionBuffer.wf_used _ Hwf) as Hused. rewrite len_take by lia.
  destruct (decide (len (queued (get_lane d s)) = 0)) as [H0|H0]; [by apply len_0_nil in H0|].
  unfold queued in H0. specialize (Hpos ltac:(lia)). len_lia.
Qed.

Lemma wf_reachable cache s : reachable allowed tr resolves cache s → inv s ∧ wf s.
Proof.
  apply (rtc_ind_r (λ s, inv s ∧ wf s)).
  - split; [by apply fresh_start|apply wf_start].
  - intros s1 s2 _ Hs [Hinv Hwf]. split; [by eapply inv_step|by eapply wf_step].
Qed.

(** C22: the members of a session keep their types whatever completes when.  In
    every reachable state the two read buffers have the size they were given;
    the consumed part of the UDP buffer lies within it; the requested port is a
    16-bit value; unless the session is destroyed its rings are well formed, of
    the full capacity, and a send in flight is given between one byte and a
    buffer's worth; no empty payload is written to the target; every UDP packet
    on its way has a 16-bit port and exactly the payload its length field says;
    and what is written back to the client for a datagram is the datagram and
    eleven bytes in front of it. *)
Theorem session_well_formed cache s :
  reachable allowed tr resolves cache s →
  len (in_buf s) = MAX_BUFF_SIZE ∧ len (out_buf s) = MAX_BUFF_SIZE ∧
  0 <= udp_buff_offset_ s <= len (upstream_udp_buff s) ∧
  Forall op_wf (pending s) ∧
  (state_ s ≠ DESTROY →
     0 <= request_port s < 2 ^ 16 ∧
     (∀ d, SessionBuffer.wf (ring (get_lane d s)) ∧
           SessionBuffer.capacity_ (ring (get_lane d s)) = MAX_BUFF_SIZE) ∧
     ∀ d data b, Send d data b ∈ pending s → 0 < len data <= MAX_BUFF_SIZE).
Proof.
  intros Hr. apply wf_reachable in Hr as [Hinv [Hin Hout Hu Hops Hport _]].
  split_and!; try done; [apply Hu..|]. intros Hst. split; [auto|].
  destruct Hinv as [o Hp Ho [_ Hd Hup _] _ _|_ _ Hd Hup|_ HF Hd Hup|? _ _ _ _ _ _]; [| | |done].
  - split; [intros d; by apply unused_ring; destruct d|]. intros d data b. rewrite Hp.
    intros <-%list_elem_of_singleton. discriminate Ho.
  - assert (∀ d, lane_live d s) as Hl by by intros [].
    split; [intros d; by destruct (Hl d)|]. intros d data b Hin'.
    destruct (live_send d s data b (Hl d) Hin') as (-> & Hq & _). apply live_region; done.
  - split; [intros d; by apply unused_ring; destruct d|]. intros d data b Hin'.
    rewrite list.Forall_forall in HF. by apply HF in Hin'.
Qed.
End Steps.

Lemma session_well_formed_witness :
  reachable demo_allowed Tls (resolves_of demo_resolves) DnsCache.init (demo_at 7) ∧
  state_ (demo_at 7) = FORWARD ∧
  SessionBuffer.wf (ring (get_lane DOWN (demo_at 7))) ∧ 0 <= request_port (demo_at 7) < 2 ^ 16.
Proof.
  destruct (session_well_formed demo_allowed Tls (resolves_of demo_resolves) DnsCache.init
    (demo_at 7) demo7_runs) as (_ & _ & _ & _ & H).
  destruct (H demo7_live) as (Hport & Hring & _).
  exact (conj demo7_runs (conj demo7_forward (conj (proj1 (Hring DOWN)) Hport))).
Defined.
End ServerSessionTypes.
