(* ===== verification/UdpBuffer.v ===== *)
(** UdpBuffer: the buffer of the UDP packet stream against a plain one
    (src/Server/Session.cpp, upstream_udp_buff and udp_buff_offset_).

    The code keeps the consumed bytes in front of an offset and drops them only
    now and then.  The reference drops them at once.  Nobody can tell the two
    apart: under every schedule of completions they start the same operations,
    reject the same packets and reach the same states. *)
From S2P Require Import Prelude Net Decimal VRequest Trojan Ring DnsCache Wire.
From S2P Require Import ServerSession ServerSessionFacts ServerSessionProps.
From S2P Require Import UdpStream ServerSessionTypes.

Module UdpBuffer.
Import Trojan ServerSession ServerSessionFacts ServerSessionProps UdpStream ServerSessionTypes.

(** the session with nothing but the unparsed bytes in its buffer *)
Definition compact (s : session) : session :=
  s <| upstream_udp_buff := udp_remaining s |> <| udp_buff_offset_ := 0 |>.
Definition compacted (o : outcome session) : outcome session := s ← o; mret (compact s).

Lemma compact_remaining s : udp_remaining (compact s) = udp_remaining s.
Proof. unfold udp_remaining. cbn. by rewrite drop_0. Qed.
Lemma compact_ok s : udp_buffer_ok (compact s).
Proof. unfold udp_buffer_ok. cbn. len_lia. Qed.

(** ** Everything else commutes with it *)
Create Rewrite HintDb compact_db.
Lemma get_lane_compact d s : get_lane d (compact s) = get_lane d s.
Proof. by destruct d. Qed.
Lemma sink_compact d s : sink_open d (compact s) = sink_open d s.
Proof. by destruct d. Qed.
Lemma compact_set_lane d l s : set_lane d l (compact s) = compact (set_lane d l s).
Proof. by destruct d. Qed.
Lemma compact_start o s : start_op o (compact s) = compact (start_op o s).
Proof. done. Qed.
Lemma compact_fill d data s : fill d data (compact s) = compact (fill d data s).
Proof. by destruct d. Qed.
Lemma compact_dns s c : compact s <| dns := c |> = compact (s <| dns := c |>).
Proof. done. Qed.
#[local] Hint Rewrite get_lane_compact sink_compact compact_set_lane compact_start compact_fill
  : compact_db.
Ltac compact_simpl := autorewrite with compact_db.

Lemma compact_destroyed s : destroyed (compact s) = compact (destroyed s).
Proof.
  unfold destroyed. change (state_ (compact s)) with (state_ s). by case_decide.
Qed.
Lemma compact_destroy tr e s : destroy tr e (compact s) = compacted (destroy tr e s).
Proof.
  rewrite !destroy_spec, compact_destroyed.
  change (destroy_throws e (compact s)) with (destroy_throws e s).
  by destruct (destroy_throws e s).
Qed.
Lemma compact_do_send d s : do_send d (compact s) = compact (do_send d s).
Proof.
  unfold do_send, start_read. compact_simpl. destruct (SessionBuffer.empty _); [|done]. cbn.
  destruct (pausing _); by compact_simpl.
Qed.
Lemma compact_write d data s :
  async_bidirectional_write d data (compact s) = compact (async_bidirectional_write d data s).
Proof.
  unfold async_bidirectional_write. cbv zeta.
  assert (enqueue_write d data (compact s) = compact (enqueue_write d data s)) as ->.
  { unfold enqueue_write. compact_simpl. destruct (sending _); [done|]. by rewrite compact_do_send. }
  unfold start_read. compact_simpl. by destruct (SessionBuffer.has_space _ _); compact_simpl.
Qed.
Lemma compact_read_both s : read_both (compact s) = compact (read_both s).
Proof. done. Qed.
Lemma compact_do_connect ep s : do_connect ep (compact s) = compact (do_connect ep s).
Proof. done. Qed.
Lemma compact_udp_send_first tr e p ep s :
  udp_send_first tr e p ep (compact s) = compacted (udp_send_first tr e p ep s).
Proof.
  unfold udp_send_first. change (downstream_udp_open (compact s)) with (downstream_udp_open s).
  destruct (downstream_udp_open s); [done|]. destruct (udp_open_ok e); [done|].
  apply compact_destroy.
Qed.
#[local] Hint Rewrite compact_destroy compact_do_send compact_write compact_read_both
  compact_do_connect compact_udp_send_first : compact_db.

Lemma compact_handle allowed tr e o r s :
  is_reader o = false → is_pre o = false →
  handle allowed tr e o r (compact s) = compacted (handle allowed tr e o r s).
Proof.
  intros Ho Hpre. destruct o; try discriminate Ho; try discriminate Hpre;
    cbn [handle]; destruct r; cbn; compact_simpl; try done.
  all: try (change (state_ (compact s)) with (state_ s); case_decide; by compact_simpl).
  - by destruct eps.
  - destruct (options_ok e); [|done].
    change (first_payload (compact s)) with (first_payload s).
    by destruct (negb _); compact_simpl.
  - change (state_ (compact (fill d data s))) with (state_ (fill d data s)).
    case_decide; [done|]. by compact_simpl.
  - unfold sent. by compact_simpl.
  - by destruct (datagram_waiting e).
  - destruct (pick_endpoint eps); [|done]. rewrite compact_dns. apply compact_udp_send_first.
  - by destruct (pick_endpoint eps).
Qed.

(** ** The handlers that read *)
Lemma compacted_eq s1 s2 : compact s1 = compact s2 → compacted (Ret s1) = compacted (Ret s2).
Proof. intros E. unfold compacted. cbn. by rewrite E. Qed.

Lemma compact_idem s : compact (compact s) = compact s.
Proof. unfold compact at 1. by rewrite compact_remaining. Qed.

Lemma compact_advance n s1 s2 :
  compact s1 = compact s2 → udp_buffer_ok s1 → udp_buffer_ok s2 →
  0 <= n <= len (udp_remaining s1) → compact (udp_advance n s1) = compact (udp_advance n s2).
Proof.
  intros E H1 H2 Hn.
  assert (udp_remaining s2 = udp_remaining s1) as Er
    by (rewrite <-(compact_remaining s1), E; apply eq_sym, compact_remaining).
  assert (∀ s, udp_buffer_ok s → udp_remaining s = udp_remaining s1 →
    compact (udp_advance n s) = compact s <| upstream_udp_buff := drop (Z.to_nat n) (udp_remaining s) |>)
    as H.
  { intros s Hok Hr. destruct (udp_advance_spec n s Hok) as [_ Hrem]; [by rewrite Hr|].
    unfold compact at 1. rewrite Hrem. unfold udp_advance. cbn. by destruct (_ && _). }
  rewrite !H, E, Er by done. done.
Qed.

(** what they do once the data is in the buffer depends on the unparsed bytes
    only *)
Lemma compact_parse tr e (k : UDPPacket.t → session → outcome session) (more : session → session)
    s1 s2 :
  compact s1 = compact s2 → udp_buffer_ok s1 → udp_buffer_ok s2 →
  (∀ p t1 t2, compact t1 = compact t2 → compacted (k p t1) = compacted (k p t2)) →
  (∀ t1 t2, compact t1 = compact t2 → compact (more t1) = compact (more t2)) →
  let body s :=
    r ← UDPPacket.parse blank_packet (udp_remaining s);
    match r with
    | (p, Some n) => k p (udp_advance n s)
    | (_, None) =>
        if MAX_BUFF_SIZE <? len (upstream_udp_buff s) - udp_buff_offset_ s
        then destroy tr e s else mret (more s)
    end in
  compacted (body s1) = compacted (body s2).
Proof.
  intros E H1 H2 Hk Hmore body. subst body. cbv beta.
  assert (udp_remaining s2 = udp_remaining s1) as Er
    by (rewrite <-(compact_remaining s1), E; apply eq_sym, compact_remaining).
  rewrite <-!len_udp_remaining, Er by done.
  destruct (UDPPacket_parse_total blank_packet (udp_remaining s1)) as (p & [n|] & -> & Hn);
    cbn [mbind outcome_bind].
  - apply Hk, compact_advance; [done..|]. destruct (Hn n eq_refl) as [? _]. lia.
  - destruct (_ <? _); [|by apply compacted_eq, Hmore].
    by rewrite <-!compact_destroy, E.
Qed.

(** functions that commute with [compact] respect it *)
Lemma compact_proper (f : session → session) :
  (∀ s, f (compact s) = compact (f s)) →
  ∀ t1 t2, compact t1 = compact t2 → compact (f t1) = compact (f t2).
Proof. intros Hf t1 t2 E. by rewrite <-!Hf, E. Qed.

Lemma compacted_proper (f : session → outcome session) :
  (∀ s, f (compact s) = compacted (f s)) →
  ∀ t1 t2, compact t1 = compact t2 → compacted (f t1) = compacted (f t2).
Proof. intros Hf t1 t2 E. by rewrite <-!Hf, E. Qed.

Lemma compact_append data s :
  udp_buffer_ok s →
  let append s := fill DOWN data s <| upstream_udp_buff := upstream_udp_buff s ++ data |> in
  compact (append (compact s)) = compact (append s) ∧
  udp_buffer_ok (append (compact s)) ∧ udp_buffer_ok (append s).
Proof.
  intros Hok append.
  destruct (udp_append_spec data s Hok) as [Hok1 H1].
  destruct (udp_append_spec data (compact s) (compact_ok s)) as [Hok2 H2].
  rewrite compact_remaining in H2. split; [|done].
  unfold compact at 1 3. fold (append (compact s)) (append s) in *.
  change (udp_remaining (append (compact s)) = udp_remaining s ++ data) in H2.
  rewrite H2. unfold append in H1 |- *. rewrite H1. reflexivity.
Qed.

Section Next.
Context (tr : transport) (e : env).

(** what is done with a packet *)
Lemma compact_forward p t1 t2 (send : Net.endpoint → session → outcome session) resolve :
  compact t1 = compact t2 → (∀ ep s, send ep (compact s) = compacted (send ep s)) →
  let k s := match DnsCache.get_udp (dns s) (now e) (udp_key p) with
             | Some ep => send ep s
             | None => mret (start_op resolve s)
             end in
  compacted (k t1) = compacted (k t2).
Proof.
  intros E Hsend k. subst k. cbv beta. assert (dns t1 = dns t2) as -> by exact (f_equal dns E).
  destruct (DnsCache.get_udp _ _ _); [by apply compacted_proper|].
  apply compacted_eq. by apply compact_proper.
Qed.

Lemma compact_proxy s1 s2 :
  compact s1 = compact s2 → udp_buffer_ok s1 → udp_buffer_ok s2 →
  compacted (handle_trojan_udp_proxy tr e s1) = compacted (handle_trojan_udp_proxy tr e s2).
Proof.
  intros E H1 H2. unfold handle_trojan_udp_proxy.
  set (forward s := s <| state_ := FORWARD |>).
  apply (compact_parse tr e
    (λ p s, match DnsCache.get_udp (dns s) (now e) (udp_key p) with
            | Some ep => udp_send_first tr e p ep s
            | None => mret (start_op (UdpResolveFirst p (udp_key p)) s)
            end) (start_op UdpRead) (forward s1) (forward s2)); [|done|done| |].
  - by apply (compact_proper forward).
  - intros p t1 t2 Et. by apply (compact_forward p t1 t2 (udp_send_first tr e p));
      [|intros; apply compact_udp_send_first].
  - by apply compact_proper.
Qed.

Lemma compact_reader allowed o r s :
  is_reader o = true → udp_buffer_ok s →
  compacted (handle allowed tr e o r (compact s)) = compacted (handle allowed tr e o r s).
Proof.
  intros Ho Hok.
  assert (compacted (destroy tr e (compact s)) = compacted (destroy tr e s)) as Hdes.
  { apply (compacted_proper (destroy tr e)); [apply compact_destroy|apply compact_idem]. }
  destruct o; try discriminate Ho; destruct r as [|data| | |]; try exact Hdes;
    cbn [handle on_udp_read on_udp_read_down];
    destruct (compact_append data s Hok) as (E & H1 & H2).
  - by apply compact_proxy.
  - apply (compact_parse tr e
      (λ p s, match DnsCache.get_udp (dns s) (now e) (udp_key p) with
              | Some ep => mret (start_op (UdpSendNext p ep) s)
              | None => mret (start_op (UdpResolveNext p (udp_key p)) s)
              end) (start_op UdpReadDown)); [done|done|done| |].
    + intros p t1 t2 Et. by apply (compact_forward p t1 t2 (λ ep s, mret (start_op (UdpSendNext p ep) s))).
    + by apply compact_proper.
Qed.
End Next.

(** ** The two programs side by side *)
Section Exec.
Context (allowed : gset bytes) (tr : transport).
Context (resolves_b : bytes → bytes → Net.endpoint → bool).

(** [exec] of a program that drops what it has consumed after every handler *)
Fixpoint exec_plain (sched : list (nat * env * result)) (s : session) : option session :=
  match sched with
  | [] => Some s
  | (i, e, r) :: sched =>
      o ← pending s !! i;
      if legal_b tr resolves_b o r then
        match compacted (handle allowed tr e o r (s <| pending := delete i (pending s) |>)) with
        | Ret s' => exec_plain sched s'
        | _ => None
        end
      else None
  end.

Lemma compact_unused s : upstream_udp_buff s = [] → udp_buff_offset_ s = 0 → compact s = s.
Proof. destruct s. unfold compact, udp_remaining. cbn. by intros -> ->. Qed.

Lemma compact_any e o r s :
  udp_buffer_ok s →
  (is_pre o = true → upstream_udp_buff s = [] ∧ udp_buff_offset_ s = 0) →
  compacted (handle allowed tr e o r (compact s)) = compacted (handle allowed tr e o r s).
Proof.
  intros Hok Hpre. destruct (is_reader o) eqn:Hr; [by apply compact_reader|].
  destruct (is_pre o) eqn:Ho; [by rewrite compact_unused by by apply Hpre|].
  rewrite compact_handle by done. unfold compacted.
  destruct (handle _ _ _ _ _ _) as [s1| |]; [|done..]. cbn. by rewrite compact_idem.
Qed.

(** C23: when the consumed bytes are dropped makes no difference.  From any
    reachable session on and under any schedule of completions, the code, which
    keeps them in front of an offset and compacts only beyond half a buffer, and
    a program that drops them after every handler run through the same states, up
    to the consumed bytes: the same operations are pending, the same packets
    accepted, the same handlers throw, the same sessions are destroyed. *)
Theorem compaction_unobservable cache sched s :
  reachable allowed tr (resolves_of resolves_b) cache s →
  exec_plain sched (compact s) = compact <$> exec allowed tr resolves_b sched s.
Proof.
  revert s. induction sched as [|[[i e] r] sched IH]; intros s Hr; [done|].
  destruct (wf_reachable _ _ _ _ _ Hr) as [_ [_ _ Hok _ _ Hreq]]. cbn [exec_plain exec].
  change (pending (compact s)) with (pending s).
  destruct (pending s !! i) as [o|] eqn:E; [|done]. cbn [mbind option_bind].
  destruct (legal_b tr resolves_b o r) eqn:Hl; [|done].
  set (s0 := s <| pending := delete i (pending s) |>).
  change (compact s <| pending := delete i (pending s) |>) with (compact s0).
  rewrite compact_any; [|exact Hok|].
  2: { intros Ho. destruct Hreq as [HF|(_ & _ & Hb & _)]; [|exact Hb].
       rewrite list.Forall_forall in HF. apply list_elem_of_lookup_2 in E.
       apply HF in E. congruence. }
  unfold compacted. destruct (handle allowed tr e o r s0) as [s1| |] eqn:Hh; [|done..].
  cbn. apply IH. eapply rtc_r; [exact Hr|].
  apply (step_complete _ _ _ s (take i (pending s)) o (drop (S i) (pending s)) e r);
    [by rewrite take_drop_middle|by apply legal_b_sound|].
  by rewrite <-delete_take_drop.
Qed.
End Exec.

(** ** A concrete run: the packets of [UdpStream], each consumed at once *)
Definition plain_demo_start : session := start (init DnsCache.init).
Definition plain_demo_schedule : list (nat * env * result) :=
  [(0%nat, demo_env, Done);
   (0%nat, demo_env,
    Received (TrojanReq.generate stream_demo_pw (lit "x.org") 1 false ++ stream_demo_first))]
  ++ stream_demo_schedule.
Definition plain_demo : option session :=
  exec stream_demo_users Tls demo_resolves plain_demo_schedule plain_demo_start.

Lemma plain_demo_offset : udp_buff_offset_ <$> plain_demo = Some (len stream_demo_stream).
Proof. by_evaluation. Qed.

Lemma compaction_unobservable_witness :
  udp_buff_offset_ <$> plain_demo = Some (len stream_demo_stream) ∧
  exec_plain stream_demo_users Tls demo_resolves plain_demo_schedule (compact plain_demo_start) =
  compact <$> plain_demo.
Proof.
  split; [exact plain_demo_offset|].
  exact (compaction_unobservable stream_demo_users Tls demo_resolves DnsCache.init
    plain_demo_schedule plain_demo_start (rtc_refl _ _)).
Defined.
End UdpBuffer.
