(* ===== verification/Drain.v ===== *)
(** Drain: forwarding comes to rest (src/Server/Session.cpp, do_send_down and
    do_send_up).

    While neither peer sends anything more, a session only completes the sends it
    has in flight; each that accepts a byte brings the rings closer to empty, so
    only finitely many follow, and then both directions read again. *)
From S2P Require Import Prelude Net Trojan VRequest Ring DnsCache ServerSession.
From S2P Require Import ServerSessionFacts ServerSessionProps ServerSessionTypes.

Module Drain.
Import ServerSession ServerSessionFacts ServerSessionTypes.

(** ** What a send does to its lane *)
Lemma do_send_lane d s :
  ring (get_lane d (do_send d s)) = ring (get_lane d s) ∧
  read_total (get_lane d (do_send d s)) = read_total (get_lane d s) ∧
  sent_total (get_lane d (do_send d s)) = sent_total (get_lane d s).
Proof.
  unfold do_send. destruct (SessionBuffer.empty _); [|by rewrite get_lane_start]. cbn.
  destruct (pausing _); unfold start_read; by rewrite ?get_lane_start, get_set_lane.
Qed.

Lemma sent_lane d data n s :
  let l := get_lane d s in
  let l' := get_lane d (sent d data n s) in
  ring l' = SessionBuffer.consume (ring l) n ∧ read_total l' = read_total l.
Proof.
  intros l l'. subst l'. unfold sent.
  match goal with |- context [do_send d ?s1] => destruct (do_send_lane d s1) as (-> & -> & _) end.
  by rewrite get_set_lane.
Qed.

Section Drain.
Context (allowed : gset bytes) (tr : transport).
Context (resolves : bytes → bytes → Net.endpoint → Prop).

(** a send completes and has accepted something *)
Inductive flush_step (s s' : session) : Prop :=
  | flush l1 d data b l2 e n :
      pending s = l1 ++ Send d data b :: l2 → legal tr resolves (Send d data b) (Sent n) →
      0 < n → handle allowed tr e (Send d data b) (Sent n) (s <| pending := l1 ++ l2 |>) = Ret s' →
      flush_step s s'.

(** both directions of the session forward *)
Record forwarding (s : session) : Prop := Forwarding {
  fw_state : state_ s = FORWARD;
  fw_ops : Forall (λ o, op_dir o ≠ None) (pending s);
  fw_down : lane_live DOWN s;
  fw_up : lane_live UP s
}.
Lemma fw_lane s d : forwarding s → lane_live d s.
Proof. intros []. by destruct d. Qed.

(** the bytes on their way through the session *)
Definition in_transit (s : session) : Z := len (queued (down s)) + len (queued (up s)).
Lemma in_transit_lanes s d :
  in_transit s = len (queued (get_lane d s)) + len (queued (get_lane (other d) s)).
Proof. unfold in_transit. destruct d; cbn [get_lane other]; lia. Qed.

Lemma flush_forwarding s s' :
  forwarding s → flush_step s s' →
  forwarding s' ∧ in_transit s' < in_transit s ∧
  ∀ d, read_total (get_lane d s') = read_total (get_lane d s).
Proof.
  intros Hf [l1 d data b l2 e n Hp Hl Hn Hh].
  assert (0 <= n <= len data) as Hlen by by inversion Hl.
  assert (s' = sent d data n (s <| pending := l1 ++ l2 |>)) as ->
    by (by injection Hh).
  clear Hh. pose proof (fw_lane s d Hf) as Hlive. pose proof (fw_lane s (other d) Hf) as Ho.
  destruct (live_send d s data b Hlive) as (Hd & Hq & Hs & Hps);
    [rewrite Hp; apply elem_of_app; right; apply list_elem_of_here|].
  destruct Hlive as [Hwf Hcap Htot Hsink Hop].
  destruct Hop as [(E & _)|(_ & _ & _ & E)];
    destruct (ops_rest s l1 l2 (Send d data b) Hp d _ eq_refl E) as [E0 Hops]; [done|].
  set (s0 := s <| pending := l1 ++ l2 |>) in *.
  assert (get_lane d s0 = get_lane d s) as El by by destruct d.
  assert (frame d s0 (sent d data n s0)) as Hfr
    by (etrans; [apply frame_set_lane|apply frame_do_send]).
  assert (lane_live d (sent d data n s0)) as Hl'.
  { rewrite Hd, <-El. apply sent_live; rewrite ?El; try done; by rewrite <-?Hd; destruct d. }
  assert (lane_live (other d) (sent d data n s0)) as Hlo.
  { eapply frame_live; [exact Hfr|by destruct d|]. exact (other_live s l1 l2 _ Hp d eq_refl Ho). }
  assert (get_lane (other d) (sent d data n s0) = get_lane (other d) s) as Eo.
  { rewrite (fr_lane _ _ _ Hfr) by by destruct d. by destruct d. }
  destruct (sent_lane d data n s0) as [Hring Hread]. rewrite El in Hring, Hread.
  split; [|split].
  - destruct (both_lanes (λ d, lane_live d _) d Hl' Hlo). split; [..|done|done].
    + rewrite (fr_state _ _ _ Hfr). apply (fw_state s Hf).
    + apply (fr_pending _ _ _ Hfr); [|congruence].
      exact (proj2 (forall_rest s l1 l2 _ Hp _ (fw_ops s Hf))).
  - rewrite !(in_transit_lanes _ d), Eo. unfold queued at 1. rewrite Hring.
    destruct (SessionBuffer.peek_spec _ Hwf) as (Hk & _ & _ & Hreg).
    rewrite Hd, Hreg, len_take in Hlen by lia.
    pose proof (SessionBuffer.len_contents _ Hwf).
    destruct (SessionBuffer.consume_spec _ Hwf n) as [_ ->]; [lia|].
    rewrite len_drop by lia. unfold queued. lia.
  - intros d'. destruct d, d'; cbn [other] in Eo; first [exact Hread|by rewrite Eo].
Qed.

Lemma flush_forwarding_steps k s s' :
  forwarding s → nsteps flush_step k s s' →
  forwarding s' ∧ in_transit s' + Z.of_nat k <= in_transit s ∧
  ∀ d, read_total (get_lane d s') = read_total (get_lane d s).
Proof.
  intros Hf Hk. revert Hf. induction Hk as [s|k s1 s2 s3 H12 _ IH]; intros Hf;
    [split_and!; [done|lia|done]|].
  destruct (flush_forwarding _ _ Hf H12) as (Hf2 & Hlt & Hr).
  destruct (IH Hf2) as (Hf3 & Hle & Hr'). split_and!; [done|lia|]. intros d. by rewrite Hr'.
Qed.

(** there is no endless sequence of sends *)
Lemma flush_sn s : forwarding s → sn flush_step s.
Proof.
  remember (Z.to_nat (in_transit s)) as m eqn:Em. revert s Em.
  induction m as [m IH] using lt_wf_ind. intros s -> Hf. constructor. intros s' Hs. red in Hs.
  destruct (flush_forwarding _ _ Hf Hs) as (Hf' & Hlt & _).
  apply (IH (Z.to_nat (in_transit s'))); [|done|done].
  unfold in_transit in *. len_lia.
Qed.

(** as long as a ring holds bytes, a send is in flight and may complete *)
Lemma flush_enabled s d :
  forwarding s → queued (get_lane d s) ≠ [] → ∃ s', flush_step s s'.
Proof.
  intros Hf Hq. pose proof (fw_lane s d Hf) as Hl.
  destruct (live_op _ _ Hl) as [(_ & Hnil & _)|(_ & _ & _ & E)]; [done|].
  set (data := SessionBuffer.region _ _) in E.
  assert (Send d data true ∈ pending s) as (l1 & l2 & Hp)%list_elem_of_split.
  { assert (Send d data true ∈ ops d s) as H by (rewrite E; apply list_elem_of_here).
    by apply list_elem_of_filter in H as [_ H]. }
  assert (0 < len data) by by apply live_region.
  eexists. apply (flush _ _ l1 d data true l2 (Env 0 true true true true) (len data));
    [exact Hp|apply legal_sent; [lia|done]|done|reflexivity].
Qed.

Lemma forwarding_reachable cache s :
  reachable allowed tr resolves cache s → state_ s = FORWARD → (∃ d, ops d s ≠ []) →
  forwarding s.
Proof.
  intros Hr Hst [d Hd]. 
  apply inv_reachable in Hr as [o Hp Ho _ _ _|_ HF Hdn Hup|_ HF _ _|Hs _ _ _ _ _ _].
  - destruct Hd. unfold ops. rewrite Hp. by destruct o.
  - by split.
  - destruct Hd. exact (udp_chain_ops d _ HF).
  - congruence.
Qed.

(** C21: forwarding terminates.  Take any reachable session that forwards.  If
    from some point on only sends complete, each accepting at least one byte,
    there are at most as many of them as bytes were on their way, and no endless
    sequence exists; and when none is possible any more, both directions have
    handed on everything that had been read and are reading again. *)
Theorem forwarding_drains cache s :
  reachable allowed tr resolves cache s → state_ s = FORWARD → (∃ d, ops d s ≠ []) →
  sn flush_step s ∧
  ∀ k s', nsteps flush_step k s s' →
    Z.of_nat k <= in_transit s ∧
    ((¬ ∃ s'', flush_step s' s'') →
     ∀ d, ops d s' = [Read d] ∧
          sent_total (get_lane d s') = read_total (get_lane d s)).
Proof.
  intros Hr Hst Hd. pose proof (forwarding_reachable _ _ Hr Hst Hd) as Hf.
  split; [by apply flush_sn|]. intros k s' Hk.
  destruct (flush_forwarding_steps _ _ _ Hf Hk) as (Hf' & Hle & Hread).
  assert (0 <= in_transit s') by (unfold in_transit; len_lia).
  split; [lia|]. intros Hend d.
  assert (queued (get_lane d s') = []) as Hq.
  { destruct (queued (get_lane d s')) eqn:E; [done|]. destruct Hend.
    apply (flush_enabled _ d Hf'). by rewrite E. }
  destruct (fw_lane s' d Hf') as [_ _ Htot _ [(E & _)|(Hne & _)]]; [|done].
  split; [exact E|]. by rewrite <-Hread, Htot, Hq, app_nil_r.
Qed.
End Drain.

(** ** A concrete run: "llo", the rest of "hello", is on its way *)
Import ServerSessionProps.
Lemma drain_demo_transit : in_transit (demo_at 7) = 3.
Proof. by_evaluation. Qed.
Lemma drain_demo_queued : len (queued (get_lane DOWN (demo_at 7))) = 3.
Proof. by_evaluation. Qed.
Lemma drain_demo_waits : ∃ d, ops d (demo_at 7) ≠ [].
Proof.
  exists UP. assert (len (ops UP (demo_at 7)) = 1) as H by by_evaluation.
  intros E. rewrite E in H. discriminate H.
Qed.

Lemma forwarding_drains_witness :
  sn (flush_step demo_allowed Tls (resolves_of demo_resolves)) (demo_at 7) ∧
  (∃ s', flush_step demo_allowed Tls (resolves_of demo_resolves) (demo_at 7) s') ∧
  ∀ k s', nsteps (flush_step demo_allowed Tls (resolves_of demo_resolves)) k (demo_at 7) s' →
          Z.of_nat k <= 3.
Proof.
  destruct (forwarding_drains demo_allowed Tls (resolves_of demo_resolves) DnsCache.init
    (demo_at 7) demo7_runs demo7_forward drain_demo_waits) as [Hsn Hk].
  split; [exact Hsn|]. split.
  - apply (flush_enabled demo_allowed Tls (resolves_of demo_resolves) (demo_at 7) DOWN).
    + exact (forwarding_reachable _ _ _ _ _ demo7_runs demo7_forward drain_demo_waits).
    + intros E. pose proof drain_demo_queued as H. rewrite E in H. discriminate H.
  - intros k s' Hs. rewrite <-drain_demo_transit. exact (proj1 (Hk k s' Hs)).
Defined.
End Drain.
