(* ===== verification/DtlsServerSession.v ===== *)
(** DtlsServerSession: one DTLS client of the server and the listener that
    dispatches datagrams to the sessions
    (src/Server/DtlsServerSession.h, .cpp, src/Server/DtlsListener.h, .cpp).

    OpenSSL is library code: the results of its calls ([SSL_accept], [SSL_read],
    [SSL_write]) are arguments of the handlers that make them.  SHA-224 is a
    parameter.  Asynchronous operations that have been started are listed in
    [pending]; what the session hands to [SSL_write] is listed in [sent]. *)
From S2P Require Import Prelude Net Coding Decimal Trojan UdpFrame DnsCache.

Module DtlsServerSession.

Inductive State := HANDSHAKE | AUTH | PROXY | DESTROY.
#[global] Instance State_eq_dec : EqDecision State.
Proof. solve_decision. Defined.

(** [SSL_accept] and the error it leaves *)
Inductive accept_result := Accepted | AcceptWantRead | AcceptError.
(** [SSL_read]: more than zero bytes, or an error *)
Inductive read_result := Data (d : bytes) | WantRead | ZeroReturn | ReadError.

Inductive op :=
  | ReadTarget
  | Resolve (domain : bytes) (port : Z) (payload : bytes) (session_id : Z)
  | SendTarget (ep : Net.endpoint) (payload : bytes).
#[global] Instance op_eq_dec : EqDecision op.
Proof. solve_decision. Defined.

Record t := Session {
  client_ep_ : Net.endpoint;
  ssl_ : bool;                                   (* not null *)
  target_open : bool;                            (* target_socket_ *)
  target_ep_ : Net.endpoint;
  target_to_session_ : gmap Net.endpoint Z;
  state_ : State;
  auth_buf_ : bytes;
  destroyed_ : bool;
  dns : DnsCache.t;
  pending : list op;
  sent : list bytes;
  target_sent : list (Net.endpoint * bytes)      (* datagrams that left [target_socket_] *)
}.
#[global] Instance eta_t : Eta t := fun r =>
  Session (client_ep_ r) (ssl_ r) (target_open r) (target_ep_ r) (target_to_session_ r)
    (state_ r) (auth_buf_ r) (destroyed_ r) (dns r) (pending r) (sent r) (target_sent r).

Definition init (client : Net.endpoint) (cache : DnsCache.t) : t :=
  Session client true true Net.no_endpoint ∅ HANDSHAKE [] false cache [] [] [].

Definition start_op (o : op) (s : t) : t := s <| pending := pending s ++ [o] |>.

(** [stop]; the listener's callback is run by the listener below *)
Definition stop (s : t) : t :=
  if destroyed_ s then s
  else s <| destroyed_ := true |> <| state_ := DESTROY |> <| target_open := false |>
         <| ssl_ := false |>.

(** [do_read_target] *)
Definition do_read_target (s : t) : t :=
  if decide (state_ s = DESTROY) then s else start_op ReadTarget s.

Definition start_auth (s : t) : t := s <| state_ := AUTH |> <| auth_buf_ := [] |>.
Definition start_proxy (s : t) : t := do_read_target (s <| state_ := PROXY |>).

(** [do_send_to_target] *)
Definition do_send_to_target (ep : Net.endpoint) (payload : bytes) (session_id : Z) (s : t) : t :=
  let s := s <| target_ep_ := ep |> in
  let s := if negb (session_id =? 0)
           then s <| target_to_session_ := <[ep := session_id]> (target_to_session_ s) |>
           else s in
  start_op (SendTarget (target_ep_ s) payload) s.

(** [target_socket_] is opened with [udp::v4()] and by nothing else: the system
    takes a datagram for an IPv4 endpoint if it can ([ok]) and refuses every
    datagram for an IPv6 endpoint (EAFNOSUPPORT). *)
Definition target_protocol (ep : Net.endpoint) : bool := Net.is_v4 (Net.ep_address ep).
Definition send_accepted (ok : bool) (ep : Net.endpoint) : bool := ok && target_protocol ep.
(** the handler of the send: both outcomes are only logged *)
Definition on_target_sent (ok : bool) (ep : Net.endpoint) (payload : bytes) (s : t) : t :=
  if send_accepted ok ep then s <| target_sent := target_sent s ++ [(ep, payload)] |> else s.

(** [do_resolve_and_send] and the handler of its resolve: the first result *)
Definition do_resolve_and_send (now : Z) (domain : bytes) (port : Z) (payload : bytes)
    (session_id : Z) (s : t) : t :=
  match DnsCache.get_udp (dns s) now (Decimal.host_port domain port) with
  | Some cached_ep => do_send_to_target cached_ep payload session_id s
  | None => start_op (Resolve domain port payload session_id) s
  end.
Definition on_resolved (now : Z) (domain : bytes) (port : Z) (payload : bytes) (session_id : Z)
    (r : option Net.endpoint) (s : t) : t :=
  match r with
  | Some ep =>
      do_send_to_target ep payload session_id
        (s <| dns := DnsCache.put_udp (dns s) now (Decimal.host_port domain port) ep |>)
  | None => s
  end.

(** [send_to_client]; [ok] is [SSL_write(...) > 0] *)
Definition send_to_client (ok : bool) (data : bytes) (s : t) : t :=
  if negb (ssl_ s) || bool_decide (state_ s = DESTROY) then s
  else if ok then s <| sent := sent s ++ [data] |> else s.

(** the two octets of a session id in front of a frame *)
Definition with_session_id (session_id : Z) (frame : bytes) : bytes :=
  [z2b (Z.shiftr session_id 8); z2b (Z.land session_id 255)] ++ frame.

(** how a receive on the target socket completes *)
Inductive target_result :=
  | Aborted | RecvError | From (sender : Net.endpoint) (data : bytes).

(** the handler of [do_read_target] *)
Definition on_target (ok : bool) (r : target_result) (s : t) : t :=
  match r with
  | Aborted => s
  | RecvError => do_read_target s
  | From sender data =>
      let session_id := default 0 (target_to_session_ s !! sender) in
      do_read_target
        (send_to_client ok (with_session_id session_id (UdpFrame.generate sender data)) s)
  end.

(** the address of a parsed frame: the IPv4 octets are assembled into a 32-bit
    value and taken apart again by [address_v4] *)
Definition frame_endpoint (f : UdpFrame.t) : outcome (option Net.endpoint) :=
  if UdpFrame.addr_type f =? UdpFrame.ADDR_IPV4 then
    p0 ← str_at (UdpFrame.address f) 0; p1 ← str_at (UdpFrame.address f) 1;
    p2 ← str_at (UdpFrame.address f) 2; p3 ← str_at (UdpFrame.address f) 3;
    mret (Some (Net.Endpoint (Net.address_v4 (Coding.be32_bytes (Coding.be32 p0 p1 p2 p3)))
                  (UdpFrame.port f)))
  else if UdpFrame.addr_type f =? UdpFrame.ADDR_IPV6 then
    b ← str_assign (UdpFrame.address f) 0 16;
    mret (Some (Net.Endpoint (Net.address_v6 b) (UdpFrame.port f)))
  else mret None.

Section Handlers.
Context (allowed_passwords : gset bytes) (sha224 : bytes → bytes).

(** the digest in hexadecimal *)
Definition hashed (line : bytes) : bytes := mjoin (Trojan.hex02 <$> sha224 line).

(** the [AUTH] branch of [try_read_app_data] *)
Definition on_auth_data (data : bytes) (s : t) : t :=
  let s := start_auth s in
  let s := s <| auth_buf_ := auth_buf_ s ++ data |> in
  match find [Byte.x0a] (auth_buf_ s) with
  | Some pos =>
      let password_line := take (Z.to_nat pos) (auth_buf_ s) in
      if decide (hashed password_line ∈ allowed_passwords) then start_proxy s else stop s
  | None => s
  end.

(** the [PROXY] branch *)
Definition on_proxy_data (now : Z) (data : bytes) (s : t) : outcome t :=
  if len data <? 2 then mret s
  else
    d0 ← str_at data 0; d1 ← str_at data 1;
    let session_id := be16 d0 d1 in
    frame_data ← substr data 2;
    r ← UdpFrame.parse UdpFrame.init frame_data;
    match r with
    | (_, None) => mret s
    | (f, Some _) =>
        if UdpFrame.addr_type f =? UdpFrame.ADDR_DOMAIN then
          mret (do_resolve_and_send now (UdpFrame.address f) (UdpFrame.port f)
                  (UdpFrame.payload f) session_id s)
        else
          ep ← frame_endpoint f;
          match ep with
          | Some ep => mret (do_send_to_target ep (UdpFrame.payload f) session_id s)
          | None => mret s
          end
    end.

(** [try_read_app_data] *)
Definition try_read_app_data (now : Z) (rd : read_result) (s : t) : outcome t :=
  if negb (ssl_ s) then mret s
  else match rd with
       | Data d =>
           match state_ s with
           | AUTH => mret (on_auth_data d s)
           | PROXY => on_proxy_data now d s
           | _ => mret s
           end
       | ZeroReturn => mret (stop s)
       | WantRead | ReadError => mret s
       end.

(** [process_handshake] *)
Definition process_handshake (now : Z) (acc : accept_result) (rd : read_result) (s : t)
    : outcome t :=
  if negb (ssl_ s) then mret s
  else match acc with
       | Accepted => try_read_app_data now rd (s <| state_ := AUTH |>)
       | AcceptWantRead => mret s
       | AcceptError => mret (stop s)
       end.

(** [on_datagram]: the datagram goes to OpenSSL, whose answers are [acc], [rd] *)
Definition on_datagram (now : Z) (acc : accept_result) (rd : read_result) (s : t) : outcome t :=
  if bool_decide (state_ s = DESTROY) || negb (ssl_ s) then mret s
  else match state_ s with
       | HANDSHAKE => process_handshake now acc rd s
       | _ => try_read_app_data now rd s
       end.

(** ** Events *)
Inductive event :=
  | Datagram (now : Z) (acc : accept_result) (rd : read_result)
  | TargetRead (ok : bool) (r : target_result)
  | ResolveDone (now : Z) (domain : bytes) (port : Z) (payload : bytes) (session_id : Z)
      (r : option Net.endpoint)
  | SendDone (ok : bool) (ep : Net.endpoint) (payload : bytes)
  | CacheUse (o : DnsCache.op)                   (* by another session *)
  | Stop.

Definition event_op (ev : event) : option op :=
  match ev with
  | TargetRead _ _ => Some ReadTarget
  | ResolveDone _ d p pl sid _ => Some (Resolve d p pl sid)
  | SendDone _ ep pl => Some (SendTarget ep pl)
  | _ => None
  end.

Definition handle (ev : event) (s : t) : outcome t :=
  match ev with
  | Datagram now acc rd => on_datagram now acc rd s
  | TargetRead ok r => mret (on_target ok r s)
  | ResolveDone now d p pl sid r => mret (on_resolved now d p pl sid r s)
  | SendDone ok ep pl => mret (on_target_sent ok ep pl s)
  | CacheUse o => mret (s <| dns := DnsCache.step (dns s) o |>)
  | Stop => mret (stop s)
  end.

(** the states a session can be in after a history of events, newest first; the
    completion of an operation takes it out of [pending] *)
Inductive run (s0 : t) : list event → t → Prop :=
  | run_start : run s0 [] s0
  | run_op h s ev o l1 l2 s' :
      run s0 h s → event_op ev = Some o → pending s = l1 ++ o :: l2 →
      handle ev (s <| pending := l1 ++ l2 |>) = Ret s' → run s0 (ev :: h) s'
  | run_ext h s ev s' :
      run s0 h s → event_op ev = None → handle ev s = Ret s' → run s0 (ev :: h) s'.
End Handlers.

(** ** The listener *)
(** [DtlsListener]: the sessions by client endpoint.  A session that stops calls
    [remove_session] through its callback. *)
Module DtlsListener.
Record listener := Listener {
  socket_open : bool; sessions_ : gmap Net.endpoint t
}.
#[global] Instance eta_listener : Eta listener := fun r =>
  Listener (socket_open r) (sessions_ r).

Definition remove_session (ep : Net.endpoint) (l : listener) : listener :=
  l <| sessions_ := delete ep (sessions_ l) |>.

Section Receive.
Context (allowed_passwords : gset bytes) (sha224 : bytes → bytes).

(** the handler of [do_receive] for a datagram from [sender_ep], with the session
    that got it *)
Definition dispatch (cache : DnsCache.t) (now : Z) (sender_ep : Net.endpoint)
    (acc : accept_result) (rd : read_result) (l : listener) : outcome (listener * t) :=
  let session := default (init sender_ep cache) (sessions_ l !! sender_ep) in
  let l := l <| sessions_ := <[sender_ep := session]> (sessions_ l) |> in
  s ← on_datagram allowed_passwords sha224 now acc rd session;
  let l := l <| sessions_ := <[sender_ep := s]> (sessions_ l) |> in
  mret (if negb (destroyed_ session) && destroyed_ s then remove_session (client_ep_ s) l else l, s).
Definition on_receive (cache : DnsCache.t) (now : Z) (sender_ep : Net.endpoint)
    (acc : accept_result) (rd : read_result) (l : listener) : outcome listener :=
  p ← dispatch cache now sender_ep acc rd l; mret p.1.

(** [stop]: the table is emptied first, so the callbacks of the stopped sessions
    find nothing to remove; the stopped sessions are the second component *)
Definition stop (l : listener) : listener * list t :=
  (l <| socket_open := false |> <| sessions_ := ∅ |>,
   (λ kv, DtlsServerSession.stop kv.2) <$> map_to_list (sessions_ l)).
End Receive.
End DtlsListener.

(** * Properties *)
Section Auth.
Context (allowed : gset bytes) (sha224 : bytes → bytes).

(** a datagram that carries a whole password line of an allowed password *)
Definition authenticates (ev : event) : bool :=
  match ev with
  | Datagram _ _ (Data d) =>
      match find [Byte.x0a] d with
      | Some pos => bool_decide (hashed sha224 (take (Z.to_nat pos) d) ∈ allowed)
      | None => false
      end
  | _ => false
  end.

(** A session that has not seen such a datagram has done nothing for its client. *)
Definition idle (s : t) : Prop :=
  state_ s ≠ PROXY ∧ pending s = [] ∧ sent s = [] ∧ target_to_session_ s = ∅.

Lemma stop_idle s : idle s → idle (stop s).
Proof. intros (? & ? & ? & ?). unfold stop. destruct (destroyed_ s); by split_and!. Qed.

Lemma auth_idle now acc d s :
  idle s → authenticates (Datagram now acc (Data d)) = false → idle (on_auth_data allowed sha224 d s).
Proof.
  intros (Hs & Hp & Hsent & Hm) Hno. unfold on_auth_data. cbn.
  cbn in Hno. destruct (find _ d) as [pos|]; [|by split_and!].
  apply bool_decide_eq_false in Hno.
  rewrite decide_False by done. apply stop_idle. by split_and!.
Qed.

Lemma read_idle now acc rd s s' :
  idle s → authenticates (Datagram now acc rd) = false →
  try_read_app_data allowed sha224 now rd s = Ret s' → idle s'.
Proof.
  intros Hi Hno. unfold try_read_app_data. destruct (negb (ssl_ s)); [by intros [= <-]|].
  destruct rd; try (by intros [= <-]).
  - destruct (state_ s) eqn:Hs; try (by intros [= <-]); [|by destruct Hi].
    intros [= <-]. by eapply auth_idle.
  - intros [= <-]. by apply stop_idle.
Qed.

Lemma datagram_idle now acc rd s s' :
  idle s → authenticates (Datagram now acc rd) = false →
  on_datagram allowed sha224 now acc rd s = Ret s' → idle s'.
Proof.
  intros Hi Hno. unfold on_datagram, process_handshake.
  destruct (_ || _); [by intros [= <-]|].
  destruct (state_ s); try (by eapply read_idle).
  destruct (negb (ssl_ s)); [by intros [= <-]|].
  destruct acc; [|by intros [= <-]|intros [= <-]; by apply stop_idle].
  eapply read_idle; [|done]. destruct Hi as (? & ? & ? & ?). by split_and!.
Qed.

Lemma run_idle client cache h s :
  run allowed sha224 (init client cache) h s → Forall (λ ev, authenticates ev = false) h → idle s.
Proof.
  induction 1 as [|h s ev o l1 l2 s' _ IH He Hp Hh|h s ev s' _ IH He Hh];
    [intros _; by split_and!|intros [Hno HF]%list.Forall_cons..].
  - destruct (IH HF) as (_ & Hnil & _). rewrite Hp in Hnil. by destruct l1.
  - destruct ev; try discriminate He; cbn in Hh.
    + by eapply datagram_idle; [apply IH| |].
    + injection Hh as <-. by destruct (IH HF) as (? & ? & ? & ?).
    + injection Hh as <-. by apply stop_idle, IH.
Qed.

(** The DTLS server works for nobody who has not shown an allowed password.
    If, after any history of datagrams, target replies, resolver answers and
    stops, a session proxies, has an operation in flight, has sent anything to
    its client or remembers a target, then one of the datagrams carried a
    password line whose SHA-224 digest is configured. *)
Lemma dtls_serves_only_authenticated client cache h s :
  run allowed sha224 (init client cache) h s →
  state_ s = PROXY ∨ pending s ≠ [] ∨ sent s ≠ [] ∨ target_to_session_ s ≠ ∅ →
  ∃ ev, ev ∈ h ∧ authenticates ev = true.
Proof.
  intros Hr Hbusy.
  destruct (decide (Exists (λ ev, authenticates ev = true) h)) as [Hex|Hno].
  - by apply list.Exists_exists in Hex.
  - exfalso. destruct (run_idle client cache h s Hr) as (? & ? & ? & ?); [|naive_solver].
    apply Forall_Exists_neg in Hno. eapply list.Forall_impl; [done|].
    intros ev Hev. by apply not_true_is_false.
Qed.

Lemma on_auth_incomplete d s :
  Byte.x0a ∉ d → on_auth_data allowed sha224 d s = start_auth s <| auth_buf_ := d |>.
Proof.
  intros Hd. unfold on_auth_data. change (auth_buf_ (start_auth s) ++ d) with d. cbn.
  unfold find. by rewrite find_from_char_None.
Qed.
Lemma on_auth_line d rest s :
  Byte.x0a ∉ d →
  let s' := start_auth s <| auth_buf_ := d ++ Byte.x0a :: rest |> in
  on_auth_data allowed sha224 (d ++ Byte.x0a :: rest) s =
  if decide (hashed sha224 d ∈ allowed) then start_proxy s' else stop s'.
Proof.
  intros Hd s'. unfold on_auth_data.
  change (auth_buf_ (start_auth s) ++ ?x) with x. change (start_auth s <| auth_buf_ := _ |>) with s'.
  change (auth_buf_ s') with (d ++ Byte.x0a :: rest).
  rewrite find_char by done. unfold len. by rewrite Nat2Z.id, take_app_length.
Qed.

(** A password line must arrive in one piece.  [start_auth] clears the
    buffer before every read in the [AUTH] state, so a line whose beginning came
    with an earlier datagram is judged by its last piece alone: the session is
    destroyed although the whole line is an allowed password. *)
Lemma split_password_rejected s first second :
  state_ s = AUTH → destroyed_ s = false →
  Byte.x0a ∉ first → Byte.x0a ∉ second → hashed sha224 second ∉ allowed →
  let s1 := on_auth_data allowed sha224 first s in
  let s2 := on_auth_data allowed sha224 (second ++ [Byte.x0a]) s1 in
  state_ s1 = AUTH ∧ state_ s2 = DESTROY.
Proof.
  intros Hs Hd H1 H2 Hbad s1 s2. subst s1 s2.
  rewrite (on_auth_line second []), (on_auth_incomplete first), decide_False by done.
  split; [done|]. unfold stop. cbn. by rewrite Hd.
Qed.
End Auth.

(** ** Routing *)
(** the frame of an endpoint leads back to the endpoint *)
Lemma frame_endpoint_generate ep pl :
  Net.endpoint_wf ep →
  frame_endpoint (UdpFrame.Frame
    (if Net.is_v4 (Net.ep_address ep) then UdpFrame.ADDR_IPV4 else UdpFrame.ADDR_IPV6)
    (Net.to_bytes (Net.ep_address ep)) (Net.ep_port ep) pl) = Ret (Some ep).
Proof.
  destruct ep as [[b|b] p]; intros [Hb Hp]; unfold frame_endpoint; cbn in *.
  - destruct (Net.length_4 b Hb) as (b0 & b1 & b2 & b3 & ->). at_simpl.
    by rewrite Coding.be32_bytes_be32.
  - unfold Net.address_wf in Hb. cbn in Hb.
    assert (len b = 16) as Hl by (unfold len; lia).
    rewrite str_assign_in_range by (unfold max_size; lia). cbn.
    unfold slice. by rewrite drop_0, take_ge by (rewrite Hb; lia).
Qed.

Lemma session_id_read sid frame :
  0 <= sid < 2 ^ 16 →
  str_at (with_session_id sid frame) 0 = Ret (z2b (Z.shiftr sid 8)) ∧
  str_at (with_session_id sid frame) 1 = Ret (z2b (Z.land sid 255)) ∧
  be16 (z2b (Z.shiftr sid 8)) (z2b (Z.land sid 255)) = sid ∧
  substr (with_session_id sid frame) 2 = Ret frame.
Proof.
  intros. split_and!; [done|done|by apply be16_be16_bytes|].
  by apply (substr_app [z2b (Z.shiftr sid 8); z2b (Z.land sid 255)]).
Qed.

Section Routing.
Context (ep : Net.endpoint) (Hep : Net.endpoint_wf ep).

Lemma proxy_endpoint_frame now sid pl s :
  0 < sid < 2 ^ 16 → 7 + len (Net.to_bytes (Net.ep_address ep)) + len pl < 2 ^ 16 →
  on_proxy_data now (with_session_id sid (UdpFrame.generate ep pl)) s =
  Ret (do_send_to_target ep pl sid s).
Proof.
  intros Hsid Hfit. unfold on_proxy_data.
  destruct (session_id_read sid (UdpFrame.generate ep pl)) as (H0 & H1 & H2 & H3); [lia|].
  rewrite (proj2 (Z.ltb_ge _ _)) by (unfold with_session_id; len_lia).
  rewrite H0, H1, H3. cbn [mbind outcome_bind]. rewrite H2.
  pose proof (UdpFrame.frame_roundtrip UdpFrame.init ep pl [] Hep Hfit) as Hparse.
  rewrite app_nil_r in Hparse. rewrite Hparse by done. cbn [mbind outcome_bind].
  replace (UdpFrame.addr_type _ =? UdpFrame.ADDR_DOMAIN) with false
    by (cbn; by destruct (Net.is_v4 _)).
  rewrite frame_endpoint_generate by done. done.
Qed.

Lemma send_to_target_routes sid pl s :
  sid ≠ 0 → let s' := do_send_to_target ep pl sid s in
  target_to_session_ s' !! ep = Some sid ∧ pending s' = pending s ++ [SendTarget ep pl] ∧
  ssl_ s' = ssl_ s ∧ state_ s' = state_ s ∧ sent s' = sent s ∧ target_sent s' = target_sent s.
Proof.
  intros Hsid. unfold do_send_to_target.
  rewrite (proj2 (Z.eqb_neq _ _)) by done. cbn. split_and!; [|done..].
  apply lookup_insert_eq.
Qed.

Lemma target_reply data s :
  ssl_ s = true → state_ s = PROXY →
  sent (on_target true (From ep data) s) =
  sent s ++ [with_session_id (default 0 (target_to_session_ s !! ep)) (UdpFrame.generate ep data)].
Proof.
  intros Hssl Hst. unfold on_target, send_to_client, do_read_target. rewrite Hssl, Hst. cbn.
  by case_decide.
Qed.

(** C24: a datagram of the client for an IPv4 endpoint reaches its target and
    the target's answers find the way back; one for an IPv6 endpoint never leaves
    the server.  In the [PROXY] state a framed datagram tagged with a session id
    starts one send, of exactly its payload to exactly its endpoint.  When that send
    completes, the datagram has left the target socket, once, if the system took
    it and the endpoint is an IPv4 one; for an IPv6 endpoint nothing has left,
    whatever the system does, because the socket is an IPv4 socket.  Whatever the IPv4
    endpoint answers, before or after the send completes, is framed with its address and
    tagged with the same session id. *)
Theorem dtls_datagram_routed allowed sha224 now sid pl ok answer s :
  0 < sid < 2 ^ 16 → 7 + len (Net.to_bytes (Net.ep_address ep)) + len pl < 2 ^ 16 →
  ssl_ s = true → state_ s = PROXY →
  ∃ s' s'', on_proxy_data now (with_session_id sid (UdpFrame.generate ep pl)) s = Ret s' ∧
    pending s' = pending s ++ [SendTarget ep pl] ∧
    handle allowed sha224 (SendDone ok ep pl) (s' <| pending := pending s |>) = Ret s'' ∧
    match Net.ep_address ep with
    | Net.address_v4 _ =>
        target_sent s'' = target_sent s ++ (if ok then [(ep, pl)] else []) ∧
        ∀ s1, s1 = s' ∨ s1 = s'' →
          sent (on_target true (From ep answer) s1) =
            sent s ++ [with_session_id sid (UdpFrame.generate ep answer)]
    | Net.address_v6 _ => target_sent s'' = target_sent s
    end.
Proof.
  intros Hsid Hfit Hssl Hst. set (s' := do_send_to_target ep pl sid s).
  exists s', (on_target_sent ok ep pl (s' <| pending := pending s |>)).
  split; [by apply proxy_endpoint_frame|].
  destruct (send_to_target_routes sid pl s ltac:(lia)) as (Hm & Hp & H1 & H2 & H3 & H4).
  fold s' in Hm, Hp, H1, H2, H3, H4. clearbody s'. split; [done|]. split; [done|].
  unfold on_target_sent, send_accepted, target_protocol.
  destruct (Net.ep_address ep) eqn:E; cbn [Net.is_v4].
  - split; [destruct ok; cbn; by rewrite H4, ?app_nil_r|].
    rewrite andb_true_r. intros s1 [->| ->]; [|destruct ok];
      rewrite target_reply by (cbn; congruence); cbn; by rewrite Hm, H3.
  - rewrite andb_false_r. done.
Qed.

(** The table keeps one session id per target.  When two associations of
    the same client talk to the same target, the answer to the first is tagged
    with the id of the second. *)
Lemma dtls_shared_target_misrouted now sid1 sid2 pl1 pl2 answer s :
  0 < sid1 < 2 ^ 16 → 0 < sid2 < 2 ^ 16 →
  7 + len (Net.to_bytes (Net.ep_address ep)) + len pl1 < 2 ^ 16 →
  7 + len (Net.to_bytes (Net.ep_address ep)) + len pl2 < 2 ^ 16 →
  ssl_ s = true → state_ s = PROXY →
  ∃ s1 s2,
    on_proxy_data now (with_session_id sid1 (UdpFrame.generate ep pl1)) s = Ret s1 ∧
    on_proxy_data now (with_session_id sid2 (UdpFrame.generate ep pl2)) s1 = Ret s2 ∧
    sent (on_target true (From ep answer) s2) =
      sent s ++ [with_session_id sid2 (UdpFrame.generate ep answer)].
Proof.
  intros Hs1 Hs2 Hf1 Hf2 Hssl Hst.
  do 2 eexists. split; [by apply proxy_endpoint_frame|]. split; [by apply proxy_endpoint_frame|].
  destruct (send_to_target_routes sid1 pl1 s ltac:(lia)) as (_ & _ & H1 & H2 & H3 & _).
  destruct (send_to_target_routes sid2 pl2 (do_send_to_target ep pl1 sid1 s) ltac:(lia))
    as (Hm & _ & H1' & H2' & H3' & _).
  by rewrite target_reply, Hm, H3', H3 by congruence.
Qed.
End Routing.

(** ** Life of a session *)
Section Life.
Context (allowed : gset bytes) (sha224 : bytes → bytes).

Definition reads (s : t) : nat := length (filter (λ o, o = ReadTarget) (pending s)).

(** the members that say whether the session lives agree, and at most one
    receive is in flight on the target socket, none before [PROXY] *)
Record wf (s : t) : Prop := Wf {
  wf_state : destroyed_ s = bool_decide (state_ s = DESTROY);
  wf_ssl : ssl_ s = negb (destroyed_ s);
  wf_target : target_open s = negb (destroyed_ s);
  wf_reads : (reads s <= 1)%nat;
  wf_early : state_ s = HANDSHAKE ∨ state_ s = AUTH → reads s = 0%nat
}.

Lemma reads_read s : reads (start_op ReadTarget s) = S (reads s).
Proof.
  unfold reads, start_op. cbn. rewrite list.filter_app, length_app, filter_cons, filter_nil.
  rewrite decide_True by done. cbn. lia.
Qed.
Lemma reads_other o s : o ≠ ReadTarget → reads (start_op o s) = reads s.
Proof.
  intros. unfold reads, start_op. cbn. rewrite list.filter_app, filter_cons, filter_nil.
  by rewrite decide_False, app_nil_r.
Qed.

Lemma stop_wf s : wf s → wf (stop s) ∧ state_ (stop s) = DESTROY.
Proof.
  intros [Hs Hssl Ht Hr He]. unfold stop. destruct (destroyed_ s) eqn:E.
  - split; [by split; rewrite ?E|]. symmetry in Hs. by apply bool_decide_eq_true in Hs.
  - split; [|done]. split; try done. by intros [?|?].
Qed.

Lemma do_read_target_wf s : wf s → reads s = 0%nat → state_ s ≠ HANDSHAKE → state_ s ≠ AUTH →
  wf (do_read_target s).
Proof.
  intros Hwf H0 Hh Ha. unfold do_read_target.
  destruct (decide (state_ s = DESTROY)); [exact Hwf|]. destruct Hwf as [Hs Hssl Ht Hr He].
  split; try done; [rewrite reads_read, H0; lia|]. intros [?|?]; done.
Qed.

Lemma do_send_wf ep pl sid s : wf s → wf (do_send_to_target ep pl sid s).
Proof.
  intros [Hs Hssl Ht Hr He]. unfold do_send_to_target.
  set (s' := if negb (sid =? 0) then _ else _).
  assert (destroyed_ s' = destroyed_ s ∧ state_ s' = state_ s ∧ ssl_ s' = ssl_ s ∧
          target_open s' = target_open s ∧ pending s' = pending s) as (E1 & E2 & E3 & E4 & E5)
    by (subst s'; destruct (sid =? 0); by split_and!).
  assert (reads s' = reads s) as E6 by (unfold reads; by rewrite E5).
  clearbody s'. split; [cbn; by rewrite E1, E2|cbn; congruence|cbn; congruence|..].
  - by rewrite reads_other, E6.
  - rewrite reads_other, E6 by done. change (state_ (start_op _ s')) with (state_ s').
    by rewrite E2.
Qed.

Lemma resolve_send_wf now d p pl sid s : wf s → wf (do_resolve_and_send now d p pl sid s).
Proof.
  intros Hwf. unfold do_resolve_and_send. destruct (DnsCache.get_udp _ _ _); [by apply do_send_wf|].
  destruct Hwf as [Hs Hssl Ht Hr He].
  split; try done; by rewrite reads_other.
Qed.

Lemma auth_wf d s : wf s → state_ s = AUTH → ssl_ s = true → wf (on_auth_data allowed sha224 d s).
Proof.
  intros [Hs Hssl Ht Hr He] Ha Hl. unfold on_auth_data.
  set (s' := start_auth s <| auth_buf_ := _ |>).
  assert (wf s') as Hwf.
  { split; try done; cbn; [|auto]. rewrite Hssl in Hl. by destruct (destroyed_ s). }
  destruct (find _ _); [|done].
  destruct (decide (hashed _ _ ∈ allowed)); [|by apply stop_wf].
  unfold start_proxy. apply do_read_target_wf; try done; [|auto].
  split; try done; cbn; [|by intros [?|?]]. rewrite Hssl in Hl. by destruct (destroyed_ s).
Qed.

Lemma read_wf now rd s s' :
  wf s → try_read_app_data allowed sha224 now rd s = Ret s' → wf s'.
Proof.
  intros Hwf. unfold try_read_app_data. destruct (ssl_ s) eqn:Hl; [|by intros [= <-]]. cbn.
  destruct rd; try (by intros [= <-]); [|intros [= <-]; by apply stop_wf].
  destruct (state_ s) eqn:Hs; try (by intros [= <-]).
  - intros [= <-]. by apply auth_wf.
  - unfold on_proxy_data. destruct (_ <? _); [by intros [= <-]|]. intros H.
    do 4 inv_bind H. destruct x2 as [f [k|]]; [|by injection H as <-].
    destruct (_ =? _); [injection H as <-; by apply resolve_send_wf|]. inv_bind H.
    destruct x2; injection H as <-; [by apply do_send_wf|done].
Qed.

Lemma datagram_wf now acc rd s s' :
  wf s → on_datagram allowed sha224 now acc rd s = Ret s' → wf s'.
Proof.
  intros Hwf. unfold on_datagram, process_handshake.
  destruct (_ || _) eqn:Hg; [by intros [= <-]|].
  apply orb_false_iff in Hg as [_ Hl%negb_false_iff].
  destruct (state_ s) eqn:Hs; try (by apply read_wf). rewrite Hl. cbn.
  destruct acc; [|by intros [= <-]|intros [= <-]; by apply stop_wf].
  apply read_wf. destruct Hwf as [H1 H2 H3 H4 H5]. split; try done; cbn; [|auto].
  rewrite H1, Hs. done.
Qed.

Lemma target_wf ok r s : wf s → reads s = 0%nat → state_ s ≠ HANDSHAKE → state_ s ≠ AUTH →
  wf (on_target ok r s).
Proof.
  intros Hwf H0 Hh Ha. destruct r; cbn; [done|by apply do_read_target_wf|].
  set (s' := send_to_client _ _ s).
  assert (wf s' ∧ reads s' = reads s ∧ state_ s' = state_ s) as (? & ? & E).
  { subst s'. unfold send_to_client. destruct (_ || _); [done|]. destruct ok; [|done].
    split; [|done]. destruct Hwf. by split. }
  apply do_read_target_wf; [done|congruence|by rewrite E..].
Qed.

(** taking the completed receive out of the pending operations *)
Lemma wf_remove s o l1 l2 :
  wf s → pending s = l1 ++ o :: l2 →
  let s0 := s <| pending := l1 ++ l2 |> in
  wf s0 ∧ (o = ReadTarget → reads s0 = 0%nat ∧ state_ s ≠ HANDSHAKE ∧ state_ s ≠ AUTH).
Proof.
  intros [Hs Hssl Ht Hr He] Hp s0.
  assert (reads s = (reads s0 + if decide (o = ReadTarget) then 1 else 0)%nat) as E.
  { unfold reads. subst s0. cbn. rewrite Hp, !list.filter_app, filter_cons, !length_app.
    destruct (decide (o = ReadTarget)); cbn; lia. }
  split.
  - split; try done; [lia|]. intros H. specialize (He H). lia.
  - intros ->. rewrite decide_True in E by done. split; [lia|].
    split; intros H; rewrite He in E by auto; lia.
Qed.

(** C25: a session's life is consistent, and it never reads its target socket
    twice at once.  In every state a session can reach, [destroyed_], [state_],
    the SSL object and the target socket agree on whether it lives, and at most
    one receive on the target socket is in flight, none before authentication. *)
Theorem dtls_session_consistent client cache h s :
  run allowed sha224 (init client cache) h s →
  (state_ s = DESTROY ↔ destroyed_ s = true) ∧
  ssl_ s = negb (destroyed_ s) ∧ target_open s = negb (destroyed_ s) ∧
  (reads s <= 1)%nat ∧ (state_ s = HANDSHAKE ∨ state_ s = AUTH → reads s = 0%nat).
Proof.
  intros Hr. enough (wf s) as [H1 H2 H3 H4 H5].
  { split_and!; try done. by rewrite H1, bool_decide_eq_true. }
  induction Hr as [|h s ev o l1 l2 s' _ IH He Hp Hh|h s ev s' _ IH He Hh].
  - split; try done. cbn. lia.
  - destruct (wf_remove s o l1 l2 IH Hp) as [Hwf H0].
    destruct ev; try discriminate He; injection He as <-; injection Hh as <-.
    + destruct (H0 eq_refl) as (? & ? & ?). by apply target_wf.
    + unfold on_resolved. destruct r; [|done]. apply do_send_wf. destruct Hwf. by split.
    + unfold on_target_sent. destruct (send_accepted ok ep); [|done]. destruct Hwf. by split.
  - destruct ev; try discriminate He; cbn in Hh.
    + by eapply datagram_wf.
    + injection Hh as <-. destruct IH. by split.
    + injection Hh as <-. by apply stop_wf.
Qed.

(** ** The listener's table *)
Import DtlsListener(listener, sessions_, on_receive, remove_session).

(** every session of the table lives and is the one of its key *)
Definition table_ok (l : listener) : Prop :=
  map_Forall (λ ep s, client_ep_ s = ep ∧ destroyed_ s = false) (sessions_ l).

Lemma stop_client s : client_ep_ (stop s) = client_ep_ s.
Proof. unfold stop. by destruct (destroyed_ s). Qed.
Lemma send_target_client ep pl sid s : client_ep_ (do_send_to_target ep pl sid s) = client_ep_ s.
Proof. unfold do_send_to_target. by destruct (negb _). Qed.
Lemma read_client now rd s s' :
  try_read_app_data allowed sha224 now rd s = Ret s' → client_ep_ s' = client_ep_ s.
Proof.
  unfold try_read_app_data. destruct (negb (ssl_ s)); [by intros [= <-]|].
  destruct rd; try (by intros [= <-]); [|intros [= <-]; apply stop_client].
  destruct (state_ s); try (by intros [= <-]).
  - intros [= <-]. unfold on_auth_data. destruct (find _ _); [|done].
    case_decide; [|by rewrite stop_client]. unfold start_proxy, do_read_target. by case_decide.
  - unfold on_proxy_data. destruct (_ <? _); [by intros [= <-]|]. intros H.
    do 4 inv_bind H. destruct x2 as [f [k|]]; [|by injection H as <-].
    destruct (_ =? _).
    + injection H as <-. unfold do_resolve_and_send.
      destruct (DnsCache.get_udp _ _ _); [apply send_target_client|done].
    + inv_bind H. destruct x2; injection H as <-; [apply send_target_client|done].
Qed.
Lemma datagram_client now acc rd s s' :
  on_datagram allowed sha224 now acc rd s = Ret s' → client_ep_ s' = client_ep_ s.
Proof.
  unfold on_datagram, process_handshake. destruct (_ || _); [by intros [= <-]|].
  destruct (state_ s); try (by apply read_client).
  destruct (negb (ssl_ s)); [by intros [= <-]|].
  destruct acc; [|by intros [= <-]|intros [= <-]; apply stop_client].
  intros H. by rewrite (read_client _ _ _ _ H).
Qed.

Lemma dispatch_spec cache now ep acc rd l l' s :
  table_ok l → DtlsListener.dispatch allowed sha224 cache now ep acc rd l = Ret (l', s) →
  on_datagram allowed sha224 now acc rd (default (init ep cache) (sessions_ l !! ep)) = Ret s ∧
  table_ok l' ∧ (∀ ep', ep' ≠ ep → sessions_ l' !! ep' = sessions_ l !! ep') ∧
  sessions_ l' !! ep = (if destroyed_ s then None else Some s) ∧
  DtlsListener.socket_open l' = DtlsListener.socket_open l.
Proof.
  intros Hok H. unfold DtlsListener.dispatch in H. inv_bind H. injection H as <- <-.
  set (s0 := default (init ep cache) (sessions_ l !! ep)) in *.
  assert (client_ep_ s0 = ep ∧ destroyed_ s0 = false) as [Hc Hd].
  { subst s0. destruct (sessions_ l !! ep) eqn:El; cbn; [by apply (Hok ep)|done]. }
  assert (client_ep_ x = ep) as Hx by (rewrite <-Hc; by eapply datagram_client).
  rewrite Hd. cbn [negb andb]. rewrite Hx. split; [done|].
  destruct (destroyed_ x) eqn:Ed.
  - assert (sessions_ (remove_session ep (l <| sessions_ := <[ep:=s0]> (sessions_ l) |>
      <| sessions_ := <[ep:=x]> (<[ep:=s0]> (sessions_ l)) |>)) = delete ep (sessions_ l)) as E'.
    { cbn. by rewrite insert_insert_eq, delete_insert_eq. }
    split_and!; [| | |done].
    + unfold table_ok. cbn in *. rewrite E'. by apply map_Forall_delete.
    + intros ep' Hne. cbn in *. rewrite E'. by rewrite lookup_delete_ne.
    + cbn in *. rewrite E'. apply lookup_delete_eq.
  - split_and!; [| | |done].
    + unfold table_ok. cbn. rewrite insert_insert_eq. apply map_Forall_insert_2; done.
    + intros ep' Hne. cbn. by rewrite insert_insert_eq, lookup_insert_ne.
    + cbn. apply lookup_insert_eq.
Qed.

(** C26: the listener keeps exactly the living sessions, one per client.  A
    datagram is given to the session of its sender, a new one if there is none,
    and to no other; afterwards the table holds that session under its own
    endpoint if it lives, and not at all if it was destroyed. *)
Theorem listener_dispatch cache now ep acc rd l l' :
  table_ok l → on_receive allowed sha224 cache now ep acc rd l = Ret l' →
  table_ok l' ∧
  (∀ ep', ep' ≠ ep → sessions_ l' !! ep' = sessions_ l !! ep') ∧
  ∃ s, on_datagram allowed sha224 now acc rd (default (init ep cache) (sessions_ l !! ep)) = Ret s ∧
    sessions_ l' !! ep = if destroyed_ s then None else Some s.
Proof.
  intros Hok H. apply bind_Ret_inv in H as ([l1 s] & H & [= <-]).
  destruct (dispatch_spec _ _ _ _ _ _ _ _ Hok H) as (Hs & Ht & Hne & He & _).
  split_and!; [done..|]. by exists s.
Qed.
End Life.

(** ** Concrete sessions *)
(** The identity stands for the digest: the password "pw" is configured by its
    hexadecimal text. *)
Definition demo_digest (x : bytes) : bytes := x.
Definition demo_allowed : gset bytes := {[ lit "7077" ]}.
Definition demo_client : Net.endpoint :=
  Net.Endpoint (Net.address_v4 [Byte.x0a; Byte.x00; Byte.x00; Byte.x02]) 4000.
Definition demo_target : Net.endpoint :=
  Net.Endpoint (Net.address_v4 [Byte.x08; Byte.x08; Byte.x08; Byte.x08]) 53.
Definition demo_new : t := init demo_client DnsCache.init.
Definition demo_history : list event :=
  [Datagram 1 AcceptWantRead (Data (lit "pw" ++ [Byte.x0a])); Datagram 0 Accepted WantRead].
Definition demo_handle (ev : event) (s : t) : t :=
  match handle demo_allowed demo_digest ev s with Ret s' => s' | _ => s end.
Definition demo_proxy : t := foldr demo_handle demo_new demo_history.

Lemma demo_run : run demo_allowed demo_digest demo_new demo_history demo_proxy.
Proof.
  eapply run_ext; [eapply run_ext; [apply run_start|reflexivity|]|reflexivity|];
    vm_compute; reflexivity.
Qed.

Lemma dtls_serves_only_authenticated_witness :
  state_ demo_proxy = PROXY ∧
  ∃ ev, ev ∈ demo_history ∧ authenticates demo_allowed demo_digest ev = true.
Proof.
  split; [vm_compute; reflexivity|].
  apply (dtls_serves_only_authenticated demo_allowed demo_digest demo_client DnsCache.init
           demo_history demo_proxy demo_run).
  left. vm_compute. reflexivity.
Defined.

Lemma split_password_rejected_witness :
  let s := demo_new <| state_ := AUTH |> in
  let s1 := on_auth_data demo_allowed demo_digest (lit "p") s in
  let s2 := on_auth_data demo_allowed demo_digest (lit "w" ++ [Byte.x0a]) s1 in
  state_ s1 = AUTH ∧ state_ s2 = DESTROY.
Proof.
  apply (split_password_rejected demo_allowed demo_digest (demo_new <| state_ := AUTH |>)
           (lit "p") (lit "w")); [reflexivity|reflexivity|by apply (bool_decide_unpack _)..].
Defined.

Lemma demo_target_wf : Net.endpoint_wf demo_target.
Proof. split; [reflexivity|cbn; lia]. Qed.

Definition demo_target6 : Net.endpoint :=
  Net.Endpoint (Net.address_v6 (replicate 15 Byte.x00 ++ [Byte.x01])) 53.
Lemma demo_target6_wf : Net.endpoint_wf demo_target6.
Proof. split; [reflexivity|cbn; lia]. Qed.

Lemma dtls_datagram_routed_witness :
  (∃ s' s'', on_proxy_data 2 (with_session_id 7 (UdpFrame.generate demo_target (lit "q"))) demo_proxy
               = Ret s' ∧
    pending s' = pending demo_proxy ++ [SendTarget demo_target (lit "q")] ∧
    handle demo_allowed demo_digest (SendDone true demo_target (lit "q"))
      (s' <| pending := pending demo_proxy |>) = Ret s'' ∧
    target_sent s'' = target_sent demo_proxy ++ [(demo_target, lit "q")] ∧
    ∀ s1, s1 = s' ∨ s1 = s'' →
      sent (on_target true (From demo_target (lit "a")) s1) =
        sent demo_proxy ++ [with_session_id 7 (UdpFrame.generate demo_target (lit "a"))]) ∧
  (∃ s' s'', on_proxy_data 2 (with_session_id 7 (UdpFrame.generate demo_target6 (lit "q"))) demo_proxy
               = Ret s' ∧
    pending s' = pending demo_proxy ++ [SendTarget demo_target6 (lit "q")] ∧
    handle demo_allowed demo_digest (SendDone true demo_target6 (lit "q"))
      (s' <| pending := pending demo_proxy |>) = Ret s'' ∧
    target_sent s'' = target_sent demo_proxy).
Proof.
  split;
    [apply (dtls_datagram_routed demo_target demo_target_wf demo_allowed demo_digest 2 7 (lit "q")
              true (lit "a") demo_proxy)
    |apply (dtls_datagram_routed demo_target6 demo_target6_wf demo_allowed demo_digest 2 7 (lit "q")
              true (lit "a") demo_proxy)];
    first [lia|vm_compute; reflexivity].
Defined.

Lemma dtls_shared_target_misrouted_witness :
  ∃ s1 s2,
    on_proxy_data 2 (with_session_id 7 (UdpFrame.generate demo_target (lit "q"))) demo_proxy
      = Ret s1 ∧
    on_proxy_data 2 (with_session_id 9 (UdpFrame.generate demo_target (lit "r"))) s1 = Ret s2 ∧
    sent (on_target true (From demo_target (lit "a")) s2) =
      sent demo_proxy ++ [with_session_id 9 (UdpFrame.generate demo_target (lit "a"))].
Proof.
  apply (dtls_shared_target_misrouted demo_target demo_target_wf);
    [lia|lia|vm_compute; reflexivity..].
Defined.

Lemma dtls_session_consistent_witness :
  ssl_ demo_proxy = negb (destroyed_ demo_proxy) ∧ reads demo_proxy = 1%nat.
Proof.
  split; [|vm_compute; reflexivity].
  exact (proj1 (proj2 (dtls_session_consistent demo_allowed demo_digest demo_client
    DnsCache.init demo_history demo_proxy demo_run))).
Defined.

Lemma listener_dispatch_witness :
  let l := DtlsListener.Listener true ∅ in
  ∃ l' s, DtlsListener.on_receive demo_allowed demo_digest DnsCache.init 0 demo_client
            Accepted WantRead l = Ret l' ∧
    table_ok l' ∧ DtlsListener.sessions_ l' !! demo_client = Some s ∧ state_ s = AUTH.
Proof.
  intros l.
  exists (DtlsListener.Listener true {[ demo_client := demo_new <| state_ := AUTH |> ]}).
  assert (DtlsListener.on_receive demo_allowed demo_digest DnsCache.init 0 demo_client
            Accepted WantRead l =
          Ret (DtlsListener.Listener true {[ demo_client := demo_new <| state_ := AUTH |> ]})) as H
    by (vm_compute; reflexivity).
  eexists. split; [exact H|]. split; [|split; [vm_compute; reflexivity|reflexivity]].
  refine (proj1 (listener_dispatch demo_allowed demo_digest DnsCache.init 0 demo_client
    Accepted WantRead l _ _ H)).
  apply map_Forall_empty.
Defined.

End DtlsServerSession.
