(* ===== verification/DtlsServer.v ===== *)
(** DtlsServer: the DTLS listener with all its clients (src/Server/DtlsListener.h,
    .cpp).  The sessions of DtlsServerSession run side by side: the listener gives
    each the datagrams of its client, their operations complete in any order, and
    all share the DNS cache of the process with the sessions of the TCP side.

    The listener stops in its destructor only, when the contexts have stopped;
    while it runs its socket stays as the constructor left it. *)
From S2P Require Import Prelude Net Decimal UdpFrame DnsCache DtlsServerSession.

Module DtlsServer.
Import DtlsServerSession.
Import DtlsListener(listener, Listener, socket_open, sessions_).
Notation session := DtlsServerSession.t.

(** where the constructor returns: without a context, with an error of the
    certificate or the key, or with the socket bound *)
Inductive setup := NoContext | BadCertificate | BadPrivateKey | KeyMismatch | Bound.

(** how a receive on the shared socket completes *)
Inductive completion :=
  | RecvAborted | RecvFailed
  | Recv (now : Z) (sender_ep : Net.endpoint) (acc : accept_result) (rd : read_result).

Record t := Srv {
  table : listener;
  receiving : nat;                          (* receives in flight *)
  dead : list session;                      (* out of the table, kept by their operations *)
  cache : DnsCache.t;                       (* of the process *)
  received : list (Net.endpoint * event)    (* the datagrams so far, newest first *)
}.
#[global] Instance eta_t : Eta t := fun r =>
  Srv (table r) (receiving r) (dead r) (cache r) (received r).

(** [DtlsListener::DtlsListener] *)
Definition make (r : setup) (c : DnsCache.t) : t :=
  Srv (Listener (match r with Bound => true | _ => false end) ∅) 0 [] c [].
Definition do_receive (s : t) : t := s <| receiving := S (receiving s) |>.
Definition start (s : t) : t := do_receive s.

(** a session finds the cache of the process *)
Definition share (c : DnsCache.t) (x : session) : session := x <| dns := c |>.

Section Listener.
Context (allowed : gset bytes) (sha224 : bytes → bytes).
(** the endpoints the resolver may give for a host and a port *)
Context (resolves : bytes → bytes → Net.endpoint → Prop).

(** the handler of [do_receive] *)
Definition on_completion (r : completion) (s : t) : outcome t :=
  match r with
  | RecvAborted => mret s
  | RecvFailed => mret (do_receive s)
  | Recv now ep acc rd =>
      let l := table s <| sessions_ := alter (share (cache s)) ep (sessions_ (table s)) |> in
      p ← DtlsListener.dispatch allowed sha224 (cache s) now ep acc rd l;
      let '(l, x) := p in
      mret (do_receive (s <| table := l |> <| cache := dns x |>
              <| dead := if destroyed_ x then x :: dead s else dead s |>
              <| received := (ep, Datagram now acc rd) :: received s |>))
  end.

(** a socket that was never opened fails every receive; an open one gives
    datagrams and errors *)
Definition legal (r : completion) (s : t) : Prop :=
  match r with
  | RecvAborted => False
  | RecvFailed => True
  | Recv _ _ _ _ => socket_open (table s) = true
  end.

(** how the operations of the sessions complete *)
Definition legal_event (ev : event) : Prop :=
  match ev with
  | ResolveDone _ d p _ _ (Some ep) => resolves d (to_string p) ep
  | _ => True
  end.

(** one handler of the listener or of one of its sessions *)
Inductive own_step : t → t → Prop :=
  | step_receive s n r s' :
      receiving s = S n → legal r s → on_completion r (s <| receiving := n |>) = Ret s' → own_step s s'
  | step_op s ep x ev o l1 l2 x' :
      sessions_ (table s) !! ep = Some x → event_op ev = Some o → pending x = l1 ++ o :: l2 →
      legal_event ev →
      handle allowed sha224 ev (share (cache s) x <| pending := l1 ++ l2 |>) = Ret x' →
      own_step s (s <| table := table s <| sessions_ := <[ep := x']> (sessions_ (table s)) |> |>
                <| cache := dns x' |>)
  | step_dead_op s d1 x d2 ev o l1 l2 x' :
      dead s = d1 ++ x :: d2 → event_op ev = Some o → pending x = l1 ++ o :: l2 →
      legal_event ev →
      handle allowed sha224 ev (share (cache s) x <| pending := l1 ++ l2 |>) = Ret x' →
      own_step s (s <| dead := d1 ++ x' :: d2 |> <| cache := dns x' |>).

(** and the other sessions of the process and the clean-up timer use the cache *)
Inductive step : t → t → Prop :=
  | step_own s s' : own_step s s' → step s s'
  | step_cache s o : step s (s <| cache := DnsCache.step (cache s) o |>).

Definition reachable (r : setup) (c : DnsCache.t) (s : t) : Prop := rtc step (start (make r c)) s.

(** ** The cache of a session *)
(** what a handler does to it: a lookup that succeeded is stored *)
Definition cache_use (ev : event) (o : DnsCache.op) : Prop :=
  match ev with
  | ResolveDone now d p _ _ (Some ep) => o = DnsCache.Put DnsCache.UDP now (Decimal.host_port d p) ep
  | CacheUse o' => o = o'
  | _ => False
  end.
Lemma dtls_handle_dns ev x x' :
  handle allowed sha224 ev x = Ret x' →
  ∃ ops, dns x' = foldl DnsCache.step (dns x) ops ∧ Forall (cache_use ev) ops.
Proof.
  assert (∀ y, dns (stop y) = dns y) as Hstop by (intros y; unfold stop; by destruct (destroyed_ y)).
  assert (∀ ep pl sid y, dns (do_send_to_target ep pl sid y) = dns y) as Hsend
    by (intros ep pl sid y; unfold do_send_to_target; by destruct (negb _)).
  assert (∀ y, dns (do_read_target y) = dns y) as Hread
    by (intros y; unfold do_read_target; by case_decide).
  assert (∀ now rd y y', try_read_app_data allowed sha224 now rd y = Ret y' → dns y' = dns y) as Happ.
  { intros now rd y y'. unfold try_read_app_data. destruct (negb _); [by intros [= <-]|].
    destruct rd as [d| | |]; try (intros [= <-]; auto; done).
    destruct (state_ y); try (by intros [= <-]).
    - intros [= <-]. unfold on_auth_data. destruct (find _ _); [|done].
      case_decide; [|by rewrite Hstop]. unfold start_proxy. by rewrite Hread.
    - unfold on_proxy_data. destruct (_ <? _); [by intros [= <-]|]. intros Hp. do 4 inv_bind Hp.
      destruct x3 as [f [k|]]; [|by injection Hp as <-]. destruct (_ =? _).
      + injection Hp as <-. unfold do_resolve_and_send. by destruct (DnsCache.get_udp _ _ _); rewrite ?Hsend.
      + inv_bind Hp. destruct x3; injection Hp as <-; by rewrite ?Hsend. }
  destruct ev as [now acc rd|ok r|now d p pl sid r|ok ep pl|o|]; cbn [handle]; intros Hh.
  1,2,4,6: exists []; split; [|by constructor]; cbn.
  - unfold on_datagram, process_handshake in Hh. destruct (_ || _); [by injection Hh as <-|].
    destruct (state_ x); try by eapply Happ. destruct (negb _); [by injection Hh as <-|].
    destruct acc; [by eapply Happ in Hh|by injection Hh as <-|injection Hh as <-; apply Hstop].
  - injection Hh as <-. destruct r; cbn; rewrite ?Hread; try done.
    unfold send_to_client. destruct (_ || _); [done|]. by destruct ok.
  - injection Hh as <-. unfold on_target_sent. by destruct (send_accepted _ _).
  - injection Hh as <-. apply Hstop.
  - injection Hh as <-. destruct r as [ep|]; [|by exists []].
    exists [DnsCache.Put DnsCache.UDP now (Decimal.host_port d p) ep]. split; [|by constructor].
    by etrans; [apply Hsend|].
  - exists [o]. injection Hh as <-. split; [done|by constructor].
Qed.

(** *** A lookup is one for a port *)
Definition port_ok (o : op) : Prop := match o with Resolve _ p _ _ => 0 <= p | _ => True end.
Definition ports_ok (x : session) : Prop := Forall port_ok (pending x).
Lemma ports_start o x : port_ok o → ports_ok x → ports_ok (start_op o x).
Proof. intros Ho Hx. apply list.Forall_app. split; [done|by constructor]. Qed.
Lemma ports_send ep pl sid x : ports_ok x → ports_ok (do_send_to_target ep pl sid x).
Proof. intros Hx. unfold do_send_to_target. destruct (negb _); by apply ports_start. Qed.
Lemma ports_read x : ports_ok x → ports_ok (do_read_target x).
Proof. unfold do_read_target. case_decide; [done|by apply ports_start]. Qed.
Lemma ports_stop x : ports_ok x → ports_ok (stop x).
Proof. unfold stop. by destruct (destroyed_ x). Qed.
Lemma ports_proxy now d x x' : on_proxy_data now d x = Ret x' → ports_ok x → ports_ok x'.
Proof.
  unfold on_proxy_data. destruct (_ <? _); [by intros [= <-]|]. intros Hp Hx. do 4 inv_bind Hp.
  destruct x3 as [f [k|]]; [|by injection Hp as <-]. destruct (_ =? _).
  - injection Hp as <-. unfold do_resolve_and_send.
    destruct (DnsCache.get_udp _ _ _); [by apply ports_send|].
    apply ports_start; [|done]. apply UdpFrame.parse_port in E2. cbn. lia.
  - inv_bind Hp. destruct x3; injection Hp as <-; [by apply ports_send|done].
Qed.
Lemma ports_app_data now rd x x' :
  try_read_app_data allowed sha224 now rd x = Ret x' → ports_ok x → ports_ok x'.
Proof.
  unfold try_read_app_data. destruct (negb _); [by intros [= <-]|].
  destruct rd as [d| | |]; try (by intros [= <-]); [|intros [= <-]; apply ports_stop].
  destruct (state_ x); try (by intros [= <-]); [|apply ports_proxy].
  intros [= <-] Hx. unfold on_auth_data. destruct (find _ _); [|done].
  case_decide; [|by apply ports_stop]. unfold start_proxy. by apply ports_read.
Qed.
Lemma handle_ports ev x x' : handle allowed sha224 ev x = Ret x' → ports_ok x → ports_ok x'.
Proof.
  destruct ev as [now acc rd|ok r|now d p pl sid r|ok ep pl|o|]; cbn [handle]; intros Hh Hx.
  - unfold on_datagram, process_handshake in Hh. destruct (_ || _); [by injection Hh as <-|].
    destruct (state_ x); try by eapply ports_app_data. destruct (negb _); [by injection Hh as <-|].
    destruct acc; [by eapply ports_app_data in Hh|by injection Hh as <-|].
    injection Hh as <-. by apply ports_stop.
  - injection Hh as <-. destruct r; cbn; [done|by apply ports_read|]. apply ports_read.
    unfold send_to_client. destruct (_ || _); [done|]. by destruct ok.
  - injection Hh as <-. destruct r; [|done]. by apply ports_send.
  - injection Hh as <-. unfold on_target_sent. by destruct (send_accepted _ _).
  - by injection Hh as <-.
  - injection Hh as <-. by apply ports_stop.
Qed.
Lemma run_ports ep c h x : run allowed sha224 (init ep c) h x → ports_ok x.
Proof.
  intros Hr. induction Hr as [|h s ev o l1 l2 s' _ IH He Hp Hh|h s ev s' _ IH He Hh];
    [by constructor| |by eapply handle_ports].
  eapply handle_ports; [exact Hh|]. unfold ports_ok in *. rewrite Hp in IH.
  apply list.Forall_app in IH as [F1 [_ F2]%list.Forall_cons]. by apply list.Forall_app.
Qed.

(** others use the cache *)
Definition is_cache_use (ev : event) : Prop := match ev with CacheUse _ => True | _ => False end.
Lemma run_cache x0 h x ops :
  run allowed sha224 x0 h x →
  ∃ h', Forall is_cache_use h' ∧
    run allowed sha224 x0 (h' ++ h) (share (foldl DnsCache.step (dns x) ops) x).
Proof.
  intros Hr. induction ops as [|o ops IH] using rev_ind.
  - exists []. split; [by constructor|]. by destruct x.
  - destruct IH as (h' & Hf & Hr'). exists (CacheUse o :: h'). split; [by constructor|].
    rewrite foldl_snoc. eapply run_ext; [exact Hr'|done|done].
Qed.

(** ** Every session is one of its own *)
(** the datagrams of history [h] came from [ep] *)
Definition came_from (rcv : list (Net.endpoint * event)) (ep : Net.endpoint) (h : list event) : Prop :=
  ∀ now acc rd, Datagram now acc rd ∈ h → (ep, Datagram now acc rd) ∈ rcv.
Definition later (c c' : DnsCache.t) : Prop := ∃ ops, c' = foldl DnsCache.step c ops.
#[local] Instance later_trans : Transitive later.
Proof. intros c1 c2 c3 [o1 ->] [o2 ->]. exists (o1 ++ o2). by rewrite foldl_app. Qed.

(** a session has run a history of its own, in which the others show only as uses
    of the cache *)
Definition session_ok (c : DnsCache.t) (rcv : list (Net.endpoint * event)) (ep : Net.endpoint)
    (x : session) : Prop :=
  ∃ c0 h, run allowed sha224 (init ep c0) h x ∧ came_from rcv ep h ∧ later (dns x) c.

Lemma session_ok_mono c c' rcv rcv' ep x :
  later c c' → rcv ⊆ rcv' → session_ok c rcv ep x → session_ok c' rcv' ep x.
Proof.
  intros Hc Hr (c0 & h & Hrun & Hf & Hl). exists c0, h. split_and!; [done| |by etrans].
  intros now acc rd Hin. by apply Hr, Hf.
Qed.
Lemma session_ok_init c rcv ep : session_ok c rcv ep (init ep c).
Proof.
  exists c, []. split_and!; [apply run_start| |by exists []]. intros now acc rd Hin. by apply not_elem_of_nil in Hin.
Qed.

(** before it runs a handler, a session has the history of one that has seen all the
    uses of the cache *)
Lemma session_ok_share c rcv ep x :
  session_ok c rcv ep x →
  ∃ c0 h, run allowed sha224 (init ep c0) h (share c x) ∧ came_from rcv ep h.
Proof.
  intros (c0 & h & Hrun & Hf & [ops ->]).
  destruct (run_cache _ h x ops Hrun) as (h' & Hu & Hrun'). exists c0, (h' ++ h).
  split; [done|]. intros now acc rd [Hin|Hin]%elem_of_app; [|by apply Hf].
  rewrite list.Forall_forall in Hu. by apply Hu in Hin.
Qed.
Lemma session_ok_ext c rcv ep x ev x' :
  session_ok c rcv ep x → event_op ev = None → handle allowed sha224 ev (share c x) = Ret x' →
  session_ok (dns x') ((ep, ev) :: rcv) ep x' ∧ later c (dns x').
Proof.
  intros (c0 & h & Hrun & Hf)%session_ok_share He Hh. split; [|by destruct (dtls_handle_dns _ _ _ Hh) as (ops & Hops & _); exists ops].
  exists c0, (ev :: h). split_and!; [by eapply run_ext| |by exists []].
  intros now acc rd [<-|Hin]%elem_of_cons; [apply list_elem_of_here|].
  by apply list_elem_of_further, Hf.
Qed.
Lemma session_ok_op c rcv ep x ev o l1 l2 x' :
  session_ok c rcv ep x → event_op ev = Some o → pending x = l1 ++ o :: l2 →
  handle allowed sha224 ev (share c x <| pending := l1 ++ l2 |>) = Ret x' →
  session_ok (dns x') rcv ep x' ∧ later c (dns x').
Proof.
  intros (c0 & h & Hrun & Hf)%session_ok_share He Hp Hh.
  split; [|by destruct (dtls_handle_dns _ _ _ Hh) as (ops & Hops & _); exists ops].
  exists c0, (ev :: h). split_and!; [by eapply run_op| |by exists []].
  intros now acc rd [<-|Hin]%elem_of_cons; [done|by apply Hf].
Qed.

(** completing an operation neither ends a session nor gives it another client *)
Lemma op_alive ev o x x' :
  event_op ev = Some o → handle allowed sha224 ev x = Ret x' →
  client_ep_ x' = client_ep_ x ∧ destroyed_ x' = destroyed_ x.
Proof.
  assert (∀ ep pl sid y, client_ep_ (do_send_to_target ep pl sid y) = client_ep_ y ∧
    destroyed_ (do_send_to_target ep pl sid y) = destroyed_ y) as Hsend
    by (intros ep pl sid y; unfold do_send_to_target; by destruct (negb _)).
  assert (∀ y, client_ep_ (do_read_target y) = client_ep_ y ∧
    destroyed_ (do_read_target y) = destroyed_ y) as Hread
    by (intros y; unfold do_read_target; by case_decide).
  intros He Hh. destruct ev; try done; injection Hh as <-.
  - destruct r; [done|apply Hread|]. unfold on_target.
    destruct (Hread (send_to_client ok (with_session_id (default 0 (target_to_session_ x !! sender))
      (UdpFrame.generate sender data)) x)) as [-> ->].
    unfold send_to_client. destruct (_ || _); [done|]. by destruct ok.
  - destruct r as [ep|]; [|done]. unfold on_resolved.
    match goal with |- context [do_send_to_target ?a ?b ?c ?d] => exact (Hsend a b c d) end.
  - unfold on_target_sent. by destruct (send_accepted _ _).
Qed.

(** ** Invariant of the listener *)
Record srv_ok (b : bool) (s : t) : Prop := SrvOk {
  ok_table : table_ok (table s);
  ok_live : map_Forall (session_ok (cache s) (received s)) (sessions_ (table s));
  ok_dead : Forall (λ x, session_ok (cache s) (received s) (client_ep_ x) x) (dead s);
  ok_receiving : receiving s = 1%nat;
  ok_open : socket_open (table s) = b;
  ok_idle : b = false → sessions_ (table s) = ∅ ∧ dead s = [] ∧ received s = []
}.

Definition opens (r : setup) : bool := match r with Bound => true | _ => false end.
Lemma srv_ok_start r c : srv_ok (opens r) (start (make r c)).
Proof. split; try done; apply map_Forall_empty. Qed.

Lemma table_alter c ep l :
  table_ok l → table_ok (l <| sessions_ := alter (share c) ep (sessions_ l) |>).
Proof.
  intros Ht ep' x. cbn. rewrite lookup_alter_Some.
  intros [(_ & y & Hy & ->)|[_ Hx]]; [exact (Ht ep' y Hy)|by apply Ht].
Qed.

Lemma srv_ok_receive b s n r s' :
  srv_ok b s → receiving s = S n → legal r s → on_completion r (s <| receiving := n |>) = Ret s' →
  srv_ok b s'.
Proof.
  intros [H1 H2 H3 H4 H5 H6] Hn Hl Hc. rewrite H4 in Hn. injection Hn as <-.
  destruct r as [| |now ep acc rd]; [destruct Hl|injection Hc as <-; by split|].
  apply bind_Ret_inv in Hc as ([l x] & Hd & [= <-]).
  destruct (dispatch_spec _ _ _ _ _ _ _ _ _ _ (table_alter (cache s) ep (table s) H1) Hd)
    as (Hx & Ht & Hne & He & Ho).
  assert (∃ y, session_ok (cache s) (received s) ep y ∧
    on_datagram allowed sha224 now acc rd (share (cache s) y) = Ret x ∧ client_ep_ y = ep)
    as (y & Hy & Hyx & Hcl).
  { cbn in Hx. rewrite lookup_alter, decide_True in Hx by done.
    destruct (sessions_ (table s) !! ep) as [y|] eqn:E; cbn in Hx.
    - exists y. split; [by apply H2|]. split; [done|]. by apply (H1 ep y E).
    - exists (init ep (cache s)). split; [apply session_ok_init|]. by split. }
  destruct (session_ok_ext _ _ _ _ (Datagram now acc rd) x Hy eq_refl Hyx) as [Hok Hlater].
  assert (received s ⊆ (ep, Datagram now acc rd) :: received s) as Hsub by set_solver.
  assert (∀ ep' z, session_ok (cache s) (received s) ep' z →
    session_ok (dns x) ((ep, Datagram now acc rd) :: received s) ep' z) as Hmono
    by (intros ep' z; by apply session_ok_mono).
  split; cbn; try done.
  - intros ep' z Hz. destruct (decide (ep' = ep)) as [->|Hne'].
    + rewrite He in Hz. destruct (destroyed_ x); [done|]. by injection Hz as <-.
    + rewrite Hne in Hz by done. cbn in Hz. rewrite lookup_alter_ne in Hz by done. by apply Hmono, H2.
  - assert (Forall (λ z, session_ok (dns x) ((ep, Datagram now acc rd) :: received s) (client_ep_ z) z)
      (dead s)) as Hold by (eapply list.Forall_impl; [exact H3|]; intros z; apply Hmono).
    destruct (destroyed_ x); [|done]. apply list.Forall_cons. split; [|done].
    rewrite (datagram_client _ _ _ _ _ _ _ Hyx). cbn. by rewrite Hcl.
  - by rewrite Ho.
  - cbn in Hl. intros ->. congruence.
Qed.

Lemma srv_ok_op b s ep x ev o l1 l2 x' :
  srv_ok b s → sessions_ (table s) !! ep = Some x → event_op ev = Some o → pending x = l1 ++ o :: l2 →
  handle allowed sha224 ev (share (cache s) x <| pending := l1 ++ l2 |>) = Ret x' →
  srv_ok b (s <| table := table s <| sessions_ := <[ep := x']> (sessions_ (table s)) |> |>
              <| cache := dns x' |>).
Proof.
  intros [H1 H2 H3 H4 H5 H6] Hx He Hp Hh.
  destruct (session_ok_op _ _ _ _ _ _ _ _ _ (H2 ep x Hx) He Hp Hh) as [Hok Hlater].
  destruct (op_alive _ _ _ _ He Hh) as [Hc Hd]. destruct (H1 ep x Hx) as [Hc0 Hd0].
  split; cbn; try done.
  - apply map_Forall_insert_2; [|done]. by rewrite Hc, Hd.
  - apply map_Forall_insert_2; [done|]. intros ep' z Hz. eapply session_ok_mono; [done|done|]. by apply H2.
  - eapply list.Forall_impl; [exact H3|]. intros z Hz. by eapply session_ok_mono.
  - intros Hb. destruct (H6 Hb) as (E & _). by rewrite E, lookup_empty in Hx.
Qed.

Lemma srv_ok_dead_op b s d1 x d2 ev o l1 l2 x' :
  srv_ok b s → dead s = d1 ++ x :: d2 → event_op ev = Some o → pending x = l1 ++ o :: l2 →
  handle allowed sha224 ev (share (cache s) x <| pending := l1 ++ l2 |>) = Ret x' →
  srv_ok b (s <| dead := d1 ++ x' :: d2 |> <| cache := dns x' |>).
Proof.
  intros [H1 H2 H3 H4 H5 H6] Hx He Hp Hh.
  rewrite Hx in H3. apply list.Forall_app in H3 as [F1 [Fx F2]%list.Forall_cons].
  destruct (session_ok_op _ _ _ _ _ _ _ _ _ Fx He Hp Hh) as [Hok Hlater].
  destruct (op_alive _ _ _ _ He Hh) as [Hc _].
  assert (∀ ep z, session_ok (cache s) (received s) ep z → session_ok (dns x') (received s) ep z) as Hmono
    by (intros ep z; by apply session_ok_mono).
  split; cbn; try done.
  - intros ep z Hz. by apply Hmono, H2.
  - apply list.Forall_app. split; [eapply list.Forall_impl; [exact F1|]; intros z; apply Hmono|].
    apply list.Forall_cons. split; [by rewrite Hc|]. eapply list.Forall_impl; [exact F2|]; intros z; apply Hmono.
  - intros Hb. destruct (H6 Hb) as (_ & E & _). rewrite E in Hx. by destruct d1.
Qed.

Lemma srv_ok_step b s s' : srv_ok b s → step s s' → srv_ok b s'.
Proof.
  intros Hs Hstep. destruct Hstep as [s s' Hstep|s o].
  - destruct Hstep; [by eapply srv_ok_receive|by eapply srv_ok_op|by eapply srv_ok_dead_op].
  - destruct Hs as [H1 H2 H3 H4 H5 H6].
    assert (later (cache s) (DnsCache.step (cache s) o)) as Hl by by exists [o].
    split; try done; cbn.
    + intros ep z Hz. eapply session_ok_mono; [done|done|]. by apply H2.
    + eapply list.Forall_impl; [exact H3|]. intros z Hz. by eapply session_ok_mono.
Qed.
Lemma srv_ok_reachable r c s : reachable r c s → srv_ok (opens r) s.
Proof.
  unfold reachable. generalize (srv_ok_start r c). generalize (start (make r c)).
  intros s0 H0 Hr. induction Hr as [|s0 s1 s2 Hs _ IH]; [done|]. eauto using srv_ok_step.
Qed.

(** ** What holds of the listener *)
(** a session of the listener, alive or not *)
Definition of_listener (s : t) (x : session) : Prop :=
  (∃ ep, sessions_ (table s) !! ep = Some x) ∨ x ∈ dead s.
(** it proxies, has an operation in flight, has sent something or remembers a target *)
Definition busy (x : session) : Prop :=
  state_ x = PROXY ∨ pending x ≠ [] ∨ sent x ≠ [] ∨ target_to_session_ x ≠ ∅.

Lemma busy_authenticated b s x :
  srv_ok b s → of_listener s x → busy x →
  ∃ ev, (client_ep_ x, ev) ∈ received s ∧ authenticates allowed sha224 ev = true.
Proof.
  intros [H1 H2 H3 _ _ _] Hin Hbusy.
  assert (session_ok (cache s) (received s) (client_ep_ x) x) as (c0 & h & Hrun & Hf & _).
  { destruct Hin as [[ep Hx]|Hx]; [destruct (H1 ep x Hx) as [-> _]; by apply H2|].
    rewrite list.Forall_forall in H3. by apply H3. }
  destruct (decide (Exists (λ ev, authenticates allowed sha224 ev = true) h)) as [Hex|Hno].
  - apply list.Exists_exists in Hex as (ev & Hev & Ha). exists ev. split; [|done].
    destruct ev as [now acc rd| | | | |]; try done. by apply Hf.
  - exfalso. destruct (run_idle allowed sha224 _ _ h x Hrun) as (? & ? & ? & ?).
    + apply Forall_Exists_neg in Hno. eapply list.Forall_impl; [exact Hno|].
      intros ev Hev. by apply not_true_is_false.
    + unfold busy in Hbusy. naive_solver.
Qed.

(** C4: The DTLS server works for no client that has not shown an allowed password
    itself.  With any number of clients, whatever they send and in whatever order
    the operations of all sessions complete, a session that proxies, has an
    operation in flight, has sent anything or remembers a target belongs to a
    client from whose own endpoint a datagram came with a password line whose
    SHA-224 digest is configured; another client's password is of no use to it.
    The sessions of the table live, each under the endpoint of its client. *)
Theorem listener_serves_only_authenticated r c s x :
  reachable r c s → of_listener s x →
  ((∃ ep, sessions_ (table s) !! ep = Some x) →
     sessions_ (table s) !! client_ep_ x = Some x ∧ destroyed_ x = false) ∧
  (busy x → ∃ ev, (client_ep_ x, ev) ∈ received s ∧ authenticates allowed sha224 ev = true).
Proof.
  intros Hs%srv_ok_reachable Hin. split; [|by eapply busy_authenticated].
  intros [ep Hx]. by destruct (ok_table _ _ Hs ep x Hx) as [-> ?].
Qed.

(** The listener always has one receive in flight.  A constructor that gave up,
    for want of a certificate or a key, leaves a socket that was never opened, whose
    receives all fail at once; the handler answers each with the next, so the
    thread does nothing else and no session is ever made. *)
Lemma failed_listener_spins r c s :
  reachable r c s → r ≠ Bound →
  receiving s = 1%nat ∧ sessions_ (table s) = ∅ ∧
  (∀ k, legal k s → k = RecvFailed) ∧
  on_completion RecvFailed (s <| receiving := 0%nat |>) = Ret s.
Proof.
  intros Hs%srv_ok_reachable Hr. destruct Hs as [_ _ _ H4 H5 H6].
  assert (opens r = false) as Hb by by destruct r. rewrite Hb in *.
  split_and!; [done|by apply H6| |].
  - intros [| |]; cbn; try done. congruence.
  - cbn. unfold do_receive. cbn. rewrite <-H4. by destruct s.
Qed.
End Listener.

(** ** A client shows its password *)
Section Demo.
Definition demo_resolves (_ _ : bytes) (_ : Net.endpoint) : Prop := True.
Definition demo_recv (r : completion) (s : t) : t :=
  match on_completion demo_allowed demo_digest r (s <| receiving := 0%nat |>) with Ret s' => s' | _ => s end.
Definition demo_hello : completion := Recv 0 demo_client Accepted WantRead.
Definition demo_login : completion := Recv 1 demo_client AcceptWantRead (Data (lit "pw" ++ [Byte.x0a])).
Definition demo_0 : t := start (make Bound DnsCache.init).
Definition demo_1 : t := demo_recv demo_hello demo_0.
Definition demo_2 : t := demo_recv demo_login demo_1.
Lemma demo_recv_step k s :
  receiving s = 1%nat → legal k s →
  match on_completion demo_allowed demo_digest k (s <| receiving := 0%nat |>) with
  | Ret _ => true | _ => false end = true →
  own_step demo_allowed demo_digest demo_resolves s (demo_recv k s).
Proof.
  intros Hr Hl Hk. unfold demo_recv.
  destruct (on_completion demo_allowed demo_digest k _) as [s'| |] eqn:E; [|done..].
  exact (step_receive demo_allowed demo_digest demo_resolves s 0 k s' Hr Hl E).
Qed.
Lemma demo_login_reachable : reachable demo_allowed demo_digest demo_resolves Bound DnsCache.init demo_2.
Proof.
  eapply rtc_l; [apply step_own|apply rtc_once, step_own].
  - exact (demo_recv_step demo_hello demo_0 eq_refl eq_refl eq_refl).
  - apply (demo_recv_step demo_login demo_1); vm_compute; reflexivity.
Qed.
Definition demo_session : session := default (init demo_client DnsCache.init) (sessions_ (table demo_2) !! demo_client).
Lemma demo_client_found : sessions_ (table demo_2) !! demo_client = Some demo_session.
Proof. vm_compute. reflexivity. Qed.

Lemma listener_serves_only_authenticated_witness :
  state_ demo_session = PROXY ∧
  ∃ ev, (client_ep_ demo_session, ev) ∈ received demo_2 ∧ authenticates demo_allowed demo_digest ev = true.
Proof.
  assert (state_ demo_session = PROXY) as Hp by (vm_compute; reflexivity).
  split; [exact Hp|].
  apply (listener_serves_only_authenticated demo_allowed demo_digest demo_resolves Bound DnsCache.init demo_2 demo_session
    demo_login_reachable (or_introl (ex_intro _ demo_client demo_client_found))).
  left. exact Hp.
Defined.
End Demo.
End DtlsServer.
