(* ===== verification/ProxyStats.v ===== *)
(** ProxyStats: the traffic and session counters of the client
    (src/Shared/ProxyStats.h).  Every operation is one atomic read-modify-write
    on a 64-bit counter, but for the smoothed rates, which only the display
    touches and which go through [double]. *)
From Stdlib Require Import SpecFloat.
From S2P Require Import Prelude Float64.

Module ProxyStats.
Record t := Stats {
  total_upstream_ : Z; total_downstream_ : Z;
  delta_upstream_ : Z; delta_downstream_ : Z;
  smoothed_up_ : Z; smoothed_down_ : Z; session_count_ : Z
}.
#[global] Instance eta_t : Eta t := fun r =>
  Stats (total_upstream_ r) (total_downstream_ r) (delta_upstream_ r) (delta_downstream_ r)
    (smoothed_up_ r) (smoothed_down_ r) (session_count_ r).
Definition init : t := Stats 0 0 0 0 0 0 0.

Definition addUpstreamDelta (n : Z) (s : t) : t :=
  s <| total_upstream_ := u64 (total_upstream_ s + n) |>
    <| delta_upstream_ := u64 (delta_upstream_ s + n) |>.
Definition addDownstreamDelta (n : Z) (s : t) : t :=
  s <| total_downstream_ := u64 (total_downstream_ s + n) |>
    <| delta_downstream_ := u64 (delta_downstream_ s + n) |>.
(** the two exchanges of [getAndResetDelta] *)
Definition takeDeltas (s : t) : (Z * Z) * t :=
  ((delta_upstream_ s, delta_downstream_ s),
   s <| delta_upstream_ := 0 |> <| delta_downstream_ := 0 |>).
(** the constants 0.3 and 0.7, as the nearest numbers of 53 digits *)
Definition c_0_3 : Float64.double := S754_finite false 5404319552844595 (- 54).
Definition c_0_7 : Float64.double := S754_finite false 6305039478318694 (- 53).
(** [static_cast<uint64_t>(0.3 * raw + 0.7 * smoothed)] *)
Definition smooth (raw smoothed : Z) : outcome Z :=
  Float64.to_uint64 (Float64.add (Float64.mul c_0_3 (Float64.of_Z raw))
                                 (Float64.mul c_0_7 (Float64.of_Z smoothed))).
Definition getAndResetDelta (s : t) : outcome ((Z * Z) * t) :=
  let '((raw_up, raw_down), s) := takeDeltas s in
  up ← smooth raw_up (smoothed_up_ s);
  down ← smooth raw_down (smoothed_down_ s);
  mret ((up, down), s <| smoothed_up_ := up |> <| smoothed_down_ := down |>).
Definition getTotal (s : t) : Z * Z := (total_upstream_ s, total_downstream_ s).
Definition sessionCreated (s : t) : t := s <| session_count_ := u64 (session_count_ s + 1) |>.
Definition sessionDestroyed (s : t) : t := s <| session_count_ := u64 (session_count_ s - 1) |>.
Definition sessionCount (s : t) : Z := session_count_ s.

(** ** Histories *)
Inductive op := Up (n : Z) | Down (n : Z) | Take | Created | Destroyed.
#[global] Instance op_eq_dec : EqDecision op.
Proof. solve_decision. Defined.
Definition step (s : t) (o : op) : t :=
  match o with
  | Up n => addUpstreamDelta n s
  | Down n => addDownstreamDelta n s
  | Take => (takeDeltas s).2
  | Created => sessionCreated s
  | Destroyed => sessionDestroyed s
  end.
Definition run (h : list op) : t := foldl step init h.

(** the deltas the display took over a history, in order *)
Fixpoint taken (s : t) (h : list op) : list (Z * Z) :=
  match h with
  | [] => []
  | o :: h => match o with
              | Take => (takeDeltas s).1 :: taken (step s o) h
              | _ => taken (step s o) h
              end
  end.
Definition sum (l : list Z) : Z := foldr Z.add 0 l.
Definition up_of (o : op) : Z := match o with Up n => n | _ => 0 end.
Definition down_of (o : op) : Z := match o with Down n => n | _ => 0 end.
Definition up_bytes (h : list op) : Z := sum (up_of <$> h).
Definition down_bytes (h : list op) : Z := sum (down_of <$> h).

Lemma u64_add_l a b : u64 (u64 a + b) = u64 (a + b).
Proof. unfold u64. apply Zplus_mod_idemp_l. Qed.
Lemma u64_add_r a b : u64 (a + u64 b) = u64 (a + b).
Proof. unfold u64. apply Zplus_mod_idemp_r. Qed.

(** the counters hold 64-bit values *)
Definition norm (s : t) : Prop :=
  u64 (total_upstream_ s) = total_upstream_ s ∧ u64 (total_downstream_ s) = total_downstream_ s ∧
  u64 (delta_upstream_ s) = delta_upstream_ s ∧ u64 (delta_downstream_ s) = delta_downstream_ s.

Lemma u64_idem a : u64 (u64 a) = u64 a.
Proof. unfold u64. apply Zmod_mod. Qed.

Lemma step_norm s o : norm s → norm (step s o).
Proof. intros (? & ? & ? & ?). destruct o; split_and!; cbn; by rewrite ?u64_idem. Qed.

Lemma step_total s o :
  norm s → total_upstream_ (step s o) = u64 (total_upstream_ s + up_of o) ∧
           total_downstream_ (step s o) = u64 (total_downstream_ s + down_of o).
Proof. intros (? & ? & _). destruct o; cbn; by rewrite ?Z.add_0_r. Qed.

(** what a step takes plus what it leaves is what was there plus what it adds *)
Lemma taken_cons s o h :
  norm s → ∃ u d,
    sum (taken s (o :: h)).*1 = u + sum (taken (step s o) h).*1 ∧
    sum (taken s (o :: h)).*2 = d + sum (taken (step s o) h).*2 ∧
    u64 (u + delta_upstream_ (step s o)) = u64 (delta_upstream_ s + up_of o) ∧
    u64 (d + delta_downstream_ (step s o)) = u64 (delta_downstream_ s + down_of o).
Proof.
  intros (_ & _ & H3 & H4). destruct o as [n|n| | |]; cbn.
  1-2, 4-5: exists 0, 0; split_and!; rewrite ?Z.add_0_l, ?Z.add_0_r; by rewrite ?u64_idem.
  exists (delta_upstream_ s), (delta_downstream_ s). by split_and!.
Qed.

Lemma conserve h s :
  norm s →
  total_upstream_ (foldl step s h) = u64 (total_upstream_ s + up_bytes h) ∧
  total_downstream_ (foldl step s h) = u64 (total_downstream_ s + down_bytes h) ∧
  u64 (sum (taken s h).*1 + delta_upstream_ (foldl step s h)) =
    u64 (delta_upstream_ s + up_bytes h) ∧
  u64 (sum (taken s h).*2 + delta_downstream_ (foldl step s h)) =
    u64 (delta_downstream_ s + down_bytes h).
Proof.
  revert s. induction h as [|o h IH]; intros s Hs.
  { destruct Hs as (H1 & H2 & H3 & H4). cbn. by rewrite !Z.add_0_r, H1, H2. }
  destruct (step_total s o Hs) as [T1 T2], (taken_cons s o h Hs) as (u & d & -> & -> & D1 & D2).
  destruct (IH (step s o) (step_norm s o Hs)) as (E1 & E2 & E3 & E4).
  change (foldl step s (o :: h)) with (foldl step (step s o) h).
  change (up_bytes (o :: h)) with (up_of o + up_bytes h).
  change (down_bytes (o :: h)) with (down_of o + down_bytes h).
  rewrite E1, E2, T1, T2, !u64_add_l, !Z.add_assoc. split_and!; [done..| |].
  - rewrite <-Z.add_assoc, <-u64_add_r, E3, u64_add_r, Z.add_assoc.
    by rewrite <-u64_add_l, D1, u64_add_l.
  - rewrite <-Z.add_assoc, <-u64_add_r, E4, u64_add_r, Z.add_assoc.
    by rewrite <-u64_add_l, D2, u64_add_l.
Qed.

(** No byte is counted twice or lost.  After any interleaving of traffic,
    displays and session events, the totals are the traffic of the history modulo
    2^64, and the deltas the display has taken plus the delta still pending add
    up to the same. *)
Lemma traffic_conserved h :
  getTotal (run h) = (u64 (up_bytes h), u64 (down_bytes h)) ∧
  u64 (sum (taken init h).*1 + delta_upstream_ (run h)) = u64 (up_bytes h) ∧
  u64 (sum (taken init h).*2 + delta_downstream_ (run h)) = u64 (down_bytes h).
Proof.
  destruct (conserve h init) as (H1 & H2 & H3 & H4); [by split_and!|].
  unfold getTotal, run. by rewrite H1, H2, H3, H4.
Qed.

(** ** The displayed rate *)
(** below 2^46 bytes per second, rounding moves the average only when it is a
    whole number, and then by one at most *)
Lemma smooth_average raw old :
  0 <= raw < 2 ^ 46 → 0 <= old < 2 ^ 46 →
  ∃ v, smooth raw old = Ret v ∧ 0 <= v ∧ 10 * v <= 3 * raw + 7 * old <= 10 * v + 10.
Proof.
  intros Hr Ho. unfold smooth.
  destruct (Float64.value_mul 5404319552844595 54 _ _ 60 ltac:(done) ltac:(lia)
    (Float64.value_of_Z raw ltac:(lia)) ltac:(lia)) as (a & Ha & A1 & A2).
  destruct (Float64.value_mul 6305039478318694 53 _ _ 60 ltac:(done) ltac:(lia)
    (Float64.value_of_Z old ltac:(lia)) ltac:(lia)) as (b & Hb & B1 & B2).
  destruct (Float64.value_add _ _ _ _ _ Ha Hb) as (s & Hs & S1 & S2); [lia|].
  pose proof Float64.unit_pos as HU. set (U := Float64.unit) in *.
  assert (raw * U <= 2 ^ 46 * U) as HR by (apply Z.mul_le_mono_nonneg_r; lia).
  assert (old * U <= 2 ^ 46 * U) as HO by (apply Z.mul_le_mono_nonneg_r; lia).
  assert (0 <= raw * U) by (apply Z.mul_nonneg_nonneg; lia).
  assert (0 <= old * U) by (apply Z.mul_nonneg_nonneg; lia).
  assert (10 * s < 3 * (raw * U) + 7 * (old * U) + U) as Hhi by lia.
  assert (3 * (raw * U) + 7 * (old * U) - U < 10 * s) as Hlo by lia.
  exists (s / U). split; [apply (Float64.value_to_uint64 _ _ _ Hs); fold U; lia|].
  pose proof (Z.div_mod s U ltac:(lia)) as Hd. pose proof (Z.mod_pos_bound s U HU) as Hm.
  assert (10 * (s / U) * U < (3 * raw + 7 * old + 1) * U) as H1 by lia.
  assert ((3 * raw + 7 * old - 1) * U < (10 * (s / U) + 10) * U) as H2 by lia.
  apply Z.mul_lt_mono_pos_r in H1, H2; [|lia..].
  split; [apply Z.div_pos; [by eapply Float64.value_nonneg|lia]|lia].
Qed.

(** a history with its displays: what each [getAndResetDelta] has shown *)
Fixpoint exec (s : t) (h : list op) : outcome (list (Z * Z) * t) :=
  match h with
  | [] => mret ([], s)
  | Take :: h => '(shown, s) ← getAndResetDelta s; '(l, s) ← exec s h; mret (shown :: l, s)
  | o :: h => exec (step s o) h
  end.

Lemma display_sessions s r s' : getAndResetDelta s = Ret (r, s') → sessionCount s' = sessionCount s.
Proof.
  intros Hg. unfold getAndResetDelta in Hg. cbn in Hg. apply bind_Ret_inv in Hg as (u & _ & Hg).
  apply bind_Ret_inv in Hg as (d & _ & Hg). by injection Hg as _ <-.
Qed.

(** the rates stay within [B] *)
Definition rates_within (B : Z) (s : t) : Prop := 0 <= smoothed_up_ s <= B ∧ 0 <= smoothed_down_ s <= B.
Definition within (B : Z) (p : Z * Z) : Prop := 0 <= p.1 <= B ∧ 0 <= p.2 <= B.

Lemma smooth_within B raw old :
  B < 2 ^ 46 → 0 <= raw <= B → 0 <= old <= B → ∃ v, smooth raw old = Ret v ∧ 0 <= v <= B.
Proof.
  intros HB Hr Ho. destruct (smooth_average raw old) as (v & Hv & H0 & H1 & H2); [lia..|].
  exists v. split; [done|]. lia.
Qed.
Lemma norm_range s : norm s → 0 <= delta_upstream_ s ∧ 0 <= delta_downstream_ s.
Proof.
  intros (_ & _ & H3 & H4). rewrite <-H3, <-H4. unfold u64. split; by apply Z.mod_pos_bound.
Qed.
Lemma display_within B s :
  B < 2 ^ 46 → norm s → rates_within B s → delta_upstream_ s <= B → delta_downstream_ s <= B →
  ∃ shown s', getAndResetDelta s = Ret (shown, s') ∧ within B shown ∧ rates_within B s' ∧ norm s' ∧
    s' = (step s Take) <| smoothed_up_ := shown.1 |> <| smoothed_down_ := shown.2 |>.
Proof.
  intros HB Hn [Hu Hd] H1 H2. destruct (norm_range s Hn) as [N1 N2]. unfold getAndResetDelta. cbn.
  destruct (smooth_within B (delta_upstream_ s) (smoothed_up_ s)) as (u & -> & ?); [lia..|].
  destruct (smooth_within B (delta_downstream_ s) (smoothed_down_ s)) as (d & -> & ?); [lia..|].
  cbn. do 2 eexists. split; [reflexivity|]. split_and!; try done. by apply (step_norm s Take).
Qed.

(** the rates do not reach the counters *)
Lemma taken_smoothed h s u d :
  taken (s <| smoothed_up_ := u |> <| smoothed_down_ := d |>) h = taken s h.
Proof.
  revert s. induction h as [|o h IH]; intros s; [done|]. destruct o; cbn; [apply (IH (step s (Up n)))|
    apply (IH (step s (Down n)))| |apply (IH (step s Created))|apply (IH (step s Destroyed))].
  f_equal. apply (IH (step s Take)).
Qed.

Lemma exec_within B s h :
  B < 2 ^ 46 → norm s → rates_within B s → Forall (λ p, p.1 <= B ∧ p.2 <= B) (taken s h) →
  ∃ shown s', exec s h = Ret (shown, s') ∧ Forall (within B) shown ∧ norm s' ∧ rates_within B s'.
Proof.
  intros HB. revert s. induction h as [|o h IH]; intros s Hn Hc Ht.
  { exists [], s. by split_and!. }
  destruct (decide (o = Take)) as [->|Ho].
  - cbn [taken] in Ht. apply list.Forall_cons in Ht as [[H1 H2] Ht].
    destruct (display_within B s HB Hn Hc H1 H2) as (p & s1 & Hs1 & Hp & Hc1 & Hn1 & E).
    cbn [exec]. rewrite Hs1. cbn [mbind outcome_bind].
    destruct (IH s1) as (l & s2 & -> & Hl & ? & ?); [done|done|by rewrite E, taken_smoothed|].
    exists (p :: l), s2. split_and!; try done. by constructor.
  - assert (rates_within B (step s o)) as Hc' by by destruct o.
    assert (exec s (o :: h) = exec (step s o) h) as -> by by destruct o.
    apply IH; [by apply step_norm|done|]. by destruct o.
Qed.

(** ticks without traffic *)
Definition idle (s : t) : Prop :=
  norm s ∧ delta_upstream_ s = 0 ∧ delta_downstream_ s = 0 ∧
  0 <= smoothed_up_ s < 2 ^ 46 ∧ 0 <= smoothed_down_ s < 2 ^ 46.
Definition shown_of (s : t) : Z * Z := (smoothed_up_ s, smoothed_down_ s).

Lemma idle_tick s :
  idle s → ∃ s', getAndResetDelta s = Ret (shown_of s', s') ∧ idle s' ∧
    10 * smoothed_up_ s' <= 7 * smoothed_up_ s ∧ 10 * smoothed_down_ s' <= 7 * smoothed_down_ s.
Proof.
  intros (Hn & E1 & E2 & Hu & Hd). unfold getAndResetDelta. cbn. rewrite E1, E2.
  destruct (smooth_average 0 (smoothed_up_ s)) as (u & -> & ? & ? & ?); [lia..|].
  destruct (smooth_average 0 (smoothed_down_ s)) as (d & -> & ? & ? & ?); [lia..|].
  cbn. exists (step s Take <| smoothed_up_ := u |> <| smoothed_down_ := d |>).
  split; [reflexivity|]. cbn. split; [|lia]. split; [by apply (step_norm s Take)|]. cbn. split_and!; lia || done.
Qed.
Lemma exec_idle n s :
  idle s → ∃ shown s', exec s (replicate n Take) = Ret (shown, s') ∧ length shown = n ∧
    ∀ i p, shown !! i = Some p → 0 <= p.1 ∧ 0 <= p.2 ∧
      10 ^ Z.of_nat (S i) * p.1 <= 7 ^ Z.of_nat (S i) * smoothed_up_ s ∧
      10 ^ Z.of_nat (S i) * p.2 <= 7 ^ Z.of_nat (S i) * smoothed_down_ s.
Proof.
  revert s. induction n as [|n IH]; intros s Hs; [by exists [], s|].
  destruct (idle_tick s Hs) as (s1 & H1 & Hs1 & U1 & D1).
  destruct (IH s1 Hs1) as (l & s2 & H2 & Hl & Hi).
  exists (shown_of s1 :: l), s2. cbn [replicate exec]. rewrite H1. cbn [mbind outcome_bind]. rewrite H2.
  split; [done|]. split; [cbn; by rewrite Hl|]. intros [|i] p Hp.
  - injection Hp as <-. destruct Hs1 as (_ & _ & _ & ? & ?). cbn. lia.
  - destruct (Hi i p Hp) as (P1 & P2 & U2 & D2). split_and!; [done..| |].
    all: assert (0 < 7 ^ Z.of_nat (S i)) by (apply Z.pow_pos_nonneg; lia).
    all: rewrite (Nat2Z.inj_succ (S i)), !Z.pow_succ_r by lia; nia.
Qed.

(** after 90 of them both rates are 0 *)
Lemma decayed i v old :
  (89 <= i)%nat → 0 <= v → 0 <= old < 2 ^ 46 →
  10 ^ Z.of_nat (S i) * v <= 7 ^ Z.of_nat (S i) * old → v = 0.
Proof.
  intros Hi Hv Ho H. assert (7 ^ Z.of_nat (S i) * 2 ^ 46 < 10 ^ Z.of_nat (S i)) as Hbig.
  { replace (Z.of_nat (S i)) with (90 + Z.of_nat (i - 89)) by lia. rewrite !Z.pow_add_r by lia.
    assert (7 ^ Z.of_nat (i - 89) <= 10 ^ Z.of_nat (i - 89)) by (apply Z.pow_le_mono_l; lia).
    assert (0 < 7 ^ Z.of_nat (i - 89)) by (apply Z.pow_pos_nonneg; lia).
    assert (7 ^ 90 * 2 ^ 46 < 10 ^ 90) by done. nia. }
  assert (0 < 7 ^ Z.of_nat (S i)) by (apply Z.pow_pos_nonneg; lia). nia.
Qed.
Lemma exec_idle_zero n s :
  idle s → ∃ shown s', exec s (replicate n Take) = Ret (shown, s') ∧ length shown = n ∧
    ∀ i p, (89 <= i)%nat → shown !! i = Some p → p = (0, 0).
Proof.
  intros Hs. destruct (exec_idle n s Hs) as (l & s' & Hx & Hl & Hi). destruct Hs as (_ & _ & _ & Hu & Hd).
  exists l, s'. split_and!; [done..|]. intros i [u d] Hlong Hp.
  destruct (Hi i _ Hp) as (P1 & P2 & U & D). cbn in *.
  by rewrite (decayed i u _ Hlong P1 Hu U), (decayed i d _ Hlong P2 Hd D).
Qed.

(** a display leaves no delta *)
Lemma exec_resets h s shown s' :
  exec s (h ++ [Take]) = Ret (shown, s') → delta_upstream_ s' = 0 ∧ delta_downstream_ s' = 0.
Proof.
  revert s shown. induction h as [|o h IH]; intros s shown Hx.
  - cbn [app exec] in Hx. apply bind_Ret_inv in Hx as ([p s1] & Hg & [= _ <-]).
    unfold getAndResetDelta in Hg. cbn in Hg. apply bind_Ret_inv in Hg as (u & _ & Hg).
    apply bind_Ret_inv in Hg as (d & _ & Hg). by injection Hg as _ <-.
  - destruct o; try exact (IH _ _ Hx). cbn [app exec] in Hx.
    apply bind_Ret_inv in Hx as ([p s1] & _ & Hx). apply bind_Ret_inv in Hx as ([l s2] & Hx & [= _ <-]).
    by eapply IH.
Qed.

(** C32: the displayed rates follow the traffic.  If the bytes counted between two
    displays never exceed [B], which is below 2^46, no conversion between integers
    and floating point leaves defined behaviour and no rate shown exceeds [B],
    however traffic, displays and session events interleave; and when the traffic
    has stopped, the 90th display and all later ones show 0 for both rates. *)
Theorem displayed_rates_follow B h :
  0 <= B < 2 ^ 46 → Forall (λ p, p.1 <= B ∧ p.2 <= B) (taken init (h ++ [Take])) →
  ∃ shown s, exec init (h ++ [Take]) = Ret (shown, s) ∧
    Forall (λ p, 0 <= p.1 <= B ∧ 0 <= p.2 <= B) shown ∧
    ∀ n, ∃ later s', exec s (replicate n Take) = Ret (later, s') ∧ length later = n ∧
      ∀ i p, (89 <= i)%nat → later !! i = Some p → p = (0, 0).
Proof.
  intros HB Ht.
  destruct (exec_within B init (h ++ [Take])) as (shown & s & Hx & Hs & Hn & Hu & Hd);
    [lia|by split_and!|split; cbn; lia|done|].
  exists shown, s. split_and!; [done..|]. intros n. apply exec_idle_zero.
  destruct (exec_resets _ _ _ _ Hx) as [E1 E2].
  split_and!; try done; lia.
Qed.

(** a rate near 2^64, which no traffic gives, would be rounded up to 2^64, and the
    conversion back is undefined *)
Lemma smooth_overflows : smooth (2 ^ 64 - 1) (2 ^ 64 - 1) = Undef.
Proof. reflexivity. Qed.

(** ** A transfer and its end *)
Definition demo_history : list op := [Created; Up 1000; Down 5000; Take; Down 700].
Lemma displayed_rates_follow_witness :
  ∃ shown s, exec init (demo_history ++ [Take]) = Ret (shown, s) ∧
    Forall (λ p, 0 <= p.1 <= 5000 ∧ 0 <= p.2 <= 5000) shown ∧
    ∃ later s', exec s (replicate 90 Take) = Ret (later, s') ∧ later !! 89%nat = Some (0, 0).
Proof.
  destruct (displayed_rates_follow 5000 demo_history) as (shown & s & H1 & H2 & H3).
  - split; [lia|reflexivity].
  - by repeat constructor.
  - exists shown, s. split; [exact H1|]. split; [exact H2|].
    destruct (H3 90%nat) as (later & s' & Hx & Hl & Hz). exists later, s'. split; [exact Hx|].
    destruct (lookup_lt_is_Some_2 later 89) as [p Hp]; [rewrite Hl; exact (le_n 90)|].
    rewrite Hp. by rewrite (Hz 89%nat p (le_n 89) Hp).
Defined.
End ProxyStats.
