(* ===== verification/ClientUdp.v ===== *)
(** ClientUdp: the client's side of UDP proxying.

    [DtlsChannel] is the connection to the server (src/Shared/DtlsChannel.h,
    .cpp), [UdpRelay] one association of a local application
    (src/Client/UdpRelay.h, .cpp), [ClientServer] the table of associations
    (src/Client/Server.h, Server.cpp and the parts of src/Client/Session.cpp
    that use it).  OpenSSL's answers are arguments of the functions that ask. *)
From S2P Require Import Prelude Net Decimal UdpFrame Socks5 DtlsServerSession.

Module DtlsChannel.
(** [SSL_do_handshake], [SSL_write] and [SSL_read], with the error they leave *)
Inductive handshake_result := HandshakeDone | HandshakeWantRead | HandshakeWantWrite | HandshakeError.
Inductive write_result := Written | WriteAgain | WriteError.
Inductive read_result := Data (d : bytes) | NoData.

(** the handler the timer runs *)
Inductive timer := ToTimeout | ToHandshake.
(** callbacks the owner gets *)
Inductive callback := OnHandshake (success : bool) | OnData (d : bytes).

Record t := Channel {
  server_ep_ : Net.endpoint;
  ssl_ : bool;                       (* not null *)
  password_ : bytes;
  handshake_done_ : bool;
  running_ : bool;
  timer_ : option timer;             (* the wait in flight *)
  receiving : nat;                   (* receives in flight *)
  posted : nat;                      (* [do_handshake] calls posted so far *)
  sent : list bytes                  (* what [SSL_write] accepted *)
}.
#[global] Instance eta_t : Eta t := fun r =>
  Channel (server_ep_ r) (ssl_ r) (password_ r) (handshake_done_ r) (running_ r) (timer_ r)
    (receiving r) (posted r) (sent r).

(** a channel that has been constructed *)
Definition object (ssl : bool) (ep : Net.endpoint) (password : bytes) : t :=
  Channel ep ssl password false false None 0 0 [].
(** what the calls of the constructor return: the socket opened and bound,
    [SSL_CTX_new] and [SSL_new] not null *)
Record setup := Setup { socket_ok : bool; ctx_ok : bool; ssl_ok : bool }.
(** the constructor: the socket and [make_address] throw, a failure of OpenSSL
    leaves [ssl_] null *)
Definition make `{Net.AddressParser} (su : setup) (server_addr : bytes) (server_port : Z)
    (password : bytes) : outcome t :=
  if negb (socket_ok su) then Throw system_error
  else match Net.make_address server_addr with
       | None => Throw system_error
       | Some addr =>
           mret (object (ctx_ok su && ssl_ok su) (Net.Endpoint addr server_port) password)
       end.

Definition is_ready (c : t) : bool := handshake_done_ c.

Definition do_receive (c : t) : t :=
  if running_ c then c <| receiving := S (receiving c) |> else c.

Definition start (c : t) : t :=
  let c := do_receive (c <| running_ := true |>) in c <| posted := S (posted c) |>.

(** the wait is cancelled, and so are the receives in flight *)
Definition stop (c : t) : t := c <| running_ := false |> <| timer_ := None |>.

Definition send (w : write_result) (data : bytes) (c : t) : t :=
  if negb (ssl_ c) then c
  else if negb (handshake_done_ c) then c
  else if negb (running_ c) then c
  else match w with
       | Written => c <| sent := sent c ++ [data] |>
       | WriteAgain => do_receive c
       | WriteError => c
       end.

(** [do_handshake] and the callback it makes *)
Definition do_handshake (h : handshake_result) (w : write_result) (c : t) : t * option callback :=
  if negb (ssl_ c) || negb (running_ c) || handshake_done_ c then (c, None)
  else match h with
       | HandshakeWantRead => (c <| timer_ := Some ToTimeout |>, None)
       | HandshakeWantWrite => (c <| timer_ := Some ToHandshake |>, None)
       | HandshakeError => (c, Some (OnHandshake false))
       | HandshakeDone =>
           let c := c <| handshake_done_ := true |> in
           (send w (password_ c ++ lit (String (Ascii.ascii_of_nat 10) "")) c,
            Some (OnHandshake true))
       end.
Definition handle_timeout (h : handshake_result) (w : write_result) (c : t)
    : t * option callback :=
  if negb (ssl_ c) || negb (running_ c) then (c, None) else do_handshake h w c.
(** the timer's wait ends, and its handler gets ready to run *)
Definition expire (c : t) : t := c <| timer_ := None |>.
(** the handler of a wait that has ended without error *)
Definition on_timer (k : timer) (h : handshake_result) (w : write_result) (c : t)
    : t * option callback :=
  if running_ c then
    match k with ToTimeout => handle_timeout h w c | ToHandshake => do_handshake h w c end
  else (c, None).

(** [on_receive]; [failed] is an error code *)
Definition on_receive (failed : bool) (r : read_result) (c : t) : t * option callback :=
  let c := c <| receiving := pred (receiving c) |> in
  if failed || negb (running_ c) then (c, None)
  else if negb (handshake_done_ c) then (do_receive (c <| posted := S (posted c) |>), None)
  else match r with
       | Data d => (do_receive c, Some (OnData d))
       | NoData => (do_receive c, None)
       end.
End DtlsChannel.

Module UdpRelay.
Record t := Relay {
  local_port : Z;                            (* of local_socket_ *)
  socket_open : bool;
  sender_ep_ : Net.endpoint;
  dtls_ : option nat;                        (* the address of a channel *)
  session_id_ : Z;
  pending_frames_ : list bytes;
  target_to_sender_ : gmap bytes Net.endpoint;
  running_ : bool;
  receiving : nat;
  to_app : list (bytes * Net.endpoint)       (* datagrams sent to applications *)
}.
#[global] Instance eta_t : Eta t := fun r =>
  Relay (local_port r) (socket_open r) (sender_ep_ r) (dtls_ r) (session_id_ r)
    (pending_frames_ r) (target_to_sender_ r) (running_ r) (receiving r) (to_app r).

(** the constructor binds the local socket; the system chooses the port *)
Definition make (port : Z) : t := Relay port true Net.no_endpoint None 0 [] ∅ false 0 [].

Definition do_receive_local (r : t) : t := r <| receiving := S (receiving r) |>.

(** [start] returns [true] and the local port *)
Definition start (dtls : nat) (session_id : Z) (r : t) : t :=
  do_receive_local (r <| dtls_ := Some dtls |> <| session_id_ := session_id |> <| running_ := true |>).

Definition stop (r : t) : t :=
  if running_ r then r <| running_ := false |> <| socket_open := false |> else r.

Definition has_dtls (r : t) : bool := bool_decide (is_Some (dtls_ r)).

(** the session id in front of a frame *)
Definition packet (r : t) (frame : bytes) : bytes :=
  DtlsServerSession.with_session_id (session_id_ r) frame.

(** In what follows [c] is the channel the relay's pointer leads to.  The loop of
    [flush_pending]; [w] answers each [SSL_write] *)
Fixpoint flush (w : bytes → DtlsChannel.write_result) (frames : list bytes) (r : t)
    (c : DtlsChannel.t) : t * DtlsChannel.t :=
  match frames with
  | [] => (r, c)
  | f :: frames =>
      let c := DtlsChannel.send (w (packet r f)) (packet r f) c in
      flush w frames (r <| pending_frames_ := frames |>) c
  end.
Definition flush_pending (w : bytes → DtlsChannel.write_result) (r : t) (c : DtlsChannel.t)
    : t * DtlsChannel.t :=
  if negb (has_dtls r) || negb (DtlsChannel.is_ready c) then (r, c)
  else flush w (pending_frames_ r) r c.

(** the key of the sender table *)
Definition target_key (address : bytes) (port : Z) : bytes := Decimal.host_port address port.

(** [on_dtls_data]: a frame from the server goes to the application that last
    sent to the frame's address, or to the last sender *)
Definition on_dtls_data (data : bytes) (r : t) : outcome t :=
  if negb (running_ r) then mret r
  else
    p ← UdpFrame.parse UdpFrame.init data;
    match p with
    | (_, None) => mret r
    | (frame, Some _) =>
        let udp_resp := Socks5.UdpRequest.init
          <| Socks5.UdpRequest.addr_type := UdpFrame.addr_type frame |>
          <| Socks5.UdpRequest.dst_addr := UdpFrame.address frame |>
          <| Socks5.UdpRequest.dst_port := UdpFrame.port frame |>
          <| Socks5.UdpRequest.payload := UdpFrame.payload frame |> in
        let pkt := Socks5.UdpRequest.serialize udp_resp in
        let key := target_key (UdpFrame.address frame) (UdpFrame.port frame) in
        match target_to_sender_ r !! key with
        | Some app_ep =>
            mret (r <| target_to_sender_ := delete key (target_to_sender_ r) |>
                    <| to_app := to_app r ++ [(pkt, app_ep)] |>)
        | None => mret (r <| to_app := to_app r ++ [(pkt, sender_ep_ r)] |>)
        end
    end.

(** the handler of [do_receive_local], up to where it uses the channel: the frame
    it has made, if it has come so far.  [None] is an error code *)
Definition receive_local (m : option (Net.endpoint * bytes)) (r : t) : outcome (t * option bytes) :=
  let r := r <| receiving := pred (receiving r) |> in
  let r := match m with Some (sender, _) => r <| sender_ep_ := sender |> | None => r end in
  if negb (running_ r) then mret (r, None)
  else match m with
       | None => mret (do_receive_local r, None)
       | Some (_, data) =>
           if len data <? 4 then mret (do_receive_local r, None)
           else
             p ← Socks5.UdpRequest.parse Socks5.UdpRequest.init data;
             match p with
             | (_, false) => mret (do_receive_local r, None)
             | (req, true) =>
                 let key := target_key (Socks5.UdpRequest.dst_addr req)
                              (Socks5.UdpRequest.dst_port req) in
                 let r := r <| target_to_sender_ :=
                                 <[key := sender_ep_ r]> (target_to_sender_ r) |> in
                 frame ← (if Socks5.UdpRequest.addr_type req =? 3
                          then mret (UdpFrame.generate_domain (Socks5.UdpRequest.dst_addr req)
                                       (Socks5.UdpRequest.dst_port req)
                                       (Socks5.UdpRequest.payload req))
                          else ep ← Socks5.UdpRequest.dest_endpoint req;
                               mret (UdpFrame.generate ep (Socks5.UdpRequest.payload req)));
                 mret (r, Some frame)
             end
       end.
(** the rest of it: the frame is sent or queued *)
Definition queue_frame (frame : bytes) (r : t) : t :=
  do_receive_local (r <| pending_frames_ := pending_frames_ r ++ [frame] |>).
Definition forward_frame (w : DtlsChannel.write_result) (frame : bytes) (r : t) (c : DtlsChannel.t)
    : t * DtlsChannel.t :=
  if has_dtls r && DtlsChannel.is_ready c
  then (do_receive_local r, DtlsChannel.send w (packet r frame) c)
  else (queue_frame frame r, c).
Definition on_local (w : DtlsChannel.write_result) (m : option (Net.endpoint * bytes)) (r : t)
    (c : DtlsChannel.t) : outcome (t * DtlsChannel.t) :=
  p ← receive_local m r;
  mret (match p with (r, Some frame) => forward_frame w frame r c | (r, None) => (r, c) end).
End UdpRelay.

Module ClientServer.
(** [relays_] holds raw pointers: a handle is an address, [heap] the relay
    objects that exist.  Following a handle without an object is undefined. *)
Record t := Server {
  dtls_ : option DtlsChannel.t;
  channel : nat;                             (* its address *)
  next_session_id_ : Z;                      (* uint16_t *)
  relays_ : gmap Z nat;
  dtls_ready_ : bool;
  heap : gmap nat UdpRelay.t
}.
#[global] Instance eta_t : Eta t := fun r =>
  Server (dtls_ r) (channel r) (next_session_id_ r) (relays_ r) (dtls_ready_ r) (heap r).
Definition init : t := Server None 0 1 ∅ false ∅.

Definition has_dtls (s : t) : bool := bool_decide (is_Some (dtls_ s)).

(** [start_dtls], with the configuration values it uses.  The channel that was there
    is destroyed, the new one is at a new address *)
Definition start_dtls `{Net.AddressParser} (su : DtlsChannel.setup) (udp_enabled : bool)
    (remote_addr dtls_port remote_port text_password : bytes) (s : t) : outcome t :=
  if negb udp_enabled then mret s
  else
    p ← Decimal.stoi (if bool_decide (dtls_port = []) then remote_port else dtls_port);
    c ← DtlsChannel.make su remote_addr (u16 p) text_password;
    mret (s <| dtls_ := Some (DtlsChannel.start c) |> <| channel := S (channel s) |>).

(** [stop_dtls]'s posted function *)
Definition stop_dtls (s : t) : t := s <| dtls_ := None |> <| dtls_ready_ := false |>.

Definition allocate_session_id (s : t) : Z * t :=
  (next_session_id_ s, s <| next_session_id_ := u16 (next_session_id_ s + 1) |>).
Definition register_relay (sid : Z) (h : nat) (s : t) : t :=
  s <| relays_ := <[sid := h]> (relays_ s) |>.
Definition unregister_relay (sid : Z) (s : t) : t :=
  s <| relays_ := delete sid (relays_ s) |>.

(** the channel at an address, if it still exists *)
Definition channel_at (a : nat) (s : t) : option DtlsChannel.t :=
  if bool_decide (a = channel s) then dtls_ s else None.
(** the channel a relay's pointer leads to, if it still exists *)
Definition channel_of (r : UdpRelay.t) (s : t) : option DtlsChannel.t :=
  if bool_decide (UdpRelay.dtls_ r = Some (channel s)) then dtls_ s else None.

(** the callback [on_handshake(true)]: every registered relay is flushed *)
Fixpoint flush_all (w : bytes → DtlsChannel.write_result) (hs : list nat) (s : t) : outcome t :=
  match hs with
  | [] => mret s
  | h :: hs =>
      match heap s !! h with
      | Some r =>
          match channel_of r s with
          | Some c =>
              let '(r, c) := UdpRelay.flush_pending w r c in
              flush_all w hs (s <| heap := <[h := r]> (heap s) |> <| dtls_ := Some c |>)
          | None => if UdpRelay.has_dtls r then Undef else flush_all w hs s
          end
      | None => Undef
      end
  end.
Definition on_handshake (w : bytes → DtlsChannel.write_result) (ok : bool) (s : t) : outcome t :=
  if ok then flush_all w (map_to_list (relays_ s)).*2 (s <| dtls_ready_ := true |>) else mret s.

(** [on_dtls_data] *)
Definition on_dtls_data (data : bytes) (s : t) : outcome t :=
  if len data <? 2 then mret s
  else
    d0 ← vec_at data 0; d1 ← vec_at data 1;
    match relays_ s !! be16 d0 d1 with
    | Some h =>
        match heap s !! h with
        | Some r =>
            r ← UdpRelay.on_dtls_data (drop 2 data) r;
            mret (s <| heap := <[h := r]> (heap s) |>)
        | None => Undef
        end
    | None => mret s
    end.

(** a datagram for relay [h]; a relay its session has released has stopped *)
Definition on_local (w : DtlsChannel.write_result) (m : option (Net.endpoint * bytes)) (h : nat)
    (s : t) : outcome t :=
  match heap s !! h with
  | None => mret s
  | Some r =>
      '(r, frame) ← UdpRelay.receive_local m r;
      match frame with
      | None => mret (s <| heap := <[h := r]> (heap s) |>)
      | Some frame =>
          match channel_of r s with
          | Some c =>
              let '(r, c) := UdpRelay.forward_frame w frame r c in
              mret (s <| heap := <[h := r]> (heap s) |> <| dtls_ := Some c |>)
          | None => if UdpRelay.has_dtls r then Undef
                    else mret (s <| heap := <[h := UdpRelay.queue_frame frame r]> (heap s) |>)
          end
      end
  end.

(** What [Session::do_handle_socks5_udp_associate] does to the server when DTLS
    is available: an id, a new relay at a free address [h] bound to [port],
    started and registered. *)
Definition associate (h : nat) (port : Z) (s : t) : Z * t :=
  let '(sid, s) := allocate_session_id s in
  let relay := UdpRelay.start (channel s) sid (UdpRelay.make port) in
  (sid, register_relay sid h (s <| heap := <[h := relay]> (heap s) |>)).

(** What [Session::destroy] does to it: [if (session_id_)] it unregisters, then
    it stops and releases its relay. *)
Definition release (sid : Z) (h : nat) (s : t) : t :=
  let s := if negb (sid =? 0) then unregister_relay sid s else s in
  s <| heap := delete h (heap s) |>.

(** ** Histories of associations *)
(** the associations that exist, by handle *)
Inductive op := Associate (h : nat) (port : Z) | Release (h : nat).
Record world := World { server : t; assocs : gmap nat Z; opened : nat }.
Definition world_init : world := World init ∅ 0.

Definition step (w : world) (o : op) : option world :=
  match o with
  | Associate h port =>
      match assocs w !! h with
      | Some _ => None                        (* an address in use is not given out *)
      | None =>
          let '(sid, s) := associate h port (server w) in
          Some (World s (<[h := sid]> (assocs w)) (S (opened w)))
      end
  | Release h =>
      sid ← assocs w !! h;
      Some (World (release sid h (server w)) (delete h (assocs w)) (opened w))
  end.
Fixpoint exec (ops : list op) (w : world) : option world :=
  match ops with [] => Some w | o :: ops => w ← step w o; exec ops w end.
End ClientServer.

(** * Properties *)
Section Table.
Import ClientServer.

(** every association has its own id, the table leads from the id to its relay,
    and the table holds nothing else *)
Record table_ok (w : world) : Prop := TableOk {
  tb_next : next_session_id_ (server w) = u16 (Z.of_nat (opened w) + 1);
  tb_ids : map_Forall (λ _ sid, 1 <= sid <= Z.of_nat (opened w)) (assocs w);
  tb_relays : ∀ sid h, relays_ (server w) !! sid = Some h ↔ assocs w !! h = Some sid;
  tb_heap : map_Forall (λ h sid, ∃ r, heap (server w) !! h = Some r ∧
                          UdpRelay.session_id_ r = sid) (assocs w)
}.

Lemma table_ok_init : table_ok world_init.
Proof.
  split; [reflexivity|apply map_Forall_empty| |apply map_Forall_empty].
  intros sid h. cbn. by rewrite !lookup_empty.
Qed.

Lemma table_ok_associate h port w w' :
  table_ok w → Z.of_nat (opened w) + 1 < 2 ^ 16 →
  ClientServer.step w (Associate h port) = Some w' → table_ok w'.
Proof.
  intros [Hn Hi Hr Hh] Hfew. cbn. destruct (assocs w !! h) eqn:E; [done|]. intros [= <-].
  rewrite u16_small in Hn by lia.
  assert (∀ sid', relays_ (server w) !! sid' = Some h → False) as Hfresh
    by (intros sid' H%Hr; congruence).
  assert (relays_ (server w) !! (Z.of_nat (opened w) + 1) = None) as Hnew.
  { destruct (relays_ _ !! _) as [h'|] eqn:E'; [|done]. apply Hr, Hi in E'. lia. }
  split; cbn.
  - rewrite Hn. f_equal. lia.
  - apply map_Forall_insert_2; [rewrite Hn; lia|].
    eapply map_Forall_impl; [exact Hi|]. intros ? ? H. cbn in H |- *. lia.
  - intros sid' h'. rewrite Hn.
    destruct (decide (sid' = Z.of_nat (opened w) + 1)) as [->|Hne].
    + rewrite lookup_insert_eq. split; [intros [= <-]; apply lookup_insert_eq|].
      rewrite lookup_insert_Some. intros [[-> _]|[_ H%Hr]]; [done|congruence].
    + rewrite lookup_insert_ne by done. rewrite Hr, lookup_insert_Some.
      split; [intros H; right; split; [congruence|done]|]. intros [[_ ?]|[_ ?]]; [congruence|done].
  - apply map_Forall_insert_2; [by eexists; split; [apply lookup_insert_eq|]|].
    intros h' sid' H'. destruct (Hh h' sid' H') as (r & ? & ?). exists r.
    rewrite lookup_insert_ne by congruence. done.
Qed.

Lemma table_ok_release h w w' :
  table_ok w → ClientServer.step w (Release h) = Some w' → table_ok w'.
Proof.
  intros [Hn Hi Hr Hh]. cbn. destruct (assocs w !! h) as [sid|] eqn:E; [|done]. intros [= <-].
  unfold release. pose proof (Hi h sid E) as Hpos. cbn in Hpos.
  rewrite (proj2 (Z.eqb_neq sid 0)) by lia. cbn. split; cbn.
  - done.
  - by apply map_Forall_delete.
  - intros sid' h'. rewrite !lookup_delete_Some, Hr. split.
    + intros [Hne H]. split; [intros ->; congruence|done].
    + intros [Hne H]. split; [|done]. intros ->. apply Hr in E, H. congruence.
  - intros h' sid' [Hne H]%lookup_delete_Some. destruct (Hh h' sid' H) as (r & ? & ?).
    exists r. by rewrite lookup_delete_ne.
Qed.

Lemma step_opened w o w' :
  ClientServer.step w o = Some w' →
  (opened w <= opened w')%nat ∧
  (next_session_id_ (server w) = u16 (Z.of_nat (opened w) + 1) →
   next_session_id_ (server w') = u16 (Z.of_nat (opened w') + 1)).
Proof.
  destruct o as [h port|h]; cbn; destruct (assocs w !! h) as [sid|]; try done; intros [= <-]; cbn.
  - split; [lia|]. intros ->. unfold u16. rewrite Zplus_mod_idemp_l. f_equal. lia.
  - split; [lia|]. unfold release. by destruct (negb _).
Qed.

Lemma exec_opened ops w w' :
  ClientServer.exec ops w = Some w' →
  (opened w <= opened w')%nat ∧
  (next_session_id_ (server w) = u16 (Z.of_nat (opened w) + 1) →
   next_session_id_ (server w') = u16 (Z.of_nat (opened w') + 1)).
Proof.
  revert w. induction ops as [|o ops IH]; intros w; cbn; [by intros [= <-]|].
  destruct (ClientServer.step w o) as [w1|] eqn:E; [|done]. cbn. intros H.
  destruct (step_opened w o w1 E), (IH w1 H). split; [lia|auto].
Qed.

Lemma exec_table_ok ops w w' :
  table_ok w → ClientServer.exec ops w = Some w' → Z.of_nat (opened w') < 2 ^ 16 → table_ok w'.
Proof.
  revert w. induction ops as [|o ops IH]; intros w Hok; cbn; [by intros [= <-]|].
  destruct (ClientServer.step w o) as [w1|] eqn:E; [|done]. cbn. intros H Hfew.
  destruct (exec_opened ops w1 w' H) as [Hm _].
  apply (IH w1); [|done|done]. destruct o as [h port|h].
  - eapply table_ok_associate; [done| |exact E].
    cbn in E. destruct (assocs w !! h); [done|]. injection E as <-. cbn in Hm. lia.
  - by eapply table_ok_release.
Qed.

(** The first 65535 associations are kept apart.  After any sequence of
    openings and closings with at most 65535 openings, every open association
    has an id of its own under which the table leads to its live relay, and the
    table leads nowhere else; so a datagram from the server never follows a
    dangling pointer. *)
Lemma relay_table_sound ops w :
  ClientServer.exec ops world_init = Some w → Z.of_nat (opened w) < 2 ^ 16 →
  (∀ h sid, assocs w !! h = Some sid → relays_ (server w) !! sid = Some h) ∧
  (∀ sid h, relays_ (server w) !! sid = Some h →
     assocs w !! h = Some sid ∧
     ∃ r, heap (server w) !! h = Some r ∧ UdpRelay.session_id_ r = sid) ∧
  (∀ h1 h2 sid, assocs w !! h1 = Some sid → assocs w !! h2 = Some sid → h1 = h2).
Proof.
  intros H Hfew. destruct (exec_table_ok ops _ _ table_ok_init H Hfew) as [_ _ Hr Hh].
  split_and!.
  - intros h sid. apply Hr.
  - intros sid h Hl. apply Hr in Hl. split; [done|]. by apply Hh.
  - intros h1 h2 sid H1 H2. apply Hr in H1, H2. congruence.
Qed.

(** The 65536th association breaks the table.  [next_session_id_] has
    wrapped to 0, and [Session::destroy] takes the id 0 for "no association":
    the relay is destroyed but stays registered.  From then on every datagram
    the server tags with 0, its tag for senders it does not know, makes the
    client follow a dangling pointer. *)
Lemma session_id_zero_dangles ops w h port :
  ClientServer.exec ops world_init = Some w → Z.of_nat (opened w) = 65535 →
  assocs w !! h = None →
  ∃ w1 w2, ClientServer.step w (Associate h port) = Some w1 ∧ assocs w1 !! h = Some 0 ∧
    ClientServer.step w1 (Release h) = Some w2 ∧
    ∀ frame, on_dtls_data (DtlsServerSession.with_session_id 0 frame) (server w2) = Undef.
Proof.
  intros H Hmany Hfree. destruct (exec_opened ops _ _ H) as [_ Hn].
  specialize (Hn eq_refl). rewrite Hmany in Hn. change (u16 (65535 + 1)) with 0 in Hn.
  cbn [ClientServer.step]. rewrite Hfree. unfold associate. cbn. rewrite Hn.
  do 2 eexists. split; [reflexivity|]. cbn. rewrite lookup_insert_eq. split; [done|].
  split; [reflexivity|]. intros frame. unfold on_dtls_data.
  rewrite (proj2 (Z.ltb_ge _ _)) by (unfold DtlsServerSession.with_session_id; len_lia). cbn.
  rewrite vec_at_0, vec_at_cons by lia. cbn. rewrite vec_at_0. cbn.
  change (be16 _ _) with 0. rewrite lookup_insert_eq.
  by rewrite lookup_delete_eq.
Qed.
End Table.

(** ** A datagram's way through the client *)
(** a SOCKS5 datagram of an application for an IPv4 endpoint *)
Definition app_datagram (ep : Net.endpoint) (pl : bytes) : bytes :=
  Socks5.UdpRequest.serialize
    (Socks5.UdpRequest.Req 0 0 0 (if Net.is_v4 (Net.ep_address ep) then 1 else 4)
       (Net.to_bytes (Net.ep_address ep)) (Net.ep_port ep) pl).
Definition app_domain_datagram (domain : bytes) (port : Z) (pl : bytes) : bytes :=
  Socks5.UdpRequest.serialize (Socks5.UdpRequest.Req 0 0 0 3 domain port pl).

Lemma app_datagram_parse ep pl :
  Net.endpoint_wf ep → len pl < 2 ^ 62 →
  Socks5.UdpRequest.parse Socks5.UdpRequest.init (app_datagram ep pl) =
  Ret (Socks5.UdpRequest.Req 0 0 0 (if Net.is_v4 (Net.ep_address ep) then 1 else 4)
         (Net.to_bytes (Net.ep_address ep)) (Net.ep_port ep) pl, true).
Proof.
  intros [Ha Hp] Hpl. apply Socks5.UdpRequestFacts.request_roundtrip; [|done].
  unfold Net.address_wf in Ha. split_and!; try done; cbn; [lia..|].
  unfold len. rewrite Ha. destruct (Net.is_v4 _); [by left|by right; right].
Qed.

Lemma dest_endpoint_app ep pl :
  Net.endpoint_wf ep →
  Socks5.UdpRequest.dest_endpoint
    (Socks5.UdpRequest.Req 0 0 0 (if Net.is_v4 (Net.ep_address ep) then 1 else 4)
       (Net.to_bytes (Net.ep_address ep)) (Net.ep_port ep) pl) = Ret ep.
Proof.
  destruct ep as [[b|b] p]; intros [Ha _]; unfold Net.address_wf in Ha; cbn in Ha;
    pose proof (Socks5.UdpRequestFacts.copy_mid [] b [Byte.x00] 0 (len b) eq_refl eq_refl) as Hc.
  - assert (len b = 4) as Hl by (unfold len; lia). rewrite Hl in Hc.
    unfold Socks5.UdpRequest.dest_endpoint. cbn in *. by rewrite Hc.
  - assert (len b = 16) as Hl by (unfold len; lia). rewrite Hl in Hc.
    unfold Socks5.UdpRequest.dest_endpoint. cbn in *. by rewrite Hc.
Qed.

Lemma len_app_datagram ep pl : 4 <= len (app_datagram ep pl).
Proof.
  unfold app_datagram, Socks5.UdpRequest.serialize. cbn.
  destruct (Net.is_v4 _); cbn; len_lia.
Qed.

(** the frame the relay makes of it *)
Lemma receive_app_datagram app ep pl r :
  Net.endpoint_wf ep → len pl < 2 ^ 62 → UdpRelay.running_ r = true →
  ∃ r1, UdpRelay.receive_local (Some (app, app_datagram ep pl)) r =
      Ret (r1, Some (UdpFrame.generate ep pl)) ∧
    UdpRelay.target_to_sender_ r1 !!
      UdpRelay.target_key (Net.to_bytes (Net.ep_address ep)) (Net.ep_port ep) = Some app ∧
    UdpRelay.running_ r1 = true ∧ UdpRelay.session_id_ r1 = UdpRelay.session_id_ r ∧
    UdpRelay.dtls_ r1 = UdpRelay.dtls_ r ∧ UdpRelay.pending_frames_ r1 = UdpRelay.pending_frames_ r.
Proof.
  intros Hep Hpl Hrun. unfold UdpRelay.receive_local. cbn. rewrite Hrun. cbn.
  rewrite (proj2 (Z.ltb_ge _ _)) by (pose proof (len_app_datagram ep pl); lia).
  rewrite app_datagram_parse by done. cbn [mbind outcome_bind].
  set (req := Socks5.UdpRequest.Req _ _ _ _ _ _ _).
  assert (Socks5.UdpRequest.addr_type req =? 3 = false) as ->
    by (subst req; cbn; by destruct (Net.is_v4 _)).
  subst req. rewrite dest_endpoint_app by done. eexists. split; [reflexivity|].
  cbn. rewrite lookup_insert_eq. by split_and!.
Qed.

Lemma forward_ready frame r c :
  UdpRelay.has_dtls r = true → DtlsChannel.ssl_ c = true → DtlsChannel.running_ c = true →
  DtlsChannel.is_ready c = true →
  UdpRelay.forward_frame DtlsChannel.Written frame r c =
    (UdpRelay.do_receive_local r,
     c <| DtlsChannel.sent := DtlsChannel.sent c ++ [UdpRelay.packet r frame] |>).
Proof.
  intros Hd Hssl Hcr Hready. unfold UdpRelay.forward_frame. rewrite Hd, Hready. cbn [andb].
  unfold DtlsChannel.send. unfold DtlsChannel.is_ready in Hready. by rewrite Hssl, Hcr, Hready.
Qed.

Lemma forward_cases w app ep pl r c :
  Net.endpoint_wf ep → len pl < 2 ^ 62 →
  UdpRelay.running_ r = true → UdpRelay.has_dtls r = true →
  DtlsChannel.ssl_ c = true → DtlsChannel.running_ c = true → w = DtlsChannel.Written →
  ∃ r' c', UdpRelay.on_local w (Some (app, app_datagram ep pl)) r c = Ret (r', c') ∧
    UdpRelay.target_to_sender_ r' !!
      UdpRelay.target_key (Net.to_bytes (Net.ep_address ep)) (Net.ep_port ep) = Some app ∧
    UdpRelay.running_ r' = true ∧ UdpRelay.session_id_ r' = UdpRelay.session_id_ r ∧
    if DtlsChannel.is_ready c
    then DtlsChannel.sent c' = DtlsChannel.sent c ++
           [DtlsServerSession.with_session_id (UdpRelay.session_id_ r) (UdpFrame.generate ep pl)] ∧
         UdpRelay.pending_frames_ r' = UdpRelay.pending_frames_ r
    else c' = c ∧
         UdpRelay.pending_frames_ r' = UdpRelay.pending_frames_ r ++ [UdpFrame.generate ep pl].
Proof.
  intros Hep Hpl Hrun Hd Hssl Hcr ->. unfold UdpRelay.on_local.
  destruct (receive_app_datagram app ep pl r Hep Hpl Hrun) as (r1 & -> & Hk & Hr1 & <- & Hd1 & Hp).
  cbn [mbind outcome_bind]. assert (UdpRelay.has_dtls r1 = true) as Hd'
    by by unfold UdpRelay.has_dtls in *; rewrite Hd1.
  destruct (DtlsChannel.is_ready c) eqn:Hready.
  - rewrite forward_ready by done. do 2 eexists. by split_and!.
  - unfold UdpRelay.forward_frame. rewrite Hready, andb_false_r. do 2 eexists. split; [reflexivity|].
    split_and!; try done. by rewrite <-Hp.
Qed.

(** An application's datagram goes out framed and tagged.  When the channel
    is ready, a SOCKS5 datagram for an IPv4 or IPv6 endpoint makes the relay
    send the server the frame of exactly that endpoint and payload under the
    association's id, and remember the application for the reply; before the
    handshake is done the frame is queued instead, and nothing is lost. *)
Lemma relay_forwards_datagram sid w app ep pl r c :
  Net.endpoint_wf ep → len pl < 2 ^ 62 →
  UdpRelay.running_ r = true → UdpRelay.has_dtls r = true → UdpRelay.session_id_ r = sid →
  DtlsChannel.ssl_ c = true → DtlsChannel.running_ c = true → w = DtlsChannel.Written →
  ∃ r' c', UdpRelay.on_local w (Some (app, app_datagram ep pl)) r c = Ret (r', c') ∧
    UdpRelay.target_to_sender_ r' !!
      UdpRelay.target_key (Net.to_bytes (Net.ep_address ep)) (Net.ep_port ep) = Some app ∧
    UdpRelay.running_ r' = true ∧ UdpRelay.session_id_ r' = sid ∧
    if DtlsChannel.is_ready c
    then DtlsChannel.sent c' = DtlsChannel.sent c ++
           [DtlsServerSession.with_session_id sid (UdpFrame.generate ep pl)] ∧
         UdpRelay.pending_frames_ r' = UdpRelay.pending_frames_ r
    else c' = c ∧
         UdpRelay.pending_frames_ r' = UdpRelay.pending_frames_ r ++ [UdpFrame.generate ep pl].
Proof. intros ? ? ? ? <- ? ? ?. by apply forward_cases. Qed.

(** what the relay makes of an answer of an endpoint *)
Lemma relay_reply ep answer r :
  Net.endpoint_wf ep → 7 + len (Net.to_bytes (Net.ep_address ep)) + len answer < 2 ^ 16 →
  UdpRelay.running_ r = true →
  ∃ r', UdpRelay.on_dtls_data (UdpFrame.generate ep answer) r = Ret r' ∧
    UdpRelay.to_app r' = UdpRelay.to_app r ++
      [(Socks5.UdpRequest.serialize (Socks5.UdpRequest.Req 0 0 0
          (if Net.is_v4 (Net.ep_address ep) then 1 else 6)
          (Net.to_bytes (Net.ep_address ep)) (Net.ep_port ep) answer),
        default (UdpRelay.sender_ep_ r) (UdpRelay.target_to_sender_ r !!
          UdpRelay.target_key (Net.to_bytes (Net.ep_address ep)) (Net.ep_port ep)))].
Proof.
  intros Hep Hfit Hrun. unfold UdpRelay.on_dtls_data. rewrite Hrun. cbn [negb].
  pose proof (UdpFrame.frame_roundtrip UdpFrame.init ep answer [] Hep Hfit) as Hparse.
  rewrite app_nil_r in Hparse. rewrite Hparse by done. cbn [mbind outcome_bind].
  set (req := Socks5.UdpRequest.init <| _ := _ |> <| _ := _ |> <| _ := _ |> <| _ := _ |>).
  assert (req = Socks5.UdpRequest.Req 0 0 0 (if Net.is_v4 (Net.ep_address ep) then 1 else 6)
                  (Net.to_bytes (Net.ep_address ep)) (Net.ep_port ep) answer) as Hreq.
  { subst req. cbn. by destruct (Net.is_v4 _). }
  rewrite Hreq. cbn [UdpFrame.address UdpFrame.port].
  destruct (UdpRelay.target_to_sender_ r !! _); eexists; (split; [reflexivity|]); done.
Qed.

(** IPv6 replies reach the application without an address.  The relay copies
    the frame's address type 6 into the SOCKS5 header, whose serialiser knows
    only the type 4: the header it writes has no address at all. *)
Lemma ipv6_reply_without_address ep answer r :
  Net.endpoint_wf ep → Net.is_v4 (Net.ep_address ep) = false → 23 + len answer < 2 ^ 16 →
  UdpRelay.running_ r = true →
  ∃ r' app, UdpRelay.on_dtls_data (UdpFrame.generate ep answer) r = Ret r' ∧
    UdpRelay.to_app r' = UdpRelay.to_app r ++
      [([Byte.x00; Byte.x00; Byte.x00; Byte.x06] ++ be16_bytes (Net.ep_port ep) ++ answer, app)].
Proof.
  intros Hep Hv6 Hfit Hrun.
  destruct (relay_reply ep answer r Hep) as (r' & Hr & Hout); [|done|].
  - destruct Hep as [Ha _]. unfold Net.address_wf in Ha. rewrite Hv6 in Ha. unfold len in *. lia.
  - rewrite Hv6 in Hout. eexists _, _. split; [exact Hr|]. rewrite Hout. done.
Qed.

(** ** The whole way *)
Lemma relay_forwards sid app ep pl r c :
  Net.endpoint_wf ep → len pl < 2 ^ 62 →
  UdpRelay.running_ r = true → UdpRelay.has_dtls r = true → UdpRelay.session_id_ r = sid →
  DtlsChannel.ssl_ c = true → DtlsChannel.running_ c = true → DtlsChannel.is_ready c = true →
  ∃ r' c', UdpRelay.on_local DtlsChannel.Written (Some (app, app_datagram ep pl)) r c
             = Ret (r', c') ∧
    UdpRelay.target_to_sender_ r' !!
      UdpRelay.target_key (Net.to_bytes (Net.ep_address ep)) (Net.ep_port ep) = Some app ∧
    UdpRelay.running_ r' = true ∧
    DtlsChannel.sent c' = DtlsChannel.sent c ++
      [DtlsServerSession.with_session_id sid (UdpFrame.generate ep pl)].
Proof.
  intros Hep Hpl Hrun Hd Hs Hssl Hcr Hready.
  destruct (forward_cases DtlsChannel.Written app ep pl r c) as (r' & c' & H & Hk & Hr & _ & Ho);
    try done. rewrite Hready in Ho. destruct Ho as [Ho _]. exists r', c'. by rewrite <-Hs.
Qed.

(** the table leads a tagged frame to its relay *)
Lemma deliver_to_relay sid frame h r r' cs :
  0 < sid < 2 ^ 16 → ClientServer.relays_ cs !! sid = Some h →
  UdpRelay.on_dtls_data frame r = Ret r' →
  ClientServer.on_dtls_data (DtlsServerSession.with_session_id sid frame)
    (cs <| ClientServer.heap := <[h := r]> (ClientServer.heap cs) |>) =
  Ret (cs <| ClientServer.heap := <[h := r']> (<[h := r]> (ClientServer.heap cs)) |>).
Proof.
  intros Hsid Hh Hr. unfold ClientServer.on_dtls_data.
  rewrite (proj2 (Z.ltb_ge _ _)) by (unfold DtlsServerSession.with_session_id; len_lia).
  unfold DtlsServerSession.with_session_id. cbn [app].
  rewrite vec_at_0, vec_at_cons, vec_at_0 by lia. cbn [mbind outcome_bind].
  rewrite be16_be16_bytes by lia. cbn. rewrite Hh, lookup_insert_eq, drop_0, Hr. done.
Qed.

(** C16: a UDP exchange over IPv4 works end to end.  An application's datagram
    for an endpoint makes the client's relay send the server a message that
    makes the server's session send exactly the payload to exactly that
    endpoint; and the message the session then writes for the endpoint's answer
    makes the client deliver the answer, from that endpoint's address, to the
    application that asked. *)
Theorem udp_exchange_end_to_end sid now app ep pl answer r c h cs s :
  0 < sid < 2 ^ 16 → Net.endpoint_wf ep → Net.is_v4 (Net.ep_address ep) = true →
  11 + len pl < 2 ^ 16 → 11 + len answer < 2 ^ 16 →
  UdpRelay.running_ r = true → UdpRelay.has_dtls r = true → UdpRelay.session_id_ r = sid →
  DtlsChannel.ssl_ c = true → DtlsChannel.running_ c = true → DtlsChannel.is_ready c = true →
  DtlsServerSession.ssl_ s = true → DtlsServerSession.state_ s = DtlsServerSession.PROXY →
  ClientServer.relays_ cs !! sid = Some h →
  ∃ r' c' request s' reply cs' r'',
    UdpRelay.on_local DtlsChannel.Written (Some (app, app_datagram ep pl)) r c = Ret (r', c') ∧
    DtlsChannel.sent c' = DtlsChannel.sent c ++ [request] ∧
    DtlsServerSession.on_proxy_data now request s = Ret s' ∧
    DtlsServerSession.pending s' =
      DtlsServerSession.pending s ++ [DtlsServerSession.SendTarget ep pl] ∧
    DtlsServerSession.sent
      (DtlsServerSession.on_target true (DtlsServerSession.From ep answer) s') =
      DtlsServerSession.sent s ++ [reply] ∧
    ClientServer.on_dtls_data reply
      (cs <| ClientServer.heap := <[h := r']> (ClientServer.heap cs) |>) = Ret cs' ∧
    ClientServer.heap cs' !! h = Some r'' ∧
    UdpRelay.to_app r'' = UdpRelay.to_app r' ++ [(app_datagram ep answer, app)].
Proof.
  intros Hsid Hep Hv4 Hfp Hfa Hrun Hd Hs Hssl Hcr Hready Hss Hst Hh.
  assert (len (Net.to_bytes (Net.ep_address ep)) = 4) as Hl.
  { destruct Hep as [Ha _]. unfold Net.address_wf in Ha. rewrite Hv4 in Ha. unfold len. lia. }
  destruct (relay_forwards sid app ep pl r c) as (r' & c' & H1 & Hkey & Hrun' & H2);
    try done; [len_lia|].
  assert (7 + len (Net.to_bytes (Net.ep_address ep)) + len pl < 2 ^ 16) as Hfp' by lia.
  destruct (DtlsServerSession.send_to_target_routes ep sid pl s ltac:(lia))
    as (Hm & Hp & E1 & E2 & E3 & _).
  destruct (relay_reply ep answer r' Hep) as (r'' & Hr'' & Hout); [lia|done|].
  exists r', c'. eexists _, _, (DtlsServerSession.with_session_id sid (UdpFrame.generate ep answer)).
  eexists _, r''. split; [exact H1|]. split; [exact H2|].
  split; [by apply DtlsServerSession.proxy_endpoint_frame|]. split; [exact Hp|].
  split; [by rewrite DtlsServerSession.target_reply, Hm, E3 by congruence|].
  split; [|split].
  - by apply (deliver_to_relay sid (UdpFrame.generate ep answer) h r' r'').
  - cbn. apply lookup_insert_eq.
  - rewrite Hout, Hkey. unfold app_datagram. by rewrite Hv4.
Qed.

Lemma relay_forwards_domain app d port pl r c :
  len d < 256 → 0 <= port < 2 ^ 16 → len pl < 2 ^ 62 →
  UdpRelay.running_ r = true → UdpRelay.has_dtls r = true →
  DtlsChannel.ssl_ c = true → DtlsChannel.running_ c = true → DtlsChannel.is_ready c = true →
  ∃ r' c', UdpRelay.on_local DtlsChannel.Written (Some (app, app_domain_datagram d port pl)) r c
             = Ret (r', c') ∧
    DtlsChannel.sent c' = DtlsChannel.sent c ++
      [DtlsServerSession.with_session_id (UdpRelay.session_id_ r)
         (UdpFrame.generate_domain d port pl)].
Proof.
  intros Hd Hp Hpl Hrun Hdt Hssl Hcr Hready.
  assert (4 <= len (app_domain_datagram d port pl)) as Hlen
    by (unfold app_domain_datagram, Socks5.UdpRequest.serialize; cbn; len_lia).
  assert (Socks5.UdpRequest.parse Socks5.UdpRequest.init (app_domain_datagram d port pl) =
          Ret (Socks5.UdpRequest.Req 0 0 0 3 d port pl, true)) as Hparse.
  { apply Socks5.UdpRequestFacts.request_roundtrip; [|done].
    split_and!; try done; cbn; [lia..|]. right. by left. }
  generalize dependent (app_domain_datagram d port pl). intros data Hlen Hparse.
  unfold UdpRelay.on_local, UdpRelay.receive_local. cbn. rewrite Hrun. cbn. rewrite (proj2 (Z.ltb_ge _ _)) by lia.
  rewrite Hparse. cbn [mbind outcome_bind mret outcome_ret Z.eqb Pos.eqb Socks5.UdpRequest.addr_type].
  rewrite forward_ready by done. by do 2 eexists.
Qed.

(** A datagram for a domain name loses its first byte on the way.  What the
    client sends for it makes the server forward the payload without its first
    byte, and for an empty payload the server's frame parser throws. *)
Lemma domain_datagram_truncated now app d port pl r c s :
  len d < 256 → 0 <= port < 2 ^ 16 → 8 + len d + len pl < 2 ^ 16 →
  0 < UdpRelay.session_id_ r < 2 ^ 16 →
  UdpRelay.running_ r = true → UdpRelay.has_dtls r = true →
  DtlsChannel.ssl_ c = true → DtlsChannel.running_ c = true → DtlsChannel.is_ready c = true →
  ∃ r' c' request,
    UdpRelay.on_local DtlsChannel.Written (Some (app, app_domain_datagram d port pl)) r c
      = Ret (r', c') ∧
    DtlsChannel.sent c' = DtlsChannel.sent c ++ [request] ∧
    DtlsServerSession.on_proxy_data now request s =
      match pl with
      | [] => Throw length_error
      | _ :: rest => Ret (DtlsServerSession.do_resolve_and_send now d port rest
                            (UdpRelay.session_id_ r) s)
      end.
Proof.
  intros Hd Hp Hfit Hsid Hrun Hdt Hssl Hcr Hready.
  destruct (relay_forwards_domain app d port pl r c) as (r' & c' & H1 & H2); try done; [len_lia|].
  eexists _, _, _. split; [exact H1|]. split; [exact H2|].
  set (sid := UdpRelay.session_id_ r) in *. unfold DtlsServerSession.on_proxy_data.
  destruct (DtlsServerSession.session_id_read sid (UdpFrame.generate_domain d port pl))
    as (E0 & E1 & E2 & E3); [lia|].
  rewrite (proj2 (Z.ltb_ge _ _)) by (unfold DtlsServerSession.with_session_id; len_lia).
  rewrite E0, E1, E3. cbn [mbind outcome_bind]. rewrite E2.
  pose proof (UdpFrame.domain_frame_parsed UdpFrame.init d port pl [] Hp Hd Hfit eq_refl) as Hparse.
  rewrite app_nil_r in Hparse. rewrite Hparse. by destruct pl.
Qed.

(** Nothing queued before the handshake is lost.  Once the channel is ready,
    flushing a relay sends every queued frame, in the order of arrival, under the
    relay's id, and empties the queue. *)
Lemma flush_sends_queue r c :
  UdpRelay.has_dtls r = true → DtlsChannel.ssl_ c = true → DtlsChannel.running_ c = true →
  DtlsChannel.is_ready c = true →
  let '(r', c') := UdpRelay.flush_pending (λ _, DtlsChannel.Written) r c in
  DtlsChannel.sent c' = DtlsChannel.sent c ++
    (DtlsServerSession.with_session_id (UdpRelay.session_id_ r) <$> UdpRelay.pending_frames_ r) ∧
  UdpRelay.pending_frames_ r' = [] ∧ DtlsChannel.is_ready c' = true.
Proof.
  intros Hd Hssl Hrun Hready. unfold UdpRelay.flush_pending. rewrite Hd, Hready. cbn.
  assert (∀ frames r c, UdpRelay.pending_frames_ r = frames → DtlsChannel.ssl_ c = true →
    DtlsChannel.running_ c = true → DtlsChannel.is_ready c = true →
    let '(r', c') := UdpRelay.flush (λ _, DtlsChannel.Written) frames r c in
    DtlsChannel.sent c' = DtlsChannel.sent c ++
      (DtlsServerSession.with_session_id (UdpRelay.session_id_ r) <$> frames) ∧
    UdpRelay.pending_frames_ r' = [] ∧ DtlsChannel.is_ready c' = true) as Hflush;
    [|by apply Hflush].
  clear. intros frames. induction frames as [|f frames IH]; intros r c Hf Hssl Hrun Hready; cbn.
  { by rewrite app_nil_r. }
  unfold DtlsChannel.send at 1. unfold DtlsChannel.is_ready in Hready.
  rewrite Hssl, Hrun, Hready. cbn.
  specialize (IH (r <| UdpRelay.pending_frames_ := frames |>)
    (c <| DtlsChannel.sent := DtlsChannel.sent c ++ [UdpRelay.packet r f] |>)
    eq_refl Hssl Hrun Hready).
  destruct (UdpRelay.flush _ _ _ _) as [r' c']. destruct IH as (-> & ? & ?).
  cbn. by rewrite <-app_assoc.
Qed.

(** ** Concrete associations *)
Section Demo.
Import ClientServer.
(** 65535 applications come and go *)
Definition many : list ClientServer.op :=
  mjoin (replicate (Z.to_nat 65535) [Associate 0 4000; Release 0]).
Definition after_many : world := default world_init (ClientServer.exec many world_init).
Lemma many_runs : ClientServer.exec many world_init = Some after_many.
Proof.
  unfold after_many. destruct (ClientServer.exec many world_init) as [w|] eqn:E; [done|].
  exfalso. assert (bool_decide (is_Some (ClientServer.exec many world_init)) = true) as H
    by (vm_compute; reflexivity).
  rewrite E in H. discriminate H.
Qed.
Lemma many_opened : Z.of_nat (opened after_many) = 65535.
Proof. vm_compute. reflexivity. Qed.
Lemma many_closed : assocs after_many !! 7%nat = None.
Proof. vm_compute. reflexivity. Qed.

Lemma session_id_zero_dangles_witness :
  ∃ w1 w2, ClientServer.step after_many (Associate 7 4000) = Some w1 ∧
    assocs w1 !! 7%nat = Some 0 ∧ ClientServer.step w1 (Release 7) = Some w2 ∧
    ∀ frame, on_dtls_data (DtlsServerSession.with_session_id 0 frame) (server w2) = Undef.
Proof. exact (session_id_zero_dangles many after_many 7 4000 many_runs many_opened many_closed). Defined.

Definition two_ops : list ClientServer.op :=
  [Associate 3 4000; Associate 5 4001; Release 3; Associate 3 4002].
Definition two : world := default world_init (ClientServer.exec two_ops world_init).
Lemma two_runs : ClientServer.exec two_ops world_init = Some two.
Proof. vm_compute. reflexivity. Qed.
Lemma relay_table_sound_witness :
  assocs two !! 3%nat = Some 3 ∧ relays_ (server two) !! 3 = Some 3%nat.
Proof.
  assert (assocs two !! 3%nat = Some 3) as H by (vm_compute; reflexivity).
  exact (conj H (proj1 (relay_table_sound two_ops two two_runs ltac:(vm_compute; reflexivity))
           3%nat 3 H)).
Defined.
End Demo.

Definition demo_channel : DtlsChannel.t :=
  DtlsChannel.object true Net.no_endpoint (lit "pw") <| DtlsChannel.handshake_done_ := true |>
    <| DtlsChannel.running_ := true |>.
Definition demo_relay : UdpRelay.t := UdpRelay.start 0 7 (UdpRelay.make 4000).
Definition demo_app : Net.endpoint :=
  Net.Endpoint (Net.address_v4 [Byte.x7f; Byte.x00; Byte.x00; Byte.x01]) 5000.
Definition demo_v6 : Net.endpoint :=
  Net.Endpoint (Net.address_v6 (replicate 15 Byte.x00 ++ [Byte.x01])) 53.
Definition demo_cs : ClientServer.t :=
  ClientServer.init <| ClientServer.relays_ := {[ 7 := 1%nat ]} |>.

Lemma relay_forwards_datagram_witness :
  ∃ r' c', UdpRelay.on_local DtlsChannel.Written
      (Some (demo_app, app_datagram DtlsServerSession.demo_target (lit "q"))) demo_relay demo_channel
      = Ret (r', c') ∧
    UdpRelay.target_to_sender_ r' !!
      UdpRelay.target_key [Byte.x08; Byte.x08; Byte.x08; Byte.x08] 53 = Some demo_app ∧
    UdpRelay.running_ r' = true ∧ UdpRelay.session_id_ r' = 7 ∧
    DtlsChannel.sent c' = [] ++ [DtlsServerSession.with_session_id 7
      (UdpFrame.generate DtlsServerSession.demo_target (lit "q"))] ∧
    UdpRelay.pending_frames_ r' = [].
Proof.
  exact (relay_forwards_datagram 7 DtlsChannel.Written demo_app DtlsServerSession.demo_target
    (lit "q") demo_relay demo_channel DtlsServerSession.demo_target_wf eq_refl eq_refl eq_refl
    eq_refl eq_refl eq_refl eq_refl).
Defined.

Lemma ipv6_reply_without_address_witness :
  ∃ r' app, UdpRelay.on_dtls_data (UdpFrame.generate demo_v6 (lit "a")) demo_relay = Ret r' ∧
    UdpRelay.to_app r' = [] ++
      [([Byte.x00; Byte.x00; Byte.x00; Byte.x06] ++ be16_bytes 53 ++ lit "a", app)].
Proof.
  apply (ipv6_reply_without_address demo_v6 (lit "a") demo_relay);
    [split; [reflexivity|cbn; lia]|reflexivity|reflexivity|reflexivity].
Defined.

Lemma udp_exchange_end_to_end_witness :
  ∃ r' c' request s' reply cs' r'',
    UdpRelay.on_local DtlsChannel.Written
      (Some (demo_app, app_datagram DtlsServerSession.demo_target (lit "q"))) demo_relay demo_channel
      = Ret (r', c') ∧
    DtlsChannel.sent c' = [] ++ [request] ∧
    DtlsServerSession.on_proxy_data 2 request DtlsServerSession.demo_proxy = Ret s' ∧
    DtlsServerSession.pending s' = DtlsServerSession.pending DtlsServerSession.demo_proxy ++
      [DtlsServerSession.SendTarget DtlsServerSession.demo_target (lit "q")] ∧
    DtlsServerSession.sent (DtlsServerSession.on_target true
      (DtlsServerSession.From DtlsServerSession.demo_target (lit "a")) s') =
      DtlsServerSession.sent DtlsServerSession.demo_proxy ++ [reply] ∧
    ClientServer.on_dtls_data reply
      (demo_cs <| ClientServer.heap := <[1%nat := r']> (ClientServer.heap demo_cs) |>) = Ret cs' ∧
    ClientServer.heap cs' !! 1%nat = Some r'' ∧
    UdpRelay.to_app r'' = UdpRelay.to_app r' ++
      [(app_datagram DtlsServerSession.demo_target (lit "a"), demo_app)].
Proof.
  apply (udp_exchange_end_to_end 7 2 demo_app DtlsServerSession.demo_target (lit "q") (lit "a")
    demo_relay demo_channel 1 demo_cs DtlsServerSession.demo_proxy);
    first [lia|exact DtlsServerSession.demo_target_wf|vm_compute; reflexivity].
Defined.

Lemma domain_datagram_truncated_witness :
  ∃ r' c' request,
    UdpRelay.on_local DtlsChannel.Written
      (Some (demo_app, app_domain_datagram (lit "dns.google") 53 (lit "query"))) demo_relay
      demo_channel = Ret (r', c') ∧
    DtlsChannel.sent c' = [] ++ [request] ∧
    DtlsServerSession.on_proxy_data 2 request DtlsServerSession.demo_proxy =
      Ret (DtlsServerSession.do_resolve_and_send 2 (lit "dns.google") 53 (lit "uery") 7
             DtlsServerSession.demo_proxy).
Proof.
  apply (domain_datagram_truncated 2 demo_app (lit "dns.google") 53 (lit "query") demo_relay
           demo_channel DtlsServerSession.demo_proxy);
    first [split; reflexivity|lia|reflexivity].
Defined.

Definition demo_queue : UdpRelay.t := demo_relay <| UdpRelay.pending_frames_ := [lit "a"; lit "b"] |>.
Lemma flush_sends_queue_witness :
  let '(r', c') := UdpRelay.flush_pending (λ _, DtlsChannel.Written) demo_queue demo_channel in
  DtlsChannel.sent c' = DtlsChannel.sent demo_channel ++
    (DtlsServerSession.with_session_id 7 <$> [lit "a"; lit "b"]) ∧
  UdpRelay.pending_frames_ r' = [] ∧ DtlsChannel.is_ready c' = true.
Proof.
  exact (flush_sends_queue demo_queue demo_channel eq_refl eq_refl eq_refl eq_refl).
Defined.
