(* ===== verification/DtlsChannelProps.v ===== *)
(** DtlsChannelProps: what the client's DTLS channel (src/Shared/DtlsChannel.cpp)
    promises to its owner, over any history of its handlers. *)
From S2P Require Import Prelude Net ClientUdp.

Module DtlsChannelProps.
Import DtlsChannel.

(** A handler runs, the timer's wait ends, or the owner calls [send] or [stop].
    Posted calls and handlers of waits may run at any time here, whether they have
    been posted or not: more histories than there are. *)
Inductive event :=
  | Posted (h : handshake_result) (w : write_result)
  | Expire
  | Timer (k : timer) (h : handshake_result) (w : write_result)
  | Receive (failed : bool) (r : read_result)
  | Send (w : write_result) (data : bytes)
  | Stop.

Definition handle (ev : event) (c : t) : t * option callback :=
  match ev with
  | Posted h w => do_handshake h w c
  | Expire => (expire c, None)
  | Timer k h w => on_timer k h w c
  | Receive failed r => match receiving c with O => (c, None) | S _ => on_receive failed r c end
  | Send w data => (send w data c, None)
  | Stop => (stop c, None)
  end.
(** a history, and the callbacks it made, in order *)
Definition run (es : list event) (c : t) : t * list callback :=
  foldl (λ '(c, cbs) ev, let '(c, cb) := handle ev c in (c, cbs ++ option_list cb)) (c, []) es.

(** what the owner asked to send, and whether [SSL_write] took all it was given *)
Definition given (es : list event) : list bytes :=
  omap (λ ev, match ev with Send _ data => Some data | _ => None end) es.
Definition writes (ev : event) : bool :=
  match ev with
  | Posted _ w | Timer _ _ w | Send w _ => match w with Written => true | _ => false end
  | _ => true
  end.
Definition auth_line (c : t) : bytes := password_ c ++ [z2b 10].
Definition is_data (cb : callback) : Prop := match cb with OnData _ => True | _ => False end.

Record before (c : t) (cbs : list callback) : Prop := Before {
  bf_done : handshake_done_ c = false;
  bf_sent : sent c = [];
  bf_cbs : Forall (λ cb, cb = OnHandshake false) cbs
}.
(** [ok]: every write was taken *)
Record after (ok : bool) (c : t) (cbs : list callback) (ds : list bytes) : Prop := After {
  af_done : handshake_done_ c = true;
  af_sent : ∃ auth frames, sent c = auth ++ frames ∧ frames `sublist_of` ds ∧
    (auth = [auth_line c] ∨ ok = false ∧ auth = []);
  af_cbs : ∃ failures later, cbs = failures ++ OnHandshake true :: later ∧
    Forall (λ cb, cb = OnHandshake false) failures ∧ Forall is_data later
}.
Definition inv (ok : bool) (p : bytes) (c : t) (cbs : list callback) (ds : list bytes) : Prop :=
  password_ c = p ∧ (before c cbs ∨ after ok c cbs ds).

(** ** Every handler keeps the invariant *)
Lemma inv_same ok p c c' cbs ds :
  handshake_done_ c' = handshake_done_ c → sent c' = sent c → password_ c' = password_ c →
  inv ok p c cbs ds → inv ok p c' cbs ds.
Proof.
  intros E1 E2 E3 [Hp [[H1 H2 H3]|[H1 H2 H3]]]; split; rewrite ?E3; try done; [left|right];
    split; unfold auth_line in *; rewrite ?E1, ?E2, ?E3; done.
Qed.
Lemma inv_receive ok p c cbs ds : inv ok p c cbs ds → inv ok p (do_receive c) cbs ds.
Proof. unfold do_receive. destruct (running_ c); [by apply inv_same|done]. Qed.
Lemma inv_weaken ok b p c cbs ds ds' :
  ds `sublist_of` ds' → inv ok p c cbs ds → inv (ok && b) p c cbs ds'.
Proof.
  intros Hds [Hp [Hb|[H1 (auth & frames & Hs & Hf & Ha) H3]]]; (split; [done|]); [by left|].
  right. split; [done| |done]. exists auth, frames. split_and!; [done|by etrans|].
  destruct Ha as [?|[-> ->]]; auto.
Qed.

Lemma inv_send ok p w data c cbs ds :
  inv ok p c cbs ds → inv (ok && writes (Send w data)) p (send w data c) cbs (ds ++ [data]).
Proof.
  intros Hi. assert (inv (ok && writes (Send w data)) p c cbs (ds ++ [data])) as Hw.
  { eapply inv_weaken; [|exact Hi]. by apply sublist_inserts_r. }
  unfold send. destruct (negb (ssl_ c)); [done|]. destruct (handshake_done_ c) eqn:Hd; [|done].
  destruct (negb (running_ c)); [done|]. cbn [negb]. destruct w; [|by apply inv_receive|done].
  destruct Hi as [Hp [[]|[_ (auth & frames & Hs & Hf & Ha) H3]]]; [congruence|].
  split; [done|]. right. split; [done| |done]. exists auth, (frames ++ [data]). cbn [sent].
  split_and!.
  - change (sent c ++ [data] = auth ++ frames ++ [data]). by rewrite Hs, app_assoc.
  - by apply sublist_app.
  - rewrite andb_true_r. exact Ha.
Qed.

Lemma send_ready w data c :
  negb (ssl_ c) = false → negb (running_ c) = false → handshake_done_ c = true →
  send w data c = match w with
                  | Written => c <| sent := sent c ++ [data] |>
                  | WriteAgain => do_receive c
                  | WriteError => c
                  end.
Proof. intros H1 H2 H3. unfold send. by rewrite H1, H2, H3. Qed.

Lemma inv_do_handshake ok p h w c cbs ds :
  inv ok p c cbs ds →
  inv (ok && writes (Posted h w)) p (do_handshake h w c).1
    (cbs ++ option_list (do_handshake h w c).2) ds.
Proof.
  intros Hi. assert (inv (ok && writes (Posted h w)) p c cbs ds) as Hw by by eapply inv_weaken.
  unfold do_handshake. destruct (negb (ssl_ c)) eqn:Hs; [by rewrite app_nil_r|].
  destruct (negb (running_ c)) eqn:Hr; [by rewrite app_nil_r|].
  destruct (handshake_done_ c) eqn:Hd; [by rewrite app_nil_r|]. cbn [orb].
  destruct Hi as [Hp [[_ Hsent Hcbs]|[]]]; [|congruence]. destruct h.
  - cbn [fst snd option_list]. set (c1 := c <| handshake_done_ := true |>).
    rewrite (send_ready w _ c1) by done.
    assert (∃ failures later, cbs ++ [OnHandshake true] = failures ++ OnHandshake true :: later ∧
      Forall (λ cb, cb = OnHandshake false) failures ∧ Forall is_data later) as Hafter by by exists cbs, [].
    assert (writes (Posted HandshakeDone w) = false →
      inv (ok && writes (Posted HandshakeDone w)) p c1 (cbs ++ [OnHandshake true]) ds) as Hlost.
    { intros ->. rewrite andb_false_r. split; [done|]. right. split; [done| |done].
      exists [], []. split_and!; [done|apply sublist_nil_l|by right]. }
    destruct w; [|apply inv_receive; by apply Hlost|by apply Hlost].
    split; [done|]. right. split; [done| |done]. exists [auth_line c], [].
    split_and!; [|apply sublist_nil_l|by left]. cbn. by rewrite Hsent.
  - rewrite app_nil_r. by eapply inv_same; [..|exact Hw].
  - rewrite app_nil_r. by eapply inv_same; [..|exact Hw].
  - split; [done|]. left. split; [done..|]. apply Forall_app. split; [done|]. by constructor.
Qed.

Lemma inv_skip ok b p c c' cbs ds :
  handshake_done_ c' = handshake_done_ c → sent c' = sent c → password_ c' = password_ c →
  inv ok p c cbs ds → inv (ok && b) p c' (cbs ++ []) ds.
Proof. intros E1 E2 E3 Hi. rewrite app_nil_r. eapply inv_weaken; [done|]. by eapply inv_same. Qed.

Lemma inv_on_receive ok p failed r c cbs ds :
  inv ok p c cbs ds →
  inv ok p (on_receive failed r c).1 (cbs ++ option_list (on_receive failed r c).2) ds.
Proof.
  intros Hi. unfold on_receive. set (c0 := c <| receiving := pred (receiving c) |>).
  assert (inv ok p c0 cbs ds) as Hi0 by by eapply inv_same; [..|exact Hi].
  destruct (failed || negb (running_ c0)); [by rewrite app_nil_r|].
  destruct (handshake_done_ c0) eqn:Hd; cbn [negb].
  - destruct r as [d|]; cbn [fst snd option_list]; [|rewrite app_nil_r; by apply inv_receive].
    apply inv_receive. destruct Hi0 as [Hp [[]|[H1 H2 (fs & later & -> & Hfs & Hl)]]]; [congruence|].
    split; [done|]. right. split; [done..|]. exists fs, (later ++ [OnData d]).
    rewrite <-app_assoc. split_and!; [done|done|]. apply Forall_app. split; [done|]. by constructor.
  - cbn [fst snd option_list]. rewrite app_nil_r. apply inv_receive. by eapply inv_same; [..|exact Hi0].
Qed.

Lemma inv_handle ok p ev c cbs ds :
  inv ok p c cbs ds →
  inv (ok && writes ev) p (handle ev c).1 (cbs ++ option_list (handle ev c).2) (ds ++ given [ev]).
Proof.
  intros Hi. destruct ev as [h w| |k h w|failed r|w data|]; cbn [handle given omap];
    unfold given; cbn; rewrite ?app_nil_r.
  - by apply (inv_do_handshake ok p h w).
  - rewrite andb_true_r. by eapply inv_same; [..|exact Hi].
  - unfold on_timer. destruct (running_ c); [|by eapply inv_skip].
    destruct k; [unfold handle_timeout; destruct (_ || _); [by eapply inv_skip|]|];
      by apply (inv_do_handshake ok p h w).
  - rewrite andb_true_r. destruct (receiving c); [cbn; by rewrite app_nil_r|]. by apply inv_on_receive.
  - exact (inv_send ok p w data c cbs ds Hi).
  - rewrite andb_true_r. by eapply inv_same; [..|exact Hi].
Qed.

Lemma inv_run ssl ep p es :
  let '(c, cbs) := run es (start (object ssl ep p)) in inv (forallb writes es) p c cbs (given es).
Proof.
  induction es as [|ev es IH] using rev_ind.
  - split; [done|]. left. split; [done|done|constructor].
  - unfold run in *. rewrite foldl_app. destruct (foldl _ _ es) as [c cbs]. cbn.
    pose proof (inv_handle _ p ev c cbs _ IH) as Hi. destruct (handle ev c) as [c' cb].
    unfold given in *. rewrite forallb_app, omap_app. cbn in *. by rewrite andb_true_r.
Qed.

(** C17: The client authenticates itself before anything else.  Over any history
    of the channel, whatever OpenSSL answers: until the handshake is done nothing
    has been written and the owner has been told of nothing but failures; once it
    is done, the owner has been told so exactly once, before any data, and what
    has been written is the password line, once, followed by frames the owner asked
    to send, in order.  Only a write that OpenSSL refuses can leave the password
    line out: it is never written again. *)
Theorem channel_authenticates_first ssl ep p es :
  let '(c, cbs) := run es (start (object ssl ep p)) in
  if handshake_done_ c then
    (∃ failures later, cbs = failures ++ OnHandshake true :: later ∧
       Forall (λ cb, cb = OnHandshake false) failures ∧ Forall is_data later) ∧
    ∃ auth frames, sent c = auth ++ frames ∧ frames `sublist_of` given es ∧
      (auth = [p ++ [z2b 10]] ∨ forallb writes es = false ∧ auth = [])
  else sent c = [] ∧ Forall (λ cb, cb = OnHandshake false) cbs.
Proof.
  pose proof (inv_run ssl ep p es) as Hi. destruct (run es (start (object ssl ep p))) as [c cbs].
  destruct Hi as [Hp [[H1 H2 H3]|[H1 H2 H3]]]; rewrite H1; [done|]. split; [done|].
  unfold auth_line in H2. by rewrite Hp in H2.
Qed.

(** a receive that fails is not started again: unless a write asks for it, the
    channel then hears nothing more, however long it runs *)
Lemma deaf_handle ev c :
  receiving c = 0%nat → writes ev = true →
  receiving (handle ev c).1 = 0%nat ∧ Forall (λ cb, ¬ is_data cb) (option_list (handle ev c).2).
Proof.
  intros Hr Hw.
  assert (∀ h w c, writes (Posted h w) = true → receiving c = 0%nat →
    receiving (do_handshake h w c).1 = 0%nat ∧
    Forall (λ cb, ¬ is_data cb) (option_list (do_handshake h w c).2)) as Hhs.
  { clear. intros h w c Hw Hr. unfold do_handshake, send. destruct w; try done.
    repeat case_match; cbn; (split; [done|]); first [by apply list.Forall_nil|apply list.Forall_singleton; by intros []]. }
  destruct ev as [h w| |k h w|failed r|w data|]; cbn [handle].
  - by apply Hhs.
  - by split; [|constructor].
  - unfold on_timer, handle_timeout.
    repeat case_match; try (by split; [|constructor]); by apply Hhs.
  - rewrite Hr. by split; [|constructor].
  - unfold send. destruct w; try done. repeat case_match; by split; [|constructor].
  - by split; [|constructor].
Qed.
Lemma failed_receive_deafens es r c :
  receiving c = 1%nat → forallb writes es = true →
  let '(c', cbs) := run es (handle (Receive true r) c).1 in
  receiving c' = 0%nat ∧ Forall (λ cb, ¬ is_data cb) cbs.
Proof.
  intros Hr Hw. cbn [handle]. rewrite Hr. cbn [on_receive orb fst].
  assert (receiving (c <| receiving := pred (receiving c) |>) = 0%nat) as H0 by (cbn; by rewrite Hr).
  revert H0. generalize (c <| receiving := pred (receiving c) |>). clear c Hr. intros c H0.
  induction es as [|ev es IH] using rev_ind; [done|].
  rewrite forallb_app in Hw. apply andb_true_iff in Hw as [Hw1 Hw2]. specialize (IH Hw1).
  unfold run in *. rewrite foldl_app. destruct (foldl _ _ es) as [c1 cbs]. cbn in Hw2 |- *.
  rewrite andb_true_r in Hw2. pose proof (deaf_handle ev c1 (proj1 IH) Hw2) as Hd.
  destruct (handle ev c1) as [c2 cb]. split; [apply Hd|]. apply Forall_app. split; [apply IH|apply Hd].
Qed.

(** the password goes out with the handshake, the frame after it *)
Example channel_example :
  run [Posted HandshakeWantRead Written; Receive false NoData; Posted HandshakeDone Written;
       Send Written (lit "frame"); Receive false (Data (lit "reply"))] (start (object true Net.no_endpoint (lit "pw"))) =
  (Channel Net.no_endpoint true (lit "pw") true true (Some ToTimeout) 1 2 [lit "pw" ++ [z2b 10]; lit "frame"],
   [OnHandshake true; OnData (lit "reply")]).
Proof. reflexivity. Qed.
End DtlsChannelProps.
