(* ===== verification/ClientSession.v ===== *)
(** ClientSession: one connection of a local application to the client
    (src/Client/Session.h, Session.cpp).

    As in ServerSession, asynchronous operations in flight are listed in
    [pending] and [handle] runs the handler of a completed one.  An operation
    that writes from a buffer of the session keeps the region, not a copy: the
    bytes are read from the buffer when the operation completes. *)
From S2P Require Import Prelude Net Coding VRequest Http Socks5 DtlsServerSession ProxyStats.
From S2P Require Import ClientUdp.

Module ClientSession.

Definition MAX_BUFF_SIZE : Z := 64 * 1024.

(** [1] is local to upstream, [2] upstream to local *)
Inductive direction := UP | DOWN.
#[global] Instance direction_eq_dec : EqDecision direction.
Proof. solve_decision. Defined.
Inductive transport := Tls | Websocket.

Inductive op :=
  | ReadFirst                                   (* start *)
  | WriteAuth (data : bytes)
  | ReadRequest                                 (* read_socks5_request *)
  | ReadLine (initial : bytes)                  (* async_read_until *)
  | WriteHttp (data : bytes)
  | Resolve | Connect (ep : Net.endpoint)
  | SslHandshake | WsHandshake
  | WriteVReq (data : bytes)
  | WriteReply (data : bytes)                   (* write_socks5_response *)
  | WriteAssociated (data : bytes)
  | ReadControl
  | Read (d : direction)                        (* read_packet *)
  | Write (d : direction) (n : Z) (socket_open : bool).  (* write_packet *)

Inductive result :=
  | Failed | Done | Received (data : bytes) | Resolved (eps : list Net.endpoint).

(** what the constructor copies from the configuration *)
Record config := Config {
  remote_addr : bytes; remote_port : bytes; user_name : bytes; hashed_password : bytes
}.
(** what a handler finds: the address and the port of a new relay, and the
    configuration's [udp_enabled] as it is then; and whether the calls that throw
    when they fail succeed: [set_option], the synchronous write of a refusal,
    [remote_endpoint()], and binding a relay's socket *)
Record env := Env {
  new_address : nat; relay_port : Z; udp_enabled : bool;
  options_ok : bool; refusal_written : bool; peer_known : bool; relay_bound : bool
}.

Record lane := Lane { buf : bytes; read_total : bytes; written_total : bytes }.
#[global] Instance eta_lane : Eta lane := fun r => Lane (buf r) (read_total r) (written_total r).

Record session := Session {
  up : lane;                                     (* in_buf *)
  down : lane;                                   (* out_buf *)
  in_open : bool;                                (* in_socket *)
  out_open : bool;                               (* out_socket *)
  out_ep : Net.endpoint;                         (* its remote endpoint *)
  message_buf : bytes;
  socks5_req : Socks5.Request.t;
  http_req : Http.HttpRequest.t;
  forward : bool;                                (* state_ *)
  response_sent_ : bool;
  destroyed_ : bool;
  udp_relay_ : option nat;
  session_id_ : Z;
  to_app : list bytes;                           (* synchronous writes to in_socket *)
  server_ : ClientServer.t;
  stats : ProxyStats.t;
  pending : list op
}.
#[global] Instance eta_session : Eta session := fun r =>
  Session (up r) (down r) (in_open r) (out_open r) (out_ep r) (message_buf r) (socks5_req r)
    (http_req r) (forward r) (response_sent_ r) (destroyed_ r) (udp_relay_ r) (session_id_ r)
    (to_app r) (server_ r) (stats r) (pending r).

Definition lane_init : lane := Lane (replicate (Z.to_nat MAX_BUFF_SIZE) Byte.x00) [] [].
Definition init (srv : ClientServer.t) (st : ProxyStats.t) : session :=
  Session lane_init lane_init true false Net.no_endpoint [] (Socks5.Request.Req 0 0 0 0 [] 0)
    Http.HttpRequest.init false false false None 0 [] srv st [].

Definition in_buf (s : session) : bytes := buf (up s).
Definition get_lane (d : direction) (s : session) : lane :=
  match d with UP => up s | DOWN => down s end.
Definition set_lane (d : direction) (l : lane) (s : session) : session :=
  match d with UP => s <| up := l |> | DOWN => s <| down := l |> end.
Definition start_op (o : op) (s : session) : session := s <| pending := pending s ++ [o] |>.
(** whether the socket a direction writes to is open *)
Definition sink_open (d : direction) (s : session) : bool :=
  match d with UP => out_open s | DOWN => in_open s end.

(** [destroy] *)
Definition destroy (s : session) : session :=
  if destroyed_ s then s
  else
    let s := s <| destroyed_ := true |>
               <| stats := ProxyStats.sessionDestroyed (stats s) |>
               <| in_open := false |> <| out_open := false |> in
    let s := if negb (session_id_ s =? 0)
             then s <| server_ := ClientServer.unregister_relay (session_id_ s) (server_ s) |>
             else s in
    match udp_relay_ s with
    | Some h =>
        s <| server_ := (server_ s) <| ClientServer.heap := delete h (ClientServer.heap (server_ s)) |> |>
          <| udp_relay_ := None |>
    | None => s
    end.

(** ** Forwarding *)
(** the halves of [read_packet] *)
Definition start_read (d : direction) (s : session) : session := start_op (Read d) s.
Definition read_both (s : session) : session := start_read DOWN (start_read UP s).

Definition write_packet (d : direction) (n : Z) (s : session) : session :=
  start_op (Write d n (sink_open d s)) s.

Definition count (d : direction) (n : Z) (s : session) : session :=
  s <| stats := match d with UP => ProxyStats.addUpstreamDelta n (stats s)
                           | DOWN => ProxyStats.addDownstreamDelta n (stats s) end |>.

Definition on_read (d : direction) (r : result) (s : session) : session :=
  match r with
  | Received data =>
      let l := get_lane d s in
      let s := set_lane d (l <| buf := overwrite (buf l) 0 data |>
                             <| read_total := read_total l ++ data |>) s in
      write_packet d (len data) (count d (len data) s)
  | _ => destroy s
  end.

Definition on_written (d : direction) (n : Z) (r : result) (s : session) : session :=
  match r with
  | Done =>
      let l := get_lane d s in
      start_read d (set_lane d
        (l <| written_total := written_total l ++ take (Z.to_nat n) (buf l) |>) s)
  | _ => destroy s
  end.

(** ** Set-up *)
Definition reply (result ip port : Z) : Socks5.Reply.t :=
  Socks5.Reply.Rep 0x05 result 0x00 Socks5.V4 ip port.

Definition do_resolve (s : session) : session := start_op Resolve s.
Definition do_connect (ep : Net.endpoint) (s : session) : session :=
  start_op (Connect ep) (s <| out_open := true |> <| out_ep := ep |>).

(** [write_sock5_hanshake_reply] *)
Definition write_sock5_hanshake_reply (req : Socks5.AuthReq.t) (s : session) : session :=
  if bool_decide (Socks5.NO_AUTHENTICATION ∈ Socks5.AuthReq.methods req) then
    let s := s <| message_buf :=
                   Socks5.AuthRes.stream (message_buf s) 0x05 Socks5.NO_AUTHENTICATION |> in
    start_op (WriteAuth (message_buf s)) s
  else destroy s.

(** the handler of [start] *)
Definition on_first (r : result) (s : session) : outcome session :=
  match r with
  | Received data =>
      let s := s <| up := (up s) <| buf := overwrite (in_buf s) 0 data |> |> in
      b0 ← vec_at (in_buf s) 0;
      if b2z b0 =? 5 then
        a ← Socks5.AuthReq.unstream (Socks5.AuthReq.Req 0 0 []) (in_buf s);
        match a with
        | (_, false) => mret (destroy s)
        | (auth_req, true) => mret (write_sock5_hanshake_reply auth_req s)
        end
      else if bool_decide (b0 = Byte.x43 ∨ b0 = Byte.x63)
           then mret (start_op (ReadLine data) s)
           else mret (destroy s)
  | _ => mret (destroy s)
  end.

Definition on_auth_written (r : result) (s : session) : outcome session :=
  match r with
  | Done =>
      b1 ← vec_at (in_buf s) 1;
      if b2z b1 =? 0xFF then mret (destroy s) else mret (start_op ReadRequest s)
  | _ => mret (destroy s)
  end.

(** both refusals of UDP ASSOCIATE: a synchronous reply, with the [write] that
    throws, then [destroy] *)
Definition refuse_udp (e : env) (s : session) : outcome session :=
  let s := s <| message_buf := Socks5.Reply.stream (reply 0x02 0 0) [] |> in
  if refusal_written e
  then mret (destroy (s <| to_app := to_app s ++ [message_buf s] |>))
  else Throw system_error.

(** [INADDR_LOOPBACK] *)
Definition loopback : Z := 0x7f000001.

(** [do_handle_socks5_udp_associate] *)
Definition do_handle_socks5_udp_associate (e : env) (s : session) : outcome session :=
  if negb (ClientServer.has_dtls (server_ s)) then refuse_udp e s
  else if negb (relay_bound e) then Throw system_error
  else
    let '(sid, srv) := ClientServer.associate (new_address e) (relay_port e) (server_ s) in
    let s := s <| server_ := srv |> <| session_id_ := sid |>
               <| udp_relay_ := Some (new_address e) |> in
    let s := s <| message_buf :=
                   Socks5.Reply.stream (reply 0x00 loopback (relay_port e)) [] |> in
    mret (start_op (WriteAssociated (message_buf s)) s).

Section Configured.
Context `{Net.AddressText} (cfg : config) (tr : transport).

(** the handler of [read_socks5_request] *)
Definition on_request (e : env) (r : result) (s : session) : outcome session :=
  match r with
  | Received data =>
      let s := s <| up := (up s) <| buf := overwrite (in_buf s) 0 data |> |> in
      q ← Socks5.Request.unsteam (socks5_req s) (in_buf s) (len data);
      let s := s <| socks5_req := q.1 |> in
      if negb q.2 then mret (destroy s)
      else if Socks5.Request.cmd (socks5_req s) =? Socks5.UDP_ASSOCIATE then
        if negb (udp_enabled e) then refuse_udp e s
        else do_handle_socks5_udp_associate e s
      else mret (do_resolve s)
  | _ => mret (destroy s)
  end.

(** [write_http_connect_response] *)
Definition write_http_connect_response (s : session) : session :=
  let s := s <| response_sent_ := true |> <| message_buf := Http.HttpResponse.ok |> in
  start_op (WriteHttp (message_buf s)) s.

(** the handler of [http_connect_handshake]; [initial ++ data] is [*buf] *)
Definition on_line (initial : bytes) (r : result) (s : session) : outcome session :=
  match r with
  | Received data =>
      q ← Http.HttpRequest.unstream (http_req s) (initial ++ data);
      let s := s <| http_req := q.1 |> in
      if negb q.2 then mret (destroy s)
      else
        mret (write_http_connect_response
          (s <| socks5_req := (socks5_req s)
                  <| Socks5.Request.remote_host := Http.HttpRequest.host (http_req s) |>
                  <| Socks5.Request.remote_port := Http.HttpRequest.port (http_req s) |> |>))
  | _ => mret (destroy s)
  end.

(** the request [do_sent_v_req] streams *)
Definition v_request (s : session) : VRequest.t :=
  VRequest.Req 0x01 0 (user_name cfg) (hashed_password cfg)
    (Socks5.Request.remote_host (socks5_req s)) (Socks5.Request.remote_port (socks5_req s)) [].
Definition do_sent_v_req (s : session) : session :=
  let s := s <| message_buf := (VRequest.stream (v_request s) []).2 |> in
  start_op (WriteVReq (message_buf s)) s.

(** [after_ssl_handshake] of the two classes *)
Definition after_ssl_handshake (s : session) : session :=
  match tr with Tls => do_sent_v_req s | Websocket => start_op WsHandshake s end.

(** [write_socks5_response]: [remote_endpoint()] throws when the connection is
    gone, [to_v4] for an IPv6 peer *)
Definition write_socks5_response (e : env) (s : session) : outcome session :=
  if negb (peer_known e) then Throw system_error
  else match Net.ep_address (out_ep s) with
  | Net.address_v6 _ => Throw bad_address_cast
  | Net.address_v4 b =>
      ip ← (x ← Coding.DecodeFixed32 (vec_at b) 0; mret (Coding.ntohl x));
      let s := s <| message_buf :=
                     Socks5.Reply.stream (reply 0x00 ip (Net.ep_port (out_ep s))) [] |> in
      mret (start_op (WriteReply (message_buf s)) s)
  end.

Definition on_v_req_written (e : env) (r : result) (s : session) : outcome session :=
  match r with
  | Done =>
      let s := s <| forward := true |> in
      if response_sent_ s then mret (read_both s) else write_socks5_response e s
  | _ => mret (destroy s)
  end.

(** [start]: the option of the accepted socket, and the first read *)
Definition started (s : session) : session := start_op ReadFirst s.
Definition start (e : env) (s : session) : outcome session :=
  if options_ok e then mret (started s) else Throw system_error.

(** the handler of [do_connect]; [do_ssl_handshake] and its handler; the reply is out: both sockets are read;
    [do_read_control], which throws away what the control connection brings *)
Definition do_ssl_handshake (s : session) : session := start_op SslHandshake s.
Definition on_connected (e : env) (r : result) (s : session) : outcome session :=
  match r with
  | Done => if options_ok e then mret (do_ssl_handshake s) else Throw system_error
  | _ => mret (destroy s)
  end.
Definition on_ssl_handshake (r : result) (s : session) : session :=
  match r with Done => after_ssl_handshake s | _ => destroy s end.
Definition on_reply_written (r : result) (s : session) : session :=
  match r with Done => read_both (s <| forward := true |>) | _ => destroy s end.
Definition do_read_control (s : session) : session := start_op ReadControl s.
Definition on_control (r : result) (s : session) : session :=
  match r with Received _ => do_read_control s | _ => destroy s end.

Definition handle (e : env) (o : op) (r : result) (s : session) : outcome session :=
  let next k := mret (match r with Done => k | _ => destroy s end) in
  match o with
  | ReadFirst => on_first r s
  | WriteAuth _ => on_auth_written r s
  | ReadRequest => on_request e r s
  | ReadLine initial => on_line initial r s
  | WriteHttp _ => next (do_resolve s)
  | Resolve => mret (match r with Resolved (ep :: _) => do_connect ep s | _ => destroy s end)
  | Connect _ => on_connected e r s
  | SslHandshake => mret (on_ssl_handshake r s)
  | WsHandshake => next (do_sent_v_req s)
  | WriteVReq _ => on_v_req_written e r s
  | WriteReply _ => mret (on_reply_written r s)
  | WriteAssociated _ => next (do_read_control s)
  | ReadControl => mret (on_control r s)
  | Read d => mret (on_read d r s)
  | Write d n _ => mret (on_written d n r s)
  end.

(** ** The transition system *)
Inductive legal : op → result → Prop :=
  | legal_failed o : legal o Failed
  | legal_done o :
      match o with
      | WriteAuth _ | WriteHttp _ | Connect _ | SslHandshake | WsHandshake | WriteVReq _
      | WriteReply _ | WriteAssociated _ => True
      | Write _ _ socket_open => socket_open = true
      | _ => False
      end → legal o Done
  | legal_received o data :
      match o with
      | ReadFirst | ReadRequest | ReadControl | Read _ => 0 < len data <= MAX_BUFF_SIZE
      | ReadLine _ => True
      | _ => False
      end → legal o (Received data)
  | legal_resolved eps : legal Resolve (Resolved eps).

(** one handler runs, or others use the server's tables and the counters *)
Inductive step : session → session → Prop :=
  | step_complete s l1 o l2 e r s' :
      pending s = l1 ++ o :: l2 → legal o r →
      handle e o r (s <| pending := l1 ++ l2 |>) = Ret s' → step s s'
  | step_others s srv st : step s (s <| server_ := srv |> <| stats := st |>).

Definition reachable (srv : ClientServer.t) (st : ProxyStats.t) : session → Prop :=
  rtc step (started (init srv st)).
End Configured.
End ClientSession.
