(* ===== verification/ClientSessionFacts.v ===== *)
(** ClientSessionFacts: what holds of every run of a client session. *)
From S2P Require Import Prelude Net Coding Decimal VRequest Http Socks5 DtlsServerSession.
From S2P Require Import ProxyStats ClientUdp ClientSession.
Import ClientSession.

Module ClientSessionFacts.

Definition op_dir (o : op) : option direction :=
  match o with Read d => Some d | Write d _ _ => Some d | _ => None end.
Definition ops (d : direction) (s : session) : list op :=
  filter (λ o, op_dir o = Some d) (pending s).
Definition other (d : direction) : direction := match d with UP => DOWN | DOWN => UP end.

(** A lane that forwards: one operation is in flight, a read when everything
    read has been written, or the write of the rest. *)
Record lane_live (d : direction) (s : session) : Prop := LaneLive {
  live_buf : len (buf (get_lane d s)) = MAX_BUFF_SIZE;
  live_op :
    (ops d s = [Read d] ∧ read_total (get_lane d s) = written_total (get_lane d s)) ∨
    ∃ n, ops d s = [Write d n true] ∧
      read_total (get_lane d s) =
        written_total (get_lane d s) ++ take (Z.to_nat n) (buf (get_lane d s))
}.
(** A lane of any session: at most one operation is in flight, and what was
    written is a prefix of what was read, also once that operation completes. *)
Record lane_ok (d : direction) (s : session) : Prop := LaneOk {
  ok_buf : len (buf (get_lane d s)) = MAX_BUFF_SIZE;
  ok_total : written_total (get_lane d s) `prefix_of` read_total (get_lane d s);
  ok_op : ops d s = [] ∨ ops d s = [Read d] ∨ ∃ n b, ops d s = [Write d n b] ∧
    (b = true → written_total (get_lane d s) ++ take (Z.to_nat n) (buf (get_lane d s))
                  `prefix_of` read_total (get_lane d s))
}.

(** a lane nothing has been forwarded on *)
Definition unused (l : lane) : Prop :=
  len (buf l) = MAX_BUFF_SIZE ∧ read_total l = [] ∧ written_total l = [].
Record fresh (s : session) : Prop := Fresh {
  fresh_state : destroyed_ s = false;
  fresh_up : unused (up s);
  fresh_down : unused (down s);
  fresh_in : in_open s = true
}.
(** the operations for which the connection to the server exists *)
Definition needs_out (o : op) : bool :=
  match o with
  | Connect _ | SslHandshake | WsHandshake | WriteVReq _ | WriteReply _ => true
  | _ => false
  end.

Section Invariant.
Context (cfg : config).

(** where a session is: in its set-up chain, forwarding, or destroyed *)
Inductive inv (s : session) : Prop :=
  | inv_setup o :
      pending s = [o] → op_dir o = None → fresh s → (needs_out o = true → out_open s = true) →
      match o with
      | WriteVReq data => data = (VRequest.stream (v_request cfg s) []).2
      | _ => True
      end → inv s
  | inv_forward :
      destroyed_ s = false → Forall (λ o, op_dir o ≠ None) (pending s) →
      in_open s = true → out_open s = true → lane_live UP s → lane_live DOWN s → inv s
  | inv_dead :
      destroyed_ s = true → Forall (λ o, op_dir o ≠ None) (pending s) →
      in_open s = false → out_open s = false → lane_ok UP s → lane_ok DOWN s → inv s.
End Invariant.

(** ** Reading back what the state functions write *)
Lemma destroy_fields s :
  destroyed_ (destroy s) = true ∧ up (destroy s) = up s ∧ down (destroy s) = down s ∧
  pending (destroy s) = pending s ∧
  (destroyed_ s = false → in_open (destroy s) = false ∧ out_open (destroy s) = false).
Proof.
  unfold destroy. destruct (destroyed_ s) eqn:E; [by split_and!|].
  cbn. destruct (session_id_ s =? 0); cbn; destruct (udp_relay_ s); by split_and!.
Qed.

Lemma client_live_ok d s : lane_live d s → lane_ok d s.
Proof.
  intros [Hb [(Ho & Ht)|(n & Ho & Ht)]]; split; try done.
  - by rewrite Ht.
  - by auto.
  - rewrite Ht. by eexists.
  - right. right. exists n, true. split; [done|]. by rewrite Ht.
Qed.

Lemma client_destroy_dead cfg s :
  destroyed_ s = false → Forall (λ o, op_dir o ≠ None) (pending s) →
  lane_ok UP s → lane_ok DOWN s → inv cfg (destroy s).
Proof.
  intros Hd HF [? ? ?] [? ? ?]. destruct (destroy_fields s) as (E1 & E2 & E3 & E4 & E5).
  destruct (E5 Hd) as [? ?].
  apply inv_dead; try done; [by rewrite E4|split..]; unfold ops; cbn in *;
    rewrite ?E2, ?E3, ?E4; done.
Qed.

Lemma unused_ok d s : unused (get_lane d s) → ops d s = [] → lane_ok d s.
Proof. intros (? & E1 & E2) ?. split; [done|by rewrite E1, E2|by left]. Qed.

(** [s'] differs from [s] only in lane [d], its operations and the counters *)
Record frame (d : direction) (s s' : session) : Prop := Frame {
  fr_lane : get_lane (other d) s' = get_lane (other d) s;
  fr_ops : ops (other d) s' = ops (other d) s;
  fr_state : destroyed_ s' = destroyed_ s ∧ in_open s' = in_open s ∧ out_open s' = out_open s;
  fr_pending : Forall (λ o, op_dir o ≠ None) (pending s) →
    Forall (λ o, op_dir o ≠ None) (pending s')
}.

Lemma client_ops_start d o s :
  ops d (start_op o s) = ops d s ++ (if decide (op_dir o = Some d) then [o] else []).
Proof. unfold ops, start_op. cbn. by rewrite list.filter_app, filter_cons, filter_nil. Qed.

(** a lane step: new lane contents and one operation of the lane *)
Lemma frame_step d l st o s :
  op_dir o = Some d → frame d s (start_op o ((set_lane d l s) <| stats := st |>)).
Proof.
  intros Ho. split.
  - by destruct d.
  - rewrite client_ops_start, decide_False, app_nil_r by (rewrite Ho; by destruct d). by destruct d.
  - by destruct d.
  - intros HF. assert (pending (start_op o ((set_lane d l s) <| stats := st |>)) =
      pending s ++ [o]) as -> by (by destruct d).
    apply list.Forall_app. split; [done|]. constructor; [congruence|constructor].
Qed.

Lemma step_lane d l st o s :
  op_dir o = Some d → ops d s = [] →
  let s' := start_op o ((set_lane d l s) <| stats := st |>) in
  get_lane d s' = l ∧ ops d s' = [o].
Proof.
  intros Ho Hops s'. subst s'. split; [by destruct d|].
  rewrite client_ops_start, decide_True by done.
  assert (ops d (set_lane d l s <| stats := st |>) = ops d s) as -> by (by destruct d).
  by rewrite Hops.
Qed.

Lemma on_read_eq d data s :
  on_read d (Received data) s =
  let l := get_lane d s in
  start_op (Write d (len data) (sink_open d s))
    ((set_lane d (l <| buf := overwrite (buf l) 0 data |>
                    <| read_total := read_total l ++ data |>) s)
       <| stats := stats (count d (len data) s) |>).
Proof. by destruct d. Qed.
Lemma on_written_eq d n s :
  on_written d n Done s =
  let l := get_lane d s in
  start_op (Read d)
    ((set_lane d (l <| written_total := written_total l ++ take (Z.to_nat n) (buf l) |>) s)
       <| stats := stats s |>).
Proof. by destruct d, s. Qed.

(** ** Taking an operation out of the pending ones *)
Section Remove.
Context (s : session) (l1 l2 : list op) (o : op).
Context (Hpend : pending s = l1 ++ o :: l2).
Definition rest : session := s <| pending := l1 ++ l2 |>.

Lemma client_ops_rest_ne d : op_dir o ≠ Some d → ops d rest = ops d s.
Proof.
  intros Ho. unfold ops, rest. cbn. rewrite Hpend, !list.filter_app, filter_cons_False; done.
Qed.
Lemma client_ops_rest d x : op_dir o = Some d → ops d s = [x] → o = x ∧ ops d rest = [].
Proof.
  intros Ho. unfold ops, rest. cbn. rewrite Hpend, !list.filter_app, filter_cons.
  rewrite decide_True by done.
  destruct (filter _ l1) as [|? [|]]; intros E; simplify_list_eq; done.
Qed.
Lemma ops_rest_at d : op_dir o = Some d → ops d s ≠ [].
Proof.
  intros Ho. unfold ops. rewrite Hpend, list.filter_app, filter_cons, decide_True by done.
  by destruct (filter _ l1).
Qed.
Lemma client_forall_rest (P : op → Prop) : Forall P (pending s) → P o ∧ Forall P (pending rest).
Proof. rewrite Hpend. cbn. rewrite !list.Forall_app, list.Forall_cons. tauto. Qed.

Lemma rest_lane d : get_lane d rest = get_lane d s.
Proof. by destruct d. Qed.
Lemma rest_other_ok d : op_dir o = Some d → lane_ok (other d) s → lane_ok (other d) rest.
Proof.
  intros Ho [? ? ?]. split; rewrite ?rest_lane, ?client_ops_rest_ne; try done;
    rewrite Ho; by destruct d.
Qed.
Lemma rest_other_live d : op_dir o = Some d → lane_live (other d) s → lane_live (other d) rest.
Proof.
  intros Ho [? ?]. split; rewrite ?rest_lane, ?client_ops_rest_ne; try done; rewrite Ho; by destruct d.
Qed.
End Remove.

Lemma both (P : direction → Prop) d : P d → P (other d) → P UP ∧ P DOWN.
Proof. by destruct d. Qed.
Lemma client_frame_live d s s' : frame d s s' → lane_live (other d) s → lane_live (other d) s'.
Proof. intros [Hl Ho _ _] [? ?]. split; by rewrite ?Hl, ?Ho. Qed.
Lemma client_frame_ok d s s' : frame d s s' → lane_ok (other d) s → lane_ok (other d) s'.
Proof. intros [Hl Ho _ _] [? ? ?]. split; by rewrite ?Hl, ?Ho. Qed.

(** ** Forwarding steps *)
Section Forward.
Context `{Net.AddressText} (cfg : config) (tr : transport).
Context (s : session) (l1 l2 : list op) (o : op) (d : direction).
Context (Hpend : pending s = l1 ++ o :: l2) (Hdir : op_dir o = Some d).
Abbreviation s0 := (rest s l1 l2).

Lemma rest_pending : Forall (λ o, op_dir o ≠ None) (pending s) →
  Forall (λ o, op_dir o ≠ None) (pending s0).
Proof. intros HF. by apply (client_forall_rest s l1 l2 o Hpend). Qed.

(** the lane of a completed operation, before its handler has run *)
Lemma rest_ok x :
  ops d s = [x] → lane_ok d s → o = x ∧ ops d s0 = [] ∧ lane_ok d s0.
Proof.
  intros Hx [? ? ?]. destruct (client_ops_rest s l1 l2 o Hpend d x Hdir Hx) as [-> Ho].
  split; [done|]. split; [done|]. split; rewrite ?rest_lane; try done. by left.
Qed.

Lemma forward_destroy :
  destroyed_ s = false → Forall (λ o, op_dir o ≠ None) (pending s) →
  lane_live UP s → lane_live DOWN s → inv cfg (destroy s0).
Proof.
  intros Hd HF Hu Hdn.
  assert (lane_live d s ∧ lane_live (other d) s) as [Hl Hlo] by (by destruct d).
  assert (lane_ok d s0) as H1.
  { pose proof (client_live_ok d s Hl) as Hok.
    destruct Hl as [_ [(E & _)|(n & E & _)]]; by apply (rest_ok _ E). }
  assert (lane_ok (other d) s0) as H2
    by (apply (rest_other_ok s l1 l2 o Hpend d Hdir); by apply client_live_ok).
  destruct (both (λ d, lane_ok d s0) d H1 H2).
  apply client_destroy_dead; [done|by apply rest_pending|done..].
Qed.

Lemma forward_frame s' :
  destroyed_ s = false → Forall (λ o, op_dir o ≠ None) (pending s) →
  in_open s = true → out_open s = true → lane_live UP s → lane_live DOWN s →
  frame d s0 s' → lane_live d s' → inv cfg s'.
Proof.
  intros Hd HF Hi Ho Hu Hdn Hfr Hl.
  assert (lane_live (other d) s) as Hlo by (by destruct d).
  assert (lane_live (other d) s') as Hl' by
    (eapply client_frame_live; [done|by apply (rest_other_live s l1 l2 o Hpend d)]).
  destruct (both (λ d, lane_live d s') d Hl Hl'), (fr_state _ _ _ Hfr) as (E1 & E2 & E3).
  apply inv_forward; [by rewrite E1| |by rewrite E2|by rewrite E3|done|done].
  by apply (fr_pending _ _ _ Hfr), rest_pending.
Qed.

Lemma forward_step r e s' :
  destroyed_ s = false → Forall (λ o, op_dir o ≠ None) (pending s) →
  in_open s = true → out_open s = true → lane_live UP s → lane_live DOWN s →
  legal o r → handle cfg tr e o r s0 = Ret s' → inv cfg s'.
Proof.
  intros Hd HF Hi Ho Hu Hdn Hlegal Hh.
  pose proof (forward_destroy Hd HF Hu Hdn) as Hdes.
  assert (lane_live d s) as [Hbuf Hop] by (by destruct d).
  assert (sink_open d s0 = true) as Hsink by (by destruct d).
  assert (∀ x, ops d s = [x] → o = x ∧ ops d s0 = []) as Hx
    by (intros x; by apply (client_ops_rest s l1 l2 o Hpend)).
  destruct Hop as [(E & Htot)|(n & E & Htot)]; destruct (Hx _ E) as [Eo Hops];
    rewrite Eo in Hlegal, Hh; injection Hh as <-.
  - destruct r; try exact Hdes. assert (0 < len data <= MAX_BUFF_SIZE) by by inversion Hlegal.
    rewrite on_read_eq. cbv zeta. rewrite Hsink, rest_lane.
    apply forward_frame; try done; [by apply frame_step|].
    destruct (step_lane d ((get_lane d s) <| buf := overwrite (buf (get_lane d s)) 0 data |>
      <| read_total := read_total (get_lane d s) ++ data |>)
      (stats (count d (len data) s0)) (Write d (len data) true) s0 eq_refl Hops) as [E1 E2].
    split; rewrite E1; cbn; [by rewrite len_overwrite|]. right. exists (len data).
    split; [done|]. rewrite take_overwrite by lia. by rewrite Htot.
  - destruct r; try exact Hdes. rewrite on_written_eq. cbv zeta. rewrite rest_lane.
    apply forward_frame; try done; [by apply frame_step|].
    destruct (step_lane d ((get_lane d s) <| written_total :=
      written_total (get_lane d s) ++ take (Z.to_nat n) (buf (get_lane d s)) |>)
      (stats s0) (Read d) s0 eq_refl Hops) as [E1 E2].
    split; rewrite E1; cbn; [done|]. left. done.
Qed.

(** a destroyed session: the operations that are left complete *)
Lemma dead_step r e s' :
  destroyed_ s = true → Forall (λ o, op_dir o ≠ None) (pending s) →
  in_open s = false → out_open s = false → lane_ok UP s → lane_ok DOWN s →
  legal o r → handle cfg tr e o r s0 = Ret s' → inv cfg s' ∧ destroyed_ s' = true.
Proof.
  intros Hd HF Hi Ho Hu Hdn Hlegal Hh.
  assert (lane_ok d s ∧ lane_ok (other d) s) as [Hl Hlo] by (by destruct d).
  assert (sink_open d s0 = false) as Hsink by (by destruct d).
  assert (destroy s0 = s0) as Hid by (unfold destroy; change (destroyed_ s0) with (destroyed_ s);
    by rewrite Hd).
  enough ((s' = s0 ∧ lane_ok d s0) ∨ frame d s0 s' ∧ lane_ok d s') as Hcases.
  { assert (lane_ok (other d) s0) as Hlo0 by (by apply (rest_other_ok s l1 l2 o Hpend d)).
    destruct Hcases as [[-> Hl']|[Hfr Hl']].
    - destruct (both (λ d, lane_ok d s0) d Hl' Hlo0).
      split; [|done]. apply inv_dead; try done. by apply rest_pending.
    - destruct (both (λ d, lane_ok d s') d Hl' (client_frame_ok d s0 s' Hfr Hlo0)).
      destruct (fr_state _ _ _ Hfr) as (E1 & E2 & E3).
      split; [|by rewrite E1].
      apply inv_dead; [by rewrite E1| |by rewrite E2|by rewrite E3|done|done].
      by apply (fr_pending _ _ _ Hfr), rest_pending. }
  destruct Hl as [Hbuf Htot [E|[E|(n & b & E & Hb)]]].
  { by destruct (ops_rest_at s l1 l2 o Hpend d Hdir). }
  - destruct (rest_ok _ E) as (Eo & Hops & Hok0); [split; auto|].
    rewrite Eo in Hlegal, Hh. injection Hh as <-.
    destruct r; try (cbn [on_read]; rewrite Hid; by auto).
    assert (0 < len data <= MAX_BUFF_SIZE) by by inversion Hlegal. right.
    rewrite on_read_eq. cbv zeta. rewrite Hsink, rest_lane.
    split; [by apply frame_step|].
    destruct (step_lane d ((get_lane d s) <| buf := overwrite (buf (get_lane d s)) 0 data |>
      <| read_total := read_total (get_lane d s) ++ data |>)
      (stats (count d (len data) s0)) (Write d (len data) false) s0 eq_refl Hops) as [E1 E2].
    split; rewrite E1; cbn; [by rewrite len_overwrite|by apply prefix_app_r|].
    right. right. by exists (len data), false.
  - destruct (rest_ok _ E) as (Eo & Hops & Hok0); [split; eauto 6|].
    rewrite Eo in Hlegal, Hh. injection Hh as <-.
    destruct r; try (cbn [on_written]; rewrite Hid; by auto).
    assert (b = true) as -> by by inversion Hlegal. right.
    rewrite on_written_eq. cbv zeta. rewrite rest_lane.
    split; [by apply frame_step|].
    destruct (step_lane d ((get_lane d s) <| written_total :=
      written_total (get_lane d s) ++ take (Z.to_nat n) (buf (get_lane d s)) |>)
      (stats s0) (Read d) s0 eq_refl Hops) as [E1 E2].
    split; rewrite E1; cbn; [done|by apply Hb|by auto].
Qed.
End Forward.

(** ** Set-up steps *)
Section Setup.
Context `{Net.AddressText} (cfg : config) (tr : transport).

Lemma client_fresh_destroy s : fresh s → pending s = [] → inv cfg (destroy s).
Proof.
  intros [Hd Hu Hdn _] Hp. apply client_destroy_dead; [done|by rewrite Hp|..];
    (apply unused_ok; [done|]); unfold ops; by rewrite Hp.
Qed.

Lemma client_fresh_start o s :
  fresh s → pending s = [] → op_dir o = None → (needs_out o = true → out_open s = true) →
  match o with
  | WriteVReq data => data = (VRequest.stream (v_request cfg s) []).2
  | _ => True
  end → inv cfg (start_op o s).
Proof.
  intros [? ? ? ?] Hp Ho Hout Hreq. apply (inv_setup _ _ o); try done.
  unfold start_op. cbn. by rewrite Hp.
Qed.

Lemma client_fresh_read_both s :
  fresh s → pending s = [] → out_open s = true → inv cfg (read_both s).
Proof.
  intros [Hd (Hu & Hu1 & Hu2) (Hdn & Hdn1 & Hdn2) Hi] Hp Ho.
  assert (pending (read_both s) = [Read UP; Read DOWN]) as Hp'
    by (unfold read_both, start_read, start_op; cbn; by rewrite Hp).
  assert (Forall (λ o, op_dir o ≠ None) (pending (read_both s))) as HF
    by (rewrite Hp'; by repeat constructor).
  assert (∀ d, unused (get_lane d s) → lane_live d (read_both s)) as Hl.
  { intros d (? & ? & ?). split; [by destruct d|left]. unfold ops. rewrite Hp'.
    destruct d; cbn in *; (split; [reflexivity|congruence]). }
  apply inv_forward; [exact Hd|exact HF|exact Hi|exact Ho|by apply Hl..].
Qed.

Lemma fresh_fill data s :
  fresh s → fresh (s <| up := (up s) <| buf := overwrite (in_buf s) 0 data |> |>).
Proof.
  intros [? (? & ? & ?) ? ?]. split; try done. split; [|done]. cbn.
  unfold in_buf. by rewrite len_overwrite.
Qed.

Lemma fresh_same s s' :
  destroyed_ s' = destroyed_ s → up s' = up s → down s' = down s → in_open s' = in_open s →
  fresh s → fresh s'.
Proof. intros E1 E2 E3 E4 [? ? ? ?]. split; by rewrite ?E1, ?E2, ?E3, ?E4. Qed.

Lemma fresh_first r s s' :
  fresh s → pending s = [] → on_first r s = Ret s' → inv cfg s'.
Proof.
  intros Hf Hp Hh. destruct r; try (injection Hh as <-; by apply client_fresh_destroy).
  unfold on_first in Hh. cbv zeta in Hh.
  pose proof (fresh_fill data s Hf) as Hf2. revert Hh Hf2.
  set (s2 := s <| up := _ |>). intros Hh Hf2.
  inv_bind Hh. destruct (_ =? 5).
  - inv_bind Hh. destruct x0 as [a []]; injection Hh as <-; [|by apply client_fresh_destroy].
    unfold write_sock5_hanshake_reply. case_bool_decide; [|by apply client_fresh_destroy].
    apply client_fresh_start; try done. by eapply fresh_same; [..|exact Hf2].
  - destruct (bool_decide _); injection Hh as <-; [by apply client_fresh_start|by apply client_fresh_destroy].
Qed.

Lemma fresh_refuse e s s' : fresh s → pending s = [] → refuse_udp e s = Ret s' → inv cfg s'.
Proof.
  intros Hf Hp. unfold refuse_udp. destruct (refusal_written e); [|done]. intros [= <-].
  apply client_fresh_destroy; [|done]. by eapply fresh_same; [..|exact Hf].
Qed.

Lemma fresh_request e r s s' :
  fresh s → pending s = [] → on_request e r s = Ret s' → inv cfg s'.
Proof.
  intros Hf Hp Hh. destruct r; try (injection Hh as <-; by apply client_fresh_destroy).
  unfold on_request in Hh. cbv zeta in Hh. inv_bind Hh.
  match type of E with context [Socks5.Request.unsteam (socks5_req ?s1)] => set (s2 := s1) in * end.
  assert (fresh s2) as Hf2 by by apply fresh_fill.
  assert (fresh (s2 <| socks5_req := x.1 |>)) as Hf3 by by eapply fresh_same; [..|exact Hf2].
  destruct (negb x.2); [injection Hh as <-; by apply client_fresh_destroy|].
  destruct (_ =? Socks5.UDP_ASSOCIATE).
  - destruct (negb (udp_enabled e)); [by eapply fresh_refuse; [..|exact Hh]|].
    unfold do_handle_socks5_udp_associate in Hh.
    destruct (negb (ClientServer.has_dtls _)); [by eapply fresh_refuse; [..|exact Hh]|].
    destruct (negb (relay_bound e)); [done|].
    destruct (ClientServer.associate _ _ _) as [sid srv]. injection Hh as <-.
    apply client_fresh_start; try done. by eapply fresh_same; [..|exact Hf3].
  - injection Hh as <-. by apply client_fresh_start.
Qed.

Lemma fresh_line initial r s s' :
  fresh s → pending s = [] → on_line initial r s = Ret s' → inv cfg s'.
Proof.
  intros Hf Hp Hh. destruct r; try (injection Hh as <-; by apply client_fresh_destroy).
  unfold on_line in Hh. cbv zeta in Hh. inv_bind Hh.
  destruct (negb x.2); injection Hh as <-.
  - apply client_fresh_destroy; [by eapply fresh_same; [..|exact Hf]|done].
  - apply client_fresh_start; try done. by eapply fresh_same; [..|exact Hf].
Qed.

Lemma fresh_v_req s :
  fresh s → pending s = [] → out_open s = true → inv cfg (do_sent_v_req cfg s).
Proof.
  intros Hf Hp Ho. apply client_fresh_start; try done. by eapply fresh_same; [..|exact Hf].
Qed.

Lemma client_setup_step e o r s s' :
  fresh s → pending s = [] → op_dir o = None → (needs_out o = true → out_open s = true) →
  handle cfg tr e o r s = Ret s' → inv cfg s'.
Proof.
  intros Hf Hp Ho Hout Hh.
  assert (inv cfg (destroy s)) as Hdes by by apply client_fresh_destroy.
  destruct o; try discriminate Ho; cbn in Hh.
  - by eapply fresh_first.
  - destruct r; try (by injection Hh as <-). cbn in Hh. inv_bind Hh.
    destruct (_ =? 0xFF); injection Hh as <-; [done|by apply client_fresh_start].
  - by eapply fresh_request.
  - by eapply fresh_line.
  - injection Hh as <-. destruct r; try done. by apply client_fresh_start.
  - injection Hh as <-. destruct r as [| | |[|ep eps]]; try done.
    apply client_fresh_start; try done. by eapply fresh_same; [..|exact Hf].
  - destruct r; try (by injection Hh as <-). cbn in Hh. destruct (options_ok e); [|done].
    injection Hh as <-. apply client_fresh_start; auto.
  - injection Hh as <-. destruct r; try done. unfold after_ssl_handshake.
    destruct tr; [apply fresh_v_req|apply client_fresh_start]; auto.
  - injection Hh as <-. destruct r; try done. apply fresh_v_req; auto.
  - destruct r; try (by injection Hh as <-). cbn in Hh.
    assert (fresh (s <| forward := true |>)) as Hf2 by by eapply fresh_same; [..|exact Hf].
    destruct (response_sent_ s); [injection Hh as <-; apply client_fresh_read_both; auto|].
    unfold write_socks5_response in Hh. cbn in Hh. destruct (negb (peer_known e)); [done|].
    destruct (Net.ep_address (out_ep s)); [|done]. inv_bind Hh. injection Hh as <-.
    apply client_fresh_start; auto. by eapply fresh_same; [..|exact Hf2].
  - injection Hh as <-. destruct r; try done. apply client_fresh_read_both; auto.
    by eapply fresh_same; [..|exact Hf].
  - injection Hh as <-. destruct r; try done. by apply client_fresh_start.
  - injection Hh as <-. destruct r; try done. by apply client_fresh_start.
Qed.

(** ** The invariant holds of every reachable state *)
Lemma client_inv_step s s' : inv cfg s → step cfg tr s s' → inv cfg s'.
Proof.
  intros Hinv Hstep. revert Hinv.
  destruct Hstep as [s l1 o l2 e r s' Hp Hlegal Hh|s srv st]; intros Hinv.
  - destruct Hinv as [o' Hp' Ho Hf H1 H2|Hd HF Hi Ho Hu Hdn|Hd HF Hi Ho Hu Hdn].
    + rewrite Hp' in Hp. destruct l1 as [|? [|]]; simplify_list_eq.
      eapply client_setup_step; [..|exact Hh]; try done. by eapply fresh_same; [..|exact Hf].
    + destruct (client_forall_rest s l1 l2 o Hp _ HF) as [Hdir _].
      destruct (op_dir o) as [d|] eqn:E; [|done].
      by eapply (forward_step cfg tr s l1 l2 o d).
    + destruct (client_forall_rest s l1 l2 o Hp _ HF) as [Hdir _].
      destruct (op_dir o) as [d|] eqn:E; [|done].
      by eapply (dead_step cfg tr s l1 l2 o d).
  - destruct Hinv as [o' Hp' Ho Hf H1 H2|Hd HF Hi Ho Hu Hdn|Hd HF Hi Ho Hu Hdn].
    + apply (inv_setup _ _ o'); try done. by eapply fresh_same; [..|exact Hf].
    + apply inv_forward; try done; [destruct Hu|destruct Hdn]; by split.
    + apply inv_dead; try done; [destruct Hu|destruct Hdn]; by split.
Qed.

Lemma unused_init : unused lane_init.
Proof.
  split; [|done]. unfold len, lane_init, MAX_BUFF_SIZE. cbn [buf]. rewrite length_replicate. lia.
Qed.

Lemma fresh_init srv st : fresh (init srv st).
Proof. split; [reflexivity|exact unused_init|exact unused_init|reflexivity]. Qed.

Lemma client_inv_reachable srv st s : reachable cfg tr srv st s → inv cfg s.
Proof.
  apply (rtc_ind_r (λ s, inv cfg s)).
  - apply (client_fresh_start ReadFirst (init srv st));
      [apply fresh_init|reflexivity|reflexivity|discriminate|exact I].
  - intros s1 s2 _ Hs Hinv. by eapply client_inv_step.
Qed.

(** what a direction has written is a prefix of what it has read *)
Lemma client_written_prefix s d :
  inv cfg s → written_total (get_lane d s) `prefix_of` read_total (get_lane d s).
Proof.
  intros [o _ _ [_ Hu Hdn _] _ _|_ _ _ _ Hu Hdn|_ _ _ _ Hu Hdn].
  - assert (unused (get_lane d s)) as (_ & -> & ->) by (by destruct d). done.
  - assert (lane_live d s) as Hl by (by destruct d). apply (client_live_ok d s Hl).
  - assert (lane_ok d s) as [_ Hpre _] by (by destruct d). exact Hpre.
Qed.
End Setup.

End ClientSessionFacts.
