(* ===== verification/ClientSessionProps.v ===== *)
(** ClientSessionProps: the guarantees of a client session
    (src/Client/Session.cpp), and what its request does at the server. *)
From S2P Require Import Prelude Net Coding Decimal VRequest Http Socks5 DnsCache.
From S2P Require Import DtlsServerSession ProxyStats ClientUdp ClientSession.
From S2P Require Import ClientSessionFacts.
From S2P Require ServerSession.
From S2P Require ServerSessionFacts.
Import ClientSession ClientSessionFacts.

Module ClientSessionProps.

Section Runs.
Context `{Net.AddressText} (cfg : config) (tr : transport).
Context (srv : ClientServer.t) (st : ProxyStats.t).

(** C14: the client forwards bytes unchanged and in order.  In every reachable
    state and both directions, what has been written is a prefix of what has
    been read, at most one operation is in flight (so the buffer a write uses is
    never overwritten under it), and while the session lives everything read has
    been written or is being written. *)
Theorem client_stream_integrity s d :
  reachable cfg tr srv st s →
  let l := get_lane d s in
  written_total l `prefix_of` read_total l ∧ (length (ops d s) <= 1)%nat ∧
  (destroyed_ s = false →
   read_total l = written_total l ∨
   ∃ n, ops d s = [Write d n true] ∧
        read_total l = written_total l ++ take (Z.to_nat n) (buf l)).
Proof.
  intros Hr l.
  apply (client_inv_reachable cfg tr) in Hr as [o Hp Ho [_ Hu Hdn _] _ _|_ _ _ _ Hu Hdn|Hd _ _ _ Hu Hdn].
  - assert (unused l) as (_ & -> & ->) by (by destruct d).
    assert (ops d s = []) as -> by (unfold ops; rewrite Hp; by destruct o).
    split; [done|]. split; [cbn; lia|by left].
  - assert (lane_live d s) as Hl by (by destruct d).
    destruct (client_live_ok d s Hl) as [_ Hpre _]. split; [exact Hpre|].
    destruct Hl as [_ [(-> & E)|(n & -> & E)]]; (split; [cbn; lia|intros _]); [by left|right].
    by exists n.
  - assert (lane_ok d s) as [_ Hpre Hop] by (by destruct d). split; [exact Hpre|].
    split; [|congruence].
    destruct Hop as [->|[->|(n & b & -> & _)]]; cbn; lia.
Qed.

(** what the session tells the server is the request of its application *)
Lemma v_request_pending s data :
  reachable cfg tr srv st s → WriteVReq data ∈ pending s →
  data = (VRequest.stream (v_request cfg s) []).2.
Proof.
  intros Hr Hin.
  apply (client_inv_reachable cfg tr) in Hr as [o Hp _ _ _ Hreq|_ HF _ _ _ _|_ HF _ _ _ _].
  - rewrite Hp in Hin. apply list_elem_of_singleton in Hin. by subst o.
  - rewrite list.Forall_forall in HF. by destruct (HF _ Hin).
  - rewrite list.Forall_forall in HF. by destruct (HF _ Hin).
Qed.

(** A client session that is sending its request is understood: the server session
    that receives the request in one read goes on with it if the client's password
    is allowed, and ends otherwise. *)
Lemma client_request_read s data allowed str e ss :
  reachable cfg tr srv st s → WriteVReq data ∈ pending s →
  29 + len (user_name cfg) + len (hashed_password cfg)
    + len (Socks5.Request.remote_host (socks5_req s)) <= ServerSession.ServerSession.MAX_BUFF_SIZE →
  0 <= Socks5.Request.remote_port (socks5_req s) < 2 ^ 16 →
  len (ServerSession.ServerSession.in_buf ss) = ServerSession.ServerSession.MAX_BUFF_SIZE →
  let ss1 := ServerSessionFacts.ServerSessionFacts.with_request (v_request cfg s) [] ss in
  ServerSession.ServerSession.on_request allowed str e
    (ServerSession.ServerSession.Received data) ss =
  (if decide (hashed_password cfg ∈ allowed)
   then Ret (ServerSession.ServerSession.do_resolve e ss1)
   else ServerSession.ServerSession.destroy str e ss1).
Proof.
  intros Hr Hin Hfit Hport Hbuf. rewrite (v_request_pending s data Hr Hin).
  pose proof (ServerSessionFacts.ServerSessionFacts.v_request_read allowed str e ss
    (v_request cfg s) []) as Hacc.
  cbn zeta in Hacc. rewrite app_nil_r in Hacc.
  assert (len (VRequest.stream (v_request cfg s) []).2 = 29 + len (user_name cfg)
    + len (hashed_password cfg) + len (Socks5.Request.remote_host (socks5_req s))) as Hlen.
  { rewrite VRequest.stream_wire; cbn [app v_request VRequest.user_name VRequest.password
      VRequest.address VRequest.port]; [apply VRequest.len_wire|..];
      unfold ServerSession.ServerSession.MAX_BUFF_SIZE in *; len_lia. }
  rewrite Hacc; cbn [v_request VRequest.user_name VRequest.password VRequest.address
    VRequest.port VRequest.version]; unfold ServerSession.ServerSession.MAX_BUFF_SIZE in *;
    try done; try len_lia.
Qed.

(** with the client's password allowed, the server session goes on to exactly the
    host and port of the application's request *)
Lemma client_request_served s data allowed str e ss :
  reachable cfg tr srv st s → WriteVReq data ∈ pending s →
  29 + len (user_name cfg) + len (hashed_password cfg)
    + len (Socks5.Request.remote_host (socks5_req s)) <= ServerSession.ServerSession.MAX_BUFF_SIZE →
  0 <= Socks5.Request.remote_port (socks5_req s) < 2 ^ 16 →
  hashed_password cfg ∈ allowed →
  len (ServerSession.ServerSession.in_buf ss) = ServerSession.ServerSession.MAX_BUFF_SIZE →
  ∃ ss', ServerSession.ServerSession.on_request allowed str e
           (ServerSession.ServerSession.Received data) ss = Ret ss' ∧
    ServerSession.ServerSession.password ss' = hashed_password cfg ∧
    let host := Socks5.Request.remote_host (socks5_req s) in
    let port := Socks5.Request.remote_port (socks5_req s) in
    ServerSession.ServerSession.pending ss' = ServerSession.ServerSession.pending ss ++
      [match DnsCache.get_tcp (ServerSession.ServerSession.dns ss)
               (ServerSession.ServerSession.now e) (Decimal.host_port host port) with
       | Some ep => ServerSession.ServerSession.Connect ep
       | None => ServerSession.ServerSession.Resolve host (to_string port)
                   (Decimal.host_port host port)
       end].
Proof.
  intros Hr Hin Hfit Hport Hpw Hbuf. eexists. split.
  { rewrite (client_request_read s data allowed str e ss) by done. by rewrite decide_True. }
  apply ServerSessionFacts.ServerSessionFacts.do_resolve_spec.
Qed.

(** A server reached over IPv6 breaks the SOCKS5 reply: [to_v4] throws, and no
    handler catches it. *)
Lemma ipv6_server_throws s data e :
  WriteVReq data ∈ pending s → response_sent_ s = false →
  Net.is_v4 (Net.ep_address (out_ep s)) = false → peer_known e = true →
  handle cfg tr e (WriteVReq data) Done s = Throw bad_address_cast.
Proof.
  intros _ Hsent Hv6 Hpeer. cbn. rewrite Hsent. unfold write_socks5_response. rewrite Hpeer. cbn.
  by destruct (Net.ep_address (out_ep s)).
Qed.

(** ** Every handler runs to its end *)
Lemma in_buf_reachable s : reachable cfg tr srv st s → len (in_buf s) = MAX_BUFF_SIZE.
Proof.
  intros Hr. apply (client_inv_reachable cfg tr) in Hr as [o _ _ [_ Hu _ _] _ _|_ _ _ _ Hu _|_ _ _ _ Hu _];
    apply Hu.
Qed.

(** why a handler may throw, given what it meets in [e] *)
Inductive throws (e : env) (s : session) : op → result → exn → Prop :=
  | throws_port initial data x :
      x = invalid_argument ∨ x = out_of_range → throws e s (ReadLine initial) (Received data) x
  | throws_refusal data :
      udp_enabled e = false ∨ ClientServer.has_dtls (server_ s) = false → refusal_written e = false →
      throws e s ReadRequest (Received data) system_error
  | throws_relay data :
      udp_enabled e = true → ClientServer.has_dtls (server_ s) = true → relay_bound e = false →
      throws e s ReadRequest (Received data) system_error
  | throws_options ep : options_ok e = false → throws e s (Connect ep) Done system_error
  | throws_peer data :
      response_sent_ s = false → peer_known e = false → throws e s (WriteVReq data) Done system_error
  | throws_ipv6 data :
      response_sent_ s = false → peer_known e = true → Net.is_v4 (Net.ep_address (out_ep s)) = false →
      throws e s (WriteVReq data) Done bad_address_cast.

Definition excused (e : env) (s : session) (o : op) (r : result) (res : outcome session) : Prop :=
  match res with Ret _ => True | Throw x => throws e s o r x | Undef => False end.

Lemma response_excused e s s1 data :
  Net.endpoint_wf (out_ep s) → response_sent_ s = false → out_ep s1 = out_ep s →
  excused e s (WriteVReq data) Done (write_socks5_response e s1).
Proof.
  intros [Ha _] Hs E1. rewrite <-E1 in Ha. unfold write_socks5_response, Net.address_wf in *.
  destruct (peer_known e) eqn:Hp; cbn [negb]; [|by apply throws_peer].
  destruct (Net.ep_address (out_ep s1)) as [b|b] eqn:E; cbn in Ha.
  - destruct (Net.length_4 b Ha) as (b0 & b1 & b2 & b3 & ->). exact I.
  - apply throws_ipv6; [done..|]. by rewrite <-E1, E.
Qed.

(** the handler of the request, once it has been decoded *)
Lemma associate_excused e s s1 data :
  server_ s1 = server_ s →
  excused e s ReadRequest (Received data)
    (if negb (udp_enabled e) then refuse_udp e s1 else do_handle_socks5_udp_associate e s1).
Proof.
  intros E. unfold do_handle_socks5_udp_associate, refuse_udp. rewrite E.
  destruct (udp_enabled e) eqn:Hu; cbn [negb].
  - destruct (ClientServer.has_dtls (server_ s)) eqn:Hd; cbn [negb].
    + destruct (relay_bound e) eqn:Hb; [exact I|by apply throws_relay].
    + destruct (refusal_written e) eqn:Hw; [exact I|apply throws_refusal; auto].
  - destruct (refusal_written e) eqn:Hw; [exact I|apply throws_refusal; auto].
Qed.

Lemma first_excused e s s0 o r :
  (∀ data, 262 <= len (overwrite (in_buf s0) 0 data)) → excused e s o r (on_first r s0).
Proof.
  intros Hin. destruct r; try exact I. unfold on_first. cbn zeta.
  change (in_buf (s0 <| up := up s0 <| buf := ?b |> |>)) with b. specialize (Hin data).
  destruct (vec_at_in_range (overwrite (in_buf s0) 0 data) 0) as [b0 ->]; [lia|].
  cbn [mbind outcome_bind]. destruct (_ =? 5); [|by destruct (bool_decide _)].
  destruct (Socks5.AuthReq_unstream_total (Socks5.AuthReq.Req 0 0 []) (overwrite (in_buf s0) 0 data))
    as (q & ok & ->); [lia|]. by destruct ok.
Qed.

Lemma client_request_excused e s s0 r :
  (∀ data, 262 <= len (overwrite (in_buf s0) 0 data)) → server_ s0 = server_ s →
  excused e s ReadRequest r (on_request e r s0).
Proof.
  intros Hin Hs. destruct r; try exact I. unfold on_request. cbn zeta.
  change (in_buf (s0 <| up := up s0 <| buf := ?b |> |>)) with b.
  destruct (Socks5.Request_unsteam_bounded (socks5_req s0) _ (len data) (Hin data)) as (q & ok & E & _).
  change (socks5_req (s0 <| up := _ |>)) with (socks5_req s0). rewrite E.
  cbn [mbind outcome_bind fst snd]. destruct (negb ok); [exact I|].
  destruct (_ =? _); [|exact I]. by apply associate_excused.
Qed.

Lemma client_handle_excused s q o e r :
  reachable cfg tr srv st s → Net.endpoint_wf (out_ep s) →
  excused e s o r (handle cfg tr e o r (s <| pending := q |>)).
Proof.
  intros Hr Hwf. pose proof (in_buf_reachable s Hr) as Hb. set (s0 := s <| pending := q |>).
  assert (∀ data, 262 <= len (overwrite (in_buf s0) 0 data)) as Hin.
  { intros data. rewrite len_overwrite. change (in_buf s0) with (in_buf s). rewrite Hb. unfold MAX_BUFF_SIZE. lia. }
  destruct o; try exact I; cbn [handle].
  - by apply first_excused.
  - destruct r; try exact I. unfold on_auth_written.
    destruct (vec_at_in_range (in_buf s0) 1) as [b1 ->].
    { change (in_buf s0) with (in_buf s). rewrite Hb. unfold MAX_BUFF_SIZE. lia. }
    cbn [mbind outcome_bind]. by destruct (_ =? 255).
  - by apply client_request_excused.
  - destruct r as [| |data|]; try exact I. unfold on_line.
    pose proof (Http.unstream_total (http_req s0) (initial ++ data)) as Ht.
    destruct (Http.HttpRequest.unstream (http_req s0) (initial ++ data)) as [p|x|];
      cbn in *; [by destruct (negb p.2)|by constructor|done].
  - destruct r; try exact I. cbn [on_connected].
    destruct (options_ok e) eqn:Ho; [exact I|by apply throws_options].
  - destruct r; try exact I. unfold on_v_req_written. cbn zeta.
    change (response_sent_ (s0 <| forward := true |>)) with (response_sent_ s).
    destruct (response_sent_ s) eqn:Hs; [exact I|].
    by apply response_excused.
Qed.

(** C12: How every handler of a client session ends, whatever the application, the
    server and the resolver do.  None leaves defined behaviour.  A handler
    throws only for one of these reasons: the text of the port of a CONNECT request
    is not a number ([throws_port]); a refusal of UDP cannot be written to the
    application ([throws_refusal]); the socket of a new UDP relay cannot be bound or
    asked for its port ([throws_relay]); the options of the socket to the server cannot be set when it has
    connected ([throws_options]); and, when the SOCKS5 reply is to be written, the
    connection to the server is gone ([throws_peer]) or goes over IPv6
    ([throws_ipv6]).  When the system calls succeed, only the bad port and the IPv6 server are left;
    and failing to set the options or to find the peer does throw. *)
Theorem client_handlers_total s l1 o l2 e r :
  reachable cfg tr srv st s → pending s = l1 ++ o :: l2 → legal o r →
  Net.endpoint_wf (out_ep s) →
  let res := handle cfg tr e o r (s <| pending := l1 ++ l2 |>) in
  excused e s o r res ∧
  (options_ok e = true → refusal_written e = true → peer_known e = true → relay_bound e = true →
   match res with
   | Throw x => (∃ initial data, o = ReadLine initial ∧ r = Received data ∧
                   (x = invalid_argument ∨ x = out_of_range)) ∨
                (∃ data, o = WriteVReq data ∧ r = Done ∧ response_sent_ s = false ∧
                   Net.is_v4 (Net.ep_address (out_ep s)) = false ∧ x = bad_address_cast)
   | _ => True
   end) ∧
  (∀ ep, o = Connect ep → r = Done → options_ok e = false → res = Throw system_error) ∧
  (∀ data, o = WriteVReq data → r = Done → response_sent_ s = false → peer_known e = false →
     res = Throw system_error).
Proof.
  intros Hr Hp Hl Hwf res.
  assert (excused e s o r res) as Hex by by apply client_handle_excused.
  split; [exact Hex|split_and!].
  - intros H1 H2 H3 H4. destruct res as [|x|]; try exact I.
    inversion Hex; subst; try congruence; [left; by eauto 6|right; by eauto 8].
  - intros ep -> -> H1. subst res. cbn. by rewrite H1.
  - intros data -> -> Hs Hpk. subst res. cbn. rewrite Hs. unfold write_socks5_response. by rewrite Hpk.
Qed.
End Runs.

(** ** Concrete runs *)
Section Exec.
Context `{Net.AddressText} (cfg : config) (tr : transport).

Definition legal_b (o : op) (r : result) : bool :=
  match o, r with
  | _, Failed => true
  | (WriteAuth _ | WriteHttp _ | Connect _ | SslHandshake | WsHandshake | WriteVReq _
    | WriteReply _ | WriteAssociated _), Done => true
  | Write _ _ b, Done => b
  | (ReadFirst | ReadRequest | ReadControl | Read _), Received data =>
      (0 <? len data) && (len data <=? MAX_BUFF_SIZE)
  | ReadLine _, Received _ => true
  | Resolve, Resolved _ => true
  | _, _ => false
  end.

Fixpoint exec (sched : list (nat * env * result)) (s : session) : option session :=
  match sched with
  | [] => Some s
  | (i, e, r) :: sched =>
      o ← pending s !! i;
      if legal_b o r then
        match handle cfg tr e o r (s <| pending := delete i (pending s) |>) with
        | Ret s' => exec sched s'
        | _ => None
        end
      else None
  end.

Lemma client_legal_b_sound o r : legal_b o r = true → legal o r.
Proof.
  destruct o, r; cbn; intros E; try discriminate E; try (by constructor);
    try (apply andb_true_iff in E as [E1%Z.ltb_lt E2%Z.leb_le]; by constructor).
  all: by destruct socket_open; try discriminate E; constructor.
Qed.

Lemma client_exec_steps sched s s' : exec sched s = Some s' → rtc (step cfg tr) s s'.
Proof.
  revert s. induction sched as [|[[i e] r] sched IH]; intros s; cbn.
  { intros [= <-]. apply rtc_refl. }
  destruct (pending s !! i) as [o|] eqn:E; [|done]. cbn.
  destruct (legal_b o r) eqn:Hl; [|done].
  destruct (handle _ _ _ _ _ _) as [s1| |] eqn:Hh; [|done..]. intros Hx.
  eapply rtc_l; [|by apply IH].
  apply (step_complete _ _ s (take i (pending s)) o (drop (S i) (pending s)) e r);
    [by rewrite take_drop_middle|by apply client_legal_b_sound|].
  by rewrite <-delete_take_drop.
Qed.
End Exec.

(** An application asks for example.org:443 over SOCKS5, then sends "hello". *)
Definition demo_text : Net.AddressText := λ _, lit "192.0.2.1".
Definition demo_cfg : config :=
  Config (lit "198.51.100.7") (lit "443") (lit "test_usr") (lit "5ebe2294").
Definition demo_env : env := Env 0 4000 true true true true true.
Definition demo_server : Net.endpoint :=
  Net.Endpoint (Net.address_v4 [Byte.xc6; Byte.x33; Byte.x64; Byte.x07]) 443.
Definition demo_ask : bytes :=
  [Byte.x05; Byte.x01; Byte.x00; Byte.x03; Byte.x0b] ++ lit "example.org" ++ be16_bytes 443.
Definition demo_sched : list (nat * env * result) :=
  (λ r, (0%nat, demo_env, r)) <$>
    [Received [Byte.x05; Byte.x01; Byte.x00]; Done; Received demo_ask; Resolved [demo_server];
     Done; Done; Done; Done; Received (lit "hello")].
Definition demo_run (n : nat) : option session :=
  exec (H:=demo_text) demo_cfg Tls (take n demo_sched)
    (started (init ClientServer.init ProxyStats.init)).
Definition demo_at (n : nat) : session :=
  default (init ClientServer.init ProxyStats.init) (demo_run n).

Lemma client_demo_reachable n :
  bool_decide (is_Some (demo_run n)) = true →
  reachable (H:=demo_text) demo_cfg Tls ClientServer.init ProxyStats.init (demo_at n).
Proof.
  intros [s Hs]%bool_decide_eq_true. unfold demo_at. rewrite Hs. by apply client_exec_steps in Hs.
Qed.
Lemma demo6_runs :
  reachable (H:=demo_text) demo_cfg Tls ClientServer.init ProxyStats.init (demo_at 6).
Proof. apply client_demo_reachable. vm_cast_no_check (eq_refl true). Qed.
Lemma demo9_runs :
  reachable (H:=demo_text) demo_cfg Tls ClientServer.init ProxyStats.init (demo_at 9).
Proof. apply client_demo_reachable. vm_cast_no_check (eq_refl true). Qed.
Definition demo_wire : bytes :=
  (VRequest.stream (VRequest.Req 1 0 (lit "test_usr") (lit "5ebe2294") (lit "example.org") 443 [])
     []).2.
Lemma demo6_pending : pending (demo_at 6) = [WriteVReq demo_wire].
Proof. vm_cast_no_check (eq_refl [WriteVReq demo_wire]). Qed.
Lemma demo6_host : Socks5.Request.remote_host (socks5_req (demo_at 6)) = lit "example.org".
Proof. by_evaluation. Qed.
Lemma demo6_port : Socks5.Request.remote_port (socks5_req (demo_at 6)) = 443.
Proof. by_evaluation. Qed.
Lemma demo9_read : read_total (get_lane UP (demo_at 9)) = lit "hello".
Proof. by_evaluation. Qed.

Lemma client_stream_integrity_witness :
  read_total (get_lane UP (demo_at 9)) = lit "hello" ∧
  written_total (get_lane UP (demo_at 9)) `prefix_of` read_total (get_lane UP (demo_at 9)) ∧
  (length (ops UP (demo_at 9)) <= 1)%nat.
Proof.
  exact (conj demo9_read
    (let t := client_stream_integrity (H:=demo_text) _ _ _ _ (demo_at 9) UP demo9_runs in
     conj (proj1 t) (proj1 (proj2 t)))).
Defined.

Lemma demo6_out : out_ep (demo_at 6) = demo_server.
Proof. by_evaluation. Qed.
(** the request has been written to a server reached over IPv4: the reply is
    under way *)
Lemma client_handlers_total_witness :
  match handle (H:=demo_text) demo_cfg Tls demo_env (WriteVReq demo_wire) Done
          (demo_at 6 <| pending := [] ++ [] |>) with
  | Ret _ => True
  | Throw _ => False
  | Undef => False
  end.
Proof.
  destruct (client_handlers_total (H:=demo_text) demo_cfg Tls ClientServer.init ProxyStats.init
    (demo_at 6) [] (WriteVReq demo_wire) [] demo_env Done demo6_runs demo6_pending
    (legal_done (WriteVReq demo_wire) I)) as (Hex & Ht & _).
  { rewrite demo6_out. exact (conj eq_refl (conj (proj1 (Z.leb_le 0 443) eq_refl) eq_refl)). }
  rewrite demo6_out in Ht. specialize (Ht eq_refl eq_refl eq_refl eq_refl).
  destruct (handle _ _ _ _ _ _) as [s'|x|]; [exact I| |exact Hex].
  destruct Ht as [(? & ? & E & _)|(? & _ & _ & _ & E & _)]; discriminate E.
Defined.

Definition demo_fresh : ServerSession.ServerSession.session :=
  ServerSession.ServerSession.init DnsCache.init.
Lemma demo_fresh_buf :
  len (ServerSession.ServerSession.in_buf demo_fresh) = ServerSession.ServerSession.MAX_BUFF_SIZE.
Proof. by_evaluation. Qed.

Lemma client_request_served_witness :
  ∃ ss', ServerSession.ServerSession.on_request {[ lit "5ebe2294" ]}
      ServerSession.ServerSession.Tls (ServerSession.ServerSession.Env 0 true true true true)
      (ServerSession.ServerSession.Received demo_wire) demo_fresh = Ret ss' ∧
    ServerSession.ServerSession.password ss' = lit "5ebe2294" ∧
    ServerSession.ServerSession.pending ss' =
      [ServerSession.ServerSession.Resolve (lit "example.org") (lit "443")
         (lit "example.org:443")].
Proof.
  destruct (client_request_served (H:=demo_text) demo_cfg Tls ClientServer.init ProxyStats.init
    (demo_at 6) demo_wire {[ lit "5ebe2294" ]} ServerSession.ServerSession.Tls
    (ServerSession.ServerSession.Env 0 true true true true) demo_fresh demo6_runs) as (ss' & H1 & H2 & H3).
  - rewrite demo6_pending. apply list_elem_of_here.
  - rewrite demo6_host. vm_compute. discriminate.
  - rewrite demo6_port. lia.
  - apply elem_of_singleton. reflexivity.
  - exact demo_fresh_buf.
  - exists ss'. split; [exact H1|]. split; [exact H2|].
    cbv zeta in H3. rewrite demo6_host, demo6_port in H3. rewrite H3. reflexivity.
Defined.
End ClientSessionProps.
