(* ===== verification/ClientSessionUdp.v ===== *)
(** ClientSessionUdp: what a client session does to the state it shares with the
    others (src/Client/Session.cpp): the table of UDP relays and the count of
    sessions. *)
From S2P Require Import Prelude Net VRequest Http Socks5 ProxyStats ClientUdp ClientSession.
From S2P Require Import ClientSessionFacts.

Module ClientSessionUdp.
Import ClientSession ClientSessionFacts.

Definition same_udp (s s' : session) : Prop :=
  server_ s' = server_ s ∧ session_id_ s' = session_id_ s ∧ udp_relay_ s' = udp_relay_ s ∧
  destroyed_ s' = destroyed_ s ∧
  ProxyStats.sessionCount (stats s') = ProxyStats.sessionCount (stats s).

(** a handler leaves the shared state alone, opens an association or ends the
    session *)
Inductive effect (e : env) (o : op) (s s' : session) : Prop :=
  | keeps : same_udp s s' → effect e o s s'
  | opens :
      o = ReadRequest →
      server_ s' = (ClientServer.associate (new_address e) (relay_port e) (server_ s)).2 →
      session_id_ s' = (ClientServer.associate (new_address e) (relay_port e) (server_ s)).1 →
      udp_relay_ s' = Some (new_address e) → destroyed_ s' = destroyed_ s →
      ProxyStats.sessionCount (stats s') = ProxyStats.sessionCount (stats s) → effect e o s s'
  | ends :
      destroyed_ s = false → destroyed_ s' = true → server_ s' = server_ (destroy s) →
      session_id_ s' = session_id_ s → udp_relay_ s' = None →
      ProxyStats.sessionCount (stats s') = u64 (ProxyStats.sessionCount (stats s) - 1) →
      effect e o s s'.

Lemma same_udp_refl s : same_udp s s.
Proof. done. Qed.
Lemma same_udp_trans s1 s2 s3 : same_udp s1 s2 → same_udp s2 s3 → same_udp s1 s3.
Proof. intros (?&?&?&?&?) (?&?&?&?&?). split_and!; congruence. Qed.
Lemma same_set_lane d l s : same_udp s (set_lane d l s).
Proof. by destruct d. Qed.
Lemma same_start o s : same_udp s (start_op o s).
Proof. done. Qed.
Lemma same_count d n s : same_udp s (count d n s).
Proof. by destruct d. Qed.

(** what [destroy] does to the server *)
Lemma destroy_server s :
  destroyed_ s = false →
  server_ (destroy s) =
    match udp_relay_ s with
    | Some h => ClientServer.release (session_id_ s) h (server_ s)
    | None => if negb (session_id_ s =? 0)
              then ClientServer.unregister_relay (session_id_ s) (server_ s) else server_ s
    end ∧
  session_id_ (destroy s) = session_id_ s ∧ udp_relay_ (destroy s) = None ∧
  destroyed_ (destroy s) = true ∧
  ProxyStats.sessionCount (stats (destroy s)) = u64 (ProxyStats.sessionCount (stats s) - 1).
Proof.
  intros Hd. unfold destroy. rewrite Hd. cbn. unfold ClientServer.release.
  destruct (session_id_ s =? 0); cbn; destruct (udp_relay_ s) eqn:E; cbn; split_and!; done.
Qed.

Lemma effect_same e o s s' : same_udp s s' → effect e o s s'.
Proof. apply keeps. Qed.
Lemma effect_destroy e o s s1 : same_udp s s1 → effect e o s (destroy s1).
Proof.
  intros (E1 & E2 & E3 & E4 & E5). destruct (destroyed_ s1) eqn:Hd.
  - apply keeps. unfold destroy. rewrite Hd. split_and!; congruence.
  - destruct (destroy_server s1 Hd) as (D1 & D2 & D3 & D4 & D5).
    assert (destroyed_ s = false) as Hd0 by congruence.
    apply ends; try congruence.
    rewrite D1, (proj1 (destroy_server s Hd0)). by rewrite E1, E2, E3.
Qed.

Ltac solve_same := first [apply keeps; done | apply effect_destroy; done].

Lemma effect_on_read e o d r s : effect e o s (on_read d r s).
Proof.
  unfold on_read. destruct r; try (by apply effect_destroy). apply keeps.
  eapply same_udp_trans; [apply same_set_lane|]. eapply same_udp_trans; [apply same_count|]. done.
Qed.
Lemma effect_on_written e o d n r s : effect e o s (on_written d n r s).
Proof.
  unfold on_written. destruct r; try (by apply effect_destroy). apply keeps.
  eapply same_udp_trans; [apply same_set_lane|]. done.
Qed.

Section Handlers.
Context `{Net.AddressText} (cfg : config) (tr : transport).

Lemma effect_on_first e o r s s' : on_first r s = Ret s' → effect e o s s'.
Proof.
  unfold on_first. destruct r; try (intros [= <-]; by apply effect_destroy). cbv zeta. intros Hh.
  apply bind_Ret_inv in Hh as (b0 & _ & Hh). destruct (_ =? 5).
  - apply bind_Ret_inv in Hh as ([q []] & _ & Hh); injection Hh as <-; [|by apply effect_destroy].
    unfold write_sock5_hanshake_reply. destruct (bool_decide _); [by apply keeps|by apply effect_destroy].
  - destruct (bool_decide _); injection Hh as <-; [by apply keeps|by apply effect_destroy].
Qed.
Lemma effect_on_auth e o r s s' : on_auth_written r s = Ret s' → effect e o s s'.
Proof.
  unfold on_auth_written. destruct r; try (intros [= <-]; by apply effect_destroy). intros Hh.
  apply bind_Ret_inv in Hh as (b1 & _ & Hh).
  destruct (_ =? 255); injection Hh as <-; [by apply effect_destroy|by apply keeps].
Qed.
Lemma effect_refuse e o s s' : refuse_udp e s = Ret s' → effect e o s s'.
Proof.
  unfold refuse_udp. destruct (refusal_written e); [|done]. intros [= <-]. by apply effect_destroy.
Qed.
Lemma effect_associate e s s' :
  do_handle_socks5_udp_associate e s = Ret s' → effect e ReadRequest s s'.
Proof.
  unfold do_handle_socks5_udp_associate. destruct (negb _); [apply effect_refuse|].
  destruct (negb _); [done|]. intros [= <-]. by apply opens.
Qed.
Lemma effect_on_request e r s s' : on_request e r s = Ret s' → effect e ReadRequest s s'.
Proof.
  unfold on_request. destruct r; try (intros [= <-]; by apply effect_destroy). cbv zeta. intros Hh.
  apply bind_Ret_inv in Hh as (q & _ & Hh). destruct (negb q.2); [injection Hh as <-; by apply effect_destroy|].
  destruct (_ =? _); [|injection Hh as <-; by apply keeps].
  match type of Hh with context [refuse_udp _ ?x] => set (s1 := x) in * end.
  assert (effect e ReadRequest s1 s') as He
    by (destruct (negb _); [by eapply effect_refuse|by apply effect_associate]).
  assert (same_udp s s1) as (E1 & E2 & E3 & E4 & E5) by done.
  destruct He as [Hs|Ho D1 D2 D3 D4 D5|D0 D1 D2 D3 D4 D5].
  - apply keeps. by eapply same_udp_trans.
  - apply opens; congruence.
  - apply ends; try congruence. rewrite D2.
    rewrite (proj1 (destroy_server s1 D0)), (proj1 (destroy_server s ltac:(congruence))).
    by rewrite E1, E2, E3.
Qed.
Lemma effect_on_line e o i r s s' : on_line i r s = Ret s' → effect e o s s'.
Proof.
  unfold on_line. destruct r; try (intros [= <-]; by apply effect_destroy). intros Hh.
  apply bind_Ret_inv in Hh as (q & _ & Hh). cbv zeta in Hh.
  destruct (negb q.2); injection Hh as <-; [by apply effect_destroy|by apply keeps].
Qed.
Lemma effect_v_req e o r s s' : on_v_req_written e r s = Ret s' → effect e o s s'.
Proof.
  unfold on_v_req_written. destruct r; try (intros [= <-]; by apply effect_destroy). cbv zeta.
  destruct (response_sent_ (s <| forward := true |>)); [intros [= <-]; by apply keeps|].
  unfold write_socks5_response. destruct (negb _); [done|].
  destruct (Net.ep_address _); [|done]. intros Hh.
  apply bind_Ret_inv in Hh as (ip & _ & Hh). injection Hh as <-. by apply keeps.
Qed.

(** every handler has one of the three effects *)
Lemma handle_effect e o r s s' : handle cfg tr e o r s = Ret s' → effect e o s s'.
Proof.
  intros Hh. destruct o; cbn [handle] in Hh.
  - by eapply effect_on_first.
  - by eapply effect_on_auth.
  - by eapply effect_on_request.
  - by eapply effect_on_line.
  - destruct r; injection Hh as <-; solve_same.
  - destruct r as [| | |[|ep eps]]; injection Hh as <-; solve_same.
  - unfold on_connected in Hh. destruct (options_ok e), r; try done; injection Hh as <-; solve_same.
  - destruct r; injection Hh as <-; try solve_same. unfold after_ssl_handshake. destruct tr; solve_same.
  - destruct r; injection Hh as <-; solve_same.
  - by eapply effect_v_req.
  - destruct r; injection Hh as <-; solve_same.
  - destruct r; injection Hh as <-; solve_same.
  - destruct r; injection Hh as <-; solve_same.
  - injection Hh as <-. apply effect_on_read.
  - injection Hh as <-. apply effect_on_written.
Qed.

(** ** Which operations a handler starts *)
(** those in front of an association *)
Definition is_pre (o : op) : bool :=
  match o with ReadFirst | WriteAuth _ | ReadRequest => true | _ => false end.
Definition starts (o : op) (s s' : session) : Prop :=
  ∃ new, pending s' = pending s ++ new ∧ ∀ p, p ∈ new → is_pre p = true → is_pre o = true ∧ o ≠ ReadRequest.

Lemma starts_none o s s' : pending s' = pending s → starts o s s'.
Proof. intros E. exists []. rewrite app_nil_r. split; [done|]. set_solver. Qed.
Lemma starts_destroy o s s1 : pending s1 = pending s → starts o s (destroy s1).
Proof.
  intros E. apply starts_none. destruct (destroy_fields s1) as (_ & _ & _ & -> & _). done.
Qed.
Lemma starts_op o p s s' :
  pending s' = pending s ++ [p] → (is_pre p = true → is_pre o = true ∧ o ≠ ReadRequest) → starts o s s'.
Proof. intros E Hp. exists [p]. split; [done|]. intros q ->%list_elem_of_singleton. done. Qed.
Ltac solve_starts := first [by apply starts_destroy | by (eapply starts_op; [done|]) | by apply starts_none].

Lemma handle_starts e o r s s' : handle cfg tr e o r s = Ret s' → starts o s s'.
Proof.
  intros Hh. destruct o; cbn [handle] in Hh.
  - unfold on_first in Hh. destruct r; try (injection Hh as <-; solve_starts).
    cbv zeta in Hh. apply bind_Ret_inv in Hh as (b0 & _ & Hh). destruct (_ =? 5).
    + apply bind_Ret_inv in Hh as ([q []] & _ & Hh); injection Hh as <-; [|solve_starts].
      unfold write_sock5_hanshake_reply. destruct (bool_decide _); solve_starts.
    + destruct (bool_decide _); injection Hh as <-; solve_starts.
  - unfold on_auth_written in Hh. destruct r; try (injection Hh as <-; solve_starts).
    apply bind_Ret_inv in Hh as (b1 & _ & Hh). destruct (_ =? 255); injection Hh as <-; solve_starts.
  - unfold on_request in Hh. destruct r; try (injection Hh as <-; solve_starts).
    cbv zeta in Hh. apply bind_Ret_inv in Hh as (q & _ & Hh).
    destruct (negb q.2); [injection Hh as <-; solve_starts|].
    destruct (_ =? _); [|injection Hh as <-; solve_starts].
    unfold do_handle_socks5_udp_associate, refuse_udp in Hh.
    repeat case_match; try done; injection Hh as <-; solve_starts.
  - unfold on_line in Hh. destruct r; try (injection Hh as <-; solve_starts).
    apply bind_Ret_inv in Hh as (q & _ & Hh). cbv zeta in Hh.
    destruct (negb q.2); injection Hh as <-; solve_starts.
  - destruct r; injection Hh as <-; solve_starts.
  - destruct r as [| | |[|ep eps]]; injection Hh as <-; solve_starts.
  - unfold on_connected in Hh.
    destruct (options_ok e), r; try done; injection Hh as <-; solve_starts.
  - destruct r; injection Hh as <-; try solve_starts. unfold after_ssl_handshake. destruct tr; solve_starts.
  - destruct r; injection Hh as <-; solve_starts.
  - unfold on_v_req_written in Hh. destruct r; try (injection Hh as <-; solve_starts). cbv zeta in Hh.
    destruct (response_sent_ (s <| forward := true |>)).
    { injection Hh as <-. exists [Read UP; Read DOWN]. split; [unfold read_both; cbn; by rewrite <-app_assoc|].
      intros p [->| ->%list_elem_of_singleton]%elem_of_cons; done. }
    unfold write_socks5_response in Hh. destruct (negb _); [done|]. destruct (Net.ep_address _); [|done].
    apply bind_Ret_inv in Hh as (ip & _ & Hh). injection Hh as <-. solve_starts.
  - destruct r; injection Hh as <-; try solve_starts. exists [Read UP; Read DOWN].
    split; [unfold read_both; cbn; by rewrite <-app_assoc|].
    intros p [->| ->%list_elem_of_singleton]%elem_of_cons; done.
  - destruct r; injection Hh as <-; solve_starts.
  - destruct r; injection Hh as <-; solve_starts.
  - injection Hh as <-. unfold on_read. destruct r; try solve_starts. destruct d; solve_starts.
  - injection Hh as <-. unfold on_written. destruct r; try solve_starts. destruct d; solve_starts.
Qed.

(** ** A session's association *)
Record assoc_ok (s : session) : Prop := AssocOk {
  ao_pre o : o ∈ pending s → is_pre o = true → session_id_ s = 0 ∧ udp_relay_ s = None;
  ao_dead : destroyed_ s = true → udp_relay_ s = None;
  ao_none : udp_relay_ s = None → destroyed_ s = false → session_id_ s = 0
}.

Lemma assoc_ok_start srv st : assoc_ok (started (init srv st)).
Proof. split; done. Qed.
Lemma assoc_ok_shared s srv st : assoc_ok s → assoc_ok (s <| server_ := srv |> <| stats := st |>).
Proof. intros [H1 H2 H3]. by split. Qed.

Lemma assoc_ok_handle e s l1 o l2 r s' :
  inv cfg s → assoc_ok s → pending s = l1 ++ o :: l2 →
  handle cfg tr e o r (s <| pending := l1 ++ l2 |>) = Ret s' → assoc_ok s'.
Proof.
  intros Hinv [H1 H2 H3] Hp Hh. set (s0 := s <| pending := l1 ++ l2 |>) in *.
  destruct (handle_starts e o r s0 s' Hh) as (new & Hnew & Hpre).
  assert (o ∈ pending s) as Ho by (rewrite Hp; set_solver).
  assert (∀ p, p ∈ pending s' → is_pre p = true →
    session_id_ s = 0 ∧ udp_relay_ s = None ∧ (o = ReadRequest → p ∈ l1 ++ l2)) as Hin.
  { intros p Hps Hpp. rewrite Hnew in Hps. apply elem_of_app in Hps as [Hps|Hps].
    - destruct (H1 p) as [? ?]; [rewrite Hp; set_solver|done|]. done.
    - destruct (Hpre p Hps Hpp) as [Hopre Hne]. destruct (H1 o Ho Hopre) as [? ?]. done. }
  destruct (handle_effect e o r s0 s' Hh) as [(E1 & E2 & E3 & E4 & _)|Eo _ _ D3 D4 _|D0 D1 _ D3 D4 _].
  - split; rewrite ?E2, ?E3, ?E4; try done. intros p Hps Hpp. by destruct (Hin p Hps Hpp) as (? & ? & _).
  - subst o. assert (destroyed_ s = false ∧ l1 ++ l2 = []) as [Hd Hnil].
    { destruct Hinv as [o' Hp' _ Hf _ _|_ HF _ _ _ _|_ HF _ _ _ _].
      - rewrite Hp' in Hp. destruct l1 as [|? [|]]; simplify_list_eq. split; [apply Hf|done].
      - rewrite list.Forall_forall in HF. by destruct (HF _ Ho).
      - rewrite list.Forall_forall in HF. by destruct (HF _ Ho). }
    split; rewrite ?D3, ?D4; try done.
    + intros p Hps Hpp. destruct (Hin p Hps Hpp) as (_ & _ & Hrest). rewrite Hnil in Hrest.
      specialize (Hrest eq_refl). set_solver.
    + intros Hd'. change (destroyed_ s = true) in Hd'. congruence.
  - split; rewrite ?D1, ?D3, ?D4; try done.
    intros p Hps Hpp. by destruct (Hin p Hps Hpp) as (? & ? & _).
Qed.
End Handlers.
End ClientSessionUdp.
