(* ===== verification/ClientAccept.v ===== *)
(** ClientAccept: how the client takes connections (src/Client/Server.h and the
    accept part of Server.cpp).

    The window starts and stops the acceptor by posting handlers to the
    io_context, which runs what is ready in order: posted calls, and the
    completions of the accept in flight, of the receives of the DTLS channel and of
    its timer.  The accept fills a socket that the session object [tls_session_] or
    [ws_session_] owns; the handlers of the channel hold its address, and running
    one when the channel is gone is undefined.  The DTLS channel and the relay table
    of the same class are ClientServer in ClientUdp. *)
From S2P Require Import Prelude Net Decimal ProxyStats UdpFrame ClientUdp ClientSession.

Module ClientAccept.
Import ClientSession(transport, Tls, Websocket).

#[global] Instance transport_eq_dec : EqDecision transport.
Proof. solve_decision. Defined.

(** a session object: its address and its class *)
Notation object := (nat * transport)%type.

(** how an [async_accept] completes *)
Inductive result := Accepted | Aborted | Error.
#[global] Instance result_eq_dec : EqDecision result.
Proof. solve_decision. Defined.

(** the handlers of a DTLS channel: a posted [do_handshake], the end of a wait, the
    completion of a receive, with or without an error *)
Inductive channel_call := Handshake | Timeout (k : DtlsChannel.timer) | Received | ReceiveFailed.

(** what the io_context runs *)
Inductive handler :=
  | RunStart                             (* posted by start_accept *)
  | RunStop                              (* posted by stop_accept *)
  | RunStopDtls                          (* posted by stop_dtls *)
  | RunAccept (c : object) (r : result)  (* the completion of an accept into [c] *)
  | RunChannel (a : nat) (k : channel_call).   (* of the channel at address [a] *)

(** what the calls of a handler return: whether the throwing calls of asio succeed,
    and OpenSSL's answers, with those to the writes of [flush_pending] *)
Record answers := Answers {
  ok : bool;
  handshake : DtlsChannel.handshake_result;
  written : DtlsChannel.write_result;
  decrypted : DtlsChannel.read_result;
  flushed : bytes → DtlsChannel.write_result
}.

(** ** State *)
Record t := Srv {
  useWebSocket_ : bool;
  local_endpoint : Net.endpoint;
  acceptor_ : option Net.endpoint;       (* what it listens on, when open *)
  session_ : option object;              (* tls_session_ or ws_session_ *)
  fresh_id : nat;
  accepting : list object;               (* async_accepts in flight *)
  ready : list handler;                  (* handlers the io_context is to run *)
  started : list object;                 (* the sessions started *)
  destroyed : list object;               (* and those that have been destroyed *)
  stats : ProxyStats.t;
  udp : ClientServer.t                   (* dtls_, relays_ and what belongs to them *)
}.
#[global] Instance eta_t : Eta t := fun r =>
  Srv (useWebSocket_ r) (local_endpoint r) (acceptor_ r) (session_ r) (fresh_id r)
    (accepting r) (ready r) (started r) (destroyed r) (stats r) (udp r).

Definition is_open (s : t) : bool := bool_decide (is_Some (acceptor_ s)).

(** ** Operations *)
(** [Server::Server], after the local address has been resolved *)
Definition make (websocket : bool) (endpoint : Net.endpoint) : t :=
  Srv websocket endpoint None None 0 [] [] [] [] ProxyStats.init ClientServer.init.

Definition post (h : handler) (s : t) : t := s <| ready := ready s ++ [h] |>.
Definition start_accept (s : t) : t := post RunStart s.
Definition stop_accept (s : t) : t := post RunStop s.
(** [stop_dtls] posts; [start_dtls] works at once, in the caller's thread, and its
    channel posts [do_handshake] *)
Definition stop_dtls (s : t) : t := post RunStopDtls s.
Definition start_dtls `{Net.AddressParser} (su : DtlsChannel.setup) (udp_enabled : bool)
    (remote_addr dtls_port remote_port text_password : bytes) (s : t) : outcome t :=
  u ← ClientServer.start_dtls su udp_enabled remote_addr dtls_port remote_port text_password (udp s);
  let s := s <| udp := u |> in
  mret (if udp_enabled then post (RunChannel (ClientServer.channel u) Handshake) s else s).

(** a new session object takes the place of the last one, and an accept into its
    socket is started *)
Definition accept_into (tr : transport) (s : t) : t :=
  let c := (fresh_id s, tr) in
  s <| session_ := Some c |> <| fresh_id := S (fresh_id s) |>
    <| accepting := accepting s ++ [c] |>.
Definition do_accept_tls (s : t) : t := accept_into Tls s.
Definition do_accept_ws (s : t) : t := accept_into Websocket s.
Definition do_accept (s : t) : t :=
  if useWebSocket_ s then do_accept_ws s else do_accept_tls s.

(** [tls_session_->start()], [ws_session_->start()], which set options of the socket
    and throw if they cannot, and [sessionCreated] *)
Definition start_session (options_set : bool) (s : t) : outcome t :=
  match session_ s with
  | Some o => if options_set
              then mret (s <| started := started s ++ [o] |>
                           <| stats := ProxyStats.sessionCreated (stats s) |>)
              else Throw system_error
  | None => Undef
  end.

(** the handler of [do_accept_tls] and [do_accept_ws]; [c] is the object the
    accept was started for.  The accepted connection is put into the socket of
    [c], which no longer exists when [session_] has been replaced *)
Definition on_accept (ans : answers) (c : object) (r : result) (s : t) : outcome t :=
  if bool_decide (r = Accepted) && negb (bool_decide (session_ s = Some c)) then Undef
  else if negb (is_open s) then mret s
  else match r with
       | Aborted => mret s
       | Accepted => s ← start_session (ok ans) s;
                     mret (match c.2 with Tls => do_accept_tls s | Websocket => do_accept_ws s end)
       | Error => mret (match c.2 with Tls => do_accept_tls s | Websocket => do_accept_ws s end)
       end.

(** the handler [start_accept] posts: open, bind and listen throw if they fail, as
    open does when the acceptor is open *)
Definition on_start (ans : answers) (s : t) : outcome t :=
  if is_open s || negb (ok ans) then Throw system_error
  else mret (do_accept (s <| acceptor_ := Some (local_endpoint s) |>)).

(** the handler [stop_accept] posts: cancel and close throw if they fail; the accept
    in flight completes with [operation_aborted] *)
Definition on_stop (ans : answers) (s : t) : outcome t :=
  if is_open s
  then if ok ans
       then mret (s <| ready := ready s ++ ((λ c, RunAccept c Aborted) <$> accepting s) |>
                    <| accepting := [] |> <| acceptor_ := None |>)
       else Throw system_error
  else mret s.

(** *** The handlers of the DTLS channel *)
(** [addDownstreamDelta] in [UdpRelay::on_dtls_data] *)
Definition count_down (cb : option DtlsChannel.callback) (u : ClientServer.t) (st : ProxyStats.t)
    : ProxyStats.t :=
  match cb with
  | Some (DtlsChannel.OnData (d0 :: d1 :: frame)) =>
      match ClientServer.relays_ u !! be16 d0 d1 ≫= λ h, ClientServer.heap u !! h with
      | Some r =>
          match UdpFrame.parse UdpFrame.init frame with
          | Ret (_, Some _) => if UdpRelay.running_ r
                               then ProxyStats.addDownstreamDelta (len frame) st else st
          | _ => st
          end
      | None => st
      end
  | _ => st
  end.
(** the callbacks [start_dtls] gives the channel *)
Definition run_callback (w : bytes → DtlsChannel.write_result) (cb : option DtlsChannel.callback)
    (u : ClientServer.t) : outcome ClientServer.t :=
  match cb with
  | Some (DtlsChannel.OnHandshake done) => ClientServer.on_handshake w done u
  | Some (DtlsChannel.OnData d) => ClientServer.on_dtls_data d u
  | None => mret u
  end.
(** what a handler does to its channel *)
Definition channel_step (ans : answers) (k : channel_call) (c : DtlsChannel.t)
    : DtlsChannel.t * option DtlsChannel.callback :=
  match k with
  | Handshake => DtlsChannel.do_handshake (handshake ans) (written ans) c
  | Timeout k => DtlsChannel.on_timer k (handshake ans) (written ans) c
  | Received => DtlsChannel.on_receive false (decrypted ans) c
  | ReceiveFailed => DtlsChannel.on_receive true (decrypted ans) c
  end.
(** the channel goes on, the callback it makes runs, and what it has posted gets
    ready *)
Definition run_channel (ans : answers) (a : nat) (k : channel_call) (c : DtlsChannel.t) (s : t)
    : outcome t :=
  let '(c', cb) := channel_step ans k c in
  u ← run_callback (flushed ans) cb (udp s <| ClientServer.dtls_ := Some c' |>);
  mret (s <| udp := u |> <| stats := count_down cb (udp s) (stats s) |>
          <| ready := ready s ++
               replicate (DtlsChannel.posted c' - DtlsChannel.posted c) (RunChannel a Handshake) |>).
(** every handler but that of a failed receive looks at its channel first *)
Definition on_channel (ans : answers) (a : nat) (k : channel_call) (s : t) : outcome t :=
  match ClientServer.channel_at a (udp s), k with
  | Some c, _ => run_channel ans a k c s
  | None, ReceiveFailed => mret s
  | None, _ => Undef
  end.

Definition run_handler (ans : answers) (h : handler) (s : t) : outcome t :=
  match h with
  | RunStart => on_start ans s
  | RunStop => on_stop ans s
  | RunStopDtls => mret (s <| udp := ClientServer.stop_dtls (udp s) |>)
  | RunAccept c r => on_accept ans c r s
  | RunChannel a k => on_channel ans a k s
  end.
(** the io_context runs the next handler *)
Definition run_one (ans : answers) (s : t) : outcome t :=
  match ready s with
  | [] => mret s
  | h :: q => run_handler ans h (s <| ready := q |>)
  end.

(** a receive of the channel completes: one of those in flight that have not *)
Definition receives (a : nat) (q : list handler) : nat :=
  length (omap (λ h, match h with
                     | RunChannel b (Received | ReceiveFailed) => if decide (b = a) then Some h else None
                     | _ => None
                     end) q).
Definition complete_receive (failed : bool) (s : t) : t :=
  match ClientServer.dtls_ (udp s) with
  | Some c =>
      if (receives (ClientServer.channel (udp s)) (ready s) <? DtlsChannel.receiving c)%nat
      then post (RunChannel (ClientServer.channel (udp s)) (if failed then ReceiveFailed else Received)) s
      else s
  | None => s
  end.
(** the channel's wait ends *)
Definition complete_wait (s : t) : t :=
  match ClientServer.dtls_ (udp s) with
  | Some c =>
      match DtlsChannel.timer_ c with
      | Some k => post (RunChannel (ClientServer.channel (udp s)) (Timeout k))
                    (s <| udp := udp s <| ClientServer.dtls_ := Some (DtlsChannel.expire c) |> |>)
      | None => s
      end
  | None => s
  end.

(** the accept into [c] completes: its handler gets ready *)
Definition complete (c : object) (r : result) (s : t) : t :=
  post (RunAccept c r) (s <| accepting := filter (λ o, o ≠ c) (accepting s) |>).

(** a session is destroyed, which [Session::destroy] does once *)
Definition session_ends (o : object) (s : t) : t :=
  s <| destroyed := destroyed s ++ [o] |> <| stats := ProxyStats.sessionDestroyed (stats s) |>.

(** ** The queue *)
(** the accept a handler goes on with, unless it was aborted *)
Definition live_of (h : handler) : option object :=
  match h with RunAccept c Accepted | RunAccept c Error => Some c | _ => None end.
Definition live (s : t) : list object := accepting s ++ omap live_of (ready s).

(** the posted calls of queue [q] open a closed acceptor and close an open one,
    and leave it as [b] says *)
Fixpoint fits (a : bool) (q : list handler) (b : bool) : Prop :=
  match q with
  | [] => a = b
  | RunStart :: q => a = false ∧ fits true q b
  | RunStop :: q => a = true ∧ fits false q b
  | _ :: q => fits a q b
  end.
Lemma fits_app a q1 q2 b c : fits a q1 b → fits b q2 c → fits a (q1 ++ q2) c.
Proof. revert a. induction q1 as [|[] q1 IH]; intros a'; cbn; naive_solver. Qed.
Lemma fits_accepts a q b l : fits a q b → fits a (q ++ ((λ c, RunAccept c Aborted) <$> l)) b.
Proof. intros H. eapply fits_app; [exact H|]. by induction l. Qed.
Lemma omap_aborted l : omap live_of ((λ c, RunAccept c Aborted) <$> l) = [].
Proof. by induction l. Qed.

(** The io_context runs [RunStart] also while an accept of the time before has
    completed and has not been handled.  [calm] says that the next handler is not
    such a restart. *)
Definition calm (s : t) : Prop :=
  match ready s with RunStart :: q => omap live_of q = [] | _ => True end.

(** ** Invariants *)
Definition tr (s : t) : transport := if useWebSocket_ s then Websocket else Tls.

(** the sessions: each was started once and destroyed at most once, and the
    counter shows how many are left *)
Record base (s : t) : Prop := Base {
  bs_current c : session_ s = Some c → (c.1 < fresh_id s)%nat;
  bs_started : Forall (λ c, (c.1 < fresh_id s)%nat ∧ c.2 = tr s) (started s);
  bs_once : NoDup (started s);
  bs_listens ep : acceptor_ s = Some ep → ep = local_endpoint s;
  bs_destroyed : destroyed s ⊆ started s ∧ NoDup (destroyed s);
  bs_count : ProxyStats.sessionCount (stats s) = u64 (len (started s) - len (destroyed s))
}.
(** the accepts on their way are into different objects that have not been started *)
Definition waiting (s : t) : Prop :=
  NoDup (live s) ∧ Forall (λ c, (c.1 < fresh_id s)%nat ∧ c.2 = tr s ∧ c ∉ started s) (live s).

(** What holds of every run.  [b]: whether the last call was [start_accept] *)
Record inv (b : bool) (s : t) : Prop := Inv {
  iv_fits : fits (is_open s) (ready s) b;
  iv_base : base s;
  iv_waiting : waiting s
}.

(** What holds as long as every restart is calm: one accept at most is on its way,
    into the current object, and one is when the acceptor is open *)
Definition one_live (s : t) : Prop := ∃ c, live s = [c] ∧ session_ s = Some c.
Definition loop (s : t) : Prop :=
  if is_open s then one_live s else accepting s = [] ∧ (live s = [] ∨ one_live s).

Lemma inv_make ws ep : inv false (make ws ep).
Proof.
  split; [done| |split; [apply NoDup_nil_2|constructor]].
  split; try done; cbn; [by apply NoDup_nil_2|split; [done|by apply NoDup_nil_2]].
Qed.
Lemma client_loop_make ws ep : loop (make ws ep).
Proof. split; [done|by left]. Qed.

(** calls that leave the sessions alone *)
Lemma base_same s s' :
  tr s' = tr s → local_endpoint s' = local_endpoint s → session_ s' = session_ s →
  fresh_id s' = fresh_id s → started s' = started s → destroyed s' = destroyed s →
  ProxyStats.sessionCount (stats s') = ProxyStats.sessionCount (stats s) →
  (acceptor_ s' = None ∨ acceptor_ s' = Some (local_endpoint s) ∨ acceptor_ s' = acceptor_ s) →
  base s → base s'.
Proof.
  intros E1 E2 E3 E4 E5 E6 E7 E8 [H1 H2 H3 H4 H5 H6].
  split; rewrite ?E1, ?E2, ?E3, ?E4, ?E5, ?E6, ?E7; try done.
  intros ep He. destruct E8 as [E8|[E8|E8]]; rewrite E8 in He; [done|by injection He|by apply H4].
Qed.
Lemma waiting_same s s' :
  tr s' = tr s → fresh_id s' = fresh_id s → started s' = started s →
  live s' ⊆+ live s → waiting s → waiting s'.
Proof.
  intros E1 E2 E3 Hl [H1 H2]. unfold waiting. rewrite E1, E2, E3. split.
  - apply submseteq_Permutation in Hl as [k Hk]. rewrite Hk in H1. by apply list.NoDup_app in H1 as [? _].
  - rewrite list.Forall_forall in H2 |- *. intros c Hc. apply H2. by eapply elem_of_submseteq.
Qed.
Lemma live_post h s : live_of h = None → live (post h s) = live s.
Proof. intros E. unfold live, post. cbn. rewrite omap_app. cbn. by rewrite E, app_nil_r. Qed.
Lemma client_loop_same s s' :
  is_open s' = is_open s → accepting s' = accepting s → live s' = live s → session_ s' = session_ s →
  loop s → loop s'.
Proof. intros E1 E2 E3 E4. unfold loop, one_live. by rewrite E1, E2, E3, E4. Qed.
Lemma loop_post h s : live_of h = None → loop s → loop (post h s).
Proof. intros E. apply client_loop_same; try done. by apply live_post. Qed.
Lemma inv_post a b h s :
  live_of h = None → fits a [h] b → inv a s → inv b (post h s).
Proof.
  intros E Hh [H1 H2 H3]. split.
  - exact (fits_app _ _ _ _ _ H1 Hh).
  - apply (base_same s); try done. auto.
  - apply (waiting_same s); try done. by rewrite live_post.
Qed.
Lemma inv_start_accept s : inv false s → inv true (start_accept s).
Proof. by apply inv_post. Qed.
Lemma inv_stop_accept s : inv true s → inv false (stop_accept s).
Proof. by apply inv_post. Qed.
Lemma inv_stop_dtls b s : inv b s → inv b (stop_dtls s).
Proof. by apply inv_post. Qed.

(** the DTLS part is apart *)
Lemma inv_udp b u s : inv b s → inv b (s <| udp := u |>).
Proof. intros [Hf Hb Hl]. split; [done| |done]. apply (base_same s); auto. Qed.

(** *** A new accept *)
Lemma do_accept_into s : do_accept s = accept_into (tr s) s.
Proof. unfold do_accept, tr. by destruct (useWebSocket_ s). Qed.
Lemma do_accept_kind s (c : object) :
  c.2 = tr s →
  match c.2 with Tls => do_accept_tls s | Websocket => do_accept_ws s end = do_accept s.
Proof. intros ->. unfold do_accept, tr. by destruct (useWebSocket_ s). Qed.
Lemma inv_do_accept b s :
  fits (is_open s) (ready s) b → base s → waiting s → inv b (do_accept s).
Proof.
  intros Hf Hb Hw. rewrite do_accept_into. destruct Hb as [H1 H2 H3 H4 H5 H6], Hw as [W1 W2]. split.
  - exact Hf.
  - split; try done; cbn.
    + intros c [= <-]. cbn. lia.
    + eapply Forall_impl; [|exact H2]. intros c [? ?]. cbn. split; [lia|done].
  - assert (Permutation (live (accept_into (tr s) s)) ((fresh_id s, tr s) :: live s)) as E.
    { unfold live. cbn. rewrite <-app_assoc. cbn. symmetry. apply Permutation_middle. }
    unfold waiting. rewrite E. split.
    + apply list.NoDup_cons. split; [|done]. rewrite list.Forall_forall in W2.
      intros Hin. destruct (W2 _ Hin) as [Hlt _]. cbn in Hlt. lia.
    + apply list.Forall_cons. split.
      * split_and!; [cbn; lia|done|]. rewrite list.Forall_forall in H2.
        intros Hin. destruct (H2 _ Hin) as [Hlt _]. cbn in Hlt. lia.
      * eapply Forall_impl; [|exact W2]. intros c (? & ? & ?). cbn. split_and!; [lia|done..].
Qed.
Lemma client_loop_do_accept s : is_open s = true → live s = [] → loop (do_accept s).
Proof.
  intros Ho [Ha Hq]%app_eq_nil. rewrite do_accept_into. unfold loop.
  change (is_open (accept_into (tr s) s)) with (is_open s). rewrite Ho.
  exists (fresh_id s, tr s). split; [|done]. unfold live. cbn. by rewrite Ha, Hq.
Qed.
Lemma ready_do_accept s :
  ready (do_accept s) = ready s ∧ is_open (do_accept s) = is_open s ∧ started (do_accept s) = started s.
Proof. by rewrite do_accept_into. Qed.

(** *** The completion of an accept *)
(** the handler of a completed accept holds an object that has not been started *)
Lemma live_head s c r q :
  ready s = RunAccept c r :: q → r ≠ Aborted →
  Permutation (live s) (c :: live (s <| ready := q |>)).
Proof.
  intros Hq Hr. unfold live. rewrite Hq. destruct r; [|done|]; cbn; symmetry; apply Permutation_middle.
Qed.
Lemma waiting_head s c r q :
  waiting s → ready s = RunAccept c r :: q → r ≠ Aborted →
  waiting (s <| ready := q |>) ∧ c ∉ live (s <| ready := q |>) ∧ c ∉ started s ∧ c.2 = tr s.
Proof.
  intros Hw Hq Hr. pose proof (live_head s c r q Hq Hr) as E. pose proof Hw as [W1 W2].
  rewrite E in W1, W2. apply list.NoDup_cons in W1 as [Hn _]. apply list.Forall_cons in W2 as [(_ & ? & ?) _].
  split_and!; try done. apply (waiting_same s); try done. rewrite E. by apply submseteq_cons.
Qed.

Lemma start_session_spec s c :
  base s → waiting s → c ∉ live s → session_ s = Some c → c ∉ started s → c.2 = tr s →
  ∃ s', start_session true s = Ret s' ∧ base s' ∧ waiting s' ∧ started s' = started s ++ [c] ∧
        ready s' = ready s ∧ is_open s' = is_open s ∧ tr s' = tr s ∧ live s' = live s.
Proof.
  intros [H1 H2 H3 H4 [H5 H5'] H6] [W1 W2] Hl Hc Hn Ht. unfold start_session. rewrite Hc.
  eexists. split; [done|]. split_and!; try done.
  - split; try done; cbn.
    + apply Forall_app_2; [done|]. apply Forall_singleton. split; [by apply H1|done].
    + apply list.NoDup_app. split_and!; [done|set_solver|apply NoDup_singleton].
    + split; [set_solver|done].
    + unfold ProxyStats.sessionCount in *. cbn. rewrite H6. unfold len. rewrite length_app. cbn.
      rewrite ProxyStats.u64_add_l. f_equal. lia.
  - split; [exact W1|]. change (live _) with (live s). rewrite list.Forall_forall in W2 |- *.
    intros c' Hc'. destruct (W2 c' Hc') as (? & ? & ?). split_and!; [done..|]. cbn. set_solver.
Qed.

(** What the handler of an accept does, in any run.  If nothing throws, it returns
    unless the object of an accepted connection has been replaced *)
Lemma inv_on_accept b s ans c r q :
  inv b s → ready s = RunAccept c r :: q → ok ans = true →
  if bool_decide (r = Accepted) && negb (bool_decide (session_ s = Some c))
  then on_accept ans c r (s <| ready := q |>) = Undef
  else ∃ s', on_accept ans c r (s <| ready := q |>) = Ret s' ∧ inv b s' ∧
    (loop s → loop s') ∧
    (if is_open s && bool_decide (r = Accepted)
     then c ∉ started s ∧ started s' = started s ++ [c]
     else started s' = started s).
Proof.
  intros [Hf Hb Hw] Hq Hok. set (s0 := s <| ready := q |>).
  assert (fits (is_open s0) (ready s0) b) as Hf0 by (rewrite Hq in Hf; exact Hf).
  assert (base s0) as Hb0 by (apply (base_same s); auto).
  unfold on_accept. change (session_ s0) with (session_ s). destruct (_ && negb _) eqn:Hu; [done|].
  change (is_open s0) with (is_open s). rewrite Hok.
  destruct (decide (r = Aborted)) as [->|Hr].
  { assert (live s0 = live s) as El by (unfold live; cbn; by rewrite Hq).
    assert (waiting s0) as Hw0 by (apply (waiting_same s); try done; by rewrite El).
    exists s0. rewrite andb_false_r. split_and!; [by destruct (is_open s)|done| |done].
    by apply client_loop_same. }
  destruct (waiting_head s c r q Hw Hq Hr) as (Hw0 & Hnl & Hn & Ht). fold s0 in Hw0, Hnl.
  assert (loop s → live s0 = []) as Hl0.
  { intros Hl. assert (one_live s) as (c' & E' & _).
    { unfold loop in Hl. destruct (is_open s); [done|]. destruct Hl as [_ [E|?]]; [|done].
      pose proof (live_head s c r q Hq Hr) as Hp. rewrite E in Hp. by apply Permutation_nil_cons in Hp. }
    pose proof (live_head s c r q Hq Hr) as Hp. rewrite E' in Hp. fold s0 in Hp.
    apply Permutation_singleton_l in Hp. by injection Hp. }
  destruct (is_open s) eqn:Ho; cbn [negb andb].
  - destruct r; [|done|].
    + apply andb_false_iff in Hu as [?|Hu%negb_false_iff]; [done|]. apply bool_decide_eq_true in Hu.
      destruct (start_session_spec s0 c Hb0 Hw0 Hnl Hu Hn Ht)
        as (s' & -> & Hb' & Hw' & Hst & Hr' & Ho' & Ht' & Hl').
      cbn [mbind outcome_bind]. rewrite do_accept_kind by by rewrite Ht'. eexists. split; [done|].
      destruct (ready_do_accept s') as (_ & _ & Es). rewrite Es.
      split; [apply inv_do_accept; rewrite ?Hr', ?Ho'; done|]. split; [|done].
      intros Hl. apply client_loop_do_accept; [by rewrite Ho'|]. rewrite Hl'. by apply Hl0.
    + rewrite do_accept_kind by done. eexists. split; [done|].
      destruct (ready_do_accept s0) as (_ & _ & Es). rewrite Es.
      split; [apply inv_do_accept; [|done..]|split; [|done]].
      { exact Hf0. }
      intros Hl. apply client_loop_do_accept; [done|by apply Hl0].
  - exists s0. split; [done|]. split; [done|]. split; [|done]. intros Hl.
    unfold loop in *. change (is_open s0) with (is_open s). rewrite Ho in Hl |- *.
    split; [by apply Hl|left; apply Hl0]. unfold loop. by rewrite Ho.
Qed.

(** *** The posted calls *)
Lemma inv_on_start b s ans q :
  inv b s → ready s = RunStart :: q → ok ans = true →
  is_open s = false ∧ ∃ s', on_start ans (s <| ready := q |>) = Ret s' ∧ inv b s' ∧
    (loop s → omap live_of q = [] → loop s') ∧ started s' = started s.
Proof.
  intros [Hf Hb Hw] Hq Hok. rewrite Hq in Hf. destruct Hf as [Ho Hf]. split; [done|].
  unfold on_start. change (is_open (s <| ready := q |>)) with (is_open s). rewrite Ho, Hok. cbn [orb negb].
  eexists. split; [done|].
  match goal with |- inv b (do_accept ?x) ∧ _ => set (s0 := x) end.
  split_and!; [| |apply (ready_do_accept s0)].
  - apply inv_do_accept; [exact Hf|apply (base_same s); auto|].
    apply (waiting_same s); try done. unfold live. by rewrite Hq.
  - intros Hl Hcalm. apply client_loop_do_accept; [done|].
    unfold loop in Hl. rewrite Ho in Hl. destruct Hl as [Ha _]. unfold live. cbn. by rewrite Ha, Hcalm.
Qed.

Lemma inv_on_stop b s ans q :
  inv b s → ready s = RunStop :: q → ok ans = true →
  ∃ s', on_stop ans (s <| ready := q |>) = Ret s' ∧ inv b s' ∧ (loop s → loop s') ∧
    started s' = started s.
Proof.
  intros [Hf Hb Hw] Hq Hok. rewrite Hq in Hf. destruct Hf as [Ho Hf].
  unfold on_stop. change (is_open (s <| ready := q |>)) with (is_open s). rewrite Ho, Hok.
  eexists. split; [done|].
  match goal with |- inv b ?x ∧ _ => set (s0 := x) end.
  assert (live s0 = omap live_of q) as El.
  { unfold live. cbn. by rewrite omap_app, omap_aborted, app_nil_r. }
  split_and!; [split|..|done].
  - by apply fits_accepts.
  - apply (base_same s); auto.
  - apply (waiting_same s); try done. rewrite El. unfold live. rewrite Hq. cbn.
    by apply submseteq_inserts_l.
  - unfold loop. rewrite Ho. intros (c & Hlive & Hs). change (is_open s0) with false. split; [done|].
    unfold one_live. rewrite El. unfold live in Hlive. rewrite Hq in Hlive. cbn in Hlive.
    destruct (accepting s) as [|? [|]]; simplify_list_eq; [|by left]. right. by exists c.
Qed.

(** *** The handlers of the channel *)
Lemma count_down_sessions cb u st :
  ProxyStats.sessionCount (count_down cb u st) = ProxyStats.sessionCount st.
Proof.
  unfold count_down. destruct cb as [[|[|d0 [|d1 frame]]]|]; try done.
  destruct (_ ≫= _); [|done]. destruct (UdpFrame.parse _ _) as [[? []]| |]; try done.
  by destruct (UdpRelay.running_ _).
Qed.
Lemma omap_handshakes n a : omap live_of (replicate n (RunChannel a Handshake)) = [].
Proof. by induction n. Qed.
Lemma fits_handshakes x q b n a :
  fits x q b → fits x (q ++ replicate n (RunChannel a Handshake)) b.
Proof. intros H. eapply fits_app; [exact H|]. by induction n. Qed.
(** what they leave alone *)
Lemma on_channel_spec ans a k s s' :
  on_channel ans a k s = Ret s' →
  ∃ u st n, s' = s <| udp := u |> <| stats := st |> <| ready := ready s ++ replicate n (RunChannel a Handshake) |> ∧
    ProxyStats.sessionCount st = ProxyStats.sessionCount (stats s).
Proof.
  unfold on_channel. destruct (ClientServer.channel_at a (udp s)) as [c|].
  - unfold run_channel. destruct (channel_step ans k c) as [c' cb]. intros H.
    apply bind_Ret_inv in H as (u & _ & [= <-]). eexists u, _, _. split; [done|]. apply count_down_sessions.
  - destruct k; try done. intros [= <-]. exists (udp s), (stats s), 0%nat.
    split; [|done]. cbn [replicate]. rewrite app_nil_r. by destruct s.
Qed.
Lemma inv_on_channel b s ans a k q s' :
  inv b s → ready s = RunChannel a k :: q → on_channel ans a k (s <| ready := q |>) = Ret s' →
  inv b s' ∧ (loop s → loop s') ∧ started s' = started s.
Proof.
  intros [Hf Hb Hw] Hq (u & st & n & -> & Hst)%on_channel_spec. rewrite Hq in Hf.
  match goal with |- inv b ?x ∧ _ => set (s0 := x) end.
  assert (live s0 = live s) as El.
  { unfold live. cbn. by rewrite Hq, omap_app, omap_handshakes, app_nil_r. }
  split_and!; [split|..|done].
  - by apply fits_handshakes.
  - apply (base_same s); auto.
  - apply (waiting_same s); try done. by rewrite El.
  - by apply client_loop_same.
Qed.

(** ** Every handler *)
(** the handlers that need their object or channel to exist *)
Definition gone (s : t) : Prop :=
  match ready s with
  | RunAccept c Accepted :: _ => session_ s ≠ Some c
  | RunChannel _ _ :: _ => True
  | _ => False
  end.
#[global] Instance gone_dec s : Decision (gone s).
Proof. unfold gone. destruct (ready s) as [|[| | |c []|] q]; apply _. Defined.
(** Whatever the order, a handler that returns keeps the invariant; and, as long as
    nothing throws, every handler returns whose object is there. *)
Lemma inv_run_ok b s ans :
  inv b s → ok ans = true → ¬ gone s →
  ∃ s', run_one ans s = Ret s' ∧ inv b s' ∧ (loop s → calm s → loop s').
Proof.
  intros Hi Hok Hg. unfold run_one, calm, gone in *.
  destruct (ready s) as [|[| | |c r|a k] q] eqn:Hq; [by exists s|..]; cbn [run_handler]; [| | | |done].
  - destruct (inv_on_start b s ans q Hi Hq Hok) as (_ & s' & ? & ? & ? & _). exists s'. auto.
  - destruct (inv_on_stop b s ans q Hi Hq Hok) as (s' & ? & ? & ? & _). exists s'. auto.
  - assert (inv b (s <| ready := q |>)) as Hi0.
    { destruct Hi as [Hf Hb Hw]. rewrite Hq in Hf. split; [exact Hf|apply (base_same s); auto|].
      apply (waiting_same s); try done. unfold live. by rewrite Hq. }
    eexists. split; [done|]. split; [by apply inv_udp|]. intros Hl _. eapply client_loop_same; [..|exact Hl]; try done.
    unfold live. by rewrite Hq.
  - pose proof (inv_on_accept b s ans c r q Hi Hq Hok) as H. destruct (_ && negb _) eqn:E.
    + apply andb_true_iff in E as [->%bool_decide_eq_true E%negb_true_iff%bool_decide_eq_false]. done.
    + destruct H as (s' & ? & ? & ? & _). exists s'. auto.
Qed.
(** an answer that is no cannot help *)
Definition sure (ans : answers) : answers :=
  Answers true (handshake ans) (written ans) (decrypted ans) (flushed ans).
Lemma run_one_sure ans s s' : run_one ans s = Ret s' → run_one (sure ans) s = Ret s'.
Proof.
  unfold run_one. destruct (ready s) as [|[| | |c r|a k] q]; try done; cbn [run_handler].
  - unfold on_start. destruct (_ || negb (ok ans)) eqn:E; [done|]. apply orb_false_iff in E as [-> _]. done.
  - unfold on_stop. destruct (is_open _); [|done]. by destruct (ok ans).
  - unfold on_accept. destruct (_ && _); [done|]. destruct (negb _); [done|]. destruct r; try done.
    unfold start_session. destruct (session_ _); [|done]. by destruct (ok ans).
Qed.
Lemma inv_run_one b s ans s' :
  inv b s → run_one ans s = Ret s' → inv b s' ∧ (loop s → calm s → loop s').
Proof.
  intros Hi Hr%run_one_sure. destruct (decide (gone s)) as [Hg|Hg].
  - unfold run_one, gone in *. destruct (ready s) as [|[| | |c []|a k] q] eqn:Hq; try done.
    + cbn [run_handler] in Hr. unfold on_accept in Hr.
      rewrite (bool_decide_eq_false_2 (session_ _ = Some c)) in Hr by done. done.
    + destruct (inv_on_channel b s (sure ans) a k q s' Hi Hq Hr) as (? & ? & _). auto.
  - destruct (inv_run_ok b s (sure ans) Hi eq_refl Hg) as (s1 & H1 & ? & ?).
    rewrite Hr in H1. injection H1 as <-. auto.
Qed.

(** *** What arrives *)
(** an accept completes *)
Lemma filter_not_elem (c : object) (l : list object) : c ∉ l → filter (λ o, o ≠ c) l = l.
Proof.
  intros Hc. induction l as [|o l IH]; [done|]. apply not_elem_of_cons in Hc as [Hne Hc].
  rewrite filter_cons, decide_True by done. by rewrite IH.
Qed.
Lemma filter_other (c : object) (l : list object) :
  NoDup l → c ∈ l → Permutation l (c :: filter (λ o, o ≠ c) l).
Proof.
  induction l as [|o l IH]; intros Hnd Hin; [by apply not_elem_of_nil in Hin|].
  apply list.NoDup_cons in Hnd as [Hn Hnd]. rewrite filter_cons.
  destruct (decide (o = c)) as [->|Hne].
  - rewrite decide_False by naive_solver. by rewrite filter_not_elem.
  - rewrite decide_True by done. apply elem_of_cons in Hin as [->|Hin]; [done|].
    rewrite Permutation_swap. by rewrite <-IH.
Qed.
Lemma live_complete s c r :
  waiting s → c ∈ accepting s → r ≠ Aborted → Permutation (live (complete c r s)) (live s).
Proof.
  intros [Hnd _] Hin Hr. unfold live in *. apply list.NoDup_app in Hnd as [Hnd _]. cbn. rewrite omap_app.
  assert (omap live_of [RunAccept c r] = [c]) as -> by by destruct r.
  rewrite (filter_other c (accepting s) Hnd Hin) at 2. cbn. rewrite app_assoc. symmetry.
  apply Permutation_cons_append.
Qed.
Lemma inv_complete b s c r :
  inv b s → c ∈ accepting s → r ≠ Aborted →
  inv b (complete c r s) ∧ (loop s → loop (complete c r s)).
Proof.
  intros [Hf Hb Hw] Hin Hr. pose proof (live_complete s c r Hw Hin Hr) as E. split; [split|].
  - apply (fits_app _ (ready s) [RunAccept c r] b); done.
  - apply (base_same s); auto.
  - apply (waiting_same s); try done. by rewrite E.
  - intros Hl. assert (one_live s) as (c' & Hlive & Hs).
    { unfold loop in Hl. destruct (is_open s); [done|]. destruct Hl as [Ha _]. rewrite Ha in Hin. set_solver. }
    rewrite Hlive in E. symmetry in E. apply Permutation_singleton_l in E.
    assert (one_live (complete c r s)) as Ho by by exists c'.
    unfold loop. change (is_open (complete c r s)) with (is_open s). destruct (is_open s) eqn:Eo; [done|].
    split; [|by right]. unfold loop in Hl. rewrite Eo in Hl. destruct Hl as [Ha _]. rewrite Ha in Hin. set_solver.
Qed.

(** the channel's receives and waits end *)
Lemma complete_receive_post failed s :
  complete_receive failed s = s ∨ ∃ k, complete_receive failed s = post (RunChannel (ClientServer.channel (udp s)) k) s.
Proof.
  unfold complete_receive. destruct (ClientServer.dtls_ (udp s)) as [c|]; [|by left].
  destruct (_ <? _)%nat; [|by left]. right. by eexists.
Qed.
Lemma inv_complete_receive b s failed :
  inv b s → inv b (complete_receive failed s) ∧ (loop s → loop (complete_receive failed s)).
Proof.
  intros Hi. destruct (complete_receive_post failed s) as [->|[k ->]]; [done|].
  split; [by eapply inv_post|by apply loop_post].
Qed.
Lemma inv_complete_wait b s : inv b s → inv b (complete_wait s) ∧ (loop s → loop (complete_wait s)).
Proof.
  intros Hi. unfold complete_wait. destruct (ClientServer.dtls_ (udp s)) as [c|]; [|done].
  destruct (DtlsChannel.timer_ c); [|done].
  split; [by eapply inv_post, inv_udp|]. intros Hl. by apply loop_post.
Qed.

(** a session ends *)
Lemma inv_session_ends b s o :
  inv b s → o ∈ started s → o ∉ destroyed s → inv b (session_ends o s).
Proof.
  intros [Hf [H1 H2 H3 H4 [H5 H5'] H6] Hl] Ho Hn. split; [done| |done]. split; try done; cbn.
  - split; [set_solver|]. apply list.NoDup_app. split_and!; [done|set_solver|apply NoDup_singleton].
  - unfold ProxyStats.sessionCount in *. cbn. rewrite H6. unfold len. rewrite length_app. cbn.
    rewrite <-Z.add_opp_r, ProxyStats.u64_add_l. f_equal. lia.
Qed.

(** the display takes the traffic *)
Lemma inv_take b s r st :
  inv b s → ProxyStats.getAndResetDelta (stats s) = Ret (r, st) → inv b (s <| stats := st |>).
Proof.
  intros [Hf [] Hl] Hg. apply ProxyStats.display_sessions in Hg.
  split; [done| |done]. split; try done. by etrans.
Qed.

(** the start of the channel *)
Lemma inv_start_dtls `{Net.AddressParser} b su u a d r p s s' :
  start_dtls su u a d r p s = Ret s' → inv b s → inv b s' ∧ (loop s → loop s').
Proof.
  intros (v & _ & [= <-])%bind_Ret_inv Hi. destruct u.
  - split; [by eapply inv_post, inv_udp|]. intros Hl. by apply loop_post.
  - split; [by apply inv_udp|]. by intros Hl.
Qed.

(** ** What never changes *)
Definition settings (s : t) : bool * Net.endpoint := (useWebSocket_ s, local_endpoint s).
Lemma settings_do_accept s : settings (do_accept s) = settings s.
Proof. unfold do_accept. by destruct (useWebSocket_ s). Qed.
Lemma settings_run_one ans s s' : run_one ans s = Ret s' → settings s' = settings s.
Proof.
  unfold run_one. destruct (ready s) as [|[| | |c r|a k] q]; cbn [run_handler]; intros H.
  - by injection H as <-.
  - unfold on_start in H. destruct (_ || _); [done|]. injection H as <-. by rewrite settings_do_accept.
  - unfold on_stop in H. destruct (is_open _); [destruct (ok ans); [|done]|]; by injection H as <-.
  - by injection H as <-.
  - unfold on_accept in H. destruct (_ && _); [done|]. destruct (negb _); [by injection H as <-|].
    destruct r; [|by injection H as <-|].
    + apply bind_Ret_inv in H as (s1 & H1 & H). unfold start_session in H1.
      destruct (session_ _); [|done]. destruct (ok ans); [|done].
      injection H1 as <-. injection H as <-. by destruct c.2.
    + injection H as <-. by destruct c.2.
  - by apply on_channel_spec in H as (u & st & n & -> & _).
Qed.
Lemma settings_start_dtls `{Net.AddressParser} su u a d r p s s' :
  start_dtls su u a d r p s = Ret s' → settings s' = settings s.
Proof. intros (v & _ & [= <-])%bind_Ret_inv. by destruct u. Qed.
Lemma settings_complete_receive failed s : settings (complete_receive failed s) = settings s.
Proof. by destruct (complete_receive_post failed s) as [->|[k ->]]. Qed.
Lemma settings_complete_wait s : settings (complete_wait s) = settings s.
Proof.
  unfold complete_wait. destruct (ClientServer.dtls_ (udp s)) as [c|]; [|done].
  by destruct (DtlsChannel.timer_ c).
Qed.

(** a completed accept is into the current object *)
Lemma loop_current s c q :
  loop s → ready s = RunAccept c Accepted :: q → session_ s = Some c.
Proof.
  intros Hl Hq. pose proof (live_head s c Accepted q Hq ltac:(done)) as E.
  assert (one_live s) as (c' & Hlive & Hs).
  { unfold loop in Hl. destruct (is_open s); [done|]. destruct Hl as [_ [Hl|?]]; [|done].
    rewrite Hl in E. by apply Permutation_nil_cons in E. }
  rewrite Hlive in E. apply Permutation_singleton_l in E. injection E as -> _. done.
Qed.

(** ** Stopping and starting before the io_context gets to run *)
(** run the next [n] handlers, with the same answers *)
Fixpoint run_n (ans : answers) (n : nat) (s : t) : outcome t :=
  match n with O => mret s | S n => s ← run_one ans s; run_n ans n s end.
Lemma run_n_cons ans n s h q s1 :
  ready s = h :: q → run_handler ans h (s <| ready := q |>) = Ret s1 →
  run_n ans (S n) s = run_n ans n s1.
Proof. intros Hq Hr. cbn. unfold run_one. by rewrite Hq, Hr. Qed.

(** idle and listening *)
Lemma idle_open b s :
  inv b s → loop s → ready s = [] → is_open s = b ∧
  if b then ∃ c ep, accepting s = [c] ∧ session_ s = Some c ∧ acceptor_ s = Some ep
  else accepting s = [].
Proof.
  intros [Hf _ _] Hl Hq. rewrite Hq in Hf. cbn in Hf. split; [done|]. subst b.
  unfold loop, one_live, live in Hl. rewrite Hq, app_nil_r in Hl. destruct (is_open s) eqn:Ho; [|by apply Hl].
  destruct Hl as (c & Ha & Hs). unfold is_open in Ho. apply bool_decide_eq_true in Ho as [ep He].
  by exists c, ep.
Qed.

(** A connection that arrives, or fails, after both calls and before the first has
    run: the acceptor is closed and opened again, and then the handler of the
    accept runs. *)
Definition restarted (r : result) (c : object) (s : t) : t := complete c r (start_accept (stop_accept s)).
Lemma restart_runs ans s c r :
  ok ans = true → is_open s = true → ready s = [] → accepting s = [c] → r ≠ Aborted →
  ∃ s', run_n ans 2 (restarted r c s) = Ret s' ∧ ready s' = [RunAccept c r] ∧ is_open s' = true ∧
    accepting s' = [(fresh_id s, tr s)] ∧ session_ s' = Some (fresh_id s, tr s) ∧ tr s' = tr s ∧
    fresh_id s' = S (fresh_id s).
Proof.
  intros Hok Ho Hq Ha Hr. unfold restarted.
  set (s0 := complete c r (start_accept (stop_accept s))).
  assert (ready s0 = [RunStop; RunStart; RunAccept c r]) as E0 by (cbn; by rewrite Hq).
  assert (accepting s0 = []) as Ea.
  { cbn. rewrite Ha. unfold filter, list_filter. by rewrite decide_False by naive_solver. }
  set (s1 := s0 <| ready := [RunStart; RunAccept c r] |> <| accepting := [] |> <| acceptor_ := None |>).
  assert (run_handler ans RunStop (s0 <| ready := [RunStart; RunAccept c r] |>) = Ret s1) as E1.
  { cbn [run_handler]. unfold on_stop. change (is_open (s0 <| ready := _ |>)) with (is_open s).
    rewrite Ho, Hok. change (accepting (s0 <| ready := _ |>)) with (accepting s0). by rewrite Ea. }
  rewrite (run_n_cons ans 1 s0 _ _ _ E0 E1).
  set (s2 := s1 <| ready := [RunAccept c r] |> <| acceptor_ := Some (local_endpoint s1) |>).
  assert (run_handler ans RunStart (s1 <| ready := [RunAccept c r] |>) = Ret (do_accept s2)) as E2.
  { cbn [run_handler]. unfold on_start. by rewrite Hok. }
  rewrite (run_n_cons ans 0 s1 _ _ _ eq_refl E2). exists (do_accept s2). split; [done|].
  by rewrite do_accept_into.
Qed.

(** the connection is put into a session object that is gone *)
Lemma on_accept_gone ans c s : session_ s ≠ Some c → on_accept ans c Accepted s = Undef.
Proof. intros H. unfold on_accept. by rewrite (bool_decide_eq_false_2 _ H). Qed.
Lemma reconnect_dangles b ans s c :
  ok ans = true → inv b s → loop s → is_open s = true → ready s = [] → accepting s = [c] →
  ∃ s', run_n ans 2 (restarted Accepted c s) = Ret s' ∧ ∀ ans', run_one ans' s' = Undef.
Proof.
  intros Hok Hi Hl Ho Hq Ha.
  destruct (restart_runs ans s c Accepted) as (s' & Hrun & Hr & _ & _ & Hs & _); [done..|].
  exists s'. split; [done|]. intros ans'. unfold run_one. rewrite Hr. cbn [run_handler].
  apply on_accept_gone. change (session_ s' ≠ Some c). rewrite Hs. intros [= <-].
  destruct Hi as [_ [Hc _ _ _ _ _] _]. unfold loop, one_live in Hl. rewrite Ho in Hl.
  destruct Hl as (c' & Hlive & Hs'). unfold live in Hlive. rewrite Ha, Hq in Hlive.
  injection Hlive as <-. apply Hc in Hs'. cbn in Hs'. lia.
Qed.
(** the failure of the old accept starts a second one: two are in flight, and the
    object of the first is gone *)
Lemma reconnect_accepts_twice ans s c :
  ok ans = true → is_open s = true → ready s = [] → accepting s = [c] → c.2 = tr s →
  ∃ s', run_n ans 3 (restarted Error c s) = Ret s' ∧
    accepting s' = [(fresh_id s, tr s); (S (fresh_id s), tr s)] ∧
    session_ s' = Some (S (fresh_id s), tr s).
Proof.
  intros Hok Ho Hq Ha Ht.
  destruct (restart_runs ans s c Error) as (s1 & Hrun & Hr & Ho1 & Ha1 & Hs1 & Ht1 & Ef); [done..|].
  exists (do_accept (s1 <| ready := [] |>)).
  assert (run_n ans 3 (restarted Error c s) = s1 ← run_n ans 2 (restarted Error c s); run_one ans s1) as E.
  { cbn [run_n]. destruct (run_one ans (restarted Error c s)) as [x| |]; try done. cbn.
    destruct (run_one ans x) as [y| |]; try done. cbn. by destruct (run_one ans y). }
  rewrite E, Hrun. cbn [mbind outcome_bind]. split.
  - unfold run_one. rewrite Hr. cbn [run_handler]. unfold on_accept.
    change (is_open (s1 <| ready := _ |>)) with (is_open s1). rewrite Ho1. cbn.
    rewrite do_accept_kind; [done|]. change (c.2 = tr s1). by rewrite Ht1.
  - rewrite do_accept_into. cbn. change (tr (s1 <| ready := _ |>)) with (tr s1). by rewrite Ha1, Ef, Ht1.
Qed.

(** A disconnect and a connect with UDP that makes the channel [u]: the call that
    was posted to stop the old channel destroys the new one, and the
    [do_handshake] that the new one has posted comes after it. *)
Definition reconnected (u : ClientServer.t) (s : t) : t :=
  start_accept (post (RunChannel (ClientServer.channel u) Handshake)
                  (stop_accept (stop_dtls s) <| udp := u |>)).
Lemma reconnect_frees_channel ans s u :
  ok ans = true → ready s = [] →
  ∃ s', run_n ans 2 (reconnected u s) = Ret s' ∧ udp s' = ClientServer.stop_dtls u ∧
    ∀ ans', run_one ans' s' = Undef.
Proof.
  intros Hok Hq. set (a := ClientServer.channel u). set (s0 := reconnected u s).
  assert (ready s0 = [RunStopDtls; RunStop; RunChannel a Handshake; RunStart]) as E0
    by (cbn; by rewrite Hq).
  set (s1 := s0 <| ready := [RunStop; RunChannel a Handshake; RunStart] |>
               <| udp := ClientServer.stop_dtls u |>).
  rewrite (run_n_cons ans 1 s0 _ _ s1 E0 eq_refl).
  assert (∃ s2 l, run_handler ans RunStop (s1 <| ready := [RunChannel a Handshake; RunStart] |>) = Ret s2 ∧
    udp s2 = ClientServer.stop_dtls u ∧ ready s2 = RunChannel a Handshake :: l) as (s2 & l & E2 & Hu & Hr).
  { cbn [run_handler]. unfold on_stop. rewrite Hok.
    destruct (is_open _); do 2 eexists; split_and!; try done; reflexivity. }
  rewrite (run_n_cons ans 0 s1 _ _ s2 eq_refl E2). exists s2. split; [done|]. split; [done|].
  intros ans'. unfold run_one. rewrite Hr. cbn [run_handler]. unfold on_channel.
  change (udp (s2 <| ready := l |>)) with (udp s2). rewrite Hu. unfold ClientServer.channel_at.
  by destruct (bool_decide _).
Qed.
End ClientAccept.
