(* ===== verification/Tunnel.v ===== *)
(** Tunnel: a client session and a server session together
    (src/Client/Session.cpp against src/Server/Session.cpp).

    The connection between the two programs is library code: TLS, or a websocket
    over TLS, delivers the bytes one side writes to the other side in order and
    without inventing any.  So a tunnel is a state of the one and a state of the
    other, each reached by whatever its own environment does, of which the bytes
    received by the one are a prefix of the bytes sent by the other. *)
From S2P Require Import Prelude Net Coding Decimal VRequest Http Socks5 Trojan Ring DnsCache.
From S2P Require Import DtlsServerSession ProxyStats ClientUdp ClientSession ServerSession.
From S2P Require Import ClientSessionFacts ServerSessionFacts.
From S2P Require Import ServerSessionProps ClientSessionProps.

Module Tunnel.

(** ** The bytes on the connection *)
(** the request of a client session *)
Definition wire (cfg : ClientSession.config) (cs : ClientSession.session) : bytes :=
  (VRequest.stream (ClientSession.v_request cfg cs) []).2.

(** what a client session hands to its connection: the request, then each
    region it has read from its application, whose write the same handler
    starts *)
Definition to_server (cfg : ClientSession.config) (cs : ClientSession.session) : bytes :=
  wire cfg cs ++ ClientSession.read_total (ClientSession.up cs).

(** what a server session has received: the read that held the request, then
    the reads of its forwarding loop *)
Definition from_client (first : bytes) (ss : ServerSession.session) : bytes :=
  first ++ ServerSession.read_total (ServerSession.down ss).

(** what a server session writes to its target: the bytes behind the request,
    then what its sends have accepted *)
Definition to_target (ss : ServerSession.session) : bytes :=
  ServerSession.first_payload ss ++ ServerSession.sent_total (ServerSession.down ss).

(** ** Server sessions past their request *)
Section Server.
Context (allowed : gset bytes) (tr : ServerSession.transport).
Context (resolves : bytes → bytes → Net.endpoint → Prop).
Import ServerSession ServerSessionFacts.

(** the state in which the request is awaited, the handshake done, with
    whatever the cache then holds *)
Definition awaiting (cache : DnsCache.t) : session :=
  start_op ReadRequest (init cache).

(** a session that has read its request out of [first] *)
Definition served (first : bytes) (ss : session) : Prop :=
  ∃ cache e s1, cache_sound resolves cache ∧ len first <= MAX_BUFF_SIZE ∧
    on_request allowed tr e (Received first) (init cache) = Ret s1 ∧
    rtc (step allowed tr resolves) s1 ss.

Lemma awaiting_request cache : (awaiting cache) <| pending := [] ++ [] |> = init cache.
Proof. reflexivity. Qed.
Lemma awaiting_reachable cache :
  reachable allowed tr resolves cache (awaiting cache).
Proof.
  unfold reachable. case tr.
  - apply rtc_once. apply (step_complete _ _ _ (start (init cache)) [] Handshake [] (Env 0 true true true true) Done);
      [done|apply legal_handshake|done].
  - eapply rtc_l; [|apply rtc_once].
    + apply (step_complete _ _ _ (start (init cache)) [] Handshake [] (Env 0 true true true true) Done);
        [done|apply legal_handshake|reflexivity].
    + apply (step_complete _ _ _ _ [] AcceptWs [] (Env 0 true true true true) Done);
        [done|apply legal_accept|done].
Qed.

(** such a session is a reachable one *)
Lemma served_reachable first ss :
  served first ss → ∃ cache, cache_sound resolves cache ∧ reachable allowed tr resolves cache ss.
Proof.
  intros (cache & e & s1 & Hc & Hfit & Hreq & Hrun). exists cache. split; [done|].
  unfold reachable. etrans; [apply awaiting_reachable|].
  eapply rtc_l; [|exact Hrun].
  apply (step_complete _ _ _ (awaiting cache) [] ReadRequest [] e (Received first)).
  - reflexivity.
  - apply legal_received; [apply list_elem_of_here|exact Hfit].
  - rewrite awaiting_request. exact Hreq.
Qed.

(** what holds from the request on: it is fixed, and nothing waits for another *)
Definition past (id : bytes * bool * VRequest.t * Trojan.TrojanReq.t) (s : session) : Prop :=
  inv s ∧ auth allowed resolves s ∧ cache_sound resolves (dns s) ∧
  identity s = id ∧ Forall (λ o, is_pre o = false) (pending s).

Lemma past_step id s s' : past id s → step allowed tr resolves s s' → past id s'.
Proof.
  intros (Hinv & Ha & Hc & Hid & HF) Hstep.
  destruct (auth_step _ _ _ _ _ Hinv Ha Hc Hstep) as [Ha' Hc'].
  assert (inv s') as Hinv' by by eapply inv_step.
  split_and!; [done..| |]; revert Ha Hid HF Hc; clear - Hstep;
    (destruct Hstep as [s l1 o l2 e r s' Hp Hlegal Hh|s c Hop]; intros Ha Hid HF Hc; [|done]).
  all: destruct (forall_rest s l1 l2 o Hp _ HF) as [Ho HF0].
  all: assert (good resolves s o) as Hg
    by (destruct Ha as [[_ HG]|[HG _]];
        destruct (forall_rest s l1 l2 o Hp _ HG) as [Hx _]; [apply Hx|by rewrite Ho in Hx]).
  all: assert (serves resolves (rest s l1 l2) s') as [Hid' _ (l & Hl & HFl)]
    by (eapply serves_handle; [exact Ho| |exact Hc|exact Hlegal|exact Hh];
        by eapply identity_good; [|exact Hg]).
  - by rewrite Hid'.
  - rewrite Hl. apply list.Forall_app. split; [done|].
    eapply list.Forall_impl; [exact HFl|]. by intros ? [? _].
Qed.

Lemma past_steps id s s' :
  past id s → rtc (step allowed tr resolves) s s' → past id s'.
Proof. intros Hp Hr. induction Hr; [done|]. by eapply IHHr, past_step. Qed.
Lemma do_resolve_identity e s : identity (do_resolve e s) = identity s.
Proof. unfold do_resolve. cbv zeta. by destruct (DnsCache.get_tcp _ _ _). Qed.

(** the read that holds a request of the V protocol sets the session on its way *)
Lemma v_request_past e r body s s1 :
  let wire := (VRequest.stream r []).2 in
  0 <= VRequest.port r < 2 ^ 16 → 0 <= VRequest.version r < 2 ^ 8 →
  len (VRequest.user_name r) < 2 ^ 20 → len (VRequest.password r) < 2 ^ 20 →
  len (VRequest.address r) < 2 ^ 20 → VRequest.password r ∈ allowed →
  len (wire ++ body) <= MAX_BUFF_SIZE → len (in_buf s) = MAX_BUFF_SIZE →
  pending s = [] → VRequest.packed_buff (v_req s) = [] →
  on_request allowed tr e (Received (wire ++ body)) s = Ret s1 →
  identity s1 = (VRequest.password r, true,
    VRequest.Req (VRequest.version r) (len wire) (VRequest.user_name r) (VRequest.password r)
      (VRequest.address r) (VRequest.port r) body, trojanReq s) ∧
  Forall (λ o, is_pre o = false) (pending s1).
Proof.
  intros wire Hport Hver Hu Hp Ha Hpw Hfit Hbuf Hpend Hpk Hreq.
  pose proof (v_request_read allowed tr e s r body) as Hacc.
  cbn zeta in Hacc. fold wire in Hacc. rewrite Hacc, decide_True in Hreq by assumption.
  injection Hreq as <-. split.
  - rewrite do_resolve_identity. unfold identity, with_request. rewrite Hpk. by destruct body.
  - rewrite (proj2 (do_resolve_spec _ _)). cbn. rewrite Hpend. repeat constructor.
    by destruct (DnsCache.get_tcp _ _ _).
Qed.

Lemma served_v_request r body ss :
  let wire := (VRequest.stream r []).2 in
  0 <= VRequest.port r < 2 ^ 16 → 0 <= VRequest.version r < 2 ^ 8 →
  len (VRequest.user_name r) < 2 ^ 20 → len (VRequest.password r) < 2 ^ 20 →
  len (VRequest.address r) < 2 ^ 20 → VRequest.password r ∈ allowed →
  served (wire ++ body) ss →
  past (VRequest.password r, true,
        VRequest.Req (VRequest.version r) (len wire) (VRequest.user_name r) (VRequest.password r)
          (VRequest.address r) (VRequest.port r) body,
        Trojan.TrojanReq.Req 0 [] (Trojan.SOCKS5Address.Addr 0 [] 0) []) ss.
Proof.
  intros wire Hport Hver Hu Hp Ha Hpw (cache & e & s1 & Hc & Hfit & Hreq & Hrun).
  assert (served (wire ++ body) s1) as Hs1
    by (exists cache, e, s1; exact (conj Hc (conj Hfit (conj Hreq (rtc_refl _ _))))).
  apply served_reachable in Hs1 as (cache1 & Hc1 & Hr1).
  refine (past_steps _ s1 ss _ Hrun).
  destruct (auth_reachable _ _ _ _ _ Hc1 Hr1) as [Hau Hcs].
  destruct (v_request_past e r body (init cache) s1 Hport Hver Hu Hp Ha Hpw Hfit
    (init_in_buf cache) eq_refl eq_refl Hreq) as [Hid HF].
  exact (conj (inv_reachable _ _ _ _ _ Hr1) (conj Hau (conj Hcs (conj Hid HF)))).
Qed.

(** the bytes behind the request are written before anything is forwarded *)
Lemma payload_first ss data :
  inv ss → WritePayload data ∈ pending ss → sent_total (down ss) = [].
Proof.
  intros [o Hp _ [_ Hd _ _] _ _|_ HF _ _|_ HF _ _|_ HF _ _ _ _ _] Hin;
    [by rewrite Hd|rewrite list.Forall_forall in HF; by specialize (HF _ Hin)..].
Qed.
End Server.

Lemma prefix_split {A} (a b c d : list A) :
  (length c <= length a)%nat → (a ++ b) `prefix_of` (c ++ d) →
  ∃ body, a = c ++ body ∧ (body ++ b) `prefix_of` d.
Proof.
  intros Hl [z Hz]. rewrite <-app_assoc in Hz.
  assert (take (length c) (c ++ d) = take (length c) (a ++ b ++ z)) as Ht by by rewrite Hz.
  rewrite take_app_length, take_app_le in Ht by done.
  exists (drop (length c) a).
  assert (a = c ++ drop (length c) a) as Ha by (rewrite Ht at 1; by rewrite take_drop).
  split; [done|]. exists z. rewrite Ha, <-!app_assoc in Hz. apply app_inv_head in Hz.
  by rewrite Hz, <-app_assoc.
Qed.

(** ** The tunnel *)
(** C2: the two programs together are a pair of byte pipes to the host the
    application asked for.  Take any reachable client session, and any server
    session that read the client's request in one piece, of which the bytes
    received are a prefix of the bytes sent by the other.  Then the server works
    for exactly the application's host and port, and connects only where the
    resolver says they are; what it writes to the target is a prefix of what the
    application sent behind its request; what the application gets is a prefix of
    what the target sent; and the bytes that came with the request are written
    before the rest. *)
Theorem tunnel_end_to_end `{Net.AddressText} cfg ctr srv st cs allowed str resolves first ss :
  let host := Socks5.Request.remote_host (ClientSession.socks5_req cs) in
  let port := Socks5.Request.remote_port (ClientSession.socks5_req cs) in
  ClientSession.reachable cfg ctr srv st cs → served allowed str resolves first ss →
  ClientSession.hashed_password cfg ∈ allowed → 0 <= port < 2 ^ 16 →
  len (ClientSession.user_name cfg) < 2 ^ 20 →
  len (ClientSession.hashed_password cfg) < 2 ^ 20 → len host < 2 ^ 20 →
  len (wire cfg cs) <= len first →
  from_client first ss `prefix_of` to_server cfg cs →
  ClientSession.read_total (ClientSession.down cs)
    `prefix_of` ServerSession.sent_total (ServerSession.up ss) →
  ServerSessionFacts.request_host ss = host ∧ ServerSessionFacts.request_port ss = port ∧
  to_target ss `prefix_of` ClientSession.read_total (ClientSession.up cs) ∧
  ClientSession.written_total (ClientSession.down cs)
    `prefix_of` ServerSession.read_total (ServerSession.up ss) ∧
  (∀ ep, ServerSession.Connect ep ∈ ServerSession.pending ss →
     resolves host (to_string port) ep) ∧
  (∀ data, ServerSession.WritePayload data ∈ ServerSession.pending ss →
     to_target ss = data).
Proof.
  intros host port Hcs Hss Hpw Hport Hu Hp Hh Hone Hup Hdown.
  destruct (prefix_split first (ServerSession.read_total (ServerSession.down ss)) (wire cfg cs)
    (ClientSession.read_total (ClientSession.up cs))) as (body & -> & Hbody);
    [unfold len in Hone; lia|exact Hup|].
  destruct (served_v_request allowed str resolves (ClientSession.v_request cfg cs) body ss)
    as (Hinv & Hau & _ & Hid & HF); try assumption; [by split|].
  injection Hid as _ Hv Hr _.
  assert (ServerSession.first_payload ss = body) as Hpay
    by (unfold ServerSession.first_payload; by rewrite Hv, Hr).
  assert (ServerSessionFacts.request_host ss = host) as Hhost
    by (unfold ServerSessionFacts.request_host; by rewrite Hv, Hr).
  assert (ServerSessionFacts.request_port ss = port) as Hprt
    by (unfold ServerSessionFacts.request_port; by rewrite Hv, Hr).
  assert (∀ o, o ∈ ServerSession.pending ss → ServerSessionFacts.good resolves ss o) as Hgood.
  { intros o Hin. rewrite list.Forall_forall in HF. specialize (HF o Hin).
    destruct Hau as [[_ HG]|[HG _]]; rewrite list.Forall_forall in HG; specialize (HG o Hin);
      [apply HG|congruence]. }
  split_and!; [exact Hhost|exact Hprt|..].
  - unfold to_target. rewrite Hpay. etrans; [|exact Hbody]. apply prefix_app.
    apply (ServerSessionFacts.inv_prefix ss ServerSession.DOWN Hinv).
  - etrans; [apply (ClientSessionFacts.client_written_prefix cfg cs ClientSession.DOWN);
             by eapply ClientSessionFacts.client_inv_reachable|].
    etrans; [exact Hdown|]. apply (ServerSessionFacts.inv_prefix ss ServerSession.UP Hinv).
  - intros ep Hin. apply Hgood in Hin. cbn in Hin. by rewrite Hhost, Hprt in Hin.
  - intros data Hin. unfold to_target. rewrite (payload_first ss data Hinv Hin), app_nil_r.
    by apply Hgood in Hin.
Qed.

(** ** Concrete runs *)
Definition run_served allowed tr resolves e first cache sched : option ServerSession.session :=
  match ServerSession.on_request allowed tr e (ServerSession.Received first)
          (ServerSession.init cache) with
  | Ret s1 => ServerSessionProps.exec allowed tr resolves sched s1
  | _ => None
  end.
Lemma run_served_sound allowed tr resolves e first cache sched d :
  ServerSessionFacts.cache_sound (ServerSessionProps.resolves_of resolves) cache →
  len first <= ServerSession.MAX_BUFF_SIZE →
  bool_decide (is_Some (run_served allowed tr resolves e first cache sched)) = true →
  served allowed tr (ServerSessionProps.resolves_of resolves) first
    (default d (run_served allowed tr resolves e first cache sched)).
Proof.
  intros Hc Hfit [ss Hs]%bool_decide_eq_true. rewrite Hs. cbn [default].
  unfold run_served in Hs. destruct (ServerSession.on_request _ _ _ _ _) as [s1| |] eqn:E;
    [|discriminate Hs..].
  exists cache, e, s1. split_and!; [exact Hc|exact Hfit|exact E|].
  by apply ServerSessionProps.exec_steps in Hs.
Qed.

(** The application of the client's demonstration run has sent "hello"; the
    server has received the request with the first byte behind it, then "ell",
    of which the target has taken "el". *)
Definition demo_client : ClientSession.session := ClientSessionProps.demo_at 9.
Definition demo_first : bytes := ClientSessionProps.demo_wire ++ lit "h".
Definition demo_sched : list (nat * ServerSession.env * ServerSession.result) :=
  ((λ r, (0%nat, ServerSessionProps.demo_env, r)) <$>
    [ServerSession.Resolved [ServerSessionProps.demo_ep]; ServerSession.Done;
     ServerSession.Done; ServerSession.Received (lit "ell")])
  ++ [(1%nat, ServerSessionProps.demo_env, ServerSession.Sent 2)].
Definition demo_server : ServerSession.session :=
  default (ServerSession.init DnsCache.init)
    (run_served ServerSessionProps.demo_allowed ServerSession.Tls
       ServerSessionProps.demo_resolves ServerSessionProps.demo_env demo_first DnsCache.init
       demo_sched).

Lemma demo_server_runs :
  served ServerSessionProps.demo_allowed ServerSession.Tls
    (ServerSessionProps.resolves_of ServerSessionProps.demo_resolves) demo_first demo_server.
Proof.
  apply run_served_sound; [exact ServerSessionProps.demo_cache|by_evaluation|].
  vm_cast_no_check (eq_refl true).
Qed.
Lemma demo_on_target : to_target demo_server = lit "hel".
Proof. by_evaluation. Qed.
Lemma demo_one_read : len (wire ClientSessionProps.demo_cfg demo_client) <= len demo_first.
Proof. by_evaluation. Qed.
Lemma demo_sent :
  to_server ClientSessionProps.demo_cfg demo_client = ClientSessionProps.demo_wire ++ lit "hello".
Proof. by_evaluation. Qed.
Lemma demo_received : from_client demo_first demo_server = demo_first ++ lit "ell".
Proof. by_evaluation. Qed.
Lemma demo_no_answer : ClientSession.read_total (ClientSession.down demo_client) = [].
Proof. by_evaluation. Qed.
Lemma demo_asked :
  Socks5.Request.remote_host (ClientSession.socks5_req demo_client) = lit "example.org" ∧
  Socks5.Request.remote_port (ClientSession.socks5_req demo_client) = 443.
Proof. split; by_evaluation. Qed.

Lemma tunnel_end_to_end_witness :
  to_target demo_server = lit "hel" ∧
  ServerSessionFacts.request_host demo_server = lit "example.org" ∧
  to_target demo_server `prefix_of` ClientSession.read_total (ClientSession.up demo_client).
Proof.
  destruct demo_asked as [Hhost Hport].
  destruct (tunnel_end_to_end (H:=ClientSessionProps.demo_text) ClientSessionProps.demo_cfg
    ClientSession.Tls ClientServer.init ProxyStats.init demo_client
    ServerSessionProps.demo_allowed ServerSession.Tls
    (ServerSessionProps.resolves_of ServerSessionProps.demo_resolves) demo_first demo_server
    ClientSessionProps.demo9_runs demo_server_runs) as (H1 & _ & H3 & _).
  - apply elem_of_singleton. reflexivity.
  - rewrite Hport. lia.
  - reflexivity.
  - reflexivity.
  - rewrite Hhost. reflexivity.
  - exact demo_one_read.
  - rewrite demo_sent, demo_received. exists (lit "o"). reflexivity.
  - rewrite demo_no_answer. apply prefix_nil.
  - exact (conj demo_on_target (conj (eq_trans H1 Hhost) H3)).
Defined.
End Tunnel.
