(* ===== verification/LogFile.v ===== *)
(** LogFile: the rolling log file (src/Shared/LogFile.h, LogFile.cpp).

    The lock makes every operation atomic.  The disk is the working directory, a
    map from the names of its files to their contents; bytes written to the open
    file stay in its buffer until it is flushed or closed (the C library may write
    them earlier; what a file holds, buffer included, is the same).  The clock is
    the argument [now]; the time zone makes [localtime_r] and [mktime] parameters,
    one giving the year, month and day of a time, the other the time of a day. *)
From S2P Require Import Prelude Decimal.

Module LogFile.

(** [AppendFile]: a file opened for appending *)
Record file := AppendFile { name : bytes; buffered : bytes; writtenBytes_ : Z }.
#[global] Instance eta_file : Eta file := fun r =>
  AppendFile (name r) (buffered r) (writtenBytes_ r).

Definition kRollPerSeconds_ : Z := 60 * 60 * 24.

Record t := Log {
  basename_ : bytes; rollSize_ : Z; flushInterval_ : Z; checkEveryN_ : Z;
  maxKeepDays_ : Z;
  count_ : Z; startOfPeriod_ : Z; lastRoll_ : Z; lastFlush_ : Z;
  file_ : option file;
  disk : gmap bytes bytes
}.
#[global] Instance eta_t : Eta t := fun r =>
  Log (basename_ r) (rollSize_ r) (flushInterval_ r) (checkEveryN_ r) (maxKeepDays_ r)
    (count_ r) (startOfPeriod_ r) (lastRoll_ r) (lastFlush_ r) (file_ r) (disk r).

Definition on_disk (d : gmap bytes bytes) (n : bytes) : bytes := default [] (d !! n).

(** [fflush] *)
Definition flush_file (f : file) (d : gmap bytes bytes) : file * gmap bytes bytes :=
  (f <| buffered := [] |>, <[name f := on_disk d (name f) ++ buffered f]> d).
(** [AppendFile::append] *)
Definition append_file (f : file) (line : bytes) : file :=
  f <| writtenBytes_ := writtenBytes_ f + len line |> <| buffered := buffered f ++ line |>.
(** [AppendFile::AppendFile]: [fopen(filename, "a")] *)
Definition open_file (n : bytes) (d : gmap bytes bytes) : file * gmap bytes bytes :=
  (AppendFile n [] 0, <[n := on_disk d n]> d).

(** ** File names *)
(** [%02d] of a value below 100, as in [%m] and [%d] *)
Definition two_digits (z : Z) : bytes := [z2b (48 + z / 10); z2b (48 + z mod 10)].
(** [strftime] with ".%Y%m%d" *)
Definition format_date (ymd : Z * Z * Z) : bytes :=
  let '(y, m, d) := ymd in lit "." ++ to_string y ++ two_digits m ++ two_digits d.

(** [%<width>d] of [sscanf]: white space, then a sign and digits, at most [width]
    characters *)
Definition scan_int (width : nat) (s : bytes) : option (Z * bytes) :=
  let s := Decimal.skip_space s in
  let '(neg, w, s) :=
    match s with
    | Byte.x2d :: s' => (true, pred width, s')
    | Byte.x2b :: s' => (false, pred width, s')
    | _ => (false, width, s)
    end in
  let '(v, n) := Decimal.digits (take w s) 0 0 in
  if (n =? 0)%nat then None else Some (if neg : bool then - v else v, drop n s).
(** [sscanf(s, "%4d%2d%2d", ...) == 3] *)
Definition sscanf_date (s : bytes) : option (Z * Z * Z) :=
  '(y, s) ← scan_int 4 s; '(m, s) ← scan_int 2 s; '(d, _) ← scan_int 2 s; Some (y, m, d).

Definition npos : Z := 2 ^ 64 - 1.

(** ** Dates in file names *)
Definition date_ok (ymd : Z * Z * Z) : Prop :=
  let '(y, m, d) := ymd in 1000 <= y <= 9999 ∧ 0 <= m < 100 ∧ 0 <= d < 100.

Lemma scan_int_digits w ds rest v :
  Decimal.all_digits ds → length ds = w → ds ≠ [] → Decimal.digits ds 0 0 = (v, w) →
  scan_int w (ds ++ rest) = Some (v, rest).
Proof.
  intros Hall <- Hne Hv. destruct ds as [|b ds]; [done|]. set (w := length (b :: ds)) in *.
  pose proof Hall as Hall'. inversion_clear Hall as [|? ? Hb _].
  unfold scan_int. change ((b :: ds) ++ rest) with (b :: ds ++ rest).
  rewrite Decimal.skip_space_digit by done.
  assert (match b :: ds ++ rest with
          | Byte.x2d :: s' => (true, pred w, s') | Byte.x2b :: s' => (false, pred w, s')
          | _ => (false, w, b :: ds ++ rest) end = (false, w, b :: ds ++ rest)) as ->.
  { by destruct b. }
  change (b :: ds ++ rest) with ((b :: ds) ++ rest).
  subst w. rewrite take_app_length, Hv, drop_app_length. done.
Qed.

Lemma two_digits_spec z :
  0 <= z < 100 → Decimal.all_digits (two_digits z) ∧ Decimal.digits (two_digits z) 0 0 = (z, 2%nat).
Proof.
  intros Hz. pose proof (Z.div_pos z 10). assert (z / 10 < 10) by (apply Z.div_lt_upper_bound; lia).
  pose proof (Z.mod_pos_bound z 10).
  assert (∀ k, 0 <= k < 10 → b2z (z2b (48 + k)) = 48 + k) as Hb
    by (intros; rewrite b2z_z2b, u8_small; lia).
  assert (∀ k, 0 <= k < 10 → Decimal.is_digit (z2b (48 + k)) = true) as Hd
    by (intros; unfold Decimal.is_digit; rewrite Hb; lia).
  unfold two_digits. split; [repeat constructor; apply Hd; lia|].
  cbn [Decimal.digits]. rewrite !Hd, !Hb by lia. f_equal.
  rewrite (Z.div_mod z 10) at 3 by lia. lia.
Qed.

Lemma year_length y : 1000 <= y <= 9999 → length (to_string y) = 4%nat.
Proof.
  intros Hy. unfold to_string, pretty, pretty_N. rewrite decide_False by lia.
  rewrite 4!pretty_N_go_step by (rewrite ?N.div_div by lia; first [lia|apply N.div_str_pos; lia]).
  assert (∀ x, (x < 10000 → x / 10 / 10 / 10 / 10 = 0)%N) as ->; [|done|lia].
  intros x Hx. rewrite !N.div_div by lia. by apply N.div_small.
Qed.

(** a date as it stands in a file name *)
Definition date_digits (ymd : Z * Z * Z) : bytes :=
  let '(y, m, d) := ymd in to_string y ++ two_digits m ++ two_digits d.

Lemma date_digits_spec ymd :
  date_ok ymd →
  Decimal.all_digits (date_digits ymd) ∧ len (date_digits ymd) = 8 ∧
  sscanf_date (date_digits ymd) = Some ymd.
Proof.
  destruct ymd as [[y m] d]. intros (Hy & Hm & Hd).
  destruct (Decimal.to_string_spec y) as (Hall & Hne & Hval); [lia|].
  specialize (Hval []). rewrite app_nil_r in Hval. cbn [Decimal.digits] in Hval.
  rewrite year_length in Hval by done.
  destruct (two_digits_spec m Hm) as [Hm1 Hm2]. destruct (two_digits_spec d Hd) as [Hd1 Hd2].
  unfold date_digits. split_and!.
  - by repeat (apply Forall_app; split).
  - unfold len. rewrite !length_app, year_length by done. done.
  - unfold sscanf_date. rewrite (scan_int_digits 4 (to_string y) _ y); [|done|by apply year_length|done|done].
    cbn [mbind option_bind]. rewrite (scan_int_digits 2 (two_digits m) _ m) by done.
    cbn [mbind option_bind].
    rewrite <-(app_nil_r (two_digits d)), (scan_int_digits 2 (two_digits d) _ d) by done. done.
Qed.

Section Names.
Context (localtime : Z → Z * Z * Z).             (* year, month from 1, day *)
Context (mktime : Z → Z → Z → Z).                (* tm_year, tm_mon, tm_mday *)

Definition date (now : Z) : bytes := format_date (localtime now).

Definition getLogFileName (basename : bytes) (now : Z) : bytes :=
  basename ++ date now ++ lit ".log".

(** [parseLogDate]; sizes are [size_t] *)
Definition parseLogDate (filename basename : bytes) : outcome Z :=
  let prefix := basename ++ lit "." in
  let suffix := lit ".log" in
  if negb (default npos (find prefix filename) =? 0) then mret (-1)
  else if negb (default npos (find suffix filename) =? u64 (len filename - len suffix))
  then mret (-1)
  else
    dateStr ← substr_n filename (len prefix) (u64 (len filename - len prefix - len suffix));
    if negb (len dateStr =? 8) then mret (-1)
    else match sscanf_date dateStr with
         | None => mret (-1)
         | Some (y, m, d) => mret (mktime (y - 1900) (m - 1) d)
         end.

(** [cleanupOldLogs]: [daysDiff] is a double, and for an [int] number of days it
    is above it just when the difference in seconds is above that many days *)
Fixpoint cleanup_loop (now : Z) (l : t) (entries : list bytes) : outcome t :=
  match entries with
  | [] => mret l
  | name :: entries =>
      logDate ← parseLogDate name (basename_ l);
      if logDate <? 0 then cleanup_loop now l entries
      else if maxKeepDays_ l * (60 * 60 * 24) <? now - logDate
      then cleanup_loop now (l <| disk := delete name (disk l) |>) entries
      else cleanup_loop now l entries
  end.
Definition cleanupOldLogs (now : Z) (l : t) : outcome t :=
  if maxKeepDays_ l <=? 0 then mret l
  else cleanup_loop now l (map_to_list (disk l)).*1.

(** [file_.reset(new AppendFile(...))]: the new file is opened, then the old one
    is flushed and closed *)
Definition reset_file (n : bytes) (l : t) : t :=
  let '(f, d) := open_file n (disk l) in
  let d := match file_ l with Some old => (flush_file old d).2 | None => d end in
  l <| file_ := Some f |> <| disk := d |>.

(** [rollFile] *)
Definition rollFile (now : Z) (l : t) : t * bool :=
  let filename := getLogFileName (basename_ l) now in
  let start := now / kRollPerSeconds_ * kRollPerSeconds_ in
  if lastRoll_ l <? now
  then (reset_file filename
          (l <| lastRoll_ := now |> <| lastFlush_ := now |> <| startOfPeriod_ := start |>), true)
  else (l, false).

(** [flush] *)
Definition flush (l : t) : t :=
  match file_ l with
  | Some f => let '(f, d) := flush_file f (disk l) in l <| file_ := Some f |> <| disk := d |>
  | None => l
  end.

(** [append_unlocked]; the file is open *)
Definition append (now : Z) (line : bytes) (l : t) : outcome t :=
  match file_ l with
  | None => Undef
  | Some f =>
      let f := append_file f line in
      let l := l <| file_ := Some f |> in
      if rollSize_ l <? writtenBytes_ f then mret (rollFile now l).1
      else
        let l := l <| count_ := count_ l + 1 |> in
        if checkEveryN_ l <=? count_ l then
          let l := l <| count_ := 0 |> in
          let today := now / kRollPerSeconds_ * kRollPerSeconds_ in
          if negb (today =? startOfPeriod_ l) then mret (rollFile now l).1
          else if flushInterval_ l <? now - lastFlush_ l
               then mret (flush (l <| lastFlush_ := now |>))
               else mret l
        else mret l
  end.

(** the constructor *)
Definition make (basename : bytes) (rollSize flushInterval checkEveryN maxKeepDays now : Z)
    (d : gmap bytes bytes) : outcome t :=
  l ← cleanupOldLogs now
        (Log basename rollSize flushInterval checkEveryN maxKeepDays 0 0 0 0 None d);
  mret (rollFile now l).1.

(** ** Reading the date back *)
Lemma u64_len {A} (s : list A) k : 0 <= k <= len s → len s < max_size → u64 (len s - k) = len s - k.
Proof. intros. unfold max_size in *. apply u64_small. lia. Qed.

(** the first ".log" of a log file's name is its last *)
Lemma find_suffix basename ds :
  Byte.x2e ∉ basename → Decimal.all_digits ds → ds ≠ [] →
  find (lit ".log") (basename ++ lit "." ++ ds ++ lit ".log") = Some (len basename + 1 + len ds).
Proof.
  intros Hb Hds Hne. unfold find. change (lit ".log") with (Byte.x2e :: lit "log").
  rewrite find_from_skip by done. change (lit ".") with [Byte.x2e].
  destruct ds as [|d ds]; [done|]. pose proof (Decimal.all_digits_not_in _ Byte.x2e Hds eq_refl).
  inversion_clear Hds as [|? ? Hd _].
  assert (is_prefix (Byte.x2e :: lit "log") ([Byte.x2e] ++ (d :: ds) ++ Byte.x2e :: lit "log")
          = false) as Hp by by destruct d.
  change ([Byte.x2e] ++ (d :: ds) ++ ?r) with (Byte.x2e :: (d :: ds) ++ r) in Hp |- *.
  cbn [find_from]. rewrite Hp, find_from_skip by done.
  reflexivity.
Qed.

Lemma parseLogDate_digits basename ds ymd :
  Byte.x2e ∉ basename → Decimal.all_digits ds → len ds = 8 → sscanf_date ds = Some ymd →
  len basename < 2 ^ 62 →
  parseLogDate (basename ++ lit "." ++ ds ++ lit ".log") basename =
  Ret (mktime (ymd.1.1 - 1900) (ymd.1.2 - 1) ymd.2).
Proof.
  intros Hb Hds Hlen Hscan Hfit. destruct ymd as [[y m] d]. unfold parseLogDate.
  pose proof (len_nonneg basename).
  assert (len (basename ++ lit "." ++ ds ++ lit ".log") = len basename + 13) as El.
  { len_simpl. rewrite Hlen. change (len (lit ".")) with 1. change (len (lit ".log")) with 4. lia. }
  rewrite find_suffix, El by (done || (intros ->; discriminate Hlen)).
  rewrite app_assoc, find_at_start. cbn [default from_option id negb Z.eqb].
  rewrite len_app. change (len (lit ".")) with 1. change (len (lit ".log")) with 4.
  rewrite !u64_small, Hlen by lia.
  replace (len basename + 1 + 8 =? len basename + 13 - 4) with true by lia. cbn [negb].
  replace (len basename + 13 - (len basename + 1) - 4) with (len ds) by lia.
  rewrite substr_n_mid by (done || (len_simpl; change (len (lit ".")) with 1; lia)).
  cbn [mbind outcome_bind]. rewrite Hlen. cbn [Z.eqb negb]. by rewrite Hscan.
Qed.

(** no file name makes the parser throw, and what it accepts has the form of a
    log file's name *)
Lemma parseLogDate_total name basename :
  len name < max_size →
  ∃ z, parseLogDate name basename = Ret z ∧
    (0 <= z → ∃ ds ymd, name = basename ++ lit "." ++ ds ++ lit ".log" ∧ len ds = 8 ∧
       sscanf_date ds = Some ymd ∧ z = mktime (ymd.1.1 - 1900) (ymd.1.2 - 1) ymd.2).
Proof.
  intros Hfit. unfold parseLogDate.
  destruct (find _ name) as [k|] eqn:Hf; cbn [default from_option id]; [|by exists (-1)].
  apply find_Some in Hf as (a & r & Hname & ->).
  destruct (Z.eqb_spec (len a) 0) as [Ha|]; cbn [negb]; [|by exists (-1)].
  apply len_0_nil in Ha as ->. cbn [app] in Hname. subst name.
  set (name := (basename ++ lit ".") ++ r) in *. change (len (lit ".log")) with 4.
  destruct (Z.eqb_spec (default npos (find (lit ".log") name)) (u64 (len name - 4))) as [E|];
    cbn [negb]; [|by exists (-1)].
  assert (len name = len (basename ++ lit ".") + len r) as Hlen by (subst name; len_lia).
  unfold substr_n. rewrite (proj2 (Z.ltb_ge _ _)) by len_lia. cbn [mbind outcome_bind].
  assert (slice name (len (basename ++ lit ".")) (u64 (len name - len (basename ++ lit ".") - 4)) =
          take (Z.to_nat (u64 (len r - 4))) r) as ->.
  { unfold slice. replace (len name - len (basename ++ lit ".") - 4) with (len r - 4) by lia.
    replace (Z.to_nat (len (basename ++ lit "."))) with (length (basename ++ lit "."))
      by (unfold len; lia).
    subst name. by rewrite drop_app_length. }
  set (ds := take _ r). destruct (Z.eqb_spec (len ds) 8) as [Hds|]; cbn [negb]; [|by exists (-1)].
  destruct (sscanf_date ds) as [[[y m] d]|] eqn:Hscan; [|by exists (-1)].
  eexists. split; [done|]. intros _. exists ds, (y, m, d). split_and!; try done.
  assert (8 <= len r).
  { subst ds. unfold len in *. rewrite length_take in Hds. lia. }
  pose proof (len_nonneg (basename ++ lit ".")). unfold max_size in Hfit.
  rewrite u64_small in E by lia.
  destruct (find (lit ".log") name) as [k|] eqn:Hf; cbn [default from_option id] in E; [|unfold npos in E; lia].
  apply find_Some in Hf as (a & r' & Hname & ->). rewrite Hname in Hlen. len_simpl.
  change (len (lit ".log")) with 4 in *. pose proof (len_nonneg r'). pose proof (len_nonneg a).
  assert (len r' = 0) as ->%len_0_nil by (rewrite Hname in E; len_simpl;
    change (len (lit ".log")) with 4 in *; lia).
  assert (r = ds ++ lit ".log") as Hr; [|subst name; by rewrite Hr, <-app_assoc].
  rewrite <-(take_drop (Z.to_nat (u64 (len r - 4))) r). fold ds. f_equal.
  rewrite len_nil in Hlen. rewrite u64_small by lia.
  apply (app_inj_2 ((basename ++ lit ".") ++ take (Z.to_nat (len r - 4)) r) a).
  - rewrite length_drop. change (length (lit ".log")) with 4%nat. unfold len in *. lia.
  - rewrite <-app_assoc, take_drop. by rewrite app_nil_r in Hname.
Qed.

(** a log file's name and its date *)
Lemma parseLogDate_getLogFileName basename t :
  Byte.x2e ∉ basename → date_ok (localtime t) → len basename < 2 ^ 62 →
  parseLogDate (getLogFileName basename t) basename =
  Ret (mktime ((localtime t).1.1 - 1900) ((localtime t).1.2 - 1) (localtime t).2).
Proof.
  intros Hb Hd Hfit. destruct (date_digits_spec _ Hd) as (H1 & H2 & H3).
  rewrite <-(parseLogDate_digits basename (date_digits (localtime t))) by done.
  unfold getLogFileName, date, format_date, date_digits. destruct (localtime t) as [[y m] d].
  by rewrite <-!app_assoc.
Qed.

(** ** The clean-up *)
(** [name] is the name of a log file that is too old *)
Definition expired (now : Z) (l : t) (name : bytes) : Prop :=
  ∃ date, parseLogDate name (basename_ l) = Ret date ∧ 0 <= date ∧
          maxKeepDays_ l * (60 * 60 * 24) < now - date.

Lemma cleanup_loop_spec now l entries :
  Forall (λ n, len n < max_size) entries →
  ∃ d, cleanup_loop now l entries = Ret (l <| disk := d |>) ∧
    ∀ n, (d !! n = disk l !! n ∧ ¬ (n ∈ entries ∧ expired now l n)) ∨
         (d !! n = None ∧ n ∈ entries ∧ expired now l n).
Proof.
  intros HF. revert l. induction HF as [|name entries Hfit HF IH]; intros l.
  { exists (disk l). split; [by destruct l|]. intros n. left. split; [done|]. set_solver. }
  cbn [cleanup_loop].
  destruct (parseLogDate_total name (basename_ l) Hfit) as (z & Hz & _).
  rewrite Hz. cbn [mbind outcome_bind].
  assert (expired now l name ↔ 0 <= z ∧ maxKeepDays_ l * (60 * 60 * 24) < now - z) as Hexp.
  { unfold expired. rewrite Hz. split; [by intros (? & [= <-] & ?)|eauto]. }
  assert (¬ expired now l name → ∃ d, cleanup_loop now l entries = Ret (l <| disk := d |>) ∧
    ∀ n, (d !! n = disk l !! n ∧ ¬ (n ∈ name :: entries ∧ expired now l n)) ∨
         (d !! n = None ∧ n ∈ name :: entries ∧ expired now l n)) as Hkeep.
  { intros Hne. destruct (IH l) as (d & Hd & Hspec). exists d. split; [done|]. intros n.
    destruct (Hspec n) as [[H1 H2]|(H1 & H2 & H3)]; [left|right; set_solver].
    split; [done|]. intros [[->|]%elem_of_cons ?]; auto. }
  destruct (Z.ltb_spec z 0); [apply Hkeep; rewrite Hexp; lia|].
  destruct (Z.ltb_spec (maxKeepDays_ l * (60 * 60 * 24)) (now - z));
    [|apply Hkeep; rewrite Hexp; lia].
  destruct (IH (l <| disk := delete name (disk l) |>)) as (d & Hd & Hspec).
  exists d. split; [exact Hd|]. intros n.
  destruct (decide (n = name)) as [->|Hne].
  - right. split; [|split; [apply list_elem_of_here|by apply Hexp]].
    destruct (Hspec name) as [[H1 _]|[H1 _]]; [|done]. rewrite H1. apply lookup_delete_eq.
  - destruct (Hspec n) as [[H1 H2]|(H1 & H2 & H3)]; [left|right; set_solver].
    rewrite H1. split; [by apply lookup_delete_ne|]. intros [[->|Hin]%elem_of_cons ?]; [done|].
    by apply H2.
Qed.

(** what the clean-up leaves and what it removes *)
Lemma cleanup_spec now l :
  map_Forall (λ n _, len n < max_size) (disk l) →
  ∃ d, cleanupOldLogs now l = Ret (l <| disk := d |>) ∧
    ∀ n, (d !! n = disk l !! n ∧ ¬ (0 < maxKeepDays_ l ∧ is_Some (disk l !! n) ∧ expired now l n)) ∨
         (d !! n = None ∧ 0 < maxKeepDays_ l ∧ expired now l n).
Proof.
  intros Hfit. unfold cleanupOldLogs. destruct (Z.leb_spec (maxKeepDays_ l) 0).
  { exists (disk l). split; [by destruct l|]. intros n. left. split; [done|lia]. }
  assert (∀ n, n ∈ (map_to_list (disk l)).*1 ↔ is_Some (disk l !! n)) as Hin.
  { intros n. rewrite list_elem_of_fmap. split.
    - intros ([k v] & -> & Hk%elem_of_map_to_list). by exists v.
    - intros [v Hv]. exists (n, v). split; [done|by apply elem_of_map_to_list]. }
  destruct (cleanup_loop_spec now l (map_to_list (disk l)).*1) as (d & -> & Hd).
  { apply list.Forall_forall. intros n [v Hv]%Hin. by apply (Hfit n v). }
  exists d. split; [done|]. intros n. destruct (Hd n) as [[H1 H2]|(H1 & H2 & H3)].
  - left. split; [done|]. intros (_ & Hs%Hin & He). by apply H2.
  - by right.
Qed.

(** C31: cleaning up removes exactly the program's old logs.  With a basename
    without dots, every log file of a day whose start lies more than the days to
    keep before now is removed; and nothing else is: whatever is removed is named
    like a log file of this program, with a date that old.  In particular nothing
    is removed when no days are given. *)
Theorem cleanup_removes_old_logs now l :
  Byte.x2e ∉ basename_ l → len (basename_ l) < 2 ^ 62 →
  map_Forall (λ n _, len n < max_size) (disk l) →
  let start ymd := mktime (ymd.1.1 - 1900) (ymd.1.2 - 1) ymd.2 in
  let old ymd := 0 < maxKeepDays_ l ∧ 0 <= start ymd ∧
                 maxKeepDays_ l * 86400 < now - start ymd in
  ∃ d, cleanupOldLogs now l = Ret (l <| disk := d |>) ∧
    (∀ t, date_ok (localtime t) → old (localtime t) →
          d !! getLogFileName (basename_ l) t = None) ∧
    (∀ n, d !! n ≠ disk l !! n → d !! n = None ∧
          ∃ ds ymd, n = basename_ l ++ lit "." ++ ds ++ lit ".log" ∧ len ds = 8 ∧
                    sscanf_date ds = Some ymd ∧ old ymd).
Proof.
  intros Hb Hfit Hnames start old. destruct (cleanup_spec now l Hnames) as (d & -> & Hd).
  exists d. split; [done|]. split.
  - intros t Ht (Hk & H0 & Hold).
    destruct (Hd (getLogFileName (basename_ l) t)) as [[H1 H2]|[H1 _]]; [|done].
    rewrite H1. apply eq_None_not_Some. intros Hs. apply H2. split_and!; [done|done|].
    exists (start (localtime t)). by rewrite parseLogDate_getLogFileName.
  - intros n Hn. destruct (Hd n) as [[H1 _]|(H1 & Hk & z & Hz & Hz0 & Hzold)]; [done|].
    split; [done|]. destruct (disk l !! n) as [v|] eqn:E; [|by rewrite H1 in Hn].
    destruct (parseLogDate_total n (basename_ l) (Hnames n v E)) as (z' & Hz' & Hform).
    rewrite Hz in Hz'. injection Hz' as <-.
    destruct (Hform Hz0) as (ds & ymd & Hname & Hds & Hscan & ->). by exists ds, ymd.
Qed.


(** ** What a file holds, buffered bytes included *)
Definition content (l : t) (n : bytes) : bytes :=
  on_disk (disk l) n ++
    match file_ l with
    | Some f => if decide (name f = n) then buffered f else []
    | None => []
    end.
Definition current (l : t) : option bytes := name <$> file_ l.

Lemma on_disk_insert d n m b : on_disk (<[n := b]> d) m = if decide (n = m) then b else on_disk d m.
Proof. unfold on_disk. rewrite lookup_insert. by case_decide. Qed.

Lemma flush_content l n : content (flush l) n = content l n.
Proof.
  unfold content, flush. destruct (file_ l) as [f|] eqn:E; [|by rewrite E].
  cbn. rewrite on_disk_insert. repeat case_decide; subst; by rewrite ?app_nil_r.
Qed.

(** rolling loses nothing: every file holds what it held *)
Lemma roll_content now l n : content (rollFile now l).1 n = content l n.
Proof.
  unfold rollFile. destruct (_ <? _); [|done]. cbn. unfold reset_file, content. cbn.
  destruct (file_ l) as [f|]; cbn; rewrite !on_disk_insert.
  - repeat (destruct (decide _)); subst; rewrite ?app_nil_r; try done; by congruence.
  - destruct (decide _); subst; by rewrite ?app_nil_r.
Qed.

Lemma append_content now line l f :
  file_ l = Some f →
  ∃ l', append now line l = Ret l' ∧
    (∀ n, content l' n = content l n ++ (if decide (name f = n) then line else [])) ∧
    basename_ l' = basename_ l ∧ ∃ f', file_ l' = Some f' ∧
      (name f' = name f ∨ name f' = getLogFileName (basename_ l) now).
Proof.
  intros Hf. unfold append. rewrite Hf.
  set (l1 := l <| file_ := Some (append_file f line) |>).
  assert (∀ n, content l1 n = content l n ++ (if decide (name f = n) then line else [])) as Hc.
  { intros n. unfold content. rewrite Hf. cbn. case_decide; by rewrite <-?app_assoc, ?app_nil_r. }
  assert (∀ l2, content l2 = content l1 → basename_ l2 = basename_ l → 
    file_ l2 = Some (append_file f line) →
    ∃ l', Ret (rollFile now l2).1 = Ret l' ∧
      (∀ n, content l' n = content l n ++ (if decide (name f = n) then line else [])) ∧
      basename_ l' = basename_ l ∧ ∃ f', file_ l' = Some f' ∧
        (name f' = name f ∨ name f' = getLogFileName (basename_ l) now)) as Hroll.
  { intros l2 E1 E2 E3. eexists. split; [reflexivity|]. split; [|split].
    - intros n. by rewrite roll_content, E1.
    - unfold rollFile. by destruct (_ <? _).
    - unfold rollFile. destruct (_ <? _); cbn; eexists; (split; [done||exact E3|]); [|by left].
      right. cbn. by rewrite E2. }
  destruct (_ <? _); [by apply Hroll|].
  destruct (_ <=? _); [|by eexists; split; [reflexivity|split; [exact Hc|split; [done|by eauto]]]].
  destruct (negb _); [by apply Hroll|].
  destruct (_ <? _); eexists; (split; [reflexivity|]).
  - split; [|split; [done|by eauto]]. intros n. rewrite flush_content. apply Hc.
  - split; [exact Hc|split; [done|by eauto]].
Qed.

(** before the count or the size is reached, neither the time nor the day is looked at *)
Lemma append_unchecked now line l f :
  file_ l = Some f → writtenBytes_ f + len line <= rollSize_ l → count_ l + 1 < checkEveryN_ l →
  append now line l = Ret (l <| file_ := Some (append_file f line) |> <| count_ := count_ l + 1 |>).
Proof.
  intros Hf Hw Hc. unfold append. rewrite Hf. cbn zeta.
  change (rollSize_ (l <| file_ := _ |>)) with (rollSize_ l).
  change (writtenBytes_ (append_file f line)) with (writtenBytes_ f + len line).
  rewrite (proj2 (Z.ltb_ge _ _)) by done.
  change (count_ (l <| file_ := _ |>)) with (count_ l).
  match goal with |- context [checkEveryN_ ?x] => change (checkEveryN_ x) with (checkEveryN_ l) end.
  match goal with |- context [count_ ?x] => change (count_ x) with (count_ l + 1) end.
  by rewrite (proj2 (Z.leb_gt _ _)) by done.
Qed.

(** a sequence of appends, each with the time it happens at *)
Fixpoint append_all (lines : list (Z * bytes)) (l : t) : outcome t :=
  match lines with
  | [] => mret l
  | (now, line) :: lines => l ← append now line l; append_all lines l
  end.

(** The size limit does not bound the log file.  However many rolls the limit
    triggers, within one day they all reopen the same file: every line of the day
    is there, complete and in order, behind what the file held. *)
Lemma log_day_in_one_file lines l f day :
  file_ l = Some f → name f = basename_ l ++ day ++ lit ".log" →
  Forall (λ x, date x.1 = day) lines →
  ∃ l', append_all lines l = Ret l' ∧ current l' = Some (name f) ∧
    content l' (name f) = content l (name f) ++ mjoin lines.*2.
Proof.
  intros Hf Hn HF. revert l f Hf Hn. induction HF as [|[now line] lines Hday _ IH];
    intros l f Hf Hn; cbn.
  { exists l. rewrite app_nil_r. split_and!; try done. unfold current. by rewrite Hf. }
  destruct (append_content now line l f Hf) as (l1 & -> & Hc & Hb & f1 & Hf1 & Hname).
  cbn. cbn in Hday.
  assert (name f1 = name f) as E
    by (destruct Hname as [?| ->]; [done|rewrite Hn; unfold getLogFileName; by rewrite Hday]).
  destruct (IH l1 f1 Hf1) as (l' & Hl' & Hcur & Hcont); [by rewrite E, Hb|].
  exists l'. split; [done|]. rewrite E in Hcur, Hcont. split; [done|].
  rewrite Hcont, Hc, decide_True by done. by rewrite <-app_assoc.
Qed.

(** After midnight the lines go on into the file of the day before.  The day is looked
    at only every [checkEveryN_] lines: fewer lines than that, whatever their times,
    all go to the file that is open, unless the size limit rolls it. *)
Lemma midnight_keeps_old_file lines l f :
  file_ l = Some f → count_ l + len lines < checkEveryN_ l →
  writtenBytes_ f + len (mjoin lines.*2) <= rollSize_ l →
  ∃ l', append_all lines l = Ret l' ∧ current l' = Some (name f) ∧
    content l' (name f) = content l (name f) ++ mjoin lines.*2.
Proof.
  revert l f. induction lines as [|[now line] lines IH]; intros l f Hf Hc Hw; cbn [append_all].
  { exists l. rewrite app_nil_r. split_and!; try done. unfold current. by rewrite Hf. }
  change (mjoin ((now, line) :: lines).*2) with (line ++ mjoin lines.*2) in Hw |- *.
  rewrite len_cons in Hc. rewrite len_app in Hw.
  pose proof (len_nonneg (mjoin lines.*2)). pose proof (len_nonneg lines).
  rewrite (append_unchecked now line l f Hf) by lia. cbn [mbind outcome_bind].
  match goal with |- context [append_all _ ?x] => set (l1 := x) end.
  destruct (IH l1 (append_file f line) eq_refl) as (l' & Hl' & Hcur & Hcont).
  { change (count_ l1) with (count_ l + 1). change (checkEveryN_ l1) with (checkEveryN_ l). lia. }
  { change (writtenBytes_ (append_file f line)) with (writtenBytes_ f + len line).
    change (rollSize_ l1) with (rollSize_ l). lia. }
  exists l'. split; [done|]. split; [done|].
  change (name (append_file f line)) with (name f) in Hcont. rewrite Hcont, app_assoc. f_equal.
  unfold content. rewrite Hf. cbn. by rewrite !decide_True, app_assoc by done.
Qed.
End Names.

(** a log with a limit of ten bytes that takes three lines on one day *)
Definition demo_date (_ : Z) : Z * Z * Z := (2024, 5, 1).
Definition demo_log : t :=
  (rollFile demo_date 1714521600 (Log (lit "server") 10 3 1024 30 0 0 0 0 None ∅)).1.
Definition demo_lines : list (Z * bytes) :=
  [(1714521601, lit "a long line"); (1714521602, lit "another line"); (1714521603, lit "end")].

Lemma log_day_in_one_file_witness :
  ∃ l', append_all demo_date demo_lines demo_log = Ret l' ∧
    current l' = Some (lit "server.20240501.log") ∧
    content l' (lit "server.20240501.log") = [] ++ lit "a long lineanother lineend".
Proof.
  apply (log_day_in_one_file demo_date demo_lines demo_log
           (AppendFile (lit "server.20240501.log") [] 0) (lit ".20240501"));
    [vm_compute; reflexivity|reflexivity|repeat constructor].
Defined.

(** the server's log on the first of May: a line of the second goes into its file *)
Definition demo_days (now : Z) : Z * Z * Z := (2024, 5, (now - 1714521600) / 86400 + 1).
Definition demo_server_log : t :=
  (rollFile demo_days 1714521600 (Log (lit "server") (10 * 1024 * 1024) 3 1024 30 0 0 0 0 None ∅)).1.
Definition demo_midnight : list (Z * bytes) :=
  [(1714607999, lit "before midnight"); (1714608001, lit ", after midnight")].
Lemma midnight_keeps_old_file_witness :
  getLogFileName demo_days (lit "server") 1714608001 = lit "server.20240502.log" ∧
  ∃ l', append_all demo_days demo_midnight demo_server_log = Ret l' ∧
    current l' = Some (lit "server.20240501.log") ∧
    content l' (lit "server.20240501.log") = [] ++ lit "before midnight, after midnight".
Proof.
  split; [vm_compute; reflexivity|].
  apply (midnight_keeps_old_file demo_days demo_midnight demo_server_log
           (AppendFile (lit "server.20240501.log") [] 0));
    [vm_compute; reflexivity|reflexivity|vm_compute; discriminate].
Defined.

(** a log of May and other files in the directory, in July *)
Definition demo_mktime (y m d : Z) : Z := ((y - 70) * 372 + m * 31 + d) * 86400.
Definition demo_old : t :=
  Log (lit "server") 10 3 1024 30 0 0 0 0 None
    {[ lit "server.20240501.log" := lit "old"; lit "server.json" := lit "{}" ]}.
Definition demo_july : Z := demo_mktime 124 6 1.

Lemma cleanup_removes_old_logs_witness :
  ∃ d, cleanupOldLogs demo_mktime demo_july demo_old = Ret (demo_old <| disk := d |>) ∧
    d !! lit "server.20240501.log" = None.
Proof.
  destruct (cleanup_removes_old_logs demo_date demo_mktime demo_july demo_old)
    as (d & Hd & Hold & _).
  - by apply (bool_decide_unpack _).
  - reflexivity.
  - by_evaluation.
  - exists d. split; [exact Hd|]. apply (Hold 0); cbn; [lia|].
    unfold demo_july, demo_mktime. lia.
Defined.
End LogFile.
