(* ===== verification/ConfigManage.v ===== *)
(** ConfigManage: the configuration of both programs (src/Shared/ConfigManage.h,
    ConfigManage.cpp).

    Boost's property tree is not part of the repository: the class [Ptree] names
    the calls the code makes on it.  SHA-224 is a parameter, the function from a
    message to its 28 digest bytes. *)
From S2P Require Import Prelude.
From S2P Require Import Trojan.
From S2P Require Import DtlsServerSession.

(** [boost::property_tree::ptree]: [get_optional<T>], the children under a path
    and the value of a node *)
Class Ptree (tree : Type) := {
  get_string : tree → bytes → option bytes;
  get_bool : tree → bytes → option bool;
  get_int : tree → bytes → option Z;
  get_child : tree → bytes → option (list tree);
  get_value : tree → bytes
}.

Module ConfigManage.

Inductive Loglevel := L_DEBUG | L_NOTICE | L_ERROR_EXIT.
#[global] Instance Loglevel_eq_dec : EqDecision Loglevel.
Proof. solve_decision. Defined.

Record ServerConfig := Server {
  s_local_addr : bytes; s_local_port : bytes;
  allowed_passwords : gset bytes;
  log_level : Loglevel; log_dir : bytes;
  certificate_chain : bytes; server_private_key : bytes;
  websocketEnabled : bool; dtls_enabled : bool; s_dtls_port : bytes;
  dns_cache_ttl : Z; dns_cleanup_interval : Z; thread_count : Z
}.

Record ClientConfig := Client {
  local_addr : bytes; local_port : bytes; remote_addr : bytes; remote_port : bytes;
  password : bytes; user_name : bytes; text_password : bytes;
  udp_enabled : bool; dtls_port : bytes; useWebSocket : bool
}.
#[global] Instance eta_client : Eta ClientConfig := fun r =>
  Client (local_addr r) (local_port r) (remote_addr r) (remote_port r) (password r)
    (user_name r) (text_password r) (udp_enabled r) (dtls_port r) (useWebSocket r).

(** the singleton, and the log level [setLogLevel] sets *)
Record manager := Manager {
  client_cfg : ClientConfig; server_cfg : ServerConfig; loaded : bool; current_level : Loglevel
}.
#[global] Instance eta_manager : Eta manager := fun r =>
  Manager (client_cfg r) (server_cfg r) (loaded r) (current_level r).

Inductive ConfigType := ServerType | ClientType.

Section Populate.
Context `{Ptree tree} (sha224 : bytes → bytes).

Definition SHA224 (message : bytes) : bytes := mjoin (Trojan.hex02 <$> sha224 message).

(** [tree.get(path, default)] *)
Definition str (t : tree) (path : string) : bytes := default [] (get_string t (lit path)).
Definition flag (t : tree) (path : string) : bool := default false (get_bool t (lit path)).
Definition int (t : tree) (path : string) (d : Z) : Z := default d (get_int t (lit path)).

(** [ClientConfig::populate]: every field is assigned *)
Definition populate_client (t : tree) : ClientConfig :=
  Client (str t "local_addr") (str t "local_port") (str t "remote_addr") (str t "remote_port")
    (SHA224 (str t "password")) (str t "user_name") (str t "password")
    (flag t "udp_enabled") (str t "dtls_port") (flag t "useWebSocket").

(** [ClientConfig::setPassword] *)
Definition setPassword (psswd : bytes) (c : ClientConfig) : ClientConfig :=
  c <| password := SHA224 psswd |> <| text_password := psswd |>.

(** the loop over ["allowed_passwords"], from the emptied set *)
Definition read_passwords (t : tree) : gset bytes :=
  match get_child t (lit "allowed_passwords") with
  | Some items => foldl (λ acc item, {[ SHA224 (get_value item) ]} ∪ acc) ∅ items
  | None => ∅
  end.

Definition read_level (t : tree) : Loglevel :=
  let str_leve := str t "log_level" in
  if bool_decide (str_leve = lit "DEBUG") then L_DEBUG
  else if bool_decide (str_leve = lit "NOTICE") then L_NOTICE
  else L_ERROR_EXIT.

(** [ServerConfig::populate]: every field is assigned *)
Definition populate_server (t : tree) : ServerConfig :=
  Server (str t "local_addr") (str t "local_port") (read_passwords t) (read_level t)
    (str t "log_dir") (str t "ssl.cert") (str t "ssl.key") (flag t "websocketEnabled")
    (flag t "dtls_enabled") (str t "dtls_port") (int t "dns_cache_ttl" 600)
    (int t "dns_cleanup_interval" 600) (u64 (int t "thread_count" 0)).

(** [load_config], after [read_json] has returned a tree or thrown *)
Definition load_config (json : option tree) (type : ConfigType) (m : manager) : outcome manager :=
  match json with
  | None => Throw runtime_error
  | Some t =>
      let m := match type with
               | ServerType => let c := populate_server t in
                               m <| server_cfg := c |> <| current_level := log_level c |>
               | ClientType => m <| client_cfg := populate_client t |>
               end in
      mret (m <| loaded := true |>)
  end.

(** ** Lemmas *)
Lemma read_passwords_spec t h :
  h ∈ read_passwords t ↔
  ∃ items item, get_child t (lit "allowed_passwords") = Some items ∧ item ∈ items ∧
    h = SHA224 (get_value item).
Proof.
  unfold read_passwords. destruct (get_child _ _) as [items|]; [|set_solver].
  assert (∀ acc : gset bytes, h ∈ foldl (λ acc item, {[ SHA224 (get_value item) ]} ∪ acc) acc items ↔
    h ∈ acc ∨ ∃ item, item ∈ items ∧ h = SHA224 (get_value item)) as Hfold.
  { induction items as [|x items IH]; intros acc; cbn; [set_solver|]. rewrite IH. set_solver. }
  rewrite Hfold. set_solver.
Qed.

Lemma hex02_inj b1 b2 : Trojan.hex02 b1 = Trojan.hex02 b2 → b1 = b2.
Proof.
  set (nibble := λ x, if b2z x <? 58 then b2z x - 48 else b2z x - 87).
  assert (∀ b, z2b (nibble (nth 0 (Trojan.hex02 b) Byte.x00) * 16 +
                    nibble (nth 1 (Trojan.hex02 b) Byte.x00)) = b) as Hdec
    by (intros b; by destruct b).
  intros E. by rewrite <-(Hdec b1), <-(Hdec b2), E.
Qed.

(** the hexadecimal text determines the digest *)
Lemma hex_inj d1 d2 : mjoin (Trojan.hex02 <$> d1) = mjoin (Trojan.hex02 <$> d2) → d1 = d2.
Proof.
  revert d2. induction d1 as [|b1 d1 IH]; intros [|b2 d2]; cbn [fmap list_fmap mjoin list_join];
    [done|done|done|].
  intros E. apply list.app_inj_1 in E as [E1 E2]; [|done].
  by rewrite (hex02_inj _ _ E1), (IH _ E2).
Qed.

(** a digest is allowed if the file lists a password with it *)
Lemma digest_allowed t x :
  SHA224 x ∈ read_passwords t ↔
  ∃ items item, get_child t (lit "allowed_passwords") = Some items ∧ item ∈ items ∧
    sha224 (get_value item) = sha224 x.
Proof.
  rewrite read_passwords_spec. unfold SHA224. split; intros (items & item & Hi & Hin & E);
    exists items, item; (split_and!; [done..|]); [by apply eq_sym, hex_inj in E|by rewrite E].
Qed.

(** C34: a password is accepted exactly where it is configured.  With a client
    and a server configured by [populate], the hash the client puts into its
    request, and the hash the server's DTLS side computes from the password line
    the client's channel sends, are in the set of allowed passwords if and only
    if the server's ["allowed_passwords"] lists a password with the same SHA-224
    digest. *)
Theorem password_accepted_iff (tc ts : tree) :
  let c := populate_client tc in
  let accepted := ∃ items item, get_child ts (lit "allowed_passwords") = Some items ∧
    item ∈ items ∧ sha224 (get_value item) = sha224 (text_password c) in
  (password c ∈ allowed_passwords (populate_server ts) ↔ accepted) ∧
  (DtlsServerSession.hashed sha224 (text_password c) ∈ allowed_passwords (populate_server ts) ↔
   accepted).
Proof.
  cbn zeta. change (DtlsServerSession.hashed sha224 ?x) with (SHA224 x).
  cbn [populate_client populate_server password text_password allowed_passwords].
  split; apply digest_allowed.
Qed.

(** a reload replaces the set: a password that is no longer listed is refused,
    whatever the configuration held before *)
Lemma reload_replaces ts m m' :
  load_config (Some ts) ServerType m = Ret m' →
  allowed_passwords (server_cfg m') = read_passwords ts ∧ client_cfg m' = client_cfg m ∧
  loaded m' = true ∧ current_level m' = log_level (server_cfg m').
Proof. cbn. by intros [= <-]. Qed.
End Populate.
End ConfigManage.
