(* ===== verification/Logger.v ===== *)
(** Logger: log statements and where they go (src/Shared/Log.h, Log.cpp), and the
    set-up of the server's log (src/Server/main.cpp).

    A statement of one of the macros builds a line, hands it to the output
    function and, for an error, calls the flush function.  Which functions those
    are is data here: the ones the programs install.  The formatted time and the
    thread's number are inputs of a statement; ToUTF8 is the identity except on
    Windows. *)
From S2P Require Import Prelude LogFile.
From S2P Require Import ConfigManage.

Module Logger.
Import ConfigManage(Loglevel, L_DEBUG, L_NOTICE, L_ERROR_EXIT).

Inductive Destination := D_STDOUT | D_FILE.
#[global] Instance Destination_eq_dec : EqDecision Destination.
Proof. solve_decision. Defined.

(** the values of the enumerators *)
Definition level_code (l : Loglevel) : Z :=
  match l with L_DEBUG => 0 | L_NOTICE => 1 | L_ERROR_EXIT => 2 end.
Definition level_str (l : Loglevel) : bytes :=
  match l with
  | L_DEBUG => lit "[DEBUG] " | L_NOTICE => lit "[NOTICE] " | L_ERROR_EXIT => lit "[ERROR] "
  end.
Definition ansi (code : string) : bytes := Byte.x1b :: lit code.

(** the output functions: the default, and those of Client/CliMain.cpp and
    Server/main.cpp; the flush functions likewise *)
Inductive output := to_cout | to_cout_endl | to_logfile.
Inductive flusher := flush_cout | flush_logfile.

(** the statics of Log.cpp, the standard output, and the [LogFile] the installed
    functions refer to: [None] when it has been destroyed *)
Record world := World {
  log_level : Loglevel; log_dest : Destination; output_ : output; flush_ : flusher;
  cout : bytes; logfile : option LogFile.t
}.
#[global] Instance eta_world : Eta world := fun r =>
  World (log_level r) (log_dest r) (output_ r) (flush_ r) (cout r) (logfile r).

(** a statement at run time: its macro, place and text, and the moment *)
Record statement := Statement {
  severity : Loglevel; src_file : bytes; src_line : Z; message : bytes;
  format_time : bytes; thread : bytes; now : Z
}.

(** [logger::Impl::Impl(file, func, line, level)], the text and the destructor *)
Definition entry (dest : Destination) (s : statement) : bytes :=
  (if decide (dest = D_STDOUT)
   then format_time s ++ ansi "[32m" ++ level_str (severity s) ++ ansi "[0m" ++ src_file s
          ++ lit " line: " ++ to_string (src_line s) ++ lit " "
   else format_time s ++ level_str (severity s) ++ src_file s
          ++ lit " line: " ++ to_string (src_line s) ++ lit " ")
  ++ lit "thread[" ++ thread s ++ lit "] " ++ message s ++ [Byte.x0a].

(** [logger::Impl::Impl(level)], which no macro uses *)
Definition entry_without_place (dest : Destination) (s : statement) : bytes :=
  (if decide (dest = D_STDOUT)
   then format_time s ++ ansi "[31m" ++ level_str (severity s) ++ ansi "[0m" ++ lit " "
   else format_time s ++ level_str (severity s) ++ lit " ")
  ++ lit "[" ++ thread s ++ lit "] " ++ message s ++ [Byte.x0a].

(** the setters of [logger] *)
Definition setOutput (f : output) (w : world) : world := w <| output_ := f |>.
Definition setFlush (f : flusher) (w : world) : world := w <| flush_ := f |>.
Definition set_log_level (level : Loglevel) (w : world) : world := w <| log_level := level |>.
Definition set_log_destination (dest : Destination) (w : world) : world := w <| log_dest := dest |>.

(** the tests of the macros DEBUG_LOG, NOTICE_LOG and ERROR_LOG *)
Definition enabled (level : Loglevel) (s : statement) : bool :=
  match severity s with
  | L_ERROR_EXIT => true
  | l => level_code level <=? level_code l
  end.

Section Log.
Context (localtime : Z → Z * Z * Z) (mktime : Z → Z → Z → Z).

Definition call_output (now : Z) (buf : bytes) (w : world) : outcome world :=
  match output_ w with
  | to_cout => mret (w <| cout := cout w ++ buf |>)
  | to_cout_endl => mret (w <| cout := cout w ++ buf ++ [Byte.x0a] |>)
  | to_logfile =>
      match logfile w with
      | None => Undef
      | Some l => l ← LogFile.append localtime now buf l; mret (w <| logfile := Some l |>)
      end
  end.
Definition call_flush (w : world) : outcome world :=
  match flush_ w with
  | flush_cout => mret w
  | flush_logfile =>
      match logfile w with
      | None => Undef
      | Some l => mret (w <| logfile := Some (LogFile.flush l) |>)
      end
  end.

(** a log statement *)
Definition log (s : statement) (w : world) : outcome world :=
  if enabled (log_level w) s then
    w ← call_output (now s) (entry (log_dest w) s) w;
    match severity s with L_ERROR_EXIT => call_flush w | _ => mret w end
  else mret w.
Fixpoint log_all (ss : list statement) (w : world) : outcome world :=
  match ss with [] => mret w | s :: ss => w ← log s w; log_all ss w end.

(** [main] of the server: the try block from [set_log_level] on; [body] is what
    the server logs while it runs *)
Definition server_try (level : Loglevel) (log_dir : bytes) (started : statement)
    (body : list statement) (start : Z) (disk : gmap bytes bytes) (w : world) : outcome world :=
  let w := set_log_level level w in
  w ← (if decide (log_dir = []) then mret w
       else l ← LogFile.make localtime mktime (lit "server") (10 * 1024 * 1024) 3 1024 30 start disk;
            mret (setFlush flush_logfile (setOutput to_logfile
                    (set_log_destination D_FILE (w <| logfile := Some l |>)))));
  w ← log started w;
  log_all body w.
(** the end of the try block destroys [logfile_], also on an exception; [failed]
    is the message of the catch block, [stopped] that of the end *)
Definition server_main (level : Loglevel) (log_dir : bytes) (started : statement)
    (body : list statement) (failed : option statement) (stopped : statement) (start : Z)
    (disk : gmap bytes bytes) (w : world) : outcome world :=
  w ← server_try level log_dir started body start disk w;
  let w := w <| logfile := None |> in
  w ← match failed with Some s => log s w | None => mret w end;
  log stopped w.








(** a log statement does not change where the log goes *)
Lemma log_keeps s w w' :
  log s w = Ret w' → output_ w' = output_ w ∧ log_level w' = log_level w ∧ log_dest w' = log_dest w.
Proof.
  unfold log. destruct (enabled _ _); [|by intros [= <-]]. intros H. inv_bind H.
  assert (output_ x = output_ w ∧ log_level x = log_level w ∧ log_dest x = log_dest w) as Hx.
  { unfold call_output in E. destruct (output_ w) eqn:Ho; try (by injection E as <-).
    destruct (logfile w); [|done]. inv_bind E. by injection E as <-. }
  destruct (severity s); try (by injection H as <-).
  unfold call_flush in H. destruct (flush_ x); [by injection H as <-|].
  destruct (logfile x); [|done]. by injection H as <-.
Qed.
Lemma log_all_keeps ss w w' :
  log_all ss w = Ret w' → output_ w' = output_ w ∧ log_level w' = log_level w.
Proof.
  revert w. induction ss as [|s ss IH]; intros w H; cbn in H; [by injection H as <-|].
  inv_bind H. destruct (log_keeps _ _ _ E) as (H1 & H2 & _), (IH _ H) as [H3 H4].
  split; congruence.
Qed.

Lemma log_dangling s w :
  output_ w = to_logfile → logfile w = None → enabled (log_level w) s = true → log s w = Undef.
Proof. intros Ho Hl He. unfold log. rewrite He. unfold call_output. by rewrite Ho, Hl. Qed.

(** The last message of a server with a log file is written through a
    destroyed object.  [logfile_] is a variable of the try block, the output
    functions refer to it, and the messages of the catch block and behind it come
    when it is gone: whatever the server did before, its end is undefined
    behaviour. *)
Lemma shutdown_log_dangles level log_dir started body failed stopped start disk w w1 :
  log_dir ≠ [] → enabled level stopped = true ∨ (∃ s, failed = Some s ∧ severity s = L_ERROR_EXIT) →
  server_try level log_dir started body start disk w = Ret w1 →
  server_main level log_dir started body failed stopped start disk w = Undef.
Proof.
  intros Hdir Hmsg Htry. unfold server_main. rewrite Htry. cbn [mbind outcome_bind].
  unfold server_try in Htry. rewrite decide_False in Htry by done.
  inv_bind Htry. inv_bind E. injection E as <-. inv_bind Htry.
  destruct (log_keeps _ _ _ E) as (H1 & H2 & _), (log_all_keeps _ _ _ Htry) as [H3 H4].
  set (w2 := w1 <| logfile := None |>).
  assert (output_ w2 = to_logfile ∧ log_level w2 = level) as [Ho Hlv]
    by (split; [exact (eq_trans H3 H1)|exact (eq_trans H4 H2)]).
  destruct failed as [s|].
  - destruct (enabled (log_level w2) s) eqn:Hen; [by rewrite log_dangling|].
    destruct Hmsg as [He|(s' & [= <-] & Hs)]; [|unfold enabled in Hen; by rewrite Hs in Hen].
    unfold log at 2. rewrite Hen. cbn [mbind outcome_bind mret outcome_ret].
    apply log_dangling; [done|done|by rewrite Hlv].
  - destruct Hmsg as [He|(s' & [=] & _)]. apply log_dangling; [done|done|by rewrite Hlv].
Qed.
End Log.

(** ** Concrete statements: a notice and an error on one day *)
Definition demo_notice (text : string) : statement :=
  Statement L_NOTICE (lit "main.cpp") 61 (lit text) (lit "[2024-05-01 12:00:00]") (lit "1")
    1714564800.


Lemma shutdown_log_dangles_witness :
  server_main LogFile.demo_date LogFile.demo_mktime L_NOTICE (lit "logs") (demo_notice "start")
    [] None (demo_notice "stopped") 1714564800 ∅
    (World L_NOTICE D_STDOUT to_cout flush_cout [] None) = Undef.
Proof.
  destruct (server_try LogFile.demo_date LogFile.demo_mktime L_NOTICE (lit "logs")
    (demo_notice "start") [] 1714564800 ∅
    (World L_NOTICE D_STDOUT to_cout flush_cout [] None)) as [w1| |] eqn:E;
    [|vm_compute in E; discriminate E..].
  refine (shutdown_log_dangles _ _ _ _ _ _ _ _ _ _ _ w1 _ _ E); [discriminate|left; reflexivity].
Defined.
End Logger.
