(* ===== verification/MainWindow.v ===== *)
(** MainWindow: the window of the client and the program around it
    (src/Client/mainwindow.cpp, mainWindow.h, mainwindow.ui and main.cpp).

    Texts are their UTF-8 bytes.  The look of the window and of its icon (style
    sheets, painting) is left out.  The window runs in a thread of its own: what
    it does to the server it posts, except [start_dtls]. *)
From S2P Require Import Prelude Net Decimal Float64 ProxyStats ClientUdp ClientSession ClientAccept ConfigManage.

Module MainWindow.
Import ConfigManage.

(** ** Text *)
(** [QString::arg] of an integer *)
Definition number (z : Z) : bytes :=
  if z <? 0 then lit "-" ++ to_string (- z) else to_string z.

(** [formatDuration] *)
Definition formatDuration (seconds : Z) : bytes :=
  if seconds <? 60 then number seconds ++ lit "s"
  else if seconds <? 3600 then
    number (Z.quot seconds 60) ++ lit "m " ++ number (Z.rem seconds 60) ++ lit "s"
  else if seconds <? 86400 then
    number (Z.quot seconds 3600) ++ lit "h " ++ number (Z.quot (Z.rem seconds 3600) 60) ++ lit "m"
  else
    number (Z.quot seconds 86400) ++ lit "d " ++
    number (Z.quot (Z.rem seconds 86400) 3600) ++ lit "h".

(** ** The widgets *)
(** what the user types and ticks *)
Record form := Form {
  HOST_NAME : bytes; HOST_PORT : bytes; HOST_PASSWD : bytes; LOCAL_PORT : bytes;
  DTLS_PORT : bytes; UDP_CHECKBOX : bool; WS_CHECKBOX : bool
}.
#[global] Instance eta_form : Eta form := fun r =>
  Form (HOST_NAME r) (HOST_PORT r) (HOST_PASSWD r) (LOCAL_PORT r) (DTLS_PORT r)
    (UDP_CHECKBOX r) (WS_CHECKBOX r).

Record window := Window {
  fields : form;
  dtls_port_enabled : bool;            (* DTLS_PORT, label_dtls_port *)
  CONNECT_BUTTON : bool; DISCONNECT_BUTTON : bool; PING_BUTTON : bool;   (* enabled *)
  CONNECTION_STATUS : bytes; UDP_STATUS : bytes; DURATION_LABEL : bytes;
  SPEED_LABEL : bytes; TOTAL_LABEL : bytes; SESSIONS_LABEL : bytes; LATENCY_LABEL : bytes;
  LOG_VIEW : list bytes; log_visible : bool;
  PWD_TOGGLE : bool; password_shown : bool;
  window_shown : bool; trayIcon : bool;    (* visible *)
  connectTime_ : Z                     (* of the steady clock, in seconds *)
}.
#[global] Instance eta_window : Eta window := fun r =>
  Window (fields r) (dtls_port_enabled r) (CONNECT_BUTTON r) (DISCONNECT_BUTTON r)
    (PING_BUTTON r) (CONNECTION_STATUS r) (UDP_STATUS r) (DURATION_LABEL r)
    (SPEED_LABEL r) (TOTAL_LABEL r) (SESSIONS_LABEL r)
    (LATENCY_LABEL r) (LOG_VIEW r) (log_visible r) (PWD_TOGGLE r) (password_shown r)
    (window_shown r) (trayIcon r) (connectTime_ r).

(** [setupUi] *)
Definition setupUi : window :=
  Window (Form [] [] [] [] [] false false) true true true true
    (lit "DISCONNECTED") (lit "--") (lit "--") (lit "--") (lit "--") (lit "0") (lit "N/A") [] false false false
    false false 0.

(** the form for a configuration *)
Definition show_config (c : ClientConfig) : form :=
  Form (remote_addr c) (remote_port c) (text_password c)
    (if bool_decide (local_port c = []) then lit "1080" else local_port c)
    (if bool_decide (dtls_port c = []) then lit "8443" else dtls_port c)
    (udp_enabled c) (useWebSocket c).

(** [MainWindow::MainWindow] *)
Definition make (m : manager) : window :=
  let w := setupUi <| DISCONNECT_BUTTON := false |> <| trayIcon := true |> in
  if loaded m
  then w <| fields := show_config (client_cfg m) |>
         <| dtls_port_enabled := udp_enabled (client_cfg m) |>
  else w.

(** the user edits; a change of [UDP_CHECKBOX] enables or disables [DTLS_PORT] *)
Definition edit (f : form) (w : window) : window :=
  let w' := w <| fields := f |> in
  if eqb (UDP_CHECKBOX f) (UDP_CHECKBOX (fields w)) then w'
  else w' <| dtls_port_enabled := UDP_CHECKBOX f |>.

(** [appendLog], of the trimmed line *)
Definition appendLog (line : bytes) (w : window) : window := w <| LOG_VIEW := LOG_VIEW w ++ [line] |>.
Definition onToggleLog (w : window) : window := w <| log_visible := negb (log_visible w) |>.
Definition onCheckBoxClick (w : window) : window :=
  let on := negb (PWD_TOGGLE w) in w <| PWD_TOGGLE := on |> <| password_shown := on |>.

(** the tray icon: [onShowWindow], [onTrayActivated] and [onQuit] *)
Inductive ActivationReason := DoubleClick | OtherReason.
Definition onShowWindow (w : window) : window := w <| window_shown := true |>.
Definition onTrayActivated (reason : ActivationReason) (w : window) : window :=
  match reason with DoubleClick => onShowWindow w | _ => w end.
Definition onQuit (w : window) : window := w <| trayIcon := false |>.

Definition updateDuration (now : Z) (w : window) : window :=
  w <| DURATION_LABEL := formatDuration (now - connectTime_ w) |>.

(** [QString::arg] of a number in format 'f' with that many decimals *)
Class FixedText := fixed_text : Float64.double → nat → bytes.
Section Rates.
Context {fixed : FixedText}.

(** the quotient of an integer and a constant of the code *)
Definition over (n : Z) (c : Float64.double) : Float64.double := Float64.div (Float64.of_Z n) c.
Definition formatSpeed (bytes_per_second : Z) : bytes :=
  let bits := u64 (bytes_per_second * 8) in
  if bits <? 1000 then number bits ++ lit " bps"
  else if bits <? 1000000 then fixed_text (over bits (Float64.of_Z 1000)) 1 ++ lit " Kbps"
  else fixed_text (over bits (Float64.of_Z 1000000)) 2 ++ lit " Mbps".
Definition K : Float64.double := Float64.of_Z 1024.
Definition formatTotal (n : Z) : bytes :=
  if n <? 1024 then number n ++ lit " B"
  else if n <? 1024 * 1024 then fixed_text (over n K) 1 ++ lit " KB"
  else if n <? 1024 * 1024 * 1024 then fixed_text (over n (Float64.mul K K)) 1 ++ lit " MB"
  else fixed_text (over n (Float64.mul (Float64.mul K K) K)) 2 ++ lit " GB".

Definition ARROW_UP : bytes := [Byte.xe2; Byte.x86; Byte.x91].
Definition ARROW_DOWN : bytes := [Byte.xe2; Byte.x86; Byte.x93].
Definition arrows (up down : bytes) : bytes :=
  ARROW_UP ++ lit " " ++ up ++ lit "  " ++ ARROW_DOWN ++ lit " " ++ down.

Definition updateStats (now : Z) (st : ProxyStats.t) (w : window) : outcome (window * ProxyStats.t) :=
  '((up, down), st) ← ProxyStats.getAndResetDelta st;
  let '(total_up, total_down) := ProxyStats.getTotal st in
  mret (updateDuration now
          (w <| SPEED_LABEL := arrows (formatSpeed up) (formatSpeed down) |>
             <| TOTAL_LABEL := arrows (formatTotal total_up) (formatTotal total_down) |>
             <| SESSIONS_LABEL := number (ProxyStats.sessionCount st) |>), st).
End Rates.

(** *** Ping *)
Inductive ping_result := PingFailed | PingTimeout | Pinged (ms : Z).
(** [onPing]: the address to connect to, if any *)
Definition onPing (w : window) : window * option (bytes * bytes) :=
  let addr := HOST_NAME (fields w) in
  let port := HOST_PORT (fields w) in
  if bool_decide (addr = []) || bool_decide (port = []) then
    (w <| LATENCY_LABEL := lit "N/A" |>, None)
  else (w <| PING_BUTTON := false |> <| LATENCY_LABEL := lit "Testing..." |>, Some (addr, port)).
(** what its handlers queue for the window *)
Definition on_ping_result (r : ping_result) (w : window) : window :=
  w <| LATENCY_LABEL := match r with
                        | PingFailed => lit "Failed"
                        | PingTimeout => lit "Timeout"
                        | Pinged ms => number ms ++ lit " ms"
                        end |>
    <| PING_BUTTON := true |>.

(** ** The configuration and the form *)
(** a node of the tree [autoSave] writes *)
Inductive value := VStr (v : bytes) | VBool (b : bool).

Section Settings.
Context (sha224 : bytes → bytes).

(** the form is copied into the configuration, the same way in [onConnect] and
    [autoSave] *)
Definition read_form (f : form) (c : ClientConfig) : ClientConfig :=
  let c := c <| remote_addr := HOST_NAME f |> <| remote_port := HOST_PORT f |> in
  let c := setPassword sha224 (HOST_PASSWD f) c in
  c <| local_port := LOCAL_PORT f |> <| dtls_port := DTLS_PORT f |>
    <| udp_enabled := UDP_CHECKBOX f |> <| useWebSocket := WS_CHECKBOX f |>.

(** the [put]s of [autoSave] *)
Definition entries (c : ClientConfig) : list (bytes * value) :=
  [(lit "run_type", VStr (lit "client"));
   (lit "local_addr", VStr (local_addr c)); (lit "local_port", VStr (local_port c));
   (lit "remote_addr", VStr (remote_addr c)); (lit "remote_port", VStr (remote_port c));
   (lit "user_name", VStr (user_name c)); (lit "password", VStr (text_password c));
   (lit "udp_enabled", VBool (udp_enabled c)); (lit "dtls_port", VStr (dtls_port c));
   (lit "useWebSocket", VBool (useWebSocket c))].

(** [autoSave]: the new configuration, and what is written to [client.json] *)
Definition autoSave (w : window) (m : manager) : manager * list (bytes * value) :=
  let c := read_form (fields w) (client_cfg m) in
  (m <| client_cfg := c |>, entries c).

(** [closeEvent]: the window is hidden, the program goes on in the tray *)
Definition closeEvent (w : window) (m : manager) : window * manager * list (bytes * value) :=
  let '(m, saved) := autoSave w m in (w <| window_shown := false |>, m, saved).

(** the configuration the program starts with; [file] is [client.json] *)
Definition LOCAL_PROXY_ADDR : bytes := lit "127.0.0.1".
Definition LOCAL_PROXY_PORT : bytes := lit "1080".
Definition start_config {tree} `{Ptree tree} (file : option (option tree)) (m : manager)
    : outcome manager :=
  match file with
  | Some json => load_config sha224 json ClientType m
  | None => mret (m <| client_cfg := client_cfg m <| local_addr := LOCAL_PROXY_ADDR |>
                         <| local_port := LOCAL_PROXY_PORT |> <| user_name := lit "test_usr" |> |>)
  end.

(** [onConnect]; [su] is what the constructor of the DTLS channel gets from the
    system *)
Definition onConnect `{Net.AddressParser} (su : DtlsChannel.setup) (now : Z) (w : window) (m : manager) (s : ClientAccept.t)
    : outcome (window * manager * ClientAccept.t) :=
  let c := read_form (fields w) (client_cfg m) in
  let w := w <| CONNECT_BUTTON := false |> <| DISCONNECT_BUTTON := true |>
             <| CONNECTION_STATUS := lit "CONNECTED" |>
             <| UDP_STATUS := if udp_enabled c then lit "Active" else lit "Disabled" |> in
  s ← ClientAccept.start_dtls su (udp_enabled c) (remote_addr c) (dtls_port c) (remote_port c)
        (text_password c) s;
  mret (w <| connectTime_ := now |>, m <| client_cfg := c |>, ClientAccept.start_accept s).

(** [onDisconnect] *)
Definition onDisconnect (w : window) (s : ClientAccept.t) : window * ClientAccept.t :=
  (w <| CONNECT_BUTTON := true |> <| DISCONNECT_BUTTON := false |>
     <| CONNECTION_STATUS := lit "DISCONNECTED" |> <| UDP_STATUS := lit "--" |>
     <| DURATION_LABEL := lit "--" |>,
   ClientAccept.stop_accept (ClientAccept.stop_dtls s)).
End Settings.

(** ** The program *)
Record app := App {
  win : window;
  config : manager;
  server : ClientAccept.t;
  pings : nat                          (* pings under way *)
}.
#[global] Instance eta_app : Eta app := fun r => App (win r) (config r) (server r) (pings r).

Section Program.
Context {fixed : FixedText} {parser : Net.AddressParser} (sha224 : bytes → bytes).
(** the resolver, asked for the local address *)
Context (resolve : bytes → bytes → Net.endpoint).

(** the server and the window are made from the configuration of the start *)
Definition start (m : manager) : app :=
  App (onShowWindow (make m)) m
    (ClientAccept.make (useWebSocket (client_cfg m))
       (resolve (local_addr (client_cfg m)) (local_port (client_cfg m)))) 0.

(** One step, if the thread of the server runs handlers only in states that
    satisfy [may_run]: [step] lets it run in every state, [calm_step] leaves out the
    restarts of the acceptor that are not calm *)
Inductive step_when (may_run : ClientAccept.t → Prop) : app → app → Prop :=
  | step_edit a f : step_when may_run a (a <| win := edit f (win a) |>)
  | step_connect a su now w m s :
      CONNECT_BUTTON (win a) = true → onConnect sha224 su now (win a) (config a) (server a) = Ret (w, m, s) →
      step_when may_run a (a <| win := w |> <| config := m |> <| server := s |>)
  | step_disconnect a :
      DISCONNECT_BUTTON (win a) = true →
      step_when may_run a (a <| win := (onDisconnect (win a) (server a)).1 |>
                <| server := (onDisconnect (win a) (server a)).2 |>)
  | step_close a w m saved :
      closeEvent sha224 (win a) (config a) = (w, m, saved) →
      step_when may_run a (a <| win := w |> <| config := m |>)
  | step_show a : step_when may_run a (a <| win := onShowWindow (win a) |>)
  | step_tray a reason : step_when may_run a (a <| win := onTrayActivated reason (win a) |>)
  | step_quit a : step_when may_run a (a <| win := onQuit (win a) |>)
  | step_tick a now w st :
      updateStats now (ClientAccept.stats (server a)) (win a) = Ret (w, st) →
      step_when may_run a (a <| win := w |> <| server := server a <| ClientAccept.stats := st |> |>)
  | step_log a line : step_when may_run a (a <| win := appendLog line (win a) |>)
  | step_toggle_log a : step_when may_run a (a <| win := onToggleLog (win a) |>)
  | step_toggle_password a : step_when may_run a (a <| win := onCheckBoxClick (win a) |>)
  | step_ping a :
      PING_BUTTON (win a) = true →
      step_when may_run a (a <| win := (onPing (win a)).1 |>
                <| pings := match (onPing (win a)).2 with Some _ => S (pings a) | None => pings a end |>)
  | step_ping_result a n r :
      pings a = S n → step_when may_run a (a <| win := on_ping_result r (win a) |> <| pings := n |>)
  (* the thread of the server *)
  | step_run a ans s :
      may_run (server a) → ClientAccept.run_one ans (server a) = Ret s →
      step_when may_run a (a <| server := s |>)
  | step_complete a c r :
      c ∈ ClientAccept.accepting (server a) → r ≠ ClientAccept.Aborted →
      step_when may_run a (a <| server := ClientAccept.complete c r (server a) |>)
  | step_receive a failed :
      step_when may_run a (a <| server := ClientAccept.complete_receive failed (server a) |>)
  | step_wait a : step_when may_run a (a <| server := ClientAccept.complete_wait (server a) |>)
  | step_session_ends a o :
      o ∈ ClientAccept.started (server a) → o ∉ ClientAccept.destroyed (server a) →
      step_when may_run a (a <| server := ClientAccept.session_ends o (server a) |>).

Definition step : app → app → Prop := step_when (λ _, True).
Definition calm_step : app → app → Prop := step_when ClientAccept.calm.
Definition reachable (m : manager) (a : app) : Prop := rtc step (start m) a.
Definition calm_reachable (m : manager) (a : app) : Prop := rtc calm_step (start m) a.

(** ** Invariant of the program *)
Record app_ok (m : manager) (a : app) : Prop := AppOk {
  ok_server : ClientAccept.inv (DISCONNECT_BUTTON (win a)) (server a);
  ok_buttons : CONNECT_BUTTON (win a) = negb (DISCONNECT_BUTTON (win a));
  ok_settings : ClientAccept.settings (server a) =
    (useWebSocket (client_cfg m), resolve (local_addr (client_cfg m)) (local_port (client_cfg m)));
  ok_ping : pings a = if PING_BUTTON (win a) then 0%nat else 1%nat
}.

Lemma ok_start m : app_ok m (start m).
Proof.
  split; cbn; try (unfold make; by destruct (loaded m)).
  assert (DISCONNECT_BUTTON (make m) = false) as -> by (unfold make; by destruct (loaded m)).
  apply ClientAccept.inv_make.
Qed.

(** what leaves the buttons alone *)
Lemma ok_window m a a' :
  app_ok m a → server a' = server a →
  (DISCONNECT_BUTTON (win a'), CONNECT_BUTTON (win a')) =
    (DISCONNECT_BUTTON (win a), CONNECT_BUTTON (win a)) →
  pings a' = (if PING_BUTTON (win a') then 0%nat else 1%nat) → app_ok m a'.
Proof. intros [H1 H2 H3 H4] E1 [= E2 E3] E4. split; rewrite ?E1, ?E2, ?E3; done. Qed.
Ltac window_only Ha := eapply ok_window; [exact Ha|try apply Ha..].
Lemma ok_server_step m a a' :
  app_ok m a → win a' = win a → pings a' = pings a →
  (∀ b, ClientAccept.inv b (server a) → ClientAccept.inv b (server a')) →
  ClientAccept.settings (server a') = ClientAccept.settings (server a) → app_ok m a'.
Proof. intros [H1 H2 H3 H4] E1 E2 E3 E4. split; rewrite ?E1, ?E2, ?E4; auto. Qed.

Lemma ok_tick m a now w st :
  app_ok m a → updateStats now (ClientAccept.stats (server a)) (win a) = Ret (w, st) →
  app_ok m (a <| win := w |> <| server := server a <| ClientAccept.stats := st |> |>).
Proof.
  intros [Hi Hb Hs Hp] Hu. apply bind_Ret_inv in Hu as ([[up down] st'] & Hg & [= <- <-]).
  split; try done. by eapply ClientAccept.inv_take.
Qed.
Lemma ok_connect m a su now w m' s :
  app_ok m a → CONNECT_BUTTON (win a) = true →
  onConnect sha224 su now (win a) (config a) (server a) = Ret (w, m', s) →
  app_ok m (a <| win := w |> <| config := m' |> <| server := s |>).
Proof.
  intros [Hi Hb Hs Hp] Hc (s1 & H1 & [= <- <- <-])%bind_Ret_inv. split; cbn; try done.
  - apply ClientAccept.inv_start_accept. eapply ClientAccept.inv_start_dtls; [exact H1|].
    rewrite Hb in Hc. apply negb_true_iff in Hc. by rewrite <-Hc.
  - rewrite <-Hs. exact (ClientAccept.settings_start_dtls _ _ _ _ _ _ _ _ H1).
Qed.

(** every step keeps what always holds *)
Lemma app_ok_step P m a a' : app_ok m a → step_when P a a' → app_ok m a'.
Proof.
  intros Ha Hstep. destruct Hstep.
  - apply (ok_window m a); try done; unfold edit; destruct (eqb _ _); try done; apply Ha.
  - by eapply ok_connect.
  - destruct Ha as [Hi Hb Hs Hp]. split; try done.
    cbn. apply ClientAccept.inv_stop_accept, ClientAccept.inv_stop_dtls. by rewrite H in Hi.
  - injection H as <- <- _. by window_only Ha.
  - by window_only Ha.
  - destruct reason; by window_only Ha.
  - by window_only Ha.
  - by eapply ok_tick.
  - by window_only Ha.
  - by window_only Ha.
  - by window_only Ha.
  - apply (ok_window m a); try done; unfold onPing; destruct (_ || _); try done; cbn.
    + apply Ha.
    + rewrite (ok_ping m a Ha). by rewrite H.
  - apply (ok_window m a); try done. cbn. pose proof (ok_ping m a Ha) as Hp. rewrite H in Hp.
    destruct (PING_BUTTON (win a)); [done|]. by injection Hp as ->.
  - apply (ok_server_step m a); try done; cbn.
    + intros b Hi. by eapply ClientAccept.inv_run_one.
    + by eapply ClientAccept.settings_run_one.
  - apply (ok_server_step m a); try done. intros b Hi. by apply ClientAccept.inv_complete.
  - apply (ok_server_step m a); try done; [|apply ClientAccept.settings_complete_receive].
    intros b Hi. by apply ClientAccept.inv_complete_receive.
  - apply (ok_server_step m a); try done; [|apply ClientAccept.settings_complete_wait].
    intros b Hi. by apply ClientAccept.inv_complete_wait.
  - apply (ok_server_step m a); try done. intros b Hi. by apply ClientAccept.inv_session_ends.
Qed.
Lemma app_ok_reachable m a : reachable m a → app_ok m a.
Proof.
  unfold reachable. generalize (ok_start m). generalize (start m).
  intros a0 H0 Hr. induction Hr as [|a0 a1 a2 Hs _ IH]; [done|]. apply IH. by eapply app_ok_step.
Qed.

(** and the steps of a calm run keep the one accept on its way *)
Lemma client_loop_step m a a' :
  app_ok m a → ClientAccept.loop (server a) → calm_step a a' → ClientAccept.loop (server a').
Proof.
  intros Ha Hl Hstep. pose proof (ok_server m a Ha) as Hi. destruct Hstep; try done; cbn.
  - apply bind_Ret_inv in H0 as (s1 & H1 & [= <- <- <-]). apply ClientAccept.loop_post; [done|].
    by eapply ClientAccept.inv_start_dtls.
  - by apply ClientAccept.loop_post, ClientAccept.loop_post.
  - by eapply ClientAccept.inv_run_one.
  - by eapply ClientAccept.inv_complete.
  - by eapply ClientAccept.inv_complete_receive.
  - by eapply ClientAccept.inv_complete_wait.
Qed.
Lemma calm_ok m a : calm_reachable m a → app_ok m a ∧ ClientAccept.loop (server a).
Proof.
  unfold calm_reachable. intros Hr.
  assert (app_ok m (start m) ∧ ClientAccept.loop (server (start m))) as H0
    by (split; [apply ok_start|apply ClientAccept.client_loop_make]).
  revert H0. generalize dependent (start m). intros a0 Hr.
  induction Hr as [|a0 a1 a2 Hs _ IH]; [done|]. intros [Ha Hl]. apply IH.
  split; [by eapply app_ok_step|by eapply client_loop_step].
Qed.

Lemma rtc_run_n ans n a s :
  ClientAccept.run_n ans n (server a) = Ret s → rtc step a (a <| server := s |>).
Proof.
  revert a. induction n as [|n IH]; intros a Hr.
  - injection Hr as <-. by destruct a.
  - apply bind_Ret_inv in Hr as (s1 & H1 & Hr).
    eapply rtc_l; [by apply (step_run _ a ans s1)|]. exact (IH (a <| server := s1 |>) Hr).
Qed.

(** ** What holds of the program *)
(** C15: the window and its server start a connection at most once, and every
    connection as long as no restart of the acceptor overtakes a completed accept.
    However the user clicks and edits, however connections and datagrams arrive,
    fail and end, and in whatever order the handlers run: no session is started
    twice; the number of sessions shown is that of the sessions alive; and, if no system call
    throws, the handler of a completed accept starts the object it was made for
    if the acceptor is open and nothing otherwise, unless that object has been
    replaced, in which case, for an accepted connection, it is undefined.
    The object is replaced when the user has disconnected and connected again while
    the completed accept was waiting ([ClientAccept.reconnect_dangles],
    [ClientAccept.reconnect_accepts_twice]).  In a run without such a restart
    ([calm_reachable]) that cannot happen: then every handler but those of the DTLS channel returns,
    a restart that is calm included, and once nothing is left to run, the server
    listens with one accept in flight exactly while the window says connected. *)
Theorem client_starts_each_connection_once m a ans :
  reachable m a → ClientAccept.ok ans = true →
  let s := server a in
  NoDup (ClientAccept.started s) ∧
  ProxyStats.sessionCount (ClientAccept.stats s) =
    u64 (len (ClientAccept.started s) - len (ClientAccept.destroyed s)) ∧
  (∀ c r q, ClientAccept.ready s = ClientAccept.RunAccept c r :: q →
     match ClientAccept.run_one ans s with
     | Ret s' => if ClientAccept.is_open s && bool_decide (r = ClientAccept.Accepted)
                 then c ∉ ClientAccept.started s ∧ ClientAccept.started s' = ClientAccept.started s ++ [c]
                 else ClientAccept.started s' = ClientAccept.started s
     | Throw _ => False
     | Undef => r = ClientAccept.Accepted ∧ ClientAccept.session_ s ≠ Some c
     end) ∧
  (calm_reachable m a →
     (∀ c q, ClientAccept.ready s = ClientAccept.RunAccept c ClientAccept.Accepted :: q →
        ClientAccept.session_ s = Some c) ∧
     ((∀ c k q, ClientAccept.ready s ≠ ClientAccept.RunChannel c k :: q) →
        ∃ s', ClientAccept.run_one ans s = Ret s') ∧
     (ClientAccept.ready s = [] →
        ClientAccept.is_open s = DISCONNECT_BUTTON (win a) ∧
        length (ClientAccept.accepting s) = if DISCONNECT_BUTTON (win a) then 1%nat else 0%nat)).
Proof.
  intros Hr Hok s. pose proof (ok_server m a (app_ok_reachable m a Hr)) as Hi. fold s in Hi.
  split; [apply (ClientAccept.iv_base _ _ Hi)|]. split; [apply (ClientAccept.iv_base _ _ Hi)|]. split.
  - intros c r q Hq. pose proof (ClientAccept.inv_on_accept _ s ans c r q Hi Hq Hok) as H.
    unfold ClientAccept.run_one. rewrite Hq. cbn [ClientAccept.run_handler]. destruct (_ && negb _) eqn:E.
    + rewrite H. apply andb_true_iff in E as [E1%bool_decide_eq_true E2%negb_true_iff].
      split; [done|]. by apply bool_decide_eq_false in E2.
    + by destruct H as (s' & -> & _ & _ & H).
  - intros Hc. destruct (calm_ok m a Hc) as [_ Hl]. fold s in Hl.
    assert (∀ c q, ClientAccept.ready s = ClientAccept.RunAccept c ClientAccept.Accepted :: q →
      ClientAccept.session_ s = Some c) as Hcur by (intros c q; by apply ClientAccept.loop_current).
    split_and!; [exact Hcur| |].
    + intros Hno. destruct (ClientAccept.inv_run_ok _ s ans Hi Hok) as (s' & ? & _); [|by exists s'].
      unfold ClientAccept.gone.
      destruct (ClientAccept.ready s) as [|[| | |c []|c k] q] eqn:Hq; try tauto; [|naive_solver].
      intros Hne. by apply Hne, (Hcur c q).
    + intros Hq. destruct (ClientAccept.idle_open _ s Hi Hl Hq) as [Ho Ha]. split; [done|].
      destruct (DISCONNECT_BUTTON (win a)); [|by rewrite Ha]. by destruct Ha as (c & ep & -> & _).
Qed.

(** the server listens where the configuration of the start says, with the
    transport it says, whatever the form and the configuration say since *)
Lemma listener_fixed m a ep :
  reachable m a → ClientAccept.acceptor_ (server a) = Some ep →
  ep = resolve (local_addr (client_cfg m)) (local_port (client_cfg m)) ∧
  Forall (λ c, c.2 = if useWebSocket (client_cfg m) then ClientSession.Websocket else ClientSession.Tls)
    (ClientAccept.started (server a)).
Proof.
  intros Hr Hep. destruct (app_ok_reachable m a Hr) as [Hi _ [= E1 E2] _].
  destruct (ClientAccept.iv_base _ _ Hi) as [_ Hst _ Hl _ _]. rewrite <-E2. split; [by apply Hl|].
  rewrite <-E1. eapply Forall_impl; [|exact Hst]. intros c [_ Hc]. exact Hc.
Qed.

(** connecting with UDP makes a channel at once, if the host is written as an
    address *)
Definition new_channel (ep : Net.endpoint) (password : bytes) (u : ClientServer.t) : ClientServer.t :=
  u <| ClientServer.dtls_ := Some (DtlsChannel.start (DtlsChannel.object true ep password)) |>
    <| ClientServer.channel := S (ClientServer.channel u) |>.
(** the port of the channel *)
Definition channel_port (f : form) : outcome Z :=
  Decimal.stoi (if bool_decide (DTLS_PORT f = []) then HOST_PORT f else DTLS_PORT f).
Definition all_ok : DtlsChannel.setup := DtlsChannel.Setup true true true.
Lemma onConnect_udp now w m s p addr :
  UDP_CHECKBOX (fields w) = true → channel_port (fields w) = Ret p →
  Net.make_address (HOST_NAME (fields w)) = Some addr →
  let u := new_channel (Net.Endpoint addr (u16 p)) (HOST_PASSWD (fields w)) (ClientAccept.udp s) in
  ∃ w' m', onConnect sha224 all_ok now w m s =
      Ret (w', m', ClientAccept.start_accept (ClientAccept.post
                     (ClientAccept.RunChannel (ClientServer.channel u) ClientAccept.Handshake)
                     (s <| ClientAccept.udp := u |>))) ∧
    CONNECTION_STATUS w' = lit "CONNECTED" ∧ UDP_STATUS w' = lit "Active".
Proof.
  intros Hudp Hp Ha u. unfold onConnect.
  change (udp_enabled (read_form sha224 (fields w) (client_cfg m))) with (UDP_CHECKBOX (fields w)).
  change (dtls_port (read_form sha224 (fields w) (client_cfg m))) with (DTLS_PORT (fields w)).
  change (remote_port (read_form sha224 (fields w) (client_cfg m))) with (HOST_PORT (fields w)).
  change (remote_addr (read_form sha224 (fields w) (client_cfg m))) with (HOST_NAME (fields w)).
  rewrite Hudp. unfold ClientAccept.start_dtls, ClientServer.start_dtls. cbn [negb].
  unfold channel_port in Hp. rewrite Hp. cbn [mbind outcome_bind]. unfold DtlsChannel.make.
  cbn [negb DtlsChannel.socket_ok all_ok]. rewrite Ha. do 2 eexists. by split; [reflexivity|].
Qed.
(** connecting with UDP to a host that is given by its name throws, out of the
    handler of the click *)
Lemma onConnect_host_name su now w m s p :
  UDP_CHECKBOX (fields w) = true → channel_port (fields w) = Ret p →
  Net.make_address (HOST_NAME (fields w)) = None →
  onConnect sha224 su now w m s = Throw system_error.
Proof.
  intros Hudp Hp Ha. unfold onConnect.
  change (udp_enabled (read_form sha224 (fields w) (client_cfg m))) with (UDP_CHECKBOX (fields w)).
  change (dtls_port (read_form sha224 (fields w) (client_cfg m))) with (DTLS_PORT (fields w)).
  change (remote_port (read_form sha224 (fields w) (client_cfg m))) with (HOST_PORT (fields w)).
  change (remote_addr (read_form sha224 (fields w) (client_cfg m))) with (HOST_NAME (fields w)).
  rewrite Hudp. unfold ClientAccept.start_dtls, ClientServer.start_dtls. cbn [negb].
  unfold channel_port in Hp. rewrite Hp. cbn [mbind outcome_bind]. unfold DtlsChannel.make.
  destruct (negb _); [done|]. by rewrite Ha.
Qed.

(** C27: a user who disconnects and connects again, with UDP and a server given by its
    address, before the thread of the server has run, makes the program use a
    channel that has been destroyed.  The call that was posted to stop the old
    channel destroys the new one, whose posted [do_handshake] then runs on it: two handlers later the window
    says connected, with UDP active, there is no channel, and the next handler
    is undefined whatever the system and OpenSSL answer. *)
Theorem quick_reconnect_use_after_free m a p addr :
  reachable m a → DISCONNECT_BUTTON (win a) = true → ClientAccept.ready (server a) = [] →
  let f := fields (win a) in
  UDP_CHECKBOX f = true → channel_port f = Ret p → Net.make_address (HOST_NAME f) = Some addr →
  ∃ a', rtc step a a' ∧
    CONNECTION_STATUS (win a') = lit "CONNECTED" ∧ UDP_STATUS (win a') = lit "Active" ∧
    ClientServer.dtls_ (ClientAccept.udp (server a')) = None ∧
    ∀ ans, ClientAccept.run_one ans (server a') = Undef.
Proof.
  intros Hr Hd Hq f Hudp Hp Haddr.
  set (a1 := a <| win := (onDisconnect (win a) (server a)).1 |>
               <| server := (onDisconnect (win a) (server a)).2 |>).
  assert (step a a1) as S1 by by apply step_disconnect.
  destruct (onConnect_udp 0 (win a1) (config a1) (server a1) p addr Hudp Hp Haddr)
    as (w & m' & E2 & Hc & Hu).
  set (u := new_channel _ _ _) in E2.
  change (ClientAccept.start_accept _) with (ClientAccept.reconnected u (server a)) in E2.
  set (s2 := ClientAccept.reconnected u (server a)) in *.
  pose proof (step_connect (λ _, True) a1 all_ok 0 w m' s2 eq_refl E2) as S2.
  set (a2 := a1 <| win := w |> <| config := m' |> <| server := s2 |>) in *.
  destruct (ClientAccept.reconnect_frees_channel
              (ClientAccept.Answers true DtlsChannel.HandshakeError DtlsChannel.Written
                 DtlsChannel.NoData (λ _, DtlsChannel.Written)) (server a) u eq_refl Hq)
    as (s' & Hrun & Hu' & Hun).
  exists (a2 <| server := s' |>). split_and!; [|exact Hc|exact Hu|cbn; by rewrite Hu'|exact Hun].
  eapply rtc_l; [exact S1|]. eapply rtc_l; [exact S2|]. by eapply (rtc_run_n _ 2 a2).
Qed.
End Program.

(** ** Settings *)
(** the form as the next start shows it: empty ports become the defaults *)
Definition with_defaults (f : form) : form :=
  f <| LOCAL_PORT := if bool_decide (LOCAL_PORT f = []) then lit "1080" else LOCAL_PORT f |>
    <| DTLS_PORT := if bool_decide (DTLS_PORT f = []) then lit "8443" else DTLS_PORT f |>.

Section Saved.
Context (sha224 : bytes → bytes) {tree : Type} `{Ptree tree}.
(** [read_json] of what [write_json] wrote; it gives every string and every bool
    back under the key it was put under *)
Context (json : list (bytes * value) → tree).
Hypothesis json_string : ∀ l k v, NoDup l.*1 → (k, VStr v) ∈ l → get_string (json l) k = Some v.
Hypothesis json_bool : ∀ l k v, NoDup l.*1 → (k, VBool v) ∈ l → get_bool (json l) k = Some v.

Lemma make_loaded m : loaded m = true → fields (make m) = show_config (client_cfg m).
Proof. intros E. unfold make. by rewrite E. Qed.
Lemma entries_keys c : NoDup (entries c).*1.
Proof. apply (bool_decide_unpack _). by vm_compute. Qed.
Lemma saved_str c i k v : entries c !! i = Some (lit k, VStr v) → str (json (entries c)) k = v.
Proof.
  intros Hi. unfold str. by rewrite (json_string _ _ v (entries_keys c) (list_elem_of_lookup_2 _ _ _ Hi)).
Qed.
Lemma saved_flag c i k v : entries c !! i = Some (lit k, VBool v) → flag (json (entries c)) k = v.
Proof.
  intros Hi. unfold flag. by rewrite (json_bool _ _ v (entries_keys c) (list_elem_of_lookup_2 _ _ _ Hi)).
Qed.
(** what is written is what [populate] reads *)
Lemma populate_entries c :
  password c = SHA224 sha224 (text_password c) → populate_client sha224 (json (entries c)) = c.
Proof.
  intros Hp. unfold populate_client.
  rewrite (saved_str c 1 "local_addr" (local_addr c)), (saved_str c 2 "local_port" (local_port c)),
    (saved_str c 3 "remote_addr" (remote_addr c)), (saved_str c 4 "remote_port" (remote_port c)),
    (saved_str c 5 "user_name" (user_name c)), (saved_str c 6 "password" (text_password c)),
    (saved_flag c 7 "udp_enabled" (udp_enabled c)), (saved_str c 8 "dtls_port" (dtls_port c)),
    (saved_flag c 9 "useWebSocket" (useWebSocket c)) by reflexivity.
  rewrite <-Hp. by destruct c.
Qed.
Lemma load_saved c m0 :
  password c = SHA224 sha224 (text_password c) →
  start_config sha224 (Some (Some (json (entries c)))) m0 =
  Ret (m0 <| client_cfg := c |> <| loaded := true |>).
Proof. intros Hp. cbn [start_config load_config]. by rewrite populate_entries. Qed.
Lemma show_read_form f c : show_config (read_form sha224 f c) = with_defaults f.
Proof. destruct f. cbn. done. Qed.

(** C20: what the user entered survives.  Closing the window saves the form; the
    next start loads exactly the configuration that was saved, password hash
    included, whatever it held before, and shows the same form, but for ports left
    empty, which are shown with their defaults. *)
Theorem settings_survive_restart w m m0 :
  let saved := autoSave sha224 w m in
  ∃ m1, start_config sha224 (Some (Some (json saved.2))) m0 = Ret m1 ∧ loaded m1 = true ∧
    client_cfg m1 = client_cfg saved.1 ∧ fields (make m1) = with_defaults (fields w).
Proof.
  intros saved. set (c := read_form sha224 (fields w) (client_cfg m)).
  exists (m0 <| client_cfg := c |> <| loaded := true |>).
  split; [exact (load_saved c m0 eq_refl)|]. rewrite make_loaded by done. split_and!; [done..|].
  exact (show_read_form (fields w) (client_cfg m)).
Qed.
End Saved.

(** an empty local port is shown as 1080, but the server of the next start asks
    the resolver for the empty port *)
Lemma empty_port_shown_as_default resolve m :
  loaded m = true → local_port (client_cfg m) = [] →
  LOCAL_PORT (fields (win (start resolve m))) = lit "1080" ∧
  ClientAccept.local_endpoint (server (start resolve m)) = resolve (local_addr (client_cfg m)) [].
Proof.
  intros Hl Hp. cbn. rewrite make_loaded by done. unfold show_config. cbn. by rewrite Hp.
Qed.

(** ** Witnesses *)
(** a text for the numbers: how many decimals *)
Definition demo_fixed : FixedText := λ _ decimals, repeat Byte.x30 decimals.
#[local] Existing Instance demo_fixed.
Definition demo_sha (x : bytes) : bytes := x.
Definition demo_resolve (h p : bytes) : Net.endpoint := Net.no_endpoint.
(** one address *)
Definition demo_host : bytes := lit "198.51.100.7".
Definition demo_host_address : Net.address := Net.address_v4 [z2b 198; z2b 51; z2b 100; z2b 7].
Definition demo_parser : Net.AddressParser :=
  λ text, if decide (text = demo_host) then Some demo_host_address else None.
#[local] Existing Instance demo_parser.
Definition demo_config : ClientConfig :=
  ConfigManage.Client (lit "127.0.0.1") (lit "1080") demo_host (lit "443") (lit "x")
    (lit "user") (lit "secret") true (lit "8443") false.
Definition demo_manager : manager :=
  Manager demo_config (ConfigManage.Server [] [] ∅ L_NOTICE [] [] [] false false [] 600 600 0)
    true L_NOTICE.

(** every call succeeds, and the handshake waits for the server *)
Definition demo_answers : ClientAccept.answers :=
  ClientAccept.Answers true DtlsChannel.HandshakeWantRead DtlsChannel.Written DtlsChannel.NoData
    (λ _, DtlsChannel.Written).
(** the user has connected *)
Definition demo_channel : ClientServer.t :=
  new_channel (Net.Endpoint demo_host_address 8443) (lit "secret") ClientServer.init.
Definition demo_posted_server : ClientAccept.t :=
  ClientAccept.start_accept
    (ClientAccept.post (ClientAccept.RunChannel 1 ClientAccept.Handshake)
       (ClientAccept.make false Net.no_endpoint <| ClientAccept.udp := demo_channel |>)).
(** the server has run what was posted: the handshake, then the start *)
Definition demo_next (s : ClientAccept.t) : ClientAccept.t :=
  match ClientAccept.run_one demo_answers s with Ret s' => s' | _ => s end.
Definition demo_greeted_server : ClientAccept.t := demo_next demo_posted_server.
Definition demo_listening : ClientAccept.t := demo_next demo_greeted_server.
Definition demo_window : window :=
  onShowWindow (make demo_manager) <| CONNECT_BUTTON := false |> <| DISCONNECT_BUTTON := true |>
    <| CONNECTION_STATUS := lit "CONNECTED" |> <| UDP_STATUS := lit "Active" |> <| connectTime_ := 5 |>.
Definition demo_manager' : manager :=
  demo_manager <| client_cfg := read_form demo_sha (fields (make demo_manager)) demo_config |>.
Definition demo_posted : app := App demo_window demo_manager' demo_posted_server 0.
Definition demo_greeted : app := demo_posted <| server := demo_greeted_server |>.
Definition demo_connected : app := demo_greeted <| server := demo_listening |>.
(** and an application has connected *)
Definition demo_accepted : app :=
  demo_connected <| server := ClientAccept.complete (0%nat, ClientSession.Tls)
                                ClientAccept.Accepted (server demo_connected) |>.

Lemma demo_connect :
  onConnect demo_sha all_ok 5 (onShowWindow (make demo_manager)) demo_manager
    (ClientAccept.make false Net.no_endpoint) =
  Ret (demo_window, demo_manager', demo_posted_server).
Proof. vm_compute. reflexivity. Qed.
Lemma demo_run_greeted :
  ClientAccept.run_one demo_answers demo_posted_server = Ret demo_greeted_server.
Proof. vm_compute. reflexivity. Qed.
Lemma demo_run_posted : ClientAccept.run_one demo_answers demo_greeted_server = Ret demo_listening.
Proof. vm_compute. reflexivity. Qed.
Section Steps.
Context (may_run : ClientAccept.t → Prop) (Hmay : ∀ s, ClientAccept.calm s → may_run s).
Lemma demo_connected_run : rtc (step_when demo_sha may_run) (start demo_resolve demo_manager) demo_connected.
Proof.
  eapply rtc_l.
  { exact (step_connect demo_sha may_run (start demo_resolve demo_manager) all_ok 5 _ _ _ eq_refl demo_connect). }
  eapply rtc_l.
  { refine (step_run demo_sha may_run demo_posted demo_answers _ _ demo_run_greeted). apply Hmay. exact I. }
  apply rtc_once. refine (step_run demo_sha may_run demo_greeted demo_answers _ _ demo_run_posted).
  apply Hmay. vm_compute. reflexivity.
Qed.
Lemma demo_accepted_run : rtc (step_when demo_sha may_run) (start demo_resolve demo_manager) demo_accepted.
Proof.
  eapply rtc_r; [exact demo_connected_run|].
  apply (step_complete demo_sha may_run demo_connected (0%nat, ClientSession.Tls)); [|done].
  apply (bool_decide_unpack _). vm_compute. reflexivity.
Qed.
End Steps.
Lemma demo_connected_reachable : reachable demo_sha demo_resolve demo_manager demo_connected.
Proof. by apply demo_connected_run. Qed.
Lemma demo_accepted_reachable : reachable demo_sha demo_resolve demo_manager demo_accepted.
Proof. by apply demo_accepted_run. Qed.
Lemma demo_accepted_calm : calm_reachable demo_sha demo_resolve demo_manager demo_accepted.
Proof. by apply demo_accepted_run. Qed.

Lemma client_starts_each_connection_once_witness :
  ∃ s', ClientAccept.run_one demo_answers (server demo_accepted) = Ret s' ∧
    ClientAccept.started s' = ClientAccept.started (server demo_accepted) ++ [(0%nat, ClientSession.Tls)].
Proof.
  destruct (client_starts_each_connection_once demo_sha demo_resolve demo_manager demo_accepted demo_answers
    demo_accepted_reachable eq_refl) as (_ & _ & Hc & Hcalm).
  assert (ClientAccept.ready (server demo_accepted) =
    [ClientAccept.RunAccept (0%nat, ClientSession.Tls) ClientAccept.Accepted]) as Hq by (vm_compute; reflexivity).
  specialize (Hc _ _ _ Hq). destruct (Hcalm demo_accepted_calm) as (_ & Hgo & _).
  destruct Hgo as (s' & Hs'); [by rewrite Hq|]. rewrite Hs' in Hc.
  exists s'. split; [exact Hs'|]. apply Hc.
Defined.

Lemma quick_reconnect_use_after_free_witness :
  ∃ a', rtc (step demo_sha) demo_connected a' ∧ UDP_STATUS (win a') = lit "Active" ∧
    ClientServer.dtls_ (ClientAccept.udp (server a')) = None ∧
    ∀ ans, ClientAccept.run_one ans (server a') = Undef.
Proof.
  destruct (quick_reconnect_use_after_free demo_sha demo_resolve demo_manager demo_connected 8443
    demo_host_address demo_connected_reachable) as (a' & H & _ & Hu & Hd & Hun);
    [vm_compute; reflexivity..|].
  exists a'. exact (conj H (conj Hu (conj Hd Hun))).
Defined.

(** a property tree that is the list of its entries *)
Definition demo_get {A} (f : value → option A) (l : list (bytes * value)) (k : bytes) : option A :=
  list_find (λ e, e.1 = k) l ≫= λ e, f e.2.2.
#[local] Instance demo_tree : Ptree (list (bytes * value)) := {|
  get_string := demo_get (λ v, match v with VStr s => Some s | VBool _ => None end);
  get_bool := demo_get (λ v, match v with VBool b => Some b | VStr _ => None end);
  get_int _ _ := None; get_child _ _ := None; get_value _ := []
|}.
Lemma demo_get_spec {A} (f : value → option A) l k v :
  NoDup l.*1 → (k, v) ∈ l → demo_get f l k = f v.
Proof.
  intros Hnd Hin. unfold demo_get.
  destruct (list_find (λ e, e.1 = k) l) as [[i [k' v']]|] eqn:E.
  - apply list_find_Some in E as (Hi & Hk & _). cbn in Hk |- *. subst k'.
    apply list_elem_of_lookup_2 in Hi.
    assert (∀ x y : bytes * value, x ∈ l → y ∈ l → x.1 = y.1 → x = y) as Hinj.
    { clear -Hnd. induction l as [|e l IH]; [set_solver|]. cbn in Hnd. apply list.NoDup_cons in Hnd as [Hn Hnd].
      intros x y Hx Hy E. apply elem_of_cons in Hx, Hy.
      destruct Hx as [->|Hx], Hy as [->|Hy]; [done|..|by apply IH].
      - destruct Hn. rewrite E. by apply list_elem_of_fmap_2.
      - destruct Hn. rewrite <-E. by apply list_elem_of_fmap_2. }
    by injection (Hinj (k, v') (k, v) Hi Hin eq_refl) as ->.
  - apply list_find_None in E. rewrite list.Forall_forall in E. by destruct (E _ Hin).
Qed.

Lemma settings_survive_restart_witness :
  let saved := autoSave demo_sha (win demo_connected) demo_manager in
  ∃ m1, start_config demo_sha (Some (Some saved.2)) demo_manager = Ret m1 ∧ loaded m1 = true ∧
    client_cfg m1 = client_cfg saved.1 ∧ fields (make m1) = with_defaults (fields (win demo_connected)).
Proof.
  apply (settings_survive_restart demo_sha (λ l, l)).
  - intros l k v Hn Hin. exact (demo_get_spec _ l k (VStr v) Hn Hin).
  - intros l k v Hn Hin. exact (demo_get_spec _ l k (VBool v) Hn Hin).
Defined.
End MainWindow.
