(* ===== verification/ClientSystem.v ===== *)
(** ClientSystem: the whole client at work.  The window and the accept loop
    (MainWindow), the sessions it has started (ClientSession) and the UDP relays
    and the DTLS channel (ClientUdp) run together; they share the table of relays,
    the counters and the configuration. *)
From S2P Require Import Prelude Net Decimal Http Socks5 ProxyStats UdpFrame DtlsServerSession ClientUdp DtlsChannelProps ClientSession.
From S2P Require Import ClientSessionFacts.
From S2P Require Import ClientSessionProps.
From S2P Require Import ClientSessionUdp.
From S2P Require Import ClientAccept ConfigManage MainWindow.

Module ClientSystem.
Import ClientSession(session, op, env, legal, pending, server_, stats, destroyed_, udp_relay_,
  session_id_, new_address).
Import ClientServer(relays_, heap).
Import ClientSessionUdp(effect, assoc_ok, destroy_server).

(** ** The table of relays *)
(** the associations of the sessions: their relay and their id *)
Notation view := (gmap nat (option nat * Z)).
Section Tables.
(** what never changes of a relay that has started *)
Definition fixed (r : UdpRelay.t) : Z * bool * option nat :=
  (UdpRelay.session_id_ r, UdpRelay.running_ r, UdpRelay.dtls_ r).
(** what UDP traffic and the DTLS channel leave alone *)
Definition same_table (u u' : ClientServer.t) : Prop :=
  ClientServer.next_session_id_ u' = ClientServer.next_session_id_ u ∧ relays_ u' = relays_ u ∧
  (ClientServer.channel u <= ClientServer.channel u')%nat ∧
  ∀ h r, heap u !! h = Some r →
    ∃ r', heap u' !! h = Some r' ∧ fixed r' = fixed r.

#[global] Instance same_table_preorder : PreOrder same_table.
Proof.
  split.
  - intros u. split_and!; [done..|]. intros h r Hr. by exists r.
  - intros u1 u2 u3 (E1 & E2 & E4 & E3) (F1 & F2 & F4 & F3). split_and!; [congruence..|lia|].
    intros h r (r' & Hr' & <-)%E3. apply (F3 h r' Hr').
Qed.
Lemma same_table_relay u u' h r r' :
  heap u !! h = Some r → heap u' = <[h := r']> (heap u) →
  fixed r' = fixed r →
  ClientServer.next_session_id_ u' = ClientServer.next_session_id_ u → relays_ u' = relays_ u →
  ClientServer.channel u' = ClientServer.channel u → same_table u u'.
Proof.
  intros Hr E3 Hs E1 E2 E4. split_and!; [done..|lia|]. intros h' r1 Hr1. rewrite E3.
  destruct (decide (h' = h)) as [->|Hne].
  - rewrite lookup_insert_eq. exists r'. split; [done|]. congruence.
  - rewrite lookup_insert_ne by done. by exists r1.
Qed.

Lemma receive_local_fixed m r r' f :
  UdpRelay.receive_local m r = Ret (r', f) → fixed r' = fixed r.
Proof.
  unfold UdpRelay.receive_local. intros H.
  destruct m as [[sender data]|]; destruct (negb _); try by injection H as <- <-.
  destruct (_ <? 4); [by injection H as <- <-|]. cbv zeta in H.
  apply bind_Ret_inv in H as ([req []] & _ & H); [|by injection H as <- <-].
  apply bind_Ret_inv in H as (frame & _ & H). by injection H as <- <-.
Qed.
Lemma forward_frame_fixed w f r c r' c' :
  UdpRelay.forward_frame w f r c = (r', c') → fixed r' = fixed r.
Proof. unfold UdpRelay.forward_frame. by destruct (_ && _); intros [= <- <-]. Qed.
Lemma on_dtls_data_fixed data r r' :
  UdpRelay.on_dtls_data data r = Ret r' → fixed r' = fixed r.
Proof.
  unfold UdpRelay.on_dtls_data. destruct (negb _); [by intros [= <-]|]. intros H.
  apply bind_Ret_inv in H as ([frame [n|]] & _ & H); [|by injection H as <-]. cbv zeta in H.
  destruct (_ !! _); by injection H as <-.
Qed.
Lemma flush_fixed w fs r c r' c' :
  UdpRelay.flush w fs r c = (r', c') → fixed r' = fixed r.
Proof.
  revert r c. induction fs as [|f fs IH]; intros r c; cbn; [by intros [= <- <-]|]. by intros ->%IH.
Qed.
Lemma flush_pending_fixed w r c r' c' :
  UdpRelay.flush_pending w r c = (r', c') → fixed r' = fixed r.
Proof.
  unfold UdpRelay.flush_pending. destruct (_ || _); [by intros [= <- <-]|apply flush_fixed].
Qed.

Lemma same_table_on_local w m h u u' : ClientServer.on_local w m h u = Ret u' → same_table u u'.
Proof.
  unfold ClientServer.on_local. destruct (heap u !! h) as [r|] eqn:Hr; [|by intros [= <-]]. intros H.
  apply bind_Ret_inv in H as ([r1 [f|]] & H1 & H); apply receive_local_fixed in H1.
  2:{ injection H as <-. by eapply same_table_relay. }
  destruct (ClientServer.channel_of r1 u) as [c|].
  - destruct (UdpRelay.forward_frame w f r1 c) as [r2 c'] eqn:E. apply forward_frame_fixed in E.
    injection H as <-. eapply same_table_relay; [done|done| |done..]. congruence.
  - destruct (UdpRelay.has_dtls r1); [done|]. injection H as <-. by eapply same_table_relay.
Qed.
Lemma same_table_on_dtls_data d u u' : ClientServer.on_dtls_data d u = Ret u' → same_table u u'.
Proof.
  unfold ClientServer.on_dtls_data. destruct (_ <? 2); [by intros [= <-]|]. intros H.
  apply bind_Ret_inv in H as (d0 & _ & H). apply bind_Ret_inv in H as (d1 & _ & H).
  destruct (relays_ u !! _) as [h|]; [|by injection H as <-].
  destruct (heap u !! h) as [r|] eqn:Hr; [|done].
  apply bind_Ret_inv in H as (r' & H1 & H). apply on_dtls_data_fixed in H1. injection H as <-.
  by eapply same_table_relay.
Qed.
Lemma same_table_flush_all w hs u u' : ClientServer.flush_all w hs u = Ret u' → same_table u u'.
Proof.
  revert u. induction hs as [|h hs IH]; intros u; cbn; [by intros [= <-]|].
  destruct (heap u !! h) as [r|] eqn:Hr; [|done]. destruct (ClientServer.channel_of r u) as [c|].
  - destruct (UdpRelay.flush_pending w r c) as [r' c'] eqn:E. apply flush_pending_fixed in E.
    intros H%IH. etrans; [|exact H]. by eapply same_table_relay.
  - destruct (UdpRelay.has_dtls r); [done|]. apply IH.
Qed.
Lemma same_table_on_handshake w ok u u' : ClientServer.on_handshake w ok u = Ret u' → same_table u u'.
Proof.
  unfold ClientServer.on_handshake. destruct ok; [|by intros [= <-]].
  intros H%same_table_flush_all. exact H.
Qed.
Lemma same_table_start_dtls `{Net.AddressParser} su a d r p q u u' :
  ClientServer.start_dtls su a d r p q u = Ret u' → same_table u u'.
Proof.
  unfold ClientServer.start_dtls. destruct (negb a); [by intros [= <-]|]. intros Hs.
  apply bind_Ret_inv in Hs as (port & _ & Hs). apply bind_Ret_inv in Hs as (c & _ & [= <-]).
  split_and!; [done..|cbn; lia|]. intros h r' Hr. by exists r'.
Qed.
Lemma same_table_channel u c : same_table u (u <| ClientServer.dtls_ := c |>).
Proof. by split_and!; eauto. Qed.
Lemma same_table_run_channel ans a k c v v' :
  ClientAccept.run_channel ans a k c v = Ret v' →
  same_table (ClientAccept.udp v) (ClientAccept.udp v') ∧
  ClientAccept.fresh_id v' = ClientAccept.fresh_id v ∧ ClientAccept.started v' = ClientAccept.started v.
Proof.
  unfold ClientAccept.run_channel. destruct (ClientAccept.channel_step ans k c) as [c' cb]. intros Hs.
  apply bind_Ret_inv in Hs as (u & Hu & [= <-]). split; [|done].
  etrans; [apply (same_table_channel _ (Some c'))|]. destruct cb as [[ok|d]|]; cbn in Hu.
  - by eapply same_table_on_handshake.
  - by eapply same_table_on_dtls_data.
  - by injection Hu as <-.
Qed.
Lemma same_table_stop_dtls u : same_table u (ClientServer.stop_dtls u).
Proof. by split_and!; eauto. Qed.

Definition with_id (v : view) : view := filter (λ p, p.2.2 ≠ 0) v.

(** the relays of the sessions exist and run *)
Definition relays_up (u : ClientServer.t) (v : view) : Prop :=
  ∀ n h sid, v !! n = Some (Some h, sid) →
    ∃ r a, heap u !! h = Some r ∧ UdpRelay.running_ r = true ∧
      UdpRelay.dtls_ r = Some a ∧ (a <= ClientServer.channel u)%nat.
(** the table holds what the sessions have *)
Inductive tables (u : ClientServer.t) (v : view) : Prop :=
  | Tables w :
      table_ok w → ClientServer.server w = u →
      (∀ h sid, ClientServer.assocs w !! h = Some sid ↔ ∃ n, v !! n = Some (Some h, sid)) →
      (∀ n1 n2 h i1 i2, v !! n1 = Some (Some h, i1) → v !! n2 = Some (Some h, i2) → n1 = n2) →
      ClientServer.opened w = size (with_id v) →
      relays_up u v → tables u v.

Lemma tables_init : tables ClientServer.init ∅.
Proof.
  apply (Tables _ _ ClientServer.world_init); [exact table_ok_init|done| |done..].
  intros h sid. cbn. by rewrite lookup_empty; split; [|intros (n & ?)].
Qed.
Lemma tables_same u u' v : same_table u u' → tables u v → tables u' v.
Proof.
  intros (E1 & E2 & E4 & E3) [w Hw <- Ha Ho Hn Hup].
  apply (Tables _ _ (ClientServer.World u' (ClientServer.assocs w) (ClientServer.opened w))); try done.
  2:{ intros n h sid Hv. destruct (Hup n h sid Hv) as (r & a & Hr & Hrun & Hd & Hle).
      destruct (E3 h r Hr) as (r' & ? & [= _ F1 F2]). exists r', a. rewrite F1, F2.
      split_and!; try done. lia. }
  destruct Hw as [H1 H2 H3 H4]. split; cbn; rewrite ?E1, ?E2; try done.
  - intros h sid Hh. destruct (H4 h sid Hh) as (r & Hr & <-).
    destruct (E3 h r Hr) as (r' & ? & [= ? _ _]). by exists r'.
Qed.

(** a new session *)
Lemma tables_new u v n : v !! n = None → tables u v → tables u (<[n := (None, 0)]> v).
Proof.
  intros Hv [w Hw Hs Ha Ho Hn Hup]. apply (Tables _ _ w); try done.
  - intros h sid. rewrite Ha. split; intros [n' Hn']; exists n'.
    + rewrite lookup_insert_ne; [done|]. intros ->. congruence.
    + apply lookup_insert_Some in Hn' as [[_ ?]|[_ ?]]; done.
  - intros n1 n2 h i1 i2 H1 H2. apply lookup_insert_Some in H1 as [[_ ?]|[_ H1]]; [done|].
    apply lookup_insert_Some in H2 as [[_ ?]|[_ H2]]; [done|]. by eapply Ho.
  - unfold with_id. rewrite map_filter_insert_False by (cbn; tauto). by rewrite delete_id.
  - intros n' h sid [[_ ?]|[_ Hn']]%lookup_insert_Some; [done|]. by apply (Hup n' h sid).
Qed.
Lemma opened_few v : (size (with_id v) <= size v)%nat.
Proof. apply map_subseteq_size, map_filter_subseteq. Qed.

(** a session opens its association *)
Lemma tables_open u v n h port :
  tables u v → v !! n = Some (None, 0) → heap u !! h = None → Z.of_nat (size v) < 2 ^ 16 →
  tables (ClientServer.associate h port u).2 (<[n := (Some h, (ClientServer.associate h port u).1)]> v).
Proof.
  intros [w Hw <- Ha Ho Hn Hup] Hv Hh Hfew. set (sid := (ClientServer.associate h port (ClientServer.server w)).1).
  assert (ClientServer.assocs w !! h = None) as Hfree.
  { destruct (ClientServer.assocs w !! h) as [sid'|] eqn:E; [|done].
    destruct (tb_heap w Hw h sid' E) as (r & Hr & _). congruence. }
  assert (size (with_id v) < size v)%nat as Hless.
  { apply map_subset_size. split; [apply map_filter_subseteq|]. intros Hsub.
    pose proof (lookup_weaken _ _ _ _ Hv Hsub) as E. apply map_lookup_filter_Some in E as [_ E]. done. }
  assert (sid = Z.of_nat (ClientServer.opened w) + 1) as Hsid.
  { change sid with (ClientServer.next_session_id_ (ClientServer.server w)).
    rewrite (tb_next w Hw). apply u16_small. lia. }
  set (w' := ClientServer.World (ClientServer.associate h port (ClientServer.server w)).2
               (<[h := sid]> (ClientServer.assocs w)) (S (ClientServer.opened w))).
  assert (ClientServer.step w (ClientServer.Associate h port) = Some w') as Hstep
    by (cbn; by rewrite Hfree).
  apply (Tables _ _ w'); try done.
  - eapply table_ok_associate; [done| |done]. lia.
  - intros h' sid'. cbn [ClientServer.assocs w']. rewrite lookup_insert_Some, Ha. split.
    + intros [[<- <-]|[Hne [n' Hn']]]; [exists n; apply lookup_insert_eq|].
      exists n'. rewrite lookup_insert_ne; [done|]. intros ->. congruence.
    + intros [n' [[-> [= <- <-]]|[Hne Hn']]%lookup_insert_Some]; [by left|]. right.
      split; [|by exists n']. intros ->.
      assert (ClientServer.assocs w !! h' = Some sid') as E by (apply Ha; by exists n'). congruence.
  - assert (∀ n' i, v !! n' = Some (Some h, i) → False) as Hno.
    { intros n' i Hn'. assert (ClientServer.assocs w !! h = Some i) as E by (apply Ha; by exists n').
      congruence. }
    intros n1 n2 h' i1 i2 H1 H2.
    apply lookup_insert_Some in H1 as [[<- [= <- <-]]|[N1 H1]];
      apply lookup_insert_Some in H2 as [[<- E2]|[N2 H2]]; try done.
    + by apply Hno in H2.
    + injection E2 as <- <-. by apply Hno in H1.
    + by eapply Ho.
  - cbn [ClientServer.opened w']. rewrite Hn. unfold with_id.
    rewrite map_filter_insert_True by (change (sid ≠ 0); lia). rewrite map_size_insert_None; [done|].
    apply map_lookup_filter_None. right. intros x Hx. rewrite Hv in Hx. injection Hx as <-. cbn. tauto.
  - intros n' h' sid' [[_ [= <- _]]|[_ Hn']]%lookup_insert_Some.
    { eexists _, _. cbn. rewrite lookup_insert_eq. split; [done|]. split_and!; [done..|]. cbn. lia. }
    destruct (Hup n' h' sid' Hn') as (r & a & Hr & ?). exists r, a. split; [|done].
    cbn. rewrite lookup_insert_ne; [done|]. intros ->. congruence.
Qed.

(** a session with an association ends *)
Lemma tables_close u v n h sid :
  tables u v → v !! n = Some (Some h, sid) →
  tables (ClientServer.release sid h u) (<[n := (None, sid)]> v).
Proof.
  intros [w Hw <- Ha Ho Hn Hup] Hv.
  assert (ClientServer.assocs w !! h = Some sid) as Hh by (apply Ha; by exists n).
  set (w' := ClientServer.World (ClientServer.release sid h (ClientServer.server w))
               (delete h (ClientServer.assocs w)) (ClientServer.opened w)).
  assert (ClientServer.step w (ClientServer.Release h) = Some w') as Hstep by (cbn; by rewrite Hh).
  pose proof (tb_ids w Hw h sid Hh) as Hpos. cbn in Hpos.
  apply (Tables _ _ w'); try done.
  - by eapply table_ok_release.
  - intros h' sid'. cbn [ClientServer.assocs w']. rewrite lookup_delete_Some, Ha. split.
    + intros [Hne [n' Hn']]. exists n'. rewrite lookup_insert_ne; [done|]. intros ->. congruence.
    + intros [n' [[_ ?]|[Hne Hn']]%lookup_insert_Some]; [done|]. split; [|by exists n'].
      intros ->. by destruct Hne; eapply Ho.
  - intros n1 n2 h' i1 i2 H1 H2. apply lookup_insert_Some in H1 as [[_ ?]|[_ H1]]; [done|].
    apply lookup_insert_Some in H2 as [[_ ?]|[_ H2]]; [done|]. by eapply Ho.
  - cbn [ClientServer.opened w']. rewrite Hn. unfold with_id.
    rewrite map_filter_insert_True by (change (sid ≠ 0); lia). symmetry. apply map_size_insert_Some.
    exists (Some h, sid). apply map_lookup_filter_Some. split; [done|]. cbn. lia.
  - intros n' h' sid' [[_ ?]|[Hne Hn']]%lookup_insert_Some; [done|].
    destruct (Hup n' h' sid' Hn') as (r & a & Hr & ?). exists r, a.
    unfold ClientServer.release. destruct (negb _); cbn; (split; [|done]); (rewrite lookup_delete_ne; [done|]);
      intros ->; by destruct Hne; eapply Ho.
Qed.
End Tables.

(** ** The system *)
Record t := Sys {
  app : MainWindow.app;
  configs : gmap nat ClientSession.config;     (* what each session object has copied *)
  sessions : gmap nat session                  (* the sessions started *)
}.
#[global] Instance eta_t : Eta t := fun r => Sys (app r) (configs r) (sessions r).

Definition srv (s : t) : ClientAccept.t := MainWindow.server (app s).
Definition shared (s : t) : ClientServer.t := ClientAccept.udp (srv s).
Definition start_state (resolve : bytes → bytes → Net.endpoint) (m : ConfigManage.manager) : t :=
  Sys (MainWindow.start resolve m) ∅ ∅.

(** the constructor of [Session] copies the configuration *)
Definition copy_config (c : ConfigManage.ClientConfig) : ClientSession.config :=
  ClientSession.Config (ConfigManage.remote_addr c) (ConfigManage.remote_port c)
    (ConfigManage.user_name c) (ConfigManage.password c).

(** the window or the accept loop has gone on to [a']: it may have started one
    session and made one session object *)
Definition adopt (a' : MainWindow.app) (s : t) : t :=
  let v := srv s in
  let v' := MainWindow.server a' in
  Sys a'
    (if (ClientAccept.fresh_id v <? ClientAccept.fresh_id v')%nat
     then <[ClientAccept.fresh_id v :=
              copy_config (ConfigManage.client_cfg (MainWindow.config a'))]> (configs s)
     else configs s)
    (match drop (length (ClientAccept.started v)) (ClientAccept.started v') with
     | c :: _ => <[c.1 := ClientSession.started
                     (ClientSession.init (ClientAccept.udp v') (ClientAccept.stats v'))]> (sessions s)
     | [] => sessions s
     end).

(** a session has run a handler: what it shares is what the handler left *)
Definition put (c : ClientAccept.object) (x x' : session) (s : t) : t :=
  let v := srv s in
  let v := if destroyed_ x' && negb (destroyed_ x)
           then v <| ClientAccept.destroyed := ClientAccept.destroyed v ++ [c] |> else v in
  s <| app := app s <| MainWindow.server :=
         v <| ClientAccept.udp := server_ x' |> <| ClientAccept.stats := stats x' |> |> |>
    <| sessions := <[c.1 := x']> (sessions s) |>.

(** a relay's datagram; the handlers of the DTLS channel are the accept loop's *)
Definition with_udp (u : ClientServer.t) (st : ProxyStats.t) (s : t) : t :=
  s <| app := app s <| MainWindow.server :=
         srv s <| ClientAccept.udp := u |> <| ClientAccept.stats := st |> |> |>.
(** [addUpstreamDelta] in [do_receive_local] *)
Definition count_up (m : option (Net.endpoint * bytes)) (h : nat) (u : ClientServer.t)
    (st : ProxyStats.t) : ProxyStats.t :=
  match m, heap u !! h with
  | Some (_, data), Some r =>
      if UdpRelay.running_ r && negb (len data <? 4)
      then ProxyStats.addUpstreamDelta (len data) st else st
  | _, _ => st
  end.
Section System.
Context `{Net.AddressText} {fixed : MainWindow.FixedText} {parser : Net.AddressParser} (sha224 : bytes → bytes) (resolve : bytes → bytes → Net.endpoint).

Inductive step : t → t → Prop :=
  | step_window s a' :
      MainWindow.step sha224 (app s) a' →
      ClientAccept.destroyed (MainWindow.server a') = ClientAccept.destroyed (srv s) →
      step s (adopt a' s)
  | step_session s c x cfg l1 o l2 e r x' :
      c ∈ ClientAccept.started (srv s) → sessions s !! c.1 = Some x → configs s !! c.1 = Some cfg →
      pending x = l1 ++ o :: l2 → legal o r →
      heap (shared s) !! new_address e = None →
      ClientSession.udp_enabled e =
        ConfigManage.udp_enabled (ConfigManage.client_cfg (MainWindow.config (app s))) →
      ClientSession.handle cfg c.2 e o r
        (x <| server_ := shared s |> <| stats := ClientAccept.stats (srv s) |>
           <| pending := l1 ++ l2 |>) = Ret x' →
      step s (put c x x' s)
  | step_local s w m h u :
      ClientServer.on_local w m h (shared s) = Ret u →
      step s (with_udp u (count_up m h (shared s) (ClientAccept.stats (srv s))) s).

Definition reachable (m : ConfigManage.manager) (s : t) : Prop := rtc step (start_state resolve m) s.

(** ** Invariant of the system *)
(** *** What the window and the accept loop do to what is shared *)
Definition window_effect (v v' : ClientAccept.t) : Prop :=
  (ClientAccept.fresh_id v' = ClientAccept.fresh_id v ∨
   ClientAccept.fresh_id v' = S (ClientAccept.fresh_id v)) ∧
  (ClientAccept.started v' = ClientAccept.started v ∨
   ∃ c, ClientAccept.started v' = ClientAccept.started v ++ [c]) ∧
  same_table (ClientAccept.udp v) (ClientAccept.udp v').

Lemma window_effect_same v v' :
  ClientAccept.fresh_id v' = ClientAccept.fresh_id v →
  ClientAccept.started v' = ClientAccept.started v →
  same_table (ClientAccept.udp v) (ClientAccept.udp v') → window_effect v v'.
Proof. intros E1 E2 E3. split_and!; auto. Qed.
Lemma window_effect_do_accept v0 v :
  ClientAccept.fresh_id v = ClientAccept.fresh_id v0 →
  (ClientAccept.started v = ClientAccept.started v0 ∨
   ∃ c, ClientAccept.started v = ClientAccept.started v0 ++ [c]) →
  ClientAccept.udp v = ClientAccept.udp v0 →
  ∀ k, window_effect v0 (ClientAccept.accept_into k v).
Proof.
  intros E1 E2 E3 k. split_and!; cbn; [right; by rewrite E1|done|by rewrite E3].
Qed.
Lemma window_effect_on_accept ans c r v q v' :
  ClientAccept.on_accept ans c r (v <| ClientAccept.ready := q |>) = Ret v' → window_effect v v'.
Proof.
  unfold ClientAccept.on_accept. destruct (_ && _); [done|].
  destruct (negb _); [intros [= <-]; by apply window_effect_same|].
  destruct r; [|intros [= <-]; by apply window_effect_same|].
  - intros (v1 & H1 & Hr)%bind_Ret_inv. unfold ClientAccept.start_session in H1.
    destruct (ClientAccept.session_ _) as [o|]; [|done]. destruct (ClientAccept.ok ans); [|done].
    injection H1 as <-. injection Hr as <-. destruct c.2; apply window_effect_do_accept; eauto.
  - intros [= <-]. destruct c.2; apply window_effect_do_accept; auto.
Qed.
Lemma window_effect_run_one ans v v' : ClientAccept.run_one ans v = Ret v' → window_effect v v'.
Proof.
  unfold ClientAccept.run_one. destruct (ClientAccept.ready v) as [|[| | |c r|a k] q];
    cbn [ClientAccept.run_handler]; intros Hr.
  - injection Hr as <-. by apply window_effect_same.
  - unfold ClientAccept.on_start in Hr. destruct (_ || _); [done|]. injection Hr as <-.
    rewrite ClientAccept.do_accept_into. apply window_effect_do_accept; auto.
  - unfold ClientAccept.on_stop in Hr. destruct (ClientAccept.is_open _).
    + destruct (ClientAccept.ok ans); [|done]. injection Hr as <-. by apply window_effect_same.
    + injection Hr as <-. by apply window_effect_same.
  - injection Hr as <-. apply window_effect_same; [done..|]. apply same_table_stop_dtls.
  - by eapply window_effect_on_accept.
  - unfold ClientAccept.on_channel in Hr. destruct (ClientServer.channel_at _ _) as [c|].
    + apply same_table_run_channel in Hr as (? & ? & ?). by apply window_effect_same.
    + destruct k; try done. injection Hr as <-. by apply window_effect_same.
Qed.

Lemma window_effect_step a a' :
  MainWindow.step sha224 a a' → window_effect (MainWindow.server a) (MainWindow.server a').
Proof.
  intros Hs. destruct Hs; try by apply window_effect_same.
  - apply bind_Ret_inv in H1 as (s1 & H1 & [= _ _ <-]).
    apply bind_Ret_inv in H1 as (u & H1 & [= <-]). apply same_table_start_dtls in H1.
    match goal with |- context [if ?b then _ else _] => destruct b end; by apply window_effect_same.
  - by eapply window_effect_run_one.
  - cbn. by destruct (ClientAccept.complete_receive_post failed (MainWindow.server a)) as [->|[k ->]];
      apply window_effect_same.
  - cbn. unfold ClientAccept.complete_wait.
    destruct (ClientServer.dtls_ _) as [c|]; [|by apply window_effect_same].
    destruct (DtlsChannel.timer_ c); [|by apply window_effect_same].
    apply window_effect_same; [done..|]. apply same_table_channel.
Qed.

(** *** What sessions and UDP traffic do to the server *)
Lemma inv_share b v u st :
  ClientAccept.inv b v → ProxyStats.sessionCount st = ProxyStats.sessionCount (ClientAccept.stats v) →
  ClientAccept.inv b (v <| ClientAccept.udp := u |> <| ClientAccept.stats := st |>).
Proof.
  intros [Hf [] Hl] E. split; [done| |done]. split; try done.
  change (ProxyStats.sessionCount st = u64 (len (ClientAccept.started v) - len (ClientAccept.destroyed v))).
  by rewrite E.
Qed.
Lemma ok_share m s v :
  MainWindow.app_ok resolve m (app s) → (∀ b, ClientAccept.inv b (srv s) → ClientAccept.inv b v) →
  ClientAccept.settings v = ClientAccept.settings (srv s) →
  MainWindow.app_ok resolve m (app s <| MainWindow.server := v |>).
Proof. intros Ha Hi E. by apply (MainWindow.ok_server_step resolve m (app s)). Qed.

(** the effect of a handler, as it starts from what is shared *)
Lemma ok_put m s (c : ClientAccept.object) x x' e o l :
  MainWindow.app_ok resolve m (app s) → c ∈ ClientAccept.started (srv s) →
  (destroyed_ x = false → c ∉ ClientAccept.destroyed (srv s)) →
  effect e o (x <| server_ := shared s |> <| stats := ClientAccept.stats (srv s) |>
                <| pending := l |>) x' →
  MainWindow.app_ok resolve m (app (put c x x' s)).
Proof.
  intros Ha Hc Hlive He. set (x0 := x <| server_ := _ |> <| stats := _ |> <| pending := l |>) in He.
  assert (ProxyStats.sessionCount (stats x0) = ProxyStats.sessionCount (ClientAccept.stats (srv s)))
    as E0 by done.
  assert (destroyed_ x0 = destroyed_ x) as Ed by done.
  destruct He as [(_ & _ & _ & E & E')|_ _ _ _ E E'|D0 D1 _ _ _ E']; apply ok_share; try done.
  - assert (destroyed_ x' && negb (destroyed_ x) = false) as ->
      by (rewrite E, Ed; by destruct (destroyed_ x)).
    intros b Hi. apply inv_share; [done|congruence].
  - by destruct (_ && _).
  - assert (destroyed_ x' && negb (destroyed_ x) = false) as ->
      by (rewrite E, Ed; by destruct (destroyed_ x)).
    intros b Hi. apply inv_share; [done|congruence].
  - by destruct (_ && _).
  - assert (destroyed_ x' && negb (destroyed_ x) = true) as -> by (rewrite <-Ed, D0, D1; done).
    intros b Hi. apply (inv_share b (ClientAccept.session_ends c (srv s))).
    + apply ClientAccept.inv_session_ends; [done..|]. apply Hlive. congruence.
    + rewrite E', E0. done.
  - by destruct (_ && _).
Qed.

Definition view_of (xs : gmap nat session) : view := (λ x, (udp_relay_ x, session_id_ x)) <$> xs.
Definition alive (xs : gmap nat session) : gmap nat session := filter (λ p, destroyed_ p.2 = false) xs.

Lemma view_insert n x xs : view_of (<[n := x]> xs) = <[n := (udp_relay_ x, session_id_ x)]> (view_of xs).
Proof. unfold view_of. by rewrite fmap_insert. Qed.

Lemma tables_put s (c : ClientAccept.object) x x' e o l1 l2 :
  tables (shared s) (view_of (sessions s)) → Z.of_nat (size (sessions s)) < 2 ^ 16 →
  sessions s !! c.1 = Some x → assoc_ok x → pending x = l1 ++ o :: l2 →
  heap (shared s) !! new_address e = None →
  effect e o (x <| server_ := shared s |> <| stats := ClientAccept.stats (srv s) |>
                <| pending := l1 ++ l2 |>) x' →
  tables (server_ x') (view_of (<[c.1 := x']> (sessions s))).
Proof.
  intros Ht Hfew Hx [Hpre _ Hnone] Hp Hfree He. rewrite view_insert.
  assert (view_of (sessions s) !! c.1 = Some (udp_relay_ x, session_id_ x)) as Hv
    by (unfold view_of; by rewrite lookup_fmap, Hx).
  set (x0 := x <| server_ := _ |> <| stats := _ |> <| pending := _ |>) in He.
  destruct He as [(E1 & E2 & E3 & _ & _)|Eo E1 E2 E3 _ _|D0 _ E1 E2 E3 _].
  - rewrite E1, E2, E3. by rewrite insert_id.
  - subst o. destruct (Hpre ClientSession.ReadRequest) as [Hs Hr]; [rewrite Hp; set_solver|done|].
    rewrite E1, E2, E3. apply (tables_open _ _ c.1 (new_address e)); try done.
    + by rewrite Hv, Hr, Hs.
    + unfold view_of. by rewrite map_size_fmap.
  - destruct (destroy_server x0 D0) as (F1 & _). rewrite E1, E2, E3, F1.
    change (udp_relay_ x0) with (udp_relay_ x). change (session_id_ x0) with (session_id_ x).
    change (server_ x0) with (shared s). destruct (udp_relay_ x) as [h|] eqn:Hr.
    + by apply tables_close.
    + rewrite (Hnone eq_refl D0). cbn. rewrite insert_id; [done|]. by rewrite Hv, (Hnone eq_refl D0).
Qed.

(** *** The invariant *)
(** a session: it has gone the way of one session alone, with the configuration
    its object copied, and it is destroyed when it is counted so *)
Record session_ok (s : t) (c : ClientAccept.object) (x : session) : Prop := SessionOk {
  se_alone : ∃ cfg u st, configs s !! c.1 = Some cfg ∧ ClientSession.reachable cfg c.2 u st x;
  se_assoc : assoc_ok x;
  se_destroyed : destroyed_ x = true ↔ c ∈ ClientAccept.destroyed (srv s)
}.
Record sys_ok (m : ConfigManage.manager) (s : t) : Prop := SysOk {
  sy_app : MainWindow.app_ok resolve m (app s);
  sy_configs n : (n < ClientAccept.fresh_id (srv s))%nat → is_Some (configs s !! n);
  sy_started c : c ∈ ClientAccept.started (srv s) →
    ∃ x, sessions s !! c.1 = Some x ∧ session_ok s c x;
  sy_dom n x : sessions s !! n = Some x → ∃ k, (n, k) ∈ ClientAccept.started (srv s);
  sy_count : (size (alive (sessions s)) + length (ClientAccept.destroyed (srv s)) =
              length (ClientAccept.started (srv s)))%nat;
  sy_tables : Z.of_nat (size (sessions s)) < 2 ^ 16 → tables (shared s) (view_of (sessions s))
}.

(** objects are told apart by their address *)
Lemma started_inj m s c1 c2 :
  MainWindow.app_ok resolve m (app s) → c1 ∈ ClientAccept.started (srv s) →
  c2 ∈ ClientAccept.started (srv s) → c1.1 = c2.1 → c1 = c2.
Proof.
  intros [[_ [_ Hst _ _ _ _] _] _ _ _] H1 H2 E. rewrite list.Forall_forall in Hst.
  destruct (Hst _ H1) as [_ E1], (Hst _ H2) as [_ E2]. destruct c1, c2. cbn in *. congruence.
Qed.
Lemma started_fresh m s c :
  MainWindow.app_ok resolve m (app s) → c ∈ ClientAccept.started (srv s) →
  (c.1 < ClientAccept.fresh_id (srv s))%nat.
Proof.
  intros [[_ [_ Hst _ _ _ _] _] _ _ _] H1. rewrite list.Forall_forall in Hst. by apply Hst.
Qed.

Lemma ok_start_state m : sys_ok m (start_state resolve m).
Proof.
  split; cbn.
  - apply MainWindow.ok_start.
  - lia.
  - intros c Hc. by apply not_elem_of_nil in Hc.
  - intros n x Hx. by rewrite lookup_empty in Hx.
  - done.
  - intros _. apply tables_init.
Qed.

Lemma session_ok_configs s s' c x :
  configs s' !! c.1 = configs s !! c.1 →
  ClientAccept.destroyed (srv s') = ClientAccept.destroyed (srv s) → session_ok s c x → session_ok s' c x.
Proof. intros E1 E2 [H1 H2 H3]. split; rewrite ?E1, ?E2; done. Qed.

Lemma alive_insert_new n x xs :
  xs !! n = None → destroyed_ x = false → size (alive (<[n := x]> xs)) = S (size (alive xs)).
Proof.
  intros Hn Hd. unfold alive. rewrite map_filter_insert_True by done.
  apply map_size_insert_None, map_lookup_filter_None. left. done.
Qed.

(** *** UDP traffic *)
Lemma ok_with_udp m s u st :
  sys_ok m s → same_table (shared s) u →
  ProxyStats.sessionCount st = ProxyStats.sessionCount (ClientAccept.stats (srv s)) →
  sys_ok m (with_udp u st s).
Proof.
  intros [H1 H2 H3 H4 H5 H6] Hu E. split; try done.
  - apply ok_share; [done| |done]. intros b Hi. by apply inv_share.
  - intros c Hc. destruct (H3 c Hc) as (x & Hx & Hok). exists x. split; [done|].
    by eapply session_ok_configs; [..|exact Hok].
  - intros Hfew. eapply tables_same; [exact Hu|]. by apply H6.
Qed.

(** *** A session's handler *)
Lemma destroyed_put s (c : ClientAccept.object) x x' :
  ClientAccept.destroyed (srv (put c x x' s)) =
    if destroyed_ x' && negb (destroyed_ x) then ClientAccept.destroyed (srv s) ++ [c]
    else ClientAccept.destroyed (srv s).
Proof. unfold put. by destruct (_ && _). Qed.
Lemma started_put s (c : ClientAccept.object) x x' :
  ClientAccept.started (srv (put c x x' s)) = ClientAccept.started (srv s) ∧
  ClientAccept.fresh_id (srv (put c x x' s)) = ClientAccept.fresh_id (srv s).
Proof. unfold put. by destruct (_ && _). Qed.
Lemma shared_put s (c : ClientAccept.object) x x' : shared (put c x x' s) = server_ x'.
Proof. unfold put. by destruct (_ && _). Qed.

(** a handler never revives a session *)
Lemma effect_destroyed e o x x' : effect e o x x' → destroyed_ x = true → destroyed_ x' = true.
Proof. intros [(_ & _ & _ & E & _)|_ _ _ _ E _|E _ _ _ _ _] Hd; congruence. Qed.

Lemma alive_put n x x' xs :
  xs !! n = Some x → (destroyed_ x = true → destroyed_ x' = true) →
  (size (alive (<[n := x']> xs)) + (if destroyed_ x' && negb (destroyed_ x) then 1 else 0) =
   size (alive xs))%nat.
Proof.
  intros Hn Hd. unfold alive. destruct (destroyed_ x') eqn:D'.
  - rewrite map_filter_insert_False by (cbn; congruence). rewrite map_filter_delete.
    destruct (destroyed_ x) eqn:D; cbn [negb andb].
    + rewrite delete_id; [lia|]. apply map_lookup_filter_None. right. intros y Hy. cbn. congruence.
    + assert (filter (λ p, destroyed_ p.2 = false) xs !! n = Some x) as Hin
        by (by apply map_lookup_filter_Some).
      rewrite map_size_delete, Hin. cbn.
      enough (size (filter (λ p : nat * session, destroyed_ p.2 = false) xs) ≠ 0)%nat by lia.
      intros E. apply map_size_empty_iff in E. by rewrite E, lookup_empty in Hin.
  - rewrite map_filter_insert_True by done. cbn [andb].
    assert (destroyed_ x = false) as D by (destruct (destroyed_ x); [by discriminate Hd|done]).
    rewrite map_size_insert_Some; [lia|]. exists x. by apply map_lookup_filter_Some.
Qed.

Lemma ok_step_session m s (c : ClientAccept.object) x cfg l1 o l2 e r x' :
  sys_ok m s → c ∈ ClientAccept.started (srv s) → sessions s !! c.1 = Some x →
  configs s !! c.1 = Some cfg → pending x = l1 ++ o :: l2 → legal o r →
  heap (shared s) !! new_address e = None →
  ClientSession.handle cfg c.2 e o r
    (x <| server_ := shared s |> <| stats := ClientAccept.stats (srv s) |>
       <| pending := l1 ++ l2 |>) = Ret x' →
  sys_ok m (put c x x' s).
Proof.
  intros Hs Hc Hx Hcfg Hp Hl Hfree Hh. pose proof Hs as [H1 H2 H3 H4 H5 H6].
  destruct (H3 c Hc) as (x1 & Hx1 & [(cfg1 & u & st & Hcfg1 & Halone) Hao Hdes]).
  rewrite Hx in Hx1. injection Hx1 as <-. rewrite Hcfg in Hcfg1. injection Hcfg1 as <-.
  set (y := x <| server_ := shared s |> <| stats := ClientAccept.stats (srv s) |>).
  assert (ClientSession.reachable cfg c.2 u st y) as Hy
    by (eapply rtc_r; [exact Halone|]; apply ClientSession.step_others).
  assert (pending y = l1 ++ o :: l2) as Hpy by exact Hp.
  assert (ClientSession.reachable cfg c.2 u st x') as Hx'
    by (eapply rtc_r; [exact Hy|]; by eapply ClientSession.step_complete).
  assert (assoc_ok x') as Hao'.
  { eapply (ClientSessionUdp.assoc_ok_handle cfg c.2 e y l1 o l2 r x'); [|by apply ClientSessionUdp.assoc_ok_shared|exact Hpy|exact Hh].
    by eapply ClientSessionFacts.client_inv_reachable. }
  pose proof (ClientSessionUdp.handle_effect cfg c.2 e o r _ x' Hh) as He.
  assert (destroyed_ x = true → destroyed_ x' = true) as Hmono by exact (effect_destroyed _ _ _ _ He).
  assert (sessions (put c x x' s) = <[c.1 := x']> (sessions s)) as Es by done.
  destruct (started_put s c x x') as [Est Efr].
  assert (destroyed_ x = false → c ∉ ClientAccept.destroyed (srv s)) as Hlive
    by (rewrite <-Hdes; congruence).
  split; rewrite ?Es, ?Est, ?Efr, ?shared_put, ?destroyed_put.
  - by eapply ok_put.
  - exact H2.
  - intros c' Hc'. destruct (decide (c' = c)) as [->|Hne].
    + exists x'. split; [apply lookup_insert_eq|]. split; [by exists cfg, u, st|done|].
      rewrite destroyed_put. destruct (destroyed_ x') eqn:D'; cbn [andb].
      * split; [intros _|done]. destruct (destroyed_ x) eqn:D; cbn [negb]; [by apply Hdes|set_solver].
      * split; [done|]. rewrite <-Hdes. intros D. by specialize (Hmono D).
    + destruct (H3 c' Hc') as (z & Hz & Hok). exists z. split.
      { rewrite lookup_insert_ne; [done|]. intros E. apply Hne. symmetry. by eapply started_inj. }
      destruct Hok as [Ha1 Ha2 Ha3]. split; [exact Ha1|done|]. rewrite Ha3, destroyed_put.
      destruct (_ && _); [set_solver|done].
  - intros n z [[<- _]|[_ Hz]]%lookup_insert_Some; [|by eapply H4].
    destruct c as [n k]. by exists k.
  - pose proof (alive_put c.1 x x' (sessions s) Hx Hmono) as Ha.
    destruct (_ && _); rewrite ?length_app; cbn; lia.
  - rewrite map_size_insert_Some by by eexists. intros Hfew.
    by eapply tables_put; [apply H6| | | | | |exact He].
Qed.

(** *** The window and the accept loop *)
(** the objects made keep the configuration they copied *)
Lemma adopt_old_config s a' n :
  (n < ClientAccept.fresh_id (srv s))%nat → configs (adopt a' s) !! n = configs s !! n.
Proof.
  intros Hn. cbn [configs adopt]. destruct (_ <? _)%nat; [|done]. rewrite lookup_insert_ne; [done|lia].
Qed.
Lemma adopt_configs m s a' n :
  sys_ok m s → window_effect (srv s) (MainWindow.server a') →
  (n < ClientAccept.fresh_id (MainWindow.server a'))%nat → is_Some (configs (adopt a' s) !! n).
Proof.
  intros Hs (Hf & _ & _) Hn. destruct (decide (n < ClientAccept.fresh_id (srv s))%nat) as [Hlt|Hge].
  { rewrite adopt_old_config by done. by apply (sy_configs m). }
  destruct Hf as [Hf|Hf]; [lia|]. cbn [configs adopt]. rewrite (proj2 (Nat.ltb_lt _ _)) by lia.
  assert (n = ClientAccept.fresh_id (srv s)) as -> by lia. rewrite lookup_insert_eq. by eexists.
Qed.
(** a session that is started is new *)
Lemma adopt_new m s a' c :
  sys_ok m s → MainWindow.app_ok resolve m a' →
  ClientAccept.started (MainWindow.server a') = ClientAccept.started (srv s) ++ [c] →
  sessions s !! c.1 = None ∧ c ∉ ClientAccept.destroyed (srv s).
Proof.
  intros Hs Ha Hst.
  assert (c ∉ ClientAccept.started (srv s)) as Hnot.
  { pose proof (ClientAccept.bs_once _ (ClientAccept.iv_base _ _ (MainWindow.ok_server _ _ _ Ha))) as Hnd.
    rewrite Hst in Hnd. apply list.NoDup_app in Hnd as (_ & Hnd & _).
    intros Hc. apply (Hnd c Hc). set_solver. }
  split.
  - destruct (sessions s !! c.1) as [y|] eqn:E; [|done]. destruct (sy_dom m s Hs _ _ E) as [k Hk].
    destruct Hnot. assert ((c.1, k) = c) as <-; [|done].
    apply (started_inj m (adopt a' s)); [exact Ha|..|done];
      change (srv (adopt a' s)) with (MainWindow.server a'); rewrite Hst; set_solver.
  - intros Hc. apply Hnot.
    by apply (ClientAccept.bs_destroyed _ (ClientAccept.iv_base _ _ (MainWindow.ok_server _ _ _ (sy_app _ _ Hs)))).
Qed.

Lemma ok_adopt_new m s a' c :
  sys_ok m s → MainWindow.app_ok resolve m a' → window_effect (srv s) (MainWindow.server a') →
  ClientAccept.destroyed (MainWindow.server a') = ClientAccept.destroyed (srv s) →
  ClientAccept.started (MainWindow.server a') = ClientAccept.started (srv s) ++ [c] →
  sys_ok m (adopt a' s).
Proof.
  intros Hs Ha He Hd Hst. pose proof Hs as [_ _ H3 H4 H5 H6]. set (v' := MainWindow.server a') in *.
  set (x := ClientSession.started (ClientSession.init (ClientAccept.udp v') (ClientAccept.stats v'))).
  assert (sessions (adopt a' s) = <[c.1 := x]> (sessions s)) as Es
    by (cbn [sessions adopt]; fold v'; by rewrite Hst, drop_app_length).
  assert (srv (adopt a' s) = v') as Ev by done.
  destruct (adopt_new m s a' c Hs Ha Hst) as [Hnew Hnd].
  split; rewrite ?Es, ?Ev, ?Hd; try done.
  - intros n. by eapply adopt_configs.
  - intros c' Hc'. rewrite Hst in Hc'. apply elem_of_app in Hc' as [Hc'| ->%list_elem_of_singleton].
    + destruct (H3 c' Hc') as (y & Hy & Hok). exists y. split.
      { rewrite lookup_insert_ne; [done|]. intros E. congruence. }
      eapply session_ok_configs; [..|exact Hok]; [|done]. apply adopt_old_config.
      by eapply started_fresh; [apply Hs|].
    + exists x. split; [apply lookup_insert_eq|]. split; [|apply ClientSessionUdp.assoc_ok_start|].
      * destruct (adopt_configs m s a' c.1 Hs He) as [cfg Hc1].
        { apply (started_fresh m (adopt a' s)); [exact Ha|]. rewrite Ev, Hst. set_solver. }
        exists cfg, (ClientAccept.udp v'), (ClientAccept.stats v'). split; [done|apply rtc_refl].
      * by rewrite Ev, Hd.
  - intros n y [[<- _]|[_ Hy]]%lookup_insert_Some; [destruct c as [n k]; exists k; rewrite Hst; set_solver|].
    destruct (H4 n y Hy) as [k Hk]. exists k. rewrite Hst. set_solver.
  - rewrite alive_insert_new, Hst, length_app by done. cbn. lia.
  - rewrite map_size_insert_None by done. intros Hfew. rewrite view_insert.
    change (udp_relay_ x, session_id_ x) with (@None nat, 0). apply tables_new.
    + unfold view_of. by rewrite lookup_fmap, Hnew.
    + eapply tables_same; [apply He|]. apply H6. lia.
Qed.

Lemma ok_step_window m s a' :
  sys_ok m s → MainWindow.step sha224 (app s) a' →
  ClientAccept.destroyed (MainWindow.server a') = ClientAccept.destroyed (srv s) →
  sys_ok m (adopt a' s).
Proof.
  intros Hs Hstep Hd. pose proof (window_effect_step _ _ Hstep) as He. fold (srv s) in He.
  pose proof (MainWindow.app_ok_step sha224 resolve _ m _ _ (sy_app _ _ Hs) Hstep) as Ha.
  destruct (proj1 (proj2 He)) as [Hst|[c Hst]]; [|by eapply ok_adopt_new].
  assert (sessions (adopt a' s) = sessions s) as Es
    by (cbn [sessions adopt]; by rewrite Hst, drop_all).
  assert (srv (adopt a' s) = MainWindow.server a') as Ev by done.
  destruct Hs as [H1 H2 H3 H4 H5 H6] eqn:E. clear E.
  split; rewrite ?Es, ?Ev, ?Hst, ?Hd; try done.
  - intros n. by eapply adopt_configs.
  - intros c Hc. destruct (H3 c Hc) as (x & Hx & Hok). exists x. split; [done|].
    eapply session_ok_configs; [..|exact Hok]; [|done]. apply adopt_old_config. by eapply started_fresh.
  - intros Hfew. eapply tables_same; [apply He|]. by apply H6.
Qed.

Lemma count_up_sessions m h u st :
  ProxyStats.sessionCount (count_up m h u st) = ProxyStats.sessionCount st.
Proof. unfold count_up. destruct m as [[? data]|], (heap u !! h); try done. by destruct (_ && _). Qed.
Lemma sys_ok_step m s s' : sys_ok m s → step s s' → sys_ok m s'.
Proof.
  intros Hs Hstep. destruct Hstep as [s a' Hw Hd|s c x cfg l1 o l2 e r x' Hc Hx Hcfg Hp Hl Hf _ Hh|
    s w mm h u Hu].
  - by eapply ok_step_window.
  - by eapply ok_step_session.
  - apply ok_with_udp; [done|by eapply same_table_on_local|apply count_up_sessions].
Qed.
Lemma sys_ok_reachable m s : reachable m s → sys_ok m s.
Proof.
  unfold reachable. generalize (ok_start_state m). generalize (start_state resolve m).
  intros s0 H0 Hr. induction Hr as [|s0 s1 s2 Hs _ IH]; [done|]. eauto using sys_ok_step.
Qed.

(** ** What holds of the client *)
(** C6: However the window, the accept loop, the other sessions and the UDP
    traffic run in between, every session the client has started is in a state it
    can reach on its own, with the configuration its object copied when it was
    made and the transport of its class, so that what holds of one session holds
    of all of them; it is destroyed exactly when it is counted as destroyed; and the
    number of sessions shown is, modulo the counter's width, the number of those not
    destroyed. *)
Theorem client_sessions_on_their_own m s :
  reachable m s →
  (∀ c, c ∈ ClientAccept.started (srv s) →
     ∃ x cfg u st, sessions s !! c.1 = Some x ∧ configs s !! c.1 = Some cfg ∧
       ClientSession.reachable cfg c.2 u st x ∧
       (destroyed_ x = true ↔ c ∈ ClientAccept.destroyed (srv s))) ∧
  ProxyStats.sessionCount (ClientAccept.stats (srv s)) =
    u64 (Z.of_nat (size (filter (λ p, destroyed_ p.2 = false) (sessions s)))).
Proof.
  intros Hr%sys_ok_reachable. split.
  - intros c Hc. destruct (sy_started _ _ Hr c Hc) as (x & Hx & [(cfg & u & st & Hcfg & Ha) _ Hd]).
    by exists x, cfg, u, st.
  - etrans; [exact (ClientAccept.bs_count _ (ClientAccept.iv_base _ _ (MainWindow.ok_server _ _ _ (sy_app _ _ Hr))))|].
    fold (srv s).
    pose proof (sy_count _ _ Hr) as Hn. unfold alive in Hn. f_equal. unfold len. lia.
Qed.

(** the relay of a session *)
Lemma session_relay m s n x h :
  sys_ok m s → Z.of_nat (size (sessions s)) < 2 ^ 16 →
  sessions s !! n = Some x → udp_relay_ x = Some h →
  relays_ (shared s) !! session_id_ x = Some h ∧
  ∃ r a, heap (shared s) !! h = Some r ∧ UdpRelay.session_id_ r = session_id_ x ∧
    UdpRelay.running_ r = true ∧ UdpRelay.dtls_ r = Some a ∧
    (a <= ClientServer.channel (shared s))%nat.
Proof.
  intros Hs Hfew Hx Hh. destruct (sy_tables _ _ Hs Hfew) as [w Hw Hsrv Ha _ _ Hup].
  assert (view_of (sessions s) !! n = Some (Some h, session_id_ x)) as Hv
    by (unfold view_of; by rewrite lookup_fmap, Hx, <-Hh).
  assert (ClientServer.assocs w !! h = Some (session_id_ x)) as Hwh by (apply Ha; by exists n).
  destruct (Hup _ _ _ Hv) as (r & a & Hr & Hrun & Hd & Hle). destruct (tb_heap w Hw _ _ Hwh) as (r' & Hr' & Hid).
  rewrite Hsrv, Hr in Hr'. injection Hr' as <-. rewrite <-Hsrv. split; [by apply (tb_relays w Hw)|].
  exists r, a. by rewrite Hsrv.
Qed.

Lemma relay_data_defined data r :
  len data < max_size → UdpRelay.on_dtls_data data r ≠ Undef.
Proof.
  intros Hl. unfold UdpRelay.on_dtls_data. destruct (negb _); [done|].
  pose proof (UdpFrame.parse_safe UdpFrame.init data Hl) as Hp.
  destruct (UdpFrame.parse _ _) as [[f [n|]]|e|]; cbn; try done. by destruct (_ !! _).
Qed.

(** C7: No relay outlives its session in the table.  As long as the client has
    started fewer than 65536 sessions, the table of relays leads from the id of each
    live session with an association to its running relay, and nowhere else; so
    whatever the server sends, the client never follows a pointer to a relay that
    is gone. *)
Theorem relays_never_dangle m s :
  reachable m s → Z.of_nat (size (sessions s)) < 2 ^ 16 →
  (∀ sid h, relays_ (shared s) !! sid = Some h ↔
     ∃ c x, c ∈ ClientAccept.started (srv s) ∧ sessions s !! c.1 = Some x ∧
       destroyed_ x = false ∧ udp_relay_ x = Some h ∧ session_id_ x = sid) ∧
  (∀ sid h, relays_ (shared s) !! sid = Some h →
     ∃ r, heap (shared s) !! h = Some r ∧ UdpRelay.session_id_ r = sid ∧
          UdpRelay.running_ r = true) ∧
  (∀ data, len data < max_size → ClientServer.on_dtls_data data (shared s) ≠ Undef).
Proof.
  intros Hs%sys_ok_reachable Hfew.
  assert (∀ sid h, relays_ (shared s) !! sid = Some h →
     ∃ c x, c ∈ ClientAccept.started (srv s) ∧ sessions s !! c.1 = Some x ∧
       destroyed_ x = false ∧ udp_relay_ x = Some h ∧ session_id_ x = sid) as Hto.
  { intros sid h Hl. destruct (sy_tables _ _ Hs Hfew) as [w Hw Hsrv Ha _ _ _]. rewrite <-Hsrv in Hl.
    apply (tb_relays w Hw), Ha in Hl as [n Hn]. unfold view_of in Hn. rewrite lookup_fmap in Hn.
    destruct (sessions s !! n) as [x|] eqn:Hx; [|done]. injection Hn as Hh Hsid.
    destruct (sy_dom _ _ Hs n x Hx) as [k Hk]. exists (n, k), x. split_and!; try done.
    destruct (sy_started _ _ Hs _ Hk) as (x' & Hx' & [_ Hao _]). cbn in Hx'. rewrite Hx in Hx'.
    injection Hx' as <-. destruct (destroyed_ x) eqn:D; [|done].
    rewrite (ClientSessionUdp.ao_dead _ Hao D) in Hh. done. }
  assert (∀ sid h, relays_ (shared s) !! sid = Some h →
     ∃ r, heap (shared s) !! h = Some r ∧ UdpRelay.session_id_ r = sid ∧
          UdpRelay.running_ r = true) as Hheap.
  { intros sid h (c & x & _ & Hx & _ & Hh & <-)%Hto.
    destruct (session_relay m s c.1 x h Hs Hfew Hx Hh) as (_ & r & _ & ? & ? & ? & _). by exists r. }
  split_and!; [|exact Hheap|].
  - intros sid h. split; [apply Hto|]. intros (c & x & _ & Hx & _ & Hh & <-).
    by apply (session_relay m s c.1 x h).
  - intros data Hl. unfold ClientServer.on_dtls_data. destruct (Z.ltb_spec (len data) 2); [done|].
    destruct data as [|d0 [|d1 data]]; [len_lia..|]. rewrite vec_at_0, vec_at_cons, vec_at_0 by lia.
    cbn [mbind outcome_bind]. destruct (relays_ (shared s) !! _) as [h|] eqn:E; [|done].
    destruct (Hheap _ _ E) as (r & -> & _). pose proof (relay_data_defined data r) as Hd.
    change (drop 2 (d0 :: d1 :: data)) with data. destruct (UdpRelay.on_dtls_data data r); try done.
    exfalso. apply Hd; [len_lia|done].
Qed.

(** *** Disconnecting *)
(** flushing follows a pointer to a channel that is gone *)
Lemma flush_all_stale w hs u h r a :
  h ∈ hs → heap u !! h = Some r → UdpRelay.dtls_ r = Some a → a ≠ ClientServer.channel u →
  ClientServer.flush_all w hs u = Undef.
Proof.
  revert u. induction hs as [|h0 hs IH]; intros u Hin Hr Hd Ha; [by apply not_elem_of_nil in Hin|]. cbn.
  destruct (decide (h0 = h)) as [->|Hne].
  - rewrite Hr. unfold ClientServer.channel_of. rewrite bool_decide_eq_false_2 by congruence.
    unfold UdpRelay.has_dtls. by rewrite bool_decide_eq_true_2 by (rewrite Hd; eauto).
  - assert (h ∈ hs) as Hin' by (by apply elem_of_cons in Hin as [->|]).
    destruct (heap u !! h0) as [r0|]; [|done]. destruct (ClientServer.channel_of r0 u) as [c|].
    + destruct (UdpRelay.flush_pending w r0 c) as [r' c']. apply IH; try done. cbn.
      by rewrite lookup_insert_ne.
    + destruct (UdpRelay.has_dtls r0); [done|]. by apply IH.
Qed.

(** a datagram of the application finds no channel *)
Lemma on_local_no_channel w appl ep pl h r a u :
  Net.endpoint_wf ep → len pl < 2 ^ 62 → heap u !! h = Some r → UdpRelay.running_ r = true →
  UdpRelay.dtls_ r = Some a → (a = ClientServer.channel u → ClientServer.dtls_ u = None) →
  ClientServer.on_local w (Some (appl, app_datagram ep pl)) h u = Undef.
Proof.
  intros Hep Hpl Hr Hrun Hd Ha. unfold ClientServer.on_local. rewrite Hr.
  destruct (receive_app_datagram appl ep pl r Hep Hpl Hrun) as (r1 & -> & _ & _ & _ & Hd1 & _).
  cbn [mbind outcome_bind].
  assert (ClientServer.channel_of r1 u = None) as ->.
  { unfold ClientServer.channel_of. destruct (bool_decide _) eqn:E; [|done].
    apply bool_decide_eq_true in E. apply Ha. congruence. }
  unfold UdpRelay.has_dtls. by rewrite bool_decide_eq_true_2 by (rewrite Hd1, Hd; eauto).
Qed.

(** the user disconnects, and the server runs what was posted first *)
Definition disconnected (s : t) : MainWindow.app :=
  app s <| MainWindow.win := (MainWindow.onDisconnect (MainWindow.win (app s)) (srv s)).1 |>
        <| MainWindow.server := (MainWindow.onDisconnect (MainWindow.win (app s)) (srv s)).2 |>.
Definition stopped (s : t) : MainWindow.app :=
  disconnected s <| MainWindow.server := srv s <| ClientAccept.ready := [ClientAccept.RunStop] |>
    <| ClientAccept.udp := ClientServer.stop_dtls (shared s) |> |>.
Lemma adopt_same a s :
  ClientAccept.fresh_id (MainWindow.server a) = ClientAccept.fresh_id (srv s) →
  ClientAccept.started (MainWindow.server a) = ClientAccept.started (srv s) →
  adopt a s = Sys a (configs s) (sessions s).
Proof. intros E1 E2. unfold adopt. by rewrite E1, E2, Nat.ltb_irrefl, drop_all. Qed.

Lemma disconnect_steps s :
  MainWindow.DISCONNECT_BUTTON (MainWindow.win (app s)) = true → ClientAccept.ready (srv s) = [] →
  rtc step s (Sys (stopped s) (configs s) (sessions s)).
Proof.
  intros Hb Hq. set (s1 := Sys (disconnected s) (configs s) (sessions s)).
  eapply rtc_l; [|eapply rtc_once].
  - pose proof (step_window s (disconnected s) (MainWindow.step_disconnect sha224 _ (app s) Hb) eq_refl) as H1.
    rewrite adopt_same in H1 by done. exact H1.
  - assert (ClientAccept.ready (srv s1) = [ClientAccept.RunStopDtls; ClientAccept.RunStop]) as Hq1
      by (cbn; by rewrite Hq).
    assert (ClientAccept.run_one MainWindow.demo_answers (srv s1) = Ret (MainWindow.server (stopped s))) as Hrun
      by (unfold ClientAccept.run_one; by rewrite Hq1).
    pose proof (step_window s1 (stopped s)
      (MainWindow.step_run sha224 _ (disconnected s) _ _ I Hrun) eq_refl) as H1.
    rewrite adopt_same in H1 by done. exact H1.
Qed.

(** C28: The relays do not survive a disconnect.  A user who disconnects while an
    application has a UDP association leaves its relay with a pointer to the
    channel that is destroyed: the application's next datagram follows it.  After
    another connect with UDP, to a server given by its address (connecting to a host name
    throws), the relay still has the old pointer, and when the handshake of the new
    channel succeeds, it flushes every relay and follows it as well. *)
Theorem disconnect_dangles_relays m s n x h :
  reachable m s → Z.of_nat (size (sessions s)) < 2 ^ 16 →
  sessions s !! n = Some x → udp_relay_ x = Some h →
  MainWindow.DISCONNECT_BUTTON (MainWindow.win (app s)) = true → ClientAccept.ready (srv s) = [] →
  ∃ s1, rtc step s s1 ∧ sessions s1 = sessions s ∧
    (∀ w appl ep pl, Net.endpoint_wf ep → len pl < 2 ^ 62 →
       ClientServer.on_local w (Some (appl, app_datagram ep pl)) h (shared s1) = Undef) ∧
    let f := MainWindow.fields (MainWindow.win (app s)) in
    ∀ p addr, MainWindow.UDP_CHECKBOX f = true → MainWindow.channel_port f = Ret p →
      Net.make_address (MainWindow.HOST_NAME f) = Some addr →
      ∃ s2, rtc step s1 s2 ∧ sessions s2 = sessions s ∧
        ClientServer.has_dtls (shared s2) = true ∧
        ∀ w, ClientServer.on_handshake w true (shared s2) = Undef.
Proof.
  intros Hs%sys_ok_reachable Hfew Hx Hh Hb Hq.
  destruct (session_relay m s n x h Hs Hfew Hx Hh) as (Hrel & r & a & Hr & _ & Hrun & Hd & Hle).
  exists (Sys (stopped s) (configs s) (sessions s)). split; [by apply disconnect_steps|].
  split; [done|]. split.
  - intros w appl ep pl Hep Hpl. by eapply on_local_no_channel.
  - intros f p addr Hudp Hp Haddr. set (s1 := Sys (stopped s) (configs s) (sessions s)).
    destruct (MainWindow.onConnect_udp sha224 0 (MainWindow.win (app s1)) (MainWindow.config (app s1))
                (srv s1) p addr Hudp Hp Haddr) as (w2 & m2 & E2 & _).
    set (u2 := MainWindow.new_channel _ _ _) in E2. set (v2 := ClientAccept.start_accept _) in E2.
    pose proof (step_window s1 _
      (MainWindow.step_connect sha224 _ (app s1) MainWindow.all_ok 0 w2 m2 v2 eq_refl E2) eq_refl) as S2.
    rewrite adopt_same in S2 by done.
    eexists. split; [by apply rtc_once|]. split; [done|]. split; [done|]. intros w.
    change (shared (Sys _ _ _)) with u2. unfold ClientServer.on_handshake.
    apply (flush_all_stale _ _ _ h r a); [|done|done|cbn; lia].
    apply list_elem_of_fmap. exists (session_id_ x, h). split; [done|].
    by apply elem_of_map_to_list.
Qed.
End System.

(** ** A client at work *)
Section Demo.
Definition demo_text : Net.AddressText := λ _, lit "192.0.2.1".
#[local] Existing Instance demo_text.
#[local] Existing Instance MainWindow.demo_fixed.
#[local] Existing Instance MainWindow.demo_parser.

(** session [c] runs the handler of its [i]-th operation *)
Definition run_session (c : ClientAccept.object) (i : nat) (e : env) (r : ClientSession.result) (s : t)
    : option t :=
  x ← sessions s !! c.1; cfg ← configs s !! c.1; o ← pending x !! i;
  if ClientSessionProps.legal_b o r && bool_decide (c ∈ ClientAccept.started (srv s)) &&
     bool_decide (heap (shared s) !! new_address e = None) &&
     bool_decide (ClientSession.udp_enabled e =
       ConfigManage.udp_enabled (ConfigManage.client_cfg (MainWindow.config (app s))))
  then match ClientSession.handle cfg c.2 e o r
               (x <| server_ := shared s |> <| stats := ClientAccept.stats (srv s) |>
                  <| pending := delete i (pending x) |>) with
       | Ret x' => Some (put c x x' s)
       | _ => None
       end
  else None.
Lemma run_session_step sha224 c i e r s s' : run_session c i e r s = Some s' → step sha224 s s'.
Proof.
  unfold run_session. destruct (sessions s !! c.1) as [x|] eqn:Hx; [|done]. cbn.
  destruct (configs s !! c.1) as [cfg|] eqn:Hc; [|done]. cbn.
  destruct (pending x !! i) as [o|] eqn:Ho; [|done]. cbn.
  destruct (ClientSessionProps.legal_b o r) eqn:Hl; [|done]. cbn.
  destruct (bool_decide (c ∈ _)) eqn:Hin; [|done]. cbn.
  destruct (bool_decide (heap _ !! _ = _)) eqn:Hf; [|done]. cbn.
  destruct (bool_decide (ClientSession.udp_enabled e = _)) eqn:He; [|done].
  destruct (ClientSession.handle _ _ _ _ _ _) as [x'| |] eqn:Hh; [|done..]. intros [= <-].
  apply (step_session sha224 s c x cfg (take i (pending x)) o (drop (S i) (pending x)) e r x'); try done.
  - by eapply bool_decide_eq_true_1.
  - by rewrite take_drop_middle.
  - by apply ClientSessionProps.client_legal_b_sound.
  - by eapply bool_decide_eq_true_1.
  - by eapply bool_decide_eq_true_1.
  - by rewrite <-delete_take_drop.
Qed.

(** the user has connected, and an application's connection has been accepted *)
Definition demo_running : ClientAccept.t :=
  MainWindow.demo_next (MainWindow.server MainWindow.demo_accepted).
Lemma demo_run_accepted :
  ClientAccept.run_one MainWindow.demo_answers (MainWindow.server MainWindow.demo_accepted) = Ret demo_running.
Proof. vm_compute. reflexivity. Qed.
Definition demo_started : MainWindow.app :=
  MainWindow.demo_accepted <| MainWindow.server := demo_running |>.
Definition demo_0 : t := start_state MainWindow.demo_resolve MainWindow.demo_manager.
Definition demo_1 : t := adopt MainWindow.demo_posted demo_0.
Definition demo_1' : t := adopt MainWindow.demo_greeted demo_1.
Definition demo_2 : t := adopt MainWindow.demo_connected demo_1'.
Definition demo_3 : t := adopt MainWindow.demo_accepted demo_2.
Definition demo_4 : t := adopt demo_started demo_3.
Lemma demo_step_1 : step MainWindow.demo_sha demo_0 demo_1.
Proof.
  refine (step_window _ demo_0 MainWindow.demo_posted _ eq_refl).
  exact (MainWindow.step_connect MainWindow.demo_sha _ (app demo_0) MainWindow.all_ok 5 _ _ _ eq_refl
           MainWindow.demo_connect).
Qed.
Lemma demo_step_1' : step MainWindow.demo_sha demo_1 demo_1'.
Proof.
  refine (step_window _ demo_1 MainWindow.demo_greeted _ eq_refl).
  exact (MainWindow.step_run MainWindow.demo_sha _ MainWindow.demo_posted _ _ I MainWindow.demo_run_greeted).
Qed.
Lemma demo_step_2 : step MainWindow.demo_sha demo_1' demo_2.
Proof.
  refine (step_window _ demo_1' MainWindow.demo_connected _ eq_refl).
  exact (MainWindow.step_run MainWindow.demo_sha _ MainWindow.demo_greeted _ _ I MainWindow.demo_run_posted).
Qed.
Lemma demo_step_3 : step MainWindow.demo_sha demo_2 demo_3.
Proof.
  refine (step_window _ demo_2 MainWindow.demo_accepted _ eq_refl).
  apply (MainWindow.step_complete MainWindow.demo_sha _ MainWindow.demo_connected (0%nat, ClientSession.Tls)); [|done].
  apply (bool_decide_unpack _). vm_compute. reflexivity.
Qed.
Lemma demo_step_4 : step MainWindow.demo_sha demo_3 demo_4.
Proof.
  assert (ClientAccept.destroyed (MainWindow.server demo_started) = ClientAccept.destroyed (srv demo_3))
    as E by by_evaluation.
  refine (step_window _ demo_3 demo_started _ E).
  exact (MainWindow.step_run MainWindow.demo_sha _ MainWindow.demo_accepted _ _ I demo_run_accepted).
Qed.
Lemma demo_4_reachable : reachable MainWindow.demo_sha MainWindow.demo_resolve MainWindow.demo_manager demo_4.
Proof.
  eapply rtc_l; [exact demo_step_1|]. eapply rtc_l; [exact demo_step_1'|].
  eapply rtc_l; [exact demo_step_2|]. eapply rtc_l; [exact demo_step_3|]. apply rtc_once, demo_step_4.
Qed.

(** and the application has asked for a UDP association *)
Definition demo_ask : bytes :=
  [Byte.x05; Byte.x03; Byte.x00; Byte.x01; Byte.x00; Byte.x00; Byte.x00; Byte.x00; Byte.x00; Byte.x00].
Definition demo_env : env := ClientSession.Env 9 4000 true true true true true.
Definition demo_object : ClientAccept.object := (0%nat, ClientSession.Tls).
Definition ask_udp (s : t) : option t :=
  s ← run_session demo_object 0 demo_env (ClientSession.Received [Byte.x05; Byte.x01; Byte.x00]) s;
  s ← run_session demo_object 0 demo_env ClientSession.Done s;
  run_session demo_object 0 demo_env (ClientSession.Received demo_ask) s.
Lemma ask_udp_steps sha224 s s' : ask_udp s = Some s' → rtc (step sha224) s s'.
Proof.
  intros Hs. apply bind_Some in Hs as (s1 & H1 & Hs). apply bind_Some in Hs as (s2 & H2 & H3).
  apply (run_session_step sha224) in H1, H2, H3. by eapply rtc_l, rtc_l, rtc_once.
Qed.
Definition demo : t := default demo_4 (ask_udp demo_4).
Lemma demo_system_reachable : reachable MainWindow.demo_sha MainWindow.demo_resolve MainWindow.demo_manager demo.
Proof.
  unfold reachable. etrans; [exact demo_4_reachable|]. apply ask_udp_steps. unfold demo.
  assert (is_Some (ask_udp demo_4)) as [s ->]; [|reflexivity].
  apply (bool_decide_eq_true_1 _). vm_cast_no_check (eq_refl true).
Qed.
Definition demo_session : session :=
  default (ClientSession.init ClientServer.init ProxyStats.init) (sessions demo !! 0%nat).
Lemma demo_session_found : sessions demo !! 0%nat = Some demo_session.
Proof.
  unfold demo_session. assert (is_Some (sessions demo !! 0%nat)) as [x ->]; [|done].
  apply (bool_decide_eq_true_1 _). vm_cast_no_check (eq_refl true).
Qed.
Lemma demo_relay : udp_relay_ demo_session = Some 9%nat.
Proof. by_evaluation. Qed.
Lemma demo_started_one : ClientAccept.started (srv demo) = [demo_object].
Proof. by_evaluation. Qed.
Lemma demo_size : size (sessions demo) = 1%nat.
Proof. by_evaluation. Qed.
Lemma demo_few : Z.of_nat (size (sessions demo)) < 2 ^ 16.
Proof. by rewrite demo_size. Qed.

Lemma client_sessions_on_their_own_witness :
  (∃ x cfg u st, sessions demo !! 0%nat = Some x ∧ configs demo !! 0%nat = Some cfg ∧
     ClientSession.reachable cfg ClientSession.Tls u st x) ∧
  ProxyStats.sessionCount (ClientAccept.stats (srv demo)) =
    u64 (Z.of_nat (size (filter (λ p, destroyed_ p.2 = false) (sessions demo)))).
Proof.
  destruct (client_sessions_on_their_own _ _ _ demo demo_system_reachable) as [Ha Hn].
  split; [|exact Hn]. destruct (Ha demo_object) as (x & cfg & u & st & Hx & Hc & Hr & _).
  - rewrite demo_started_one. apply list_elem_of_here.
  - exists x, cfg, u, st. exact (conj Hx (conj Hc Hr)).
Defined.

Lemma relays_never_dangle_witness :
  relays_ (shared demo) !! 1 = Some 9%nat ∧
  (∃ r, heap (shared demo) !! 9%nat = Some r ∧ UdpRelay.session_id_ r = 1 ∧ UdpRelay.running_ r = true) ∧
  ClientServer.on_dtls_data [Byte.x00; Byte.x01; Byte.x05] (shared demo) ≠ Undef.
Proof.
  assert (relays_ (shared demo) !! 1 = Some 9%nat) as Hl by by_evaluation.
  destruct (relays_never_dangle _ _ _ demo demo_system_reachable demo_few) as (_ & H2 & H3).
  split; [exact Hl|]. split; [exact (H2 1 9%nat Hl)|]. apply H3. reflexivity.
Defined.

Lemma disconnect_dangles_relays_witness :
  ∃ s1, rtc (step MainWindow.demo_sha) demo s1 ∧ sessions s1 = sessions demo ∧
    ClientServer.on_local DtlsChannel.Written
      (Some (demo_app, app_datagram DtlsServerSession.demo_target (lit "q"))) 9%nat (shared s1) = Undef ∧
    ∃ s2, rtc (step MainWindow.demo_sha) s1 s2 ∧ ClientServer.has_dtls (shared s2) = true ∧
      ClientServer.on_handshake (λ _, DtlsChannel.Written) true (shared s2) = Undef.
Proof.
  destruct (disconnect_dangles_relays _ _ _ demo 0 demo_session 9 demo_system_reachable demo_few demo_session_found
    demo_relay) as (s1 & H1 & H2 & H3 & H4).
  - by_evaluation.
  - by_evaluation.
  - exists s1. split; [exact H1|]. split; [exact H2|]. split.
    + apply H3; [exact DtlsServerSession.demo_target_wf|reflexivity].
    + destruct (H4 8443 MainWindow.demo_host_address) as (s2 & K1 & _ & K3 & K4); [vm_compute; reflexivity..|].
      exists s2. split; [exact K1|]. split; [exact K3|apply K4].
Defined.
End Demo.
End ClientSystem.
