(* ===== verification/ClientMain.v ===== *)
(** ClientMain: the programs of the client (src/Client/main.cpp, the window with
    the system's proxy setting around it, and CliMain.cpp, without either).

    The registry functions of Windows are their results; the window's life is
    MainWindow, and counts here as what [QApplication::exec] returns. *)
From S2P Require Import Prelude Net ClientUdp ClientSession ClientAccept ConfigManage LogFile MainWindow.

Module ClientMain.
Import ConfigManage.

Definition LOCAL_PROXY_PROTOCOL : bytes := lit "socks://127.0.0.1:1080".

(** ** The registry *)
(** the values under "Internet Settings", and the handles left open *)
Record registry := Registry { ProxyEnable : Z; ProxyServer : bytes; handles : nat }.
#[global] Instance eta_registry : Eta registry := fun r =>
  Registry (ProxyEnable r) (ProxyServer r) (handles r).

(** [RegCreateKeyEx], [RegSetValueEx] and [RegCloseKey]; [ok] is whether they
    return [ERROR_SUCCESS] *)
Definition open_key (ok : bool) (r : registry) : registry :=
  if ok then r <| handles := S (handles r) |> else r.
Definition set_enable (ok : bool) (v : Z) (r : registry) : registry :=
  if ok then r <| ProxyEnable := v |> else r.
Definition set_server (ok : bool) (v : bytes) (r : registry) : registry :=
  if ok then r <| ProxyServer := v |> else r.
Definition close_key (r : registry) : registry := r <| handles := pred (handles r) |>.

Definition disable_system_socks_proxy (created set_ok : bool) (r : registry) : registry * bool :=
  let r := open_key created r in
  if negb created then (r, false)
  else
    let r := set_enable set_ok 0 r in
    if set_ok then (close_key r, true) else (r, false).

Definition enable_system_socks_proxy (created server_ok enable_ok : bool) (r : registry)
    : registry * bool :=
  let r := open_key created r in
  if negb created then (r, false)
  else
    let r := set_server server_ok LOCAL_PROXY_PROTOCOL r in
    if negb server_ok then (r, false)
    else
      let r := set_enable enable_ok 1 r in
      if enable_ok then (close_key r, true) else (r, false).

(** ** The programs *)
(** the results of the registry calls, in order, whether the local address can be
    resolved, and what [exec] returns *)
Record answers := Answers {
  enable_created : bool; server_set : bool; enable_set : bool;
  resolved : bool;
  exec_result : Z;
  disable_created : bool; disable_set : bool
}.

Section Main.
Context (sha224 : bytes → bytes) {tree : Type} `{Ptree tree}.
Context (localtime : Z → Z * Z * Z) (mktime : Z → Z → Z → Z).

(** the return value, and the registry left behind *)
Definition client_main (file : option (option tree)) (m : manager) (now : Z)
    (disk : gmap bytes bytes) (a : answers) (r : registry) : outcome (Z * registry) :=
  m ← MainWindow.start_config sha224 file m;
  _ ← LogFile.make localtime mktime (lit "overplus") (10 * 1024 * 1024) 3 1024 30 now disk;
  let '(r, enabled) := enable_system_socks_proxy (enable_created a) (server_set a) (enable_set a) r in
  if negb enabled then mret (1, r)
  else if negb (resolved a) then mret (1, r)
  else
    let '(r, _) := disable_system_socks_proxy (disable_created a) (disable_set a) r in
    mret (exec_result a, r).

(** [main] of CliMain.cpp up to [server.run()]: the server that then runs *)
Definition cli_main `{Net.AddressParser} (su : DtlsChannel.setup) (json : option tree) (m : manager) (now : Z) (disk : gmap bytes bytes)
    (resolve : bytes → bytes → outcome Net.endpoint) : outcome ClientAccept.t :=
  m ← load_config sha224 json ClientType m;
  _ ← LogFile.make localtime mktime (lit "overplus") (10 * 1024 * 1024) 3 1024 30 now disk;
  let c := client_cfg m in
  ep ← resolve (local_addr c) (local_port c);
  s ← ClientAccept.start_dtls su (udp_enabled c) (remote_addr c) (dtls_port c) (remote_port c)
        (text_password c) (ClientAccept.make (useWebSocket c) ep);
  mret (ClientAccept.start_accept s).

(** The system's proxy setting at exit.  Whatever the configuration and the
    answers of the system, a program that returns has left the proxy switched on
    exactly if it had switched it on and then could not make its server, or could
    not switch it off again; the address left behind is always port 1080, whatever
    port is configured. *)
Lemma system_proxy_at_exit file m now disk a r rc r' :
  client_main file m now disk a r = Ret (rc, r') →
  let switched_on := enable_created a && server_set a && enable_set a in
  (ProxyEnable r' =
     if switched_on
     then if resolved a && disable_created a && disable_set a then 0 else 1
     else ProxyEnable r) ∧
  (switched_on = true → ProxyServer r' = LOCAL_PROXY_PROTOCOL) ∧
  (resolved a = false → rc = 1).
Proof.
  intros Hm. apply bind_Ret_inv in Hm as (m1 & _ & Hm). apply bind_Ret_inv in Hm as (l & _ & Hm).
  revert Hm. destruct a as [[] [] [] [] ? [] []]; cbn; intros [= <- <-]; done.
Qed.

(** the command line program's server is about to listen; before that it begins the
    handshake, if it has a channel *)
Lemma cli_main_listens `{Net.AddressParser} su json m now disk resolve s :
  cli_main su json m now disk resolve = Ret s → ClientAccept.inv true s ∧ ClientAccept.loop s ∧
  ∃ q, ClientAccept.ready s = q ++ [ClientAccept.RunStart] ∧
    (q = [] ∨ q = [ClientAccept.RunChannel 1 ClientAccept.Handshake] ∧
              ∃ c, ClientServer.channel_at 1 (ClientAccept.udp s) = Some c).
Proof.
  intros Hm. unfold cli_main in Hm.
  apply bind_Ret_inv in Hm as (m1 & _ & Hm). apply bind_Ret_inv in Hm as (l & _ & Hm).
  apply bind_Ret_inv in Hm as (ep & _ & Hm). apply bind_Ret_inv in Hm as (s1 & Hs & [= <-]).
  split.
  - apply ClientAccept.inv_start_accept. eapply ClientAccept.inv_start_dtls; [exact Hs|].
    apply ClientAccept.inv_make.
  - split.
    + apply ClientAccept.loop_post; [done|].
      by eapply ClientAccept.inv_start_dtls; [exact Hs|apply ClientAccept.inv_make|apply ClientAccept.client_loop_make].
    + apply bind_Ret_inv in Hs as (u & Hu & [= <-]). unfold ClientServer.start_dtls in Hu.
      destruct (udp_enabled (client_cfg m1)); cbn [negb] in Hu.
      * apply bind_Ret_inv in Hu as (p & _ & Hu). apply bind_Ret_inv in Hu as (c & _ & [= <-]).
        eexists [_]. split; [reflexivity|]. right. split; [done|]. by eexists.
      * exists []. split; [done|by left].
Qed.
End Main.

#[local] Existing Instance MainWindow.demo_tree.
Definition demo_answers : answers := Answers true true true false 0 true true.
Definition demo_exit : outcome (Z * registry) :=
  client_main MainWindow.demo_sha LogFile.demo_date LogFile.demo_mktime None
    MainWindow.demo_manager 0 ∅ demo_answers (Registry 0 [] 0).
Lemma demo_exit_returns : demo_exit = Ret (1, Registry 1 LOCAL_PROXY_PROTOCOL 0).
Proof. vm_compute. reflexivity. Qed.
Lemma system_proxy_at_exit_witness :
  ∃ rc r', demo_exit = Ret (rc, r') ∧ ProxyEnable r' = 1 ∧ rc = 1.
Proof.
  exists 1, (Registry 1 LOCAL_PROXY_PROTOCOL 0). split; [exact demo_exit_returns|].
  destruct (system_proxy_at_exit MainWindow.demo_sha LogFile.demo_date LogFile.demo_mktime
    None MainWindow.demo_manager 0 ∅ demo_answers (Registry 0 [] 0) _ _ demo_exit_returns) as (H1 & _ & H3).
  split; [exact H1|exact (H3 eq_refl)].
Defined.
End ClientMain.
