(* ===== verification/IoContextPool.v ===== *)
(** IoContextPool: the pool of event loops new connections are spread over
    (src/Shared/IoContextPool.h, IoContextPool.cpp), and the size the server gives
    it ([get_thread_count] of src/Server/Service.cpp).

    An [io_context] is its index in the pool.  [run] starts a thread per context
    and joins them all; a context has work until it is stopped, so its thread ends
    only then.  [fetch_add] is atomic, so the calls of all threads are one sequence. *)
From S2P Require Import Prelude.

Module IoContextPool.

(** the number of contexts, and the atomic counter *)
Record t := Pool { io_contexts_ : Z; next_io_context_ : Z }.
#[global] Instance eta_t : Eta t := fun r => Pool (io_contexts_ r) (next_io_context_ r).

(** What the machine gives: the number of processors; how many contexts can be made
    (memory, file descriptors and the largest size of a vector limit it); and
    what is thrown by the attempt to make one more *)
Record machine := Machine { hardware_concurrency : Z; capacity : Z; shortage : exn }.

(** the loop of the constructor, with [n] rounds to go *)
Fixpoint create (m : machine) (n : nat) (p : t) : outcome t :=
  match n with
  | O => mret p
  | S n => if io_contexts_ p <? capacity m
           then create m n (p <| io_contexts_ := io_contexts_ p + 1 |>)
           else Throw (shortage m)
  end.
(** the constructor *)
Definition make (m : machine) (pool_size : Z) : outcome t :=
  if pool_size =? 0 then Throw runtime_error else create m (Z.to_nat pool_size) (Pool 0 0).

Definition get_io_context (p : t) : Z * t :=
  let idx := next_io_context_ p in
  (idx mod io_contexts_ p, p <| next_io_context_ := u64 (idx + 1) |>).

(** [get_thread_count]: the configured number, else the number of processors *)
Definition get_thread_count (thread_count processors : Z) : Z :=
  if 0 <? thread_count then thread_count
  else if 0 <? processors then processors else 4.

Lemma create_spec m n p :
  0 ≤ io_contexts_ p →
  create m n p = if (n =? 0)%nat || (io_contexts_ p + Z.of_nat n <=? capacity m)
                 then Ret (p <| io_contexts_ := io_contexts_ p + Z.of_nat n |>)
                 else Throw (shortage m).
Proof.
  revert p. induction n as [|n IH]; intros p Hp.
  { destruct p; cbn. by rewrite Z.add_0_r. }
  cbn [create Nat.eqb orb]. destruct (Z.ltb_spec (io_contexts_ p) (capacity m)) as [Hc|Hc].
  - set (p1 := p <| io_contexts_ := io_contexts_ p + 1 |>).
    assert (io_contexts_ p1 = io_contexts_ p + 1) as E by done. rewrite IH, E by lia.
    replace (io_contexts_ p + 1 + Z.of_nat n) with (io_contexts_ p + Z.of_nat (S n)) by lia.
    destruct (Nat.eqb_spec n 0) as [E0|]; cbn [orb]; [rewrite E0|done].
    destruct (Z.leb_spec (io_contexts_ p + Z.of_nat 1) (capacity m)); [done|lia].
  - rewrite (proj2 (Z.leb_gt _ _)) by lia. done.
Qed.
(** the constructor throws for no context and for more than there can be *)
Lemma make_spec m n :
  0 ≤ n →
  make m n = if n =? 0 then Throw runtime_error
             else if n <=? capacity m then Ret (Pool n 0) else Throw (shortage m).
Proof.
  intros Hn. unfold make. destruct (Z.eqb_spec n 0); [done|]. rewrite create_spec by done.
  destruct (Nat.eqb_spec (Z.to_nat n) 0); [lia|]. cbn [orb io_contexts_]. rewrite Z2Nat.id by done.
  by rewrite Z.add_0_l.
Qed.

(** ** Running *)
(** per context: has it been stopped, and has its thread ended *)
Record threads := Threads { stopped : list bool; ended : list bool }.
#[global] Instance eta_threads : Eta threads := fun r => Threads (stopped r) (ended r).
Definition size (p : t) : nat := Z.to_nat (io_contexts_ p).
Definition run (p : t) : threads := Threads (replicate (size p) false) (replicate (size p) false).
Definition stop (r : threads) : threads := r <| stopped := replicate (length (stopped r)) true |>.
Inductive turn : threads → threads → Prop :=
  | turn_end r i :
      stopped r !! i = Some true → ended r !! i = Some false →
      turn r (r <| ended := <[i := true]> (ended r) |>).
(** [run] returns *)
Definition joined (r : threads) : bool := forallb id (ended r).

Definition working (r : threads) : nat := length (filter (λ b, b = false) (ended r)).
Lemma turn_working r r' : turn r r' → working r = S (working r') ∧ stopped r' = stopped r ∧
  length (ended r') = length (ended r).
Proof.
  intros [r0 i _ Hi]. unfold working. cbn. split_and!; [|done|apply length_insert].
  apply list_elem_of_split_length in Hi as (l1 & l2 & E & ->). rewrite E.
  rewrite insert_app_r_alt, Nat.sub_diag by lia. cbn [insert list_insert].
  rewrite !list.filter_app, !length_app, filter_cons_True, filter_cons_False by done. cbn. lia.
Qed.
(** no thread ends before [stop]; after it, in whatever order they do, one for
    each context does, and then [run] returns *)
Lemma run_waits p r : 0 < io_contexts_ p → rtc turn (run p) r → joined r = false.
Proof.
  intros Hp Hr. inversion Hr as [|? r1 ? Ht _]; subst.
  - unfold run, joined, size. cbn. destruct (Z.to_nat (io_contexts_ p)) eqn:E; [lia|done].
  - inversion Ht as [? i Hi]; subst. cbn in Hi. apply lookup_replicate in Hi as [[=] _].
Qed.
Lemma turns_working n r r' :
  nsteps turn n r r' →
  working r = (n + working r')%nat ∧ stopped r' = stopped r ∧ length (ended r') = length (ended r).
Proof.
  induction 1 as [|n r0 r1 r2 Ht _ (W & S1 & L)]; [done|].
  destruct (turn_working _ _ Ht) as (W1 & S2 & L1). rewrite W1, W, S1, L. done.
Qed.
Lemma joined_working r : joined r = true ↔ working r = 0%nat.
Proof.
  unfold joined, working. induction (ended r) as [|[] l IH]; cbn; [done|exact IH|].
  split; intros H; discriminate H.
Qed.
Lemma run_returns p n r :
  nsteps turn n (stop (run p)) r →
  (n <= size p)%nat ∧ (joined r = true ↔ n = size p) ∧ (joined r = true ∨ ∃ r', turn r r').
Proof.
  intros Hn%turns_working. destruct Hn as (Hw & Hs & Hl).
  assert (working (stop (run p)) = size p) as E.
  { change (working (stop (run p))) with (length (filter (λ b, b = false) (replicate (size p) false))).
    induction (size p) as [|m IH]; [done|]. rewrite replicate_S, filter_cons_True by done. cbn [length].
    by rewrite IH. }
  rewrite E in Hw. rewrite joined_working. cbn in Hs, Hl. rewrite length_replicate in Hs, Hl.
  split_and!; [lia|lia|]. destruct (working r) as [|w] eqn:Ew; [by left|]. right.
  assert (∃ i, ended r !! i = Some false) as [i Hi].
  { apply list_elem_of_lookup. unfold working in Ew.
    destruct (filter _ (ended r)) as [|b l] eqn:Ef; [done|].
    assert (b ∈ filter (λ b, b = false) (ended r)) as Hb by (rewrite Ef; apply list_elem_of_here).
    apply list_elem_of_filter in Hb as [-> Hb]. done. }
  exists (r <| ended := <[i := true]> (ended r) |>). apply turn_end; [|done].
  rewrite Hs. apply lookup_replicate. split; [done|]. rewrite <-Hl. by eapply lookup_lt_Some.
Qed.

(** ** Round robin *)
(** what [n] calls in a row hand out *)
Fixpoint picks (n : nat) (p : t) : list Z * t :=
  match n with
  | O => ([], p)
  | S n => let '(i, p) := get_io_context p in
           let '(l, p) := picks n p in (i :: l, p)
  end.

Lemma picks_spec n p :
  0 < io_contexts_ p → 0 ≤ next_io_context_ p → next_io_context_ p + Z.of_nat n < 2 ^ 64 →
  picks n p = ((λ i, i mod io_contexts_ p) <$> seqZ (next_io_context_ p) (Z.of_nat n),
               p <| next_io_context_ := next_io_context_ p + Z.of_nat n |>).
Proof.
  revert p. induction n as [|n IH]; intros p Hn H0 Hc.
  { destruct p; cbn. by rewrite Z.add_0_r. }
  cbn [picks]. unfold get_io_context.
  set (p1 := p <| next_io_context_ := _ |>).
  assert (next_io_context_ p1 = next_io_context_ p + 1) as E
    by (cbn; unfold u64; rewrite Z.mod_small; lia).
  rewrite IH by (cbn [p1 io_contexts_ modify]; rewrite ?E; lia || done).
  rewrite E, (seqZ_cons _ (Z.of_nat (S n))) by lia. cbn [fmap list_fmap].
  f_equal; [do 2 f_equal; f_equal; unfold Z.succ, Z.pred; lia|].
  destruct p; unfold modify; cbn. f_equal. lia.
Qed.

(** any [n] consecutive numbers have the [n] residues *)
Lemma residues_perm n c :
  0 < n → 0 ≤ c → ((λ i, i mod n) <$> seqZ c n) ≡ₚ seqZ 0 n.
Proof.
  intros Hn Hc. apply NoDup_Permutation; [|apply NoDup_seqZ|].
  - apply NoDup_fmap_2_strong; [|apply NoDup_seqZ].
    intros x y Hx Hy E. apply elem_of_seqZ in Hx, Hy.
    pose proof (Z.div_mod x n). pose proof (Z.div_mod y n).
    assert (x / n = y / n) by nia. nia.
  - intros x. rewrite list_elem_of_fmap, elem_of_seqZ. split.
    + intros (y & -> & Hy). pose proof (Z.mod_pos_bound y n). lia.
    + intros Hx. exists (c + (x - c) mod n). rewrite elem_of_seqZ.
      pose proof (Z.mod_pos_bound (x - c) n). split; [|lia].
      rewrite Zplus_mod_idemp_r. replace (c + (x - c)) with x by lia.
      by rewrite Z.mod_small by lia.
Qed.

Lemma rounds_perm n k c :
  0 < n → 0 ≤ c →
  ((λ i, i mod n) <$> seqZ c (Z.of_nat k * n)) ≡ₚ mjoin (replicate k (seqZ 0 n)).
Proof.
  intros Hn. revert c. induction k as [|k IH]; intros c Hc; [done|].
  replace (Z.of_nat (S k) * n) with (n + Z.of_nat k * n) by lia.
  rewrite seqZ_app, fmap_app by nia. cbn [replicate mjoin list_join].
  by rewrite residues_perm, IH by lia.
Qed.

(** C40: connections are spread evenly.  The size of the server's pool is never the
    refused 0: the pool is created exactly if the machine can hold as many contexts as
    are configured, or as there are processors if none are, and otherwise its
    constructor throws what the machine throws.  A pool that is created has that size,
    and as long as the counter has not wrapped, every [k] times as many calls as
    there are contexts hand out each context exactly [k] times. *)
Theorem round_robin_fair thread_count m :
  0 ≤ thread_count →
  let n := get_thread_count thread_count (hardware_concurrency m) in
  match make m n with
  | Ret p =>
      0 < n ≤ capacity m ∧ io_contexts_ p = n ∧
      ∀ c k, 0 ≤ c → c + Z.of_nat k * n < 2 ^ 64 →
        (picks (Z.to_nat (Z.of_nat k * n)) (p <| next_io_context_ := c |>)).1 ≡ₚ
        mjoin (replicate k (seqZ 0 n))
  | Throw e => capacity m < n ∧ e = shortage m
  | Undef => False
  end.
Proof.
  intros H0 n. assert (0 < n) as Hn by (unfold n, get_thread_count; repeat case_match; lia).
  rewrite make_spec by lia. destruct (Z.eqb_spec n 0); [lia|].
  destruct (Z.leb_spec n (capacity m)); [|done]. split; [lia|]. split; [done|].
  intros c k Hc Hb. rewrite picks_spec by (cbn; rewrite ?Z2Nat.id by nia; nia). cbn.
  rewrite Z2Nat.id by nia. by apply rounds_perm.
Qed.

(** four processors, and room for 1024 contexts *)
Definition demo_machine : machine := Machine 4 1024 bad_alloc.
(** the default configuration, after five connections, and a configuration that
    asks for too much *)
Lemma round_robin_fair_witness :
  (∃ p, make demo_machine (get_thread_count 0 4) = Ret p ∧
     (picks 8 (p <| next_io_context_ := 5 |>)).1 ≡ₚ [0; 1; 2; 3; 0; 1; 2; 3]) ∧
  (1024 < 2048 ∧ bad_alloc = shortage demo_machine).
Proof.
  split.
  - pose proof (round_robin_fair 0 demo_machine ltac:(lia)) as Hp. exists (Pool 4 0).
    split; [reflexivity|]. apply (proj2 (proj2 Hp) 5 2%nat); cbn; lia.
  - pose proof (round_robin_fair 2048 demo_machine ltac:(lia)) as Hp.
    cbv zeta in Hp. change (get_thread_count 2048 _) with 2048 in Hp. rewrite make_spec in Hp by lia. exact Hp.
Defined.
Example picks_example : (picks 6 (Pool 4 5)).1 = [1; 2; 3; 0; 1; 2].
Proof. reflexivity. Qed.
End IoContextPool.
