(* ===== verification/Service.v ===== *)
(** Service: the server as a whole (src/Server/Service.h, Service.cpp).

    The accept loop, the sessions it has started, the DNS cache they share with
    the clean-up timer, and the pool of contexts they are spread over.  A step is
    one handler; the contexts run in parallel, but handlers of different sessions
    meet only in the cache, whose operations are atomic and of which a handler
    makes at most one that changes it.  Certificates, the bind and the options of
    the sockets are set-up I/O. *)
From S2P Require Import Prelude Net Decimal Trojan VRequest Ring DnsCache ServerSession.
From S2P Require Import ServerSessionFacts ConfigManage IoContextPool.

Module Service.
Import ServerSession(session, op, env, transport, Tls, Websocket, dns, pending).

(** ** State *)
Record t := Srv {
  acceptor_open : bool;
  new_connection : nat;                (* new_connection_ / websocket_connection_ *)
  fresh_id : nat;                      (* the next object allocated *)
  accepting : list nat;                (* the async_accepts in flight, by object *)
  closed : list nat;                   (* objects whose socket clean_up closed *)
  sessions : gmap nat session;         (* the connections started *)
  context_of : gmap nat Z;             (* the io_context of an object *)
  context_pool : IoContextPool.t;
  cache : DnsCache.t;                  (* DnsCacheManager::instance() *)
  timer_waiting : bool;                (* dns_cleanup_timer_ *)
  dtls_listener : option Z;            (* dtls_listener_, by its io_context *)
  running : bool                       (* context_pool has not been stopped *)
}.
#[global] Instance eta_t : Eta t := fun r =>
  Srv (acceptor_open r) (new_connection r) (fresh_id r) (accepting r) (closed r) (sessions r)
    (context_of r) (context_pool r) (cache r) (timer_waiting r) (dtls_listener r) (running r).

(** how an [async_accept] completes: with a connection, whose remote endpoint can
    be asked for or not, or with an error, [operation_aborted] or another *)
Inductive accept_result := Accepted (endpoint_ok : bool) | AcceptFailed (aborted : bool).
#[global] Instance accept_result_eq_dec : EqDecision accept_result.
Proof. solve_decision. Defined.

(** ** The accept loops *)
(** a new object on the next context, and an [async_accept] into it *)
Definition do_accept (s : t) : t :=
  let '(ctx, pool) := IoContextPool.get_io_context (context_pool s) in
  let c := fresh_id s in
  s <| context_pool := pool |> <| fresh_id := S c |> <| new_connection := c |>
    <| context_of := <[c := ctx]> (context_of s) |> <| accepting := accepting s ++ [c] |>.

(** [new_connection_->start()] *)
Definition start_connection (s : t) : t :=
  s <| sessions := <[new_connection s :=
          ServerSession.start (ServerSession.init (cache s))]> (sessions s) |>.
Definition clean_up (s : t) : t := s <| closed := closed s ++ [new_connection s] |>.

(** the handler of [do_accept] *)
Definition on_accept (r : accept_result) (s : t) : t :=
  if negb (acceptor_open s) then clean_up s
  else match r with
       | AcceptFailed true => clean_up s
       | Accepted true => do_accept (start_connection s)
       | Accepted false => do_accept (clean_up s)
       | AcceptFailed false => do_accept (clean_up s)
       end.
(** the handler of [do_websocket_accept], which goes on after every error *)
Definition on_websocket_accept (r : accept_result) (s : t) : t :=
  do_accept (match r with Accepted true => start_connection s | _ => s end).

Definition handle_accept (tr : transport) (r : accept_result) (s : t) : t :=
  match tr with Tls => on_accept r s | Websocket => on_websocket_accept r s end.

(** ** Timer, signals and start-up *)
(** [start_dns_cleanup_timer] *)
Definition start_dns_cleanup_timer (s : t) : t := s <| timer_waiting := true |>.
Definition on_timer (failed : bool) (now : Z) (s : t) : t :=
  if failed then s
  else start_dns_cleanup_timer (s <| cache := DnsCache.cleanup_expired (cache s) now |>).

(** the handler of [add_signals]: the timer is cancelled and the pool stopped *)
Definition on_signal (s : t) : t := s <| timer_waiting := false |> <| running := false |>.

(** [start_dtls_listener] *)
Definition start_dtls_listener (cfg : ConfigManage.ServerConfig) (s : t) : t :=
  if decide (ConfigManage.s_dtls_port cfg = []) then s
  else let '(ctx, pool) := IoContextPool.get_io_context (context_pool s) in
       s <| context_pool := pool |> <| dtls_listener := Some ctx |>.

Definition transport_of (cfg : ConfigManage.ServerConfig) : transport :=
  if ConfigManage.websocketEnabled cfg then Websocket else Tls.

(** [Service::Service]; the first context is the acceptor's *)
Definition make (cfg : ConfigManage.ServerConfig) (hw : IoContextPool.machine) (cache : DnsCache.t)
    : outcome t :=
  pool ← IoContextPool.make hw
           (IoContextPool.get_thread_count (ConfigManage.thread_count cfg)
              (IoContextPool.hardware_concurrency hw));
  let '(_, pool) := IoContextPool.get_io_context pool in
  let s := Srv true 0 0 [] [] ∅ ∅ pool cache false None true in
  let s := do_accept (start_dns_cleanup_timer s) in
  mret (if ConfigManage.dtls_enabled cfg then start_dtls_listener cfg s else s).

(** ** The server runs *)
Section System.
Context (cfg : ConfigManage.ServerConfig).
Context (resolves : bytes → bytes → Net.endpoint → Prop).
Let allowed := ConfigManage.allowed_passwords cfg.
Let tr := transport_of cfg.

Inductive step : t → t → Prop :=
  | step_accept s l1 c l2 r :
      running s = true → accepting s = l1 ++ c :: l2 →
      step s (handle_accept tr r (s <| accepting := l1 ++ l2 |>))
  | step_session s c x l1 o l2 e r x' :
      running s = true → sessions s !! c = Some x → pending x = l1 ++ o :: l2 →
      ServerSession.legal tr resolves o r →
      ServerSession.handle allowed tr e o r
        (x <| dns := cache s |> <| pending := l1 ++ l2 |>) = Ret x' →
      step s (s <| sessions := <[c := x']> (sessions s) |> <| cache := dns x' |>)
  | step_timer s failed now :
      running s = true → timer_waiting s = true →
      step s (on_timer failed now (s <| timer_waiting := false |>))
  | step_signal s : running s = true → step s (on_signal s)
  (* the sessions of the DTLS listener use the cache *)
  | step_dtls s o :
      running s = true → ServerSession.cache_op_sound resolves o →
      step s (s <| cache := DnsCache.step (cache s) o |>).

(** the states of a server started with this configuration; [main] sets the
    cache's time to live *)
Definition reachable (s : t) : Prop :=
  ∃ hw s0, make cfg hw (DnsCache.set_default_ttl DnsCache.init (ConfigManage.dns_cache_ttl cfg))
             = Ret s0 ∧ rtc step s0 s.
End System.

(** ** What a handler does to the cache *)
Section Cache.
Import ServerSession ServerSessionFacts.
Context (allowed : gset bytes) (tr : transport).
Context (resolves : bytes → bytes → Net.endpoint → Prop).

Create Rewrite HintDb dns_db.
Lemma dns_set_lane d l s : dns (set_lane d l s) = dns s.
Proof. by destruct d. Qed.
Lemma dns_fill d data s : dns (fill d data s) = dns s.
Proof. by destruct d. Qed.
Lemma dns_start o s : dns (start_op o s) = dns s.
Proof. done. Qed.
Lemma dns_destroy s : dns (destroyed s) = dns s.
Proof. unfold destroyed. by case_decide. Qed.
Lemma dns_advance n s : dns (udp_advance n s) = dns s.
Proof. by apply (udp_advance_fields n s). Qed.
Lemma dns_udp_send_first e p ep s s' :
  udp_send_first tr e p ep s = Ret s' → dns s' = dns s.
Proof.
  unfold udp_send_first. destruct (downstream_udp_open s); [by intros [= <-]|].
  destruct (udp_open_ok e); [by intros [= <-]|intros ->%destroy_Ret; apply dns_destroy].
Qed.
Lemma dns_do_connect ep s : dns (do_connect ep s) = dns s.
Proof. done. Qed.
Lemma dns_do_resolve e s : dns (do_resolve e s) = dns s.
Proof. unfold do_resolve. cbv zeta. by destruct (DnsCache.get_tcp _ _ _). Qed.
Lemma dns_do_send d s : dns (do_send d s) = dns s.
Proof.
  unfold do_send. destruct (SessionBuffer.empty _); [|done]. cbn.
  destruct (pausing _); unfold start_read; by rewrite ?dns_start, dns_set_lane.
Qed.
Lemma dns_write d data s : dns (async_bidirectional_write d data s) = dns s.
Proof.
  unfold async_bidirectional_write, enqueue_write. cbv zeta.
  destruct (sending _); destruct (SessionBuffer.has_space _ _); unfold start_read;
    by rewrite ?dns_start, ?dns_set_lane, ?dns_do_send, ?dns_set_lane.
Qed.
#[local] Hint Rewrite dns_set_lane dns_fill dns_start dns_destroy dns_advance
  dns_do_connect dns_do_resolve dns_do_send dns_write : dns_db.

Lemma dns_udp_proxy e s s' : handle_trojan_udp_proxy tr e s = Ret s' → dns s' = dns s.
Proof.
  unfold handle_trojan_udp_proxy. intros H. apply bind_Ret_inv in H as ([p [n|]] & _ & H).
  - destruct (DnsCache.get_udp _ _ _);
      [rewrite (dns_udp_send_first _ _ _ _ _ H)|injection H as <-]; by autorewrite with dns_db.
  - destruct (_ <? _); ret_inv H; by autorewrite with dns_db.
Qed.

Lemma put_udp_sound e p o eps ep c :
  (o = UdpResolveFirst p (Decimal.host_port (packet_host p) (packet_port p)) ∨
   o = UdpResolveNext p (Decimal.host_port (packet_host p) (packet_port p))) →
  0 <= packet_port p → legal tr resolves o (Resolved eps) → pick_endpoint eps = Some ep →
  ∃ op, cache_op_sound resolves op ∧
    DnsCache.put_udp c (now e) (Decimal.host_port (packet_host p) (packet_port p)) ep =
    DnsCache.step c op.
Proof.
  intros Ho Hp Hl Hep.
  exists (DnsCache.Put DnsCache.UDP (now e) (Decimal.host_port (packet_host p) (packet_port p)) ep).
  split; [|done]. exists (packet_host p), (packet_port p). split_and!; [done|done|].
  eapply pick_endpoint_resolves; [|exact Hep]. destruct Ho as [->| ->]; by inversion Hl.
Qed.

(** a handler stores at most one endpoint, one the resolver gave for its key *)
Lemma handle_dns e o r s s' :
  (is_pre o = true ∨ good resolves s o) → legal tr resolves o r →
  handle allowed tr e o r s = Ret s' →
  dns s' = dns s ∨
  ∃ op, cache_op_sound resolves op ∧ dns s' = DnsCache.step (dns s) op.
Proof.
  intros Hg Hl Hh. destruct o; cbn [handle] in Hh.
  1: { left. apply on_handshake_cases in Hh as [->|[->| ->]]; by autorewrite with dns_db. }
  1: { left. apply on_accept_cases in Hh as [->| ->]; by autorewrite with dns_db. }
  all: try (left; destruct r; cbn in Hh; ret_inv Hh; by autorewrite with dns_db).
  - left. destruct r; cbn [on_request] in Hh;
      try (apply destroy_Ret in Hh as ->; by autorewrite with dns_db).
    inv_bind Hh. apply bind_Ret_inv in Hh as ([valid s2] & E2 & Hh).
    assert (dns s2 = dns s) as E3.
    { destruct x; apply bind_Ret_inv in E2 as (u & _ & E2); injection E2 as _ <-; done. }
    destruct valid; [|apply destroy_Ret in Hh as ->; by rewrite dns_destroy].
    destruct (decide _); [|apply destroy_Ret in Hh as ->; by rewrite dns_destroy].
    destruct (_ && _); [by rewrite (dns_udp_proxy _ _ _ Hh)|].
    injection Hh as <-. by rewrite dns_do_resolve.
  - destruct r as [| | | |[|ep eps]]; cbn in Hh; ret_inv Hh; autorewrite with dns_db; auto.
    right. destruct Hg as [[=]|(-> & -> & Hp & ->)].
    exists (DnsCache.Put DnsCache.TCP (now e) (Decimal.host_port (request_host s) (request_port s)) ep).
    split; [|done]. exists (request_host s), (request_port s). split_and!; [done|done|].
    inversion Hl as [| | | | | | | | | |? ? ? ? HF| |]; subst. by inversion HF.
  - left. destruct r; cbn in Hh; try (ret_inv Hh; by autorewrite with dns_db).
    destruct (options_ok e); [|done]. by destruct (negb _); injection Hh as <-.
  - left. unfold on_read in Hh.
    destruct r; repeat case_decide; ret_inv Hh; by autorewrite with dns_db.
  - left. destruct r; cbn in Hh; ret_inv Hh; unfold sent; by autorewrite with dns_db.
  - left. destruct r; cbn in Hh; try (ret_inv Hh; by autorewrite with dns_db).
    by rewrite (dns_udp_proxy _ _ _ Hh).
  - left. destruct r; cbn [on_udp_read_down] in Hh; try (ret_inv Hh; by autorewrite with dns_db).
    apply bind_Ret_inv in Hh as ([p [n|]] & _ & Hh).
    + destruct (DnsCache.get_udp _ _ _); injection Hh as <-; by autorewrite with dns_db.
    + destruct (_ <? _); ret_inv Hh; by autorewrite with dns_db.
  - left. destruct r; cbn in Hh; try (ret_inv Hh; by autorewrite with dns_db).
    destruct (datagram_waiting e); [|done]. injection Hh as <-. by autorewrite with dns_db.
  - destruct r; cbn in Hh; try (left; ret_inv Hh; by autorewrite with dns_db).
    destruct (pick_endpoint eps) as [ep|] eqn:Hep;
      [|left; ret_inv Hh; by autorewrite with dns_db].
    right. rewrite (dns_udp_send_first _ _ _ _ _ Hh). destruct Hg as [[=]|(Hp & ->)].
    exact (put_udp_sound e p _ eps ep _ (or_introl eq_refl) Hp Hl Hep).
  - destruct r; cbn in Hh; try (left; ret_inv Hh; by autorewrite with dns_db).
    destruct (pick_endpoint eps) as [ep|] eqn:Hep; ret_inv Hh; autorewrite with dns_db; auto.
    right. destruct Hg as [[=]|(Hp & ->)].
    exact (put_udp_sound e p _ eps ep _ (or_intror eq_refl) Hp Hl Hep).
Qed.

(** the same for any pending operation of a session that is well on its way *)
Lemma session_dns s l1 o l2 e r s' :
  auth allowed resolves s → pending s = l1 ++ o :: l2 → legal tr resolves o r →
  handle allowed tr e o r (s <| pending := l1 ++ l2 |>) = Ret s' →
  dns s' = dns s ∨
  ∃ op, cache_op_sound resolves op ∧ dns s' = DnsCache.step (dns s) op.
Proof.
  intros Ha Hp Hl Hh. apply (handle_dns e o r (rest s l1 l2) s'); [|done|exact Hh].
  destruct Ha as [[_ HG]|[HG _]]; destruct (forall_rest s l1 l2 o Hp _ HG) as [Hx _];
    [right; apply Hx|by left].
Qed.
End Cache.

(** ** Every session of the server is a session on its own *)
Section Lift.
Context (cfg : ConfigManage.ServerConfig).
Context (resolves : bytes → bytes → Net.endpoint → Prop).
Let allowed := ConfigManage.allowed_passwords cfg.
Let tr := transport_of cfg.

(** [x], seen with the cache as it is now, is a state the session could have
    reached by itself, other sessions using the cache in between *)
Definition on_its_own (c : DnsCache.t) (x : session) : Prop :=
  ∃ cache0, ServerSessionFacts.cache_sound resolves cache0 ∧
            ServerSession.reachable allowed tr resolves cache0 (x <| dns := c |>).

Record sound (s : t) : Prop := Sound {
  sd_cache : ServerSessionFacts.cache_sound resolves (cache s);
  sd_sessions : map_Forall (λ _ x, on_its_own (cache s) x) (sessions s)
}.

Lemma own_step c x op :
  on_its_own c x → ServerSession.cache_op_sound resolves op → on_its_own (DnsCache.step c op) x.
Proof.
  intros (c0 & Hc0 & Hr) Ho. exists c0. split; [done|]. eapply rtc_r; [exact Hr|].
  exact (ServerSession.step_cache _ _ _ (x <| dns := c |>) op Ho).
Qed.

Lemma sound_same s s' : cache s' = cache s → sessions s' = sessions s → sound s → sound s'.
Proof. intros E1 E2 [H1 H2]. split; rewrite ?E1, ?E2; done. Qed.

Lemma sound_op s s' op :
  cache s' = DnsCache.step (cache s) op → sessions s' = sessions s →
  ServerSession.cache_op_sound resolves op → sound s → sound s'.
Proof.
  intros E1 E2 Ho [H1 H2]. split; rewrite ?E1, ?E2.
  - by apply ServerSessionFacts.cache_step_sound.
  - intros c x Hx. by apply own_step; [apply (H2 c)|].
Qed.

Lemma sound_do_accept s : sound s → sound (do_accept s).
Proof. by apply sound_same. Qed.

Lemma sound_start s : sound s → sound (start_connection s).
Proof.
  intros [H1 H2]. split; [done|]. apply map_Forall_insert_2; [|done].
  exists (cache s). split; [done|]. apply rtc_refl.
Qed.

Lemma sound_accept tr' r s : sound s → sound (handle_accept tr' r s).
Proof.
  intros Hs. assert (sound (clean_up s)) by by apply (sound_same s).
  destruct tr'; cbn.
  - unfold on_accept. destruct (negb _); [done|].
    destruct r as [[]|[]]; try apply sound_do_accept; try done. by apply sound_start.
  - apply sound_do_accept. destruct r as [[]|]; [by apply sound_start|done..].
Qed.

Lemma sound_session s c x l1 o l2 e r x' :
  sound s → sessions s !! c = Some x → pending x = l1 ++ o :: l2 →
  ServerSession.legal tr resolves o r →
  ServerSession.handle allowed tr e o r (x <| dns := cache s |> <| pending := l1 ++ l2 |>) = Ret x' →
  sound (s <| sessions := <[c := x']> (sessions s) |> <| cache := dns x' |>).
Proof.
  intros [H1 H2] Hx Hp Hl Hh.
  destruct (H2 c x Hx) as (c0 & Hc0 & Hr). set (x0 := x <| dns := cache s |>) in *.
  assert (pending x0 = l1 ++ o :: l2) as Hp0 by exact Hp.
  destruct (ServerSessionFacts.auth_reachable allowed tr resolves c0 _ Hc0 Hr) as [Ha _].
  pose proof (ServerSession.step_complete allowed tr resolves x0 l1 o l2 e r x' Hp0 Hl Hh) as Hstep.
  pose proof (session_dns allowed tr resolves x0 l1 o l2 e r x' Ha Hp0 Hl Hh) as Hdns.
  change (dns x0) with (cache s) in Hdns.
  assert (on_its_own (dns x') x') as Hown.
  { exists c0. split; [done|].
    assert (x' <| dns := dns x' |> = x') as -> by by destruct x'.
    by eapply rtc_r. }
  split; cbn [cache sessions].
  - change (ServerSessionFacts.cache_sound resolves (dns x')).
    destruct Hdns as [->|(op & Hop & ->)]; [done|]. by apply ServerSessionFacts.cache_step_sound.
  - change (map_Forall (λ _ x, on_its_own (dns x') x) (<[c := x']> (sessions s))).
    apply map_Forall_insert_2; [done|]. intros c2 x2 Hx2.
    destruct Hdns as [->|(op & Hop & ->)]; [by apply (H2 c2)|].
    by apply own_step; [apply (H2 c2)|].
Qed.

Lemma sound_step s s' : sound s → step cfg resolves s s' → sound s'.
Proof.
  intros Hs Hstep. destruct Hstep as [s l1 c l2 r _ Hp|s c x l1 o l2 e r x' _ Hx Hp Hl Hh
    |s failed now _ Ht|s _|s o _ Ho].
  - apply sound_accept. by apply (sound_same s).
  - by eapply sound_session.
  - unfold on_timer. destruct failed; [by apply (sound_same s)|].
    by apply (sound_op s _ (DnsCache.Cleanup now)).
  - by apply (sound_same s).
  - by apply (sound_op s _ o).
Qed.

Lemma sound_make hw s :
  make cfg hw (DnsCache.set_default_ttl DnsCache.init (ConfigManage.dns_cache_ttl cfg)) = Ret s →
  sound s.
Proof.
  unfold make. intros H. apply bind_Ret_inv in H as (pool & _ & H).
  destruct (IoContextPool.get_io_context pool) as [ctx pool']. injection H as <-.
  match goal with |- sound (if _ then start_dtls_listener cfg ?s0 else ?s0) =>
    assert (sound s0) as Hs end.
  { apply sound_do_accept. split; cbn; [split; apply map_Forall_empty|apply map_Forall_empty]. }
  destruct (ConfigManage.dtls_enabled cfg); [|exact Hs].
  unfold start_dtls_listener. case_decide; [exact Hs|].
  destruct (IoContextPool.get_io_context _). by eapply sound_same; [..|exact Hs].
Qed.

Lemma sound_reachable s : reachable cfg resolves s → sound s.
Proof.
  intros (hw & s0 & Hmake & Hrun). apply sound_make in Hmake as H0. clear Hmake.
  induction Hrun as [|s0 s1 s2 Hs _ IH]; [done|]. by eapply IH, sound_step.
Qed.

(** a handler changes the cache at most once, and keeps its promise *)
Lemma cache_accept tr' r s : cache (handle_accept tr' r s) = cache s.
Proof.
  destruct tr'; cbn; [unfold on_accept; destruct (negb _); [done|]|]; by destruct r as [[]|[]].
Qed.
Lemma step_cache s s' :
  sound s → step cfg resolves s s' →
  cache s' = cache s ∨
  ∃ o, ServerSession.cache_op_sound resolves o ∧ cache s' = DnsCache.step (cache s) o.
Proof.
  intros [_ H2] Hstep. destruct Hstep as [s l1 c l2 r _ Hp|s c x l1 o l2 e r x' _ Hx Hp Hl Hh
    |s failed now _ Ht|s _|s o _ Ho].
  - left. by rewrite cache_accept.
  - destruct (H2 c x Hx) as (c0 & Hc0 & Hr).
    destruct (ServerSessionFacts.auth_reachable allowed tr resolves c0 _ Hc0 Hr) as [Ha _].
    exact (session_dns allowed tr resolves (x <| dns := cache s |>) l1 o l2 e r x' Ha Hp Hl Hh).
  - unfold on_timer. destruct failed; [by left|]. right. by exists (DnsCache.Cleanup now).
  - by left.
  - right. by exists o.
Qed.

(** What is proved of one session holds of every session of the running
    server.  However many connections the server has accepted, and however their
    handlers, the accept loop and the clean-up timer interleave, each session is
    in a state it could have reached on its own, with the others' use of the
    shared DNS cache as its environment; and the cache holds only endpoints the
    resolver gave for the host and port of the key. *)
Lemma sessions_on_their_own s c x :
  reachable cfg resolves s → sessions s !! c = Some x →
  ServerSessionFacts.cache_sound resolves (cache s) ∧
  ∃ cache0, ServerSessionFacts.cache_sound resolves cache0 ∧
    ServerSession.reachable (ConfigManage.allowed_passwords cfg) (transport_of cfg) resolves
      cache0 (x <| dns := cache s |>).
Proof.
  intros [Hc Hs]%sound_reachable Hx. split; [done|]. exact (Hs c x Hx).
Qed.
End Lift.

(** ** The accept loop *)
Section Accept.
Context (cfg : ConfigManage.ServerConfig).
Context (resolves : bytes → bytes → Net.endpoint → Prop).

(** one accept is in flight, into an object not used so far; an aborted accept
    ends the loop for TLS *)
Record loop_ok (s : t) : Prop := LoopOk {
  lo_open : acceptor_open s = true;
  lo_fresh : fresh_id s = S (new_connection s);
  lo_accept : accepting s = [new_connection s] ∨ transport_of cfg = Tls ∧ accepting s = [];
  lo_new : accepting s ≠ [] → sessions s !! new_connection s = None ∧ new_connection s ∉ closed s;
  lo_used c : is_Some (sessions s !! c) ∨ c ∈ closed s → (c <= new_connection s)%nat;
  lo_apart c : is_Some (sessions s !! c) → c ∉ closed s
}.

Lemma loop_same s s' :
  acceptor_open s' = acceptor_open s → fresh_id s' = fresh_id s →
  new_connection s' = new_connection s → accepting s' = accepting s → closed s' = closed s →
  (∀ c, is_Some (sessions s' !! c) ↔ is_Some (sessions s !! c)) → loop_ok s → loop_ok s'.
Proof.
  intros E1 E2 E3 E4 E5 E6 [H1 H2 H3 H4 H5 H6]. split; rewrite ?E1, ?E2, ?E3, ?E4, ?E5; try done.
  - intros Hne. destruct (H4 Hne) as [Hn Hc]. split; [|done].
    apply eq_None_not_Some. rewrite E6, Hn. by intros [].
  - intros c. rewrite E6. apply H5.
  - intros c. rewrite E6. apply H6.
Qed.

(** the object of the accept that has completed has been started, closed or
    dropped *)
Record between (s : t) : Prop := Between {
  bt_open : acceptor_open s = true;
  bt_fresh : fresh_id s = S (new_connection s);
  bt_accept : accepting s = [];
  bt_used c : is_Some (sessions s !! c) ∨ c ∈ closed s → (c <= new_connection s)%nat;
  bt_apart c : is_Some (sessions s !! c) → c ∉ closed s
}.

Lemma loop_between s l1 c l2 :
  loop_ok s → accepting s = l1 ++ c :: l2 →
  c = new_connection s ∧ sessions s !! c = None ∧ c ∉ closed s ∧ l1 ++ l2 = [] ∧
  between (s <| accepting := l1 ++ l2 |>).
Proof.
  intros [H1 H2 H3 H4 H5 H6] Hp.
  destruct H3 as [E|[_ E]]; rewrite E in Hp; [|by destruct l1].
  assert (c = new_connection s ∧ l1 ++ l2 = []) as [-> Hnil]
    by (destruct l1 as [|? [|]]; by simplify_list_eq).
  destruct (H4 ltac:(by rewrite E)) as [Hn Hc].
  by split_and!.
Qed.

Lemma between_start s :
  between s → new_connection s ∉ closed s → between (start_connection s).
Proof.
  intros [H1 H2 H3 H5 H6] Hc. split; try done; cbn [sessions closed new_connection].
  - intros c [[x Hx]|Hin]; [|by apply H5; right].
    change (sessions (start_connection s) !! c = Some x) in Hx. unfold start_connection in Hx. cbn in Hx.
    apply lookup_insert_Some in Hx as [[<- _]|[_ Hx]]; [done|]. apply H5. by left.
  - intros c [x Hx]. unfold start_connection in Hx. cbn in Hx.
    apply lookup_insert_Some in Hx as [[<- _]|[_ Hx]]; [done|]. by apply H6.
Qed.
Lemma between_clean_up s :
  between s → sessions s !! new_connection s = None → between (clean_up s).
Proof.
  intros [H1 H2 H3 H5 H6] Hn. split; try done; unfold clean_up; cbn.
  - intros c [Hx|[Hin|Hin%list_elem_of_singleton]%elem_of_app]; [by apply H5; left|by apply H5; right|].
    by subst c.
  - intros c Hx [Hin|Hin%list_elem_of_singleton]%elem_of_app; [by eapply H6|].
    subst c. rewrite Hn in Hx. by destruct Hx.
Qed.
Lemma loop_do_accept s : between s → loop_ok (do_accept s).
Proof.
  intros [H1 H2 H3 H5 H6]. split; unfold do_accept; cbn; rewrite ?H3; try done.
  - by left.
  - intros _. split.
    + apply eq_None_not_Some. intros Hx. rewrite H2 in Hx. specialize (H5 _ (or_introl Hx)). lia.
    + intros Hin. rewrite H2 in Hin. specialize (H5 _ (or_intror Hin)). lia.
  - intros c Hc. specialize (H5 c Hc). rewrite H2. lia.
Qed.
Lemma loop_end s : transport_of cfg = Tls → between s → loop_ok s.
Proof. intros Htr [H1 H2 H3 H5 H6]. split; try done. by right. Qed.

Lemma loop_accept s l1 c l2 r :
  loop_ok s → accepting s = l1 ++ c :: l2 →
  loop_ok (handle_accept (transport_of cfg) r (s <| accepting := l1 ++ l2 |>)).
Proof.
  intros Hs Hp. destruct (loop_between s l1 c l2 Hs Hp) as (-> & Hn & Hc & Hnil & Hb).
  set (s0 := s <| accepting := l1 ++ l2 |>) in *.
  assert (between (start_connection s0)) by by apply between_start.
  assert (between (clean_up s0)) by by apply between_clean_up.
  destruct (transport_of cfg) eqn:Htr; unfold handle_accept.
  - unfold on_accept. rewrite (bt_open _ Hb). simpl negb. cbv iota.
    destruct r as [[]|[]]; first [by apply loop_do_accept|by apply loop_end].
  - unfold on_websocket_accept. apply loop_do_accept. by destruct r as [[]|].
Qed.

Lemma loop_step s s' : loop_ok s → step cfg resolves s s' → loop_ok s'.
Proof.
  intros Hs Hstep. destruct Hstep as [s l1 c l2 r _ Hp|s c x l1 o l2 e r x' _ Hx Hp Hl Hh
    |s failed now _ Ht|s _|s o _ Ho].
  - by eapply loop_accept.
  - apply (loop_same s); try done. intros c2. cbn. rewrite lookup_insert_is_Some.
    destruct (decide (c = c2)) as [<-|]; [|naive_solver]. rewrite Hx. naive_solver.
  - unfold on_timer. destruct failed; by apply (loop_same s).
  - by apply (loop_same s).
  - by apply (loop_same s).
Qed.

Lemma loop_make hw c s : make cfg hw c = Ret s → loop_ok s.
Proof.
  unfold make. intros H. apply bind_Ret_inv in H as (pool & _ & H).
  destruct (IoContextPool.get_io_context pool) as [ctx pool']. injection H as <-.
  match goal with |- loop_ok (if _ then start_dtls_listener cfg ?s0 else ?s0) =>
    assert (loop_ok s0) as Hs end.
  { unfold do_accept. split; cbn; try done; [by left|..].
    - split; [done|]. by intros ?%elem_of_nil.
    - intros c' [[x Hx]|Hin%elem_of_nil]; done.
    - by intros c' [x Hx]. }
  destruct (ConfigManage.dtls_enabled cfg); [|exact Hs].
  unfold start_dtls_listener. case_decide; [exact Hs|].
  destruct (IoContextPool.get_io_context _). eapply loop_same; [..|exact Hs]; done.
Qed.

(** C19: the accept loop starts every connection exactly once and never stops by
    itself.  In every reachable state of the server, when an accept completes, it
    is the only one in flight and its object has not been used before.  If it
    brought a connection, exactly that object is started, as a fresh session on
    the current cache; else no session is touched.  Then, unless the accept was
    aborted, a new one is in flight into yet another object. *)
Theorem accepts_each_connection_once s l1 c l2 r :
  reachable cfg resolves s → accepting s = l1 ++ c :: l2 →
  let s' := handle_accept (transport_of cfg) r (s <| accepting := l1 ++ l2 |>) in
  l1 ++ l2 = [] ∧ sessions s !! c = None ∧ c ∉ closed s ∧
  sessions s' = (if decide (r = Accepted true)
                 then <[c := ServerSession.start (ServerSession.init (cache s))]> (sessions s)
                 else sessions s) ∧
  (r ≠ AcceptFailed true → ∃ c', accepting s' = [c'] ∧ c' ≠ c ∧ sessions s' !! c' = None ∧
                                 c' ∉ closed s').
Proof.
  intros (hw & s0 & Hmake & Hrun) Hp s'.
  assert (loop_ok s) as Hs.
  { apply loop_make in Hmake as H0. clear Hmake Hp s'.
    induction Hrun as [|s0 s1 s2 Hs _ IH]; [done|]. by eapply IH, loop_step. }
  pose proof (loop_accept s l1 c l2 r Hs Hp) as Hs'. fold s' in Hs'.
  destruct (loop_between s l1 c l2 Hs Hp) as (Hc & Hn & Hcl & Hnil & Hb).
  split_and!; [done..| |].
  - subst s'. destruct (transport_of cfg); cbn.
    + unfold on_accept. rewrite (bt_open _ Hb). subst c. by destruct r as [[]|[]].
    + subst c. by destruct r as [[]|[]].
  - intros Hr. exists (new_connection s').
    assert (accepting s' = [new_connection s'] ∧ new_connection s' = fresh_id s) as [Ha Hnew].
    { subst s'. destruct (transport_of cfg); cbn.
      - unfold on_accept. rewrite (bt_open _ Hb). cbn. rewrite Hnil. by destruct r as [[]|[]].
      - rewrite Hnil. by destruct r as [[]|[]]. }
    split; [done|]. split; [rewrite Hnew, Hc, (lo_fresh _ Hs); lia|].
    apply (lo_new _ Hs'). by rewrite Ha.
Qed.
End Accept.

(** ** Witnesses *)
(** a server on two contexts, just started, and with a first connection *)
Definition demo_cfg : ConfigManage.ServerConfig :=
  ConfigManage.Server (lit "0.0.0.0") (lit "443") {[ lit "secret" ]} ConfigManage.L_NOTICE
    [] [] [] false false [] 600 600 2.
Definition demo_cache : DnsCache.t :=
  DnsCache.set_default_ttl DnsCache.init (ConfigManage.dns_cache_ttl demo_cfg).
Definition demo_server : t :=
  do_accept (start_dns_cleanup_timer
    (Srv true 0 0 [] [] ∅ ∅ (IoContextPool.get_io_context (IoContextPool.Pool 2 0)).2
       demo_cache false None true)).
Definition demo_served : t := handle_accept Tls (Accepted true) (demo_server <| accepting := [] |>).
Definition demo_resolves (h p : bytes) (ep : Net.endpoint) : Prop := True.

Lemma demo_server_reachable : reachable demo_cfg demo_resolves demo_server.
Proof. exists IoContextPool.demo_machine, demo_server. split; [reflexivity|apply rtc_refl]. Qed.
Lemma demo_served_reachable : reachable demo_cfg demo_resolves demo_served.
Proof.
  exists IoContextPool.demo_machine, demo_server. split; [reflexivity|].
  apply rtc_once. exact (step_accept demo_cfg demo_resolves demo_server [] 0%nat [] (Accepted true)
                           eq_refl eq_refl).
Qed.

Lemma accepts_each_connection_once_witness :
  accepting demo_server = [] ++ 0%nat :: [] ∧
  sessions (handle_accept Tls (Accepted true) (demo_server <| accepting := [] ++ [] |>)) =
    <[0%nat := ServerSession.start (ServerSession.init (cache demo_server))]> (sessions demo_server).
Proof.
  split; [reflexivity|].
  exact (proj1 (proj2 (proj2 (proj2 (accepts_each_connection_once demo_cfg demo_resolves demo_server
    [] 0%nat [] (Accepted true) demo_server_reachable eq_refl))))).
Defined.

Lemma sessions_on_their_own_witness :
  ∃ cache0, ServerSessionFacts.cache_sound demo_resolves cache0 ∧
    ServerSession.reachable {[ lit "secret" ]} Tls demo_resolves cache0
      (ServerSession.start (ServerSession.init demo_cache) <| dns := demo_cache |>).
Proof.
  exact (proj2 (sessions_on_their_own demo_cfg demo_resolves demo_served 0%nat _
    demo_served_reachable (lookup_insert_eq ∅ 0%nat _))).
Defined.
End Service.
