(* ===== verification/ServerSystem.v ===== *)
(** ServerSystem: the server with everything that runs in it (src/Server).

    Service runs the accept loop, the sessions of the TCP side and the timer,
    DtlsServer the listener with the sessions of the UDP side.  Their handlers run
    on the contexts of one pool and meet in the DNS cache of the process only: each
    side sees the other as uses of the cache. *)
From S2P Require Import Prelude Net Decimal DnsCache ServerSession ServerSessionFacts.
From S2P Require Import DtlsServerSession DtlsServer ConfigManage IoContextPool Service.

Module ServerSystem.
Import Service(running, cache, sessions, dtls_listener).
Import ServerSessionFacts(cache_sound).
Import DtlsServerSession(event(..), event_op, handle, pending, dns).

Record t := Sys {
  service : Service.t;
  listener : option DtlsServer.t       (* the object behind dtls_listener_ *)
}.

Section System.
Context (cfg : ConfigManage.ServerConfig) (sha224 : bytes → bytes).
Context (resolves : bytes → bytes → Net.endpoint → Prop).
Let allowed := ConfigManage.allowed_passwords cfg.

(** the server of [main]: [Service::Service], and the listener it has made; [r]
    is how the constructor of the listener went *)
Definition make (hw : IoContextPool.machine) (r : DtlsServer.setup) : outcome t :=
  s ← Service.make cfg hw (DnsCache.set_default_ttl DnsCache.init (ConfigManage.dns_cache_ttl cfg));
  mret (Sys s (match dtls_listener s with
               | Some _ => Some (DtlsServer.start (DtlsServer.make r (cache s)))
               | None => None
               end)).

Inductive step : t → t → Prop :=
  | step_service s l s' :
      Service.step cfg resolves s s' →
      step (Sys s l) (Sys s' ((λ d, d <| DtlsServer.cache := cache s' |>) <$> l))
  | step_listener s d d' :
      running s = true → DtlsServer.own_step allowed sha224 resolves d d' →
      step (Sys s (Some d)) (Sys (s <| cache := DtlsServer.cache d' |>) (Some d')).

Definition reachable (r : DtlsServer.setup) (y : t) : Prop :=
  ∃ hw y0, make hw r = Ret y0 ∧ rtc step y0 y.

(** ** What the listener does to the cache *)
Definition sound_uses (c c' : DnsCache.t) : Prop :=
  ∃ ops, Forall (ServerSession.cache_op_sound resolves) ops ∧ c' = foldl DnsCache.step c ops.

(** a lookup of a DTLS session stores what the resolver gave for its key *)
Lemma event_uses_sound x ev o l1 l2 x' c :
  DtlsServer.ports_ok x → event_op ev = Some o → pending x = l1 ++ o :: l2 →
  DtlsServer.legal_event resolves ev →
  handle allowed sha224 ev (DtlsServer.share c x <| pending := l1 ++ l2 |>) = Ret x' →
  sound_uses c (dns x').
Proof.
  intros Hports He Hp Hl Hh.
  destruct (DtlsServer.dtls_handle_dns _ _ _ _ _ Hh) as (ops & Hops & Huse). exists ops. split; [|exact Hops].
  unfold DtlsServer.ports_ok in Hports. rewrite Hp in Hports.
  apply list.Forall_app in Hports as [_ [Ho _]%list.Forall_cons].
  eapply list.Forall_impl; [exact Huse|]. intros u Hu.
  destruct ev as [| |now d p pl sid [ep|]| | |]; try done. cbn in Hu. subst u.
  injection He as <-. by exists d, p.
Qed.

Lemma listener_uses_sound b s s' :
  DtlsServer.srv_ok allowed sha224 b s → DtlsServer.own_step allowed sha224 resolves s s' →
  sound_uses (DtlsServer.cache s) (DtlsServer.cache s').
Proof.
  intros [Htable Hlive Hdead _ _ _] Hstep. destruct Hstep as [s n r s' Hn Hl Hc|s ep x ev o l1 l2 x' Hx He Hp Hl Hh
    |s d1 x d2 ev o l1 l2 x' Hx He Hp Hl Hh].
  - destruct r as [| |now ep acc rd]; [destruct Hl|injection Hc as <-; by exists []|].
    apply bind_Ret_inv in Hc as ([l x] & Hd & [= <-]).
    apply DtlsServerSession.dispatch_spec in Hd as [Hx _]; [|by apply DtlsServer.table_alter].
    destruct (DtlsServer.dtls_handle_dns _ _ (Datagram now acc rd) _ _ Hx) as ([|u ops] & Hops & Huse);
      [|by apply list.Forall_cons in Huse as [[] _]].
    exists []. split; [done|]. cbn. rewrite Hops. cbn.
    rewrite lookup_alter, decide_True by done.
    by destruct (DtlsServerSession.DtlsListener.sessions_ (DtlsServer.table s) !! ep).
  - destruct (Hlive ep x Hx) as (c0 & h & Hrun & _). eapply event_uses_sound; [|exact He|exact Hp|exact Hl|exact Hh].
    by eapply DtlsServer.run_ports.
  - rewrite Hx in Hdead. apply list.Forall_app in Hdead as [_ [(c0 & h & Hrun & _) _]%list.Forall_cons].
    eapply event_uses_sound; [|exact He|exact Hp|exact Hl|exact Hh]. by eapply DtlsServer.run_ports.
Qed.

(** ** Each side sees the other as uses of the cache *)
Lemma service_uses s c :
  Service.reachable cfg resolves s → running s = true → sound_uses (cache s) c →
  Service.reachable cfg resolves (s <| cache := c |>).
Proof.
  intros (hw & s0 & Hmake & Hrun) Hr (ops & Hops & ->). exists hw, s0. split; [exact Hmake|].
  etrans; [exact Hrun|]. clear Hrun Hmake. revert s Hr.
  induction Hops as [|o ops Ho _ IH]; intros s Hr; [by destruct s|].
  eapply rtc_l; [by apply (Service.step_dtls cfg resolves s o)|].
  set (s1 := s <| cache := DnsCache.step (cache s) o |>).
  replace (s <| cache := foldl DnsCache.step (cache s) (o :: ops) |>)
    with (s1 <| cache := foldl DnsCache.step (cache s1) ops |>) by done.
  by apply IH.
Qed.
Lemma listener_uses r c0 d c o :
  DtlsServer.reachable allowed sha224 resolves r c0 d →
  c = DtlsServer.cache d ∨ c = DnsCache.step (DtlsServer.cache d) o →
  DtlsServer.reachable allowed sha224 resolves r c0 (d <| DtlsServer.cache := c |>).
Proof.
  intros Hd [->| ->]; [by destruct d|]. eapply rtc_r; [exact Hd|]. apply DtlsServer.step_cache.
Qed.

Definition parts_ok (r : DtlsServer.setup) (y : t) : Prop :=
  Service.reachable cfg resolves (service y) ∧
  ∀ d, listener y = Some d →
    DtlsServer.cache d = cache (service y) ∧
    ∃ c0, DtlsServer.reachable allowed sha224 resolves r c0 d.

Lemma parts_ok_make hw r y : make hw r = Ret y → parts_ok r y.
Proof.
  unfold make. intros H. apply bind_Ret_inv in H as (s & Hs & [= <-]). split.
  - exists hw, s. split; [exact Hs|apply rtc_refl].
  - cbn. intros d Hd. destruct (dtls_listener s); [|done]. injection Hd as <-. split; [done|].
    exists (cache s). apply rtc_refl.
Qed.
Lemma parts_ok_step r y y' : parts_ok r y → step y y' → parts_ok r y'.
Proof.
  intros [Hs Hd] Hstep. destruct Hstep as [s l s' Hstep|s d d' Hrun Hstep]; cbn in *.
  - split; cbn.
    + destruct Hs as (hw & s0 & Hmake & Hr). exists hw, s0. split; [exact Hmake|]. by eapply rtc_r.
    + intros d' Hd'. destruct l as [d|]; [|done]. injection Hd' as <-. split; [done|].
      destruct (Hd d eq_refl) as (Hc & c0 & Hr). exists c0.
      destruct (Service.step_cache cfg resolves s s') as [E|(o & _ & E)];
        [by apply Service.sound_reachable|done| |].
      * apply (listener_uses _ _ _ _ (DnsCache.Cleanup 0) Hr). left. by rewrite Hc.
      * apply (listener_uses _ _ _ _ o Hr). right. by rewrite Hc.
  - destruct (Hd d eq_refl) as (Hc & c0 & Hr). split; cbn.
    + apply service_uses; [done|done|]. rewrite <-Hc.
      apply (listener_uses_sound _ _ _ (DtlsServer.srv_ok_reachable allowed sha224 resolves _ _ _ Hr) Hstep).
    + intros d1 [= <-]. split; [done|]. exists c0. eapply rtc_r; [exact Hr|]. by apply DtlsServer.step_own.
Qed.
Lemma parts_ok_reachable r y : reachable r y → parts_ok r y.
Proof.
  intros (hw & y0 & Hmake%parts_ok_make & Hrun).
  induction Hrun as [|y0 y1 y2 Hs _ IH]; [done|]. by eapply IH, parts_ok_step.
Qed.

(** C5: what is proved of the parts holds of the running server.  However many
    connections and DTLS clients there are, and however the handlers of all their
    sessions, the accept loop, the listener, the timer and the signals interleave,
    the cache holds only endpoints the resolver gave for the host and port of the
    key, so no client poisons the names of another; every TCP session is in a
    state it could have reached on its own, with the others' use of the cache as
    its environment; and so is the listener with all its sessions. *)
Theorem server_sessions_on_their_own r y :
  reachable r y →
  let c := cache (service y) in
  cache_sound resolves c ∧
  (∀ i x, sessions (service y) !! i = Some x →
     ∃ c0, cache_sound resolves c0 ∧
       ServerSession.reachable allowed (Service.transport_of cfg) resolves c0
         (x <| ServerSession.dns := c |>)) ∧
  (∀ d, listener y = Some d →
     DtlsServer.cache d = c ∧ ∃ c0, DtlsServer.reachable allowed sha224 resolves r c0 d).
Proof.
  intros [Hs Hd]%parts_ok_reachable. split; [by apply (Service.sound_reachable cfg resolves _ Hs)|].
  split; [|exact Hd]. intros i x Hx. by apply (Service.sound_reachable cfg resolves _ Hs) in Hx.
Qed.

End System.

(** ** Both sides at work *)
Section Demo.
Definition demo_cfg : ConfigManage.ServerConfig :=
  ConfigManage.Server (lit "0.0.0.0") (lit "443") DtlsServerSession.demo_allowed ConfigManage.L_NOTICE
    [] [] [] false true (lit "8443") 600 600 2.
Definition demo_service : Service.t :=
  Service.start_dtls_listener demo_cfg (Service.do_accept (Service.start_dns_cleanup_timer
    (Service.Srv true 0 0 [] [] ∅ ∅ (IoContextPool.get_io_context (IoContextPool.Pool 2 0)).2
       Service.demo_cache false None true))).
Definition demo_listening : DtlsServer.t :=
  DtlsServer.start (DtlsServer.make DtlsServer.Bound Service.demo_cache).
Definition demo_start : t := Sys demo_service (Some demo_listening).
(** a TCP connection is accepted *)
Definition demo_accepted : Service.t :=
  Service.handle_accept ServerSession.Tls (Service.Accepted true)
    (demo_service <| Service.accepting := [] |>).
Definition demo_listener : DtlsServer.t :=
  demo_listening <| DtlsServer.cache := cache demo_accepted |>.
(** and a DTLS client says hello *)
Definition demo_greeted : DtlsServer.t := DtlsServer.demo_recv DtlsServer.demo_hello demo_listener.
Definition demo_running : t :=
  Sys (demo_accepted <| cache := DtlsServer.cache demo_greeted |>) (Some demo_greeted).

Lemma demo_service_made : Service.make demo_cfg IoContextPool.demo_machine Service.demo_cache = Ret demo_service.
Proof.
  unfold Service.make. replace (IoContextPool.make _ _) with (Ret (IoContextPool.Pool 2 0)) by reflexivity.
  cbn [mbind outcome_bind]. unfold demo_service.
  destruct (IoContextPool.get_io_context (IoContextPool.Pool 2 0)).
  assert (ConfigManage.dtls_enabled demo_cfg = true) as -> by reflexivity. reflexivity.
Qed.
Lemma demo_started : make demo_cfg IoContextPool.demo_machine DtlsServer.Bound = Ret demo_start.
Proof.
  unfold make. change (DnsCache.set_default_ttl _ _) with Service.demo_cache.
  rewrite demo_service_made. reflexivity.
Qed.
Lemma demo_accept_step :
  step demo_cfg DtlsServerSession.demo_digest Service.demo_resolves demo_start
    (Sys demo_accepted (Some demo_listener)).
Proof.
  apply (step_service demo_cfg DtlsServerSession.demo_digest Service.demo_resolves demo_service
    (Some demo_listening) demo_accepted).
  exact (Service.step_accept demo_cfg Service.demo_resolves demo_service [] 0%nat []
       (Service.Accepted true) eq_refl eq_refl).
Qed.
Lemma demo_greet_step :
  step demo_cfg DtlsServerSession.demo_digest Service.demo_resolves
    (Sys demo_accepted (Some demo_listener)) demo_running.
Proof.
  apply (step_listener demo_cfg DtlsServerSession.demo_digest Service.demo_resolves demo_accepted
    demo_listener demo_greeted); [reflexivity|].
  exact (DtlsServer.demo_recv_step DtlsServer.demo_hello demo_listener eq_refl eq_refl eq_refl).
Qed.
Lemma demo_running_reachable :
  reachable demo_cfg DtlsServerSession.demo_digest Service.demo_resolves DtlsServer.Bound demo_running.
Proof.
  exists IoContextPool.demo_machine, demo_start. split; [exact demo_started|].
  exact (rtc_l _ _ _ _ demo_accept_step (rtc_once _ _ demo_greet_step)).
Qed.

Lemma server_sessions_on_their_own_witness :
  DtlsServer.cache demo_greeted = cache (service demo_running) ∧
  ∃ c0, DtlsServer.reachable DtlsServerSession.demo_allowed DtlsServerSession.demo_digest
          Service.demo_resolves DtlsServer.Bound c0 demo_greeted.
Proof.
  destruct (server_sessions_on_their_own demo_cfg DtlsServerSession.demo_digest Service.demo_resolves
    DtlsServer.Bound demo_running demo_running_reachable) as (_ & _ & H).
  exact (H demo_greeted eq_refl).
Defined.
End Demo.
End ServerSystem.
