(* ===== verification/ServerMain.v ===== *)
(** ServerMain: the program of the server from its command line and its
    configuration file on (src/Server/main.cpp).

    Parsing the command line and reading JSON are library code: what they give is
    an argument here.  Where the program's log goes is in Logger. *)
From S2P Require Import Prelude Net Decimal Trojan DnsCache ServerSession ServerSessionFacts.
From S2P Require Import DtlsServerSession DtlsServer ConfigManage IoContextPool Service ServerSystem.

Module ServerMain.
Import ConfigManage.
Import ServerSystem(service, listener).
Import DtlsServerSession(event(..), read_result(..), authenticates, hashed, client_ep_).

(** what [po::parse_command_line] makes of the arguments; it throws on bad ones *)
Inductive command_line := BadOption | Help | Version | Config (config_file : bytes).

(** [main] returns, or [server.run()] is reached *)
Inductive ending := Exited (status : Z) | Running (m : manager) (y : ServerSystem.t).

Section Main.
Context `{Ptree tree} (sha224 : bytes → bytes) (read_json : bytes → option tree).
Context (resolves : bytes → bytes → Net.endpoint → Prop).

(** [Service server], which the machine [hw] and the outcome of the bind and of the
    certificates decide: [None] when its constructor throws *)
Definition start_service (hw : IoContextPool.machine) (setup : option DtlsServer.setup) (m : manager)
    : outcome ServerSystem.t :=
  match setup with
  | None => Throw runtime_error
  | Some r => ServerSystem.make (server_cfg m) hw r
  end.

(** [main] up to [server.run()]; whatever is thrown is logged, and [main] returns 0 *)
Definition start (cl : command_line) (hw : IoContextPool.machine) (setup : option DtlsServer.setup) (m : manager)
    : ending :=
  match cl with
  | BadOption | Help | Version => Exited 0
  | Config config_file =>
      match (m ← load_config sha224 (read_json config_file) ServerType m;
             y ← start_service hw setup m; mret (m, y)) with
      | Ret (m, y) => Running m y
      | _ => Exited 0
      end
  end.

(** the server at work *)
Definition at_work (cl : command_line) (m0 : manager) (y : ServerSystem.t) : Prop :=
  ∃ hw setup m y0, start cl hw setup m0 = Running m y0 ∧
    rtc (ServerSystem.step (server_cfg m) sha224 resolves) y0 y.

(** the file lists a password with this digest *)
Definition listed (t : tree) (digest : bytes) : Prop :=
  ∃ items item, get_child t (lit "allowed_passwords") = Some items ∧ item ∈ items ∧
    sha224 (get_value item) = digest.

Lemma start_running cl hw setup m0 m y :
  start cl hw setup m0 = Running m y →
  ∃ file t r, cl = Config file ∧ read_json file = Some t ∧ setup = Some r ∧
    server_cfg m = populate_server sha224 t ∧ ServerSystem.make (server_cfg m) hw r = Ret y.
Proof.
  destruct cl as [| | |file]; cbn; try done.
  destruct (read_json file) as [t|] eqn:Hf; [|done]. cbn.
  destruct setup as [r|]; [|done]. cbn [start_service mbind outcome_bind].
  set (m1 := _ <| loaded := true |>).
  destruct (ServerSystem.make (server_cfg m1) hw r) as [y'| |] eqn:Hy; [|done..].
  intros [= <- <-]. by exists file, t, r.
Qed.

Lemma listed_allowed t digest :
  mjoin (Trojan.hex02 <$> digest) ∈ allowed_passwords (populate_server sha224 t) → listed t digest.
Proof.
  cbn. rewrite read_passwords_spec. intros (items & item & Hi & Hin & E). exists items, item.
  split_and!; [done|done|]. by apply hex_inj.
Qed.

Lemma authenticates_line allowed ev :
  authenticates allowed sha224 ev = true →
  ∃ now acc line more, ev = Datagram now acc (Data (line ++ Byte.x0a :: more)) ∧
    hashed sha224 line ∈ allowed.
Proof.
  destruct ev as [now acc [d| | |]| | | | |]; try done. cbn.
  destruct (find [Byte.x0a] d) as [pos|] eqn:Hf; [|done]. intros Hin%bool_decide_eq_true.
  apply find_Some in Hf as (line & more & -> & ->). exists now, acc, line, more. split; [done|].
  revert Hin. unfold len. by rewrite Nat2Z.id, take_app_length.
Qed.

(** C3: nobody is served without a password of the file.  Once [main] has reached
    [server.run()], it has read the file of its command line, and whatever clients
    of either kind do from then on: a TCP session that has a socket to a target
    open, or any operation in flight but the handshakes and the reading of the
    request, has presented the digest of a password the file lists, in
    hexadecimal; and a DTLS session that proxies, has an operation in flight, has
    sent anything or remembers a target belongs to a client from whose own
    endpoint a datagram came with a line whose digest is that of a listed
    password. *)
Theorem only_listed_passwords_served cl m0 y :
  at_work cl m0 y →
  ∃ file t, cl = Config file ∧ read_json file = Some t ∧
    (∀ i x, Service.sessions (service y) !! i = Some x →
       ServerSession.downstream_open x = true ∨ ServerSession.downstream_udp_open x = true ∨
         (∃ o, o ∈ ServerSession.pending x ∧ o ≠ ServerSession.Handshake ∧
               o ≠ ServerSession.AcceptWs ∧ o ≠ ServerSession.ReadRequest) →
       ∃ digest, listed t digest ∧ ServerSession.password x = mjoin (Trojan.hex02 <$> digest)) ∧
    (∀ d x, listener y = Some d → DtlsServer.of_listener d x → DtlsServer.busy x →
       ∃ now acc line more,
         (client_ep_ x, Datagram now acc (Data (line ++ Byte.x0a :: more))) ∈ DtlsServer.received d ∧
         listed t (sha224 line)).
Proof.
  intros (hw & setup & m & y0 & Hstart & Hrun).
  destruct (start_running _ _ _ _ _ _ Hstart) as (file & t & r & -> & Hf & -> & Hcfg & Hmake).
  exists file, t. split; [done|]. split; [exact Hf|].
  assert (ServerSystem.parts_ok (server_cfg m) sha224 resolves r y) as [Hs Hd]
    by (apply ServerSystem.parts_ok_reachable; by exists hw, y0).
  split.
  - intros i x Hx Ho. destruct (Service.sound_reachable _ _ _ Hs) as [_ Hown].
    destruct (Hown i x Hx) as (c0 & Hc0 & Hr).
    pose proof (ServerSessionFacts.served_only_with_password _ _ _ _ _ Hc0 Hr Ho) as Hin. rewrite Hcfg in Hin.
    cbn in Hin. apply read_passwords_spec in Hin as (items & item & Hi & Hit & E).
    exists (sha224 (get_value item)). split; [by exists items, item|exact E].
  - intros d x Hl Hof Hbusy. destruct (Hd d Hl) as (_ & c0 & Hr%DtlsServer.srv_ok_reachable).
    destruct (DtlsServer.busy_authenticated _ _ _ _ _ Hr Hof Hbusy) as (ev & Hev & Ha).
    apply authenticates_line in Ha as (now & acc & line & more & -> & Hin).
    exists now, acc, line, more. split; [exact Hev|]. rewrite Hcfg in Hin. by apply listed_allowed.
Qed.

(** a program that cannot start ends as one that was stopped does *)
Lemma failed_start_exits_0 file hw setup m :
  read_json file = None ∨ setup = None → start (Config file) hw setup m = Exited 0.
Proof. unfold start. intros [->| ->]; [done|]. by destruct (read_json file). Qed.

(** A negative number of threads is converted to a huge one: the constructor of the
    pool throws, and the program ends.  (A vector of pointers holds less than 2^60.) *)
Lemma negative_thread_count file t n hw setup m :
  read_json file = Some t → get_int t (lit "thread_count") = Some (- n) → 0 < n <= 2 ^ 31 →
  IoContextPool.capacity hw < 2 ^ 60 →
  (∀ r, ServerSystem.make (populate_server sha224 t) hw r = Throw (IoContextPool.shortage hw)) ∧
  start (Config file) hw setup m = Exited 0.
Proof.
  intros Hf Hn Hr Hcap.
  assert (thread_count (populate_server sha224 t) = 2 ^ 64 - n) as E.
  { cbn [populate_server thread_count]. unfold int. rewrite Hn. cbn [default].
    unfold u64. rewrite <-(Z_mod_plus_full (- n) 1), Z.mod_small by lia. lia. }
  assert (∀ r, ServerSystem.make (populate_server sha224 t) hw r = Throw (IoContextPool.shortage hw)) as Hm.
  { intros r. unfold ServerSystem.make, Service.make. rewrite E. unfold IoContextPool.get_thread_count.
    rewrite (proj2 (Z.ltb_lt 0 _)), IoContextPool.make_spec by lia.
    rewrite (proj2 (Z.eqb_neq _ _)), (proj2 (Z.leb_gt _ _)) by lia. done. }
  split; [exact Hm|]. unfold start, load_config. rewrite Hf. destruct setup as [r|]; [|done].
  cbn [mbind outcome_bind mret outcome_ret start_service].
  set (m1 := _ <| loaded := true |>).
  change (server_cfg m1) with (populate_server sha224 t). by rewrite Hm.
Qed.
End Main.

(** ** A server, its file and a client that logs in *)
Section Demo.
(** the file is [None]; an entry of its list of passwords is [Some] of the text *)
Definition demo_strings : list (bytes * bytes) :=
  [(lit "local_addr", lit "0.0.0.0"); (lit "local_port", lit "443"); (lit "log_level", lit "NOTICE");
   (lit "dtls_port", lit "8443")].
Definition demo_find {A} (l : list (bytes * A)) (t : option bytes) (k : bytes) : option A :=
  match t with Some _ => None | None => snd <$> List.find (λ e, bool_decide (e.1 = k)) l end.
#[local] Instance demo_tree : Ptree (option bytes) := {|
  get_string := demo_find demo_strings;
  get_bool := demo_find [(lit "dtls_enabled", true)];
  get_int := demo_find [(lit "thread_count", 2)];
  get_child := demo_find [(lit "allowed_passwords", [Some (lit "pw")])];
  get_value := default []
|}.
Definition demo_file (_ : bytes) : option (option bytes) := Some None.

Lemma demo_populated :
  populate_server DtlsServerSession.demo_digest (None : option bytes) = ServerSystem.demo_cfg.
Proof. vm_compute. reflexivity. Qed.

Definition demo_manager : manager :=
  Manager (Client [] [] [] [] [] [] [] false [] false) ServerSystem.demo_cfg false L_NOTICE.
Lemma demo_start_running :
  start DtlsServerSession.demo_digest demo_file (Config (lit "server.json")) IoContextPool.demo_machine (Some DtlsServer.Bound)
    demo_manager =
  Running (demo_manager <| current_level := L_NOTICE |> <| loaded := true |>) ServerSystem.demo_start.
Proof.
  unfold start, load_config, demo_file. rewrite demo_populated.
  cbn [mbind outcome_bind mret outcome_ret start_service].
  set (m1 := _ <| loaded := true |>).
  change (server_cfg m1) with ServerSystem.demo_cfg. by rewrite ServerSystem.demo_started.
Qed.

(** the client of ServerSystem's example sends its password line *)
Definition demo_logged_in : DtlsServer.t :=
  DtlsServer.demo_recv DtlsServer.demo_login ServerSystem.demo_greeted.
Definition demo_busy : DtlsServerSession.t :=
  default (DtlsServerSession.init DtlsServerSession.demo_client DnsCache.init)
    (DtlsServerSession.DtlsListener.sessions_ (DtlsServer.table demo_logged_in)
       !! DtlsServerSession.demo_client).
Definition demo_working : ServerSystem.t :=
  ServerSystem.Sys (service ServerSystem.demo_running
                      <| Service.cache := DtlsServer.cache demo_logged_in |>) (Some demo_logged_in).
Lemma demo_login_step :
  ServerSystem.step ServerSystem.demo_cfg DtlsServerSession.demo_digest Service.demo_resolves
    ServerSystem.demo_running demo_working.
Proof.
  apply (ServerSystem.step_listener ServerSystem.demo_cfg DtlsServerSession.demo_digest
    Service.demo_resolves _ ServerSystem.demo_greeted demo_logged_in); [reflexivity|].
  apply (DtlsServer.demo_recv_step DtlsServer.demo_login ServerSystem.demo_greeted);
    vm_compute; reflexivity.
Qed.
Lemma demo_at_work :
  at_work DtlsServerSession.demo_digest demo_file Service.demo_resolves (Config (lit "server.json"))
    demo_manager demo_working.
Proof.
  exists IoContextPool.demo_machine, (Some DtlsServer.Bound), (demo_manager <| current_level := L_NOTICE |> <| loaded := true |>),
    ServerSystem.demo_start.
  split; [exact demo_start_running|].
  exact (rtc_l _ _ _ _ ServerSystem.demo_accept_step
           (rtc_l _ _ _ _ ServerSystem.demo_greet_step (rtc_once _ _ demo_login_step))).
Qed.
Lemma demo_busy_found :
  DtlsServerSession.DtlsListener.sessions_ (DtlsServer.table demo_logged_in)
    !! DtlsServerSession.demo_client = Some demo_busy.
Proof. vm_compute. reflexivity. Qed.
Lemma demo_busy_proxies : DtlsServerSession.state_ demo_busy = DtlsServerSession.PROXY.
Proof. vm_compute. reflexivity. Qed.

Lemma only_listed_passwords_served_witness :
  ∃ now acc line more,
    (client_ep_ demo_busy, Datagram now acc (Data (line ++ Byte.x0a :: more)))
      ∈ DtlsServer.received demo_logged_in ∧
    listed DtlsServerSession.demo_digest (None : option bytes) (DtlsServerSession.demo_digest line).
Proof.
  destruct (only_listed_passwords_served DtlsServerSession.demo_digest demo_file Service.demo_resolves
    (Config (lit "server.json")) demo_manager demo_working demo_at_work) as (file & t & Hf & Ht & _ & H).
  injection Ht as <-.
  exact (H demo_logged_in demo_busy eq_refl
    (or_introl (ex_intro _ DtlsServerSession.demo_client demo_busy_found)) (or_introl demo_busy_proxies)).
Defined.
End Demo.
End ServerMain.
