(* ===== verification/Deployment.v ===== *)
(** Deployment: a client and a server, each started from its configuration file.

    What MainWindow and ServerMain make of the files decides whether a session of
    the client is served: ClientSession says what it sends, ServerSession what
    becomes of it. *)
From S2P Require Import Prelude Net Decimal VRequest Socks5 DnsCache ProxyStats ClientUdp.
From S2P Require Import ClientSession ClientSessionProps ServerSession ServerSessionFacts.
From S2P Require Import ServerSessionTypes ConfigManage ClientSystem ServerMain.

Module Deployment.
Import ConfigManage.

Section Files.
Context `{Net.AddressText} `{Ptree tree} (sha224 : bytes → bytes).

(** what the server does next for a request of [host] and [port] *)
Definition goes_to (host : bytes) (port : Z) (cache : DnsCache.t) (now : Z) : ServerSession.op :=
  let key := Decimal.host_port host port in
  match DnsCache.get_tcp cache now key with
  | Some ep => ServerSession.Connect ep
  | None => ServerSession.Resolve host (to_string port) key
  end.

(** C13: a configured client is served exactly if its password is listed.  Take a
    client whose configuration comes from the file [tc], and a server whose
    configuration comes from the file [ts].  Whenever a session of the client is
    sending its request, and a session of the server that awaits one receives it
    in one read, then: if the file of the server lists a password with the digest
    of the client's, the server session goes on to exactly the host and port the
    application asked for, and with nothing else; and if it does not, the session
    is destroyed and has nothing in flight. *)
Theorem served_iff_listed (tc ts : tree) ctr srv st s data str resolves cache e ss :
  let c := populate_client sha224 tc in
  let allowed := allowed_passwords (populate_server sha224 ts) in
  let host := Socks5.Request.remote_host (ClientSession.socks5_req s) in
  let port := Socks5.Request.remote_port (ClientSession.socks5_req s) in
  ClientSession.reachable (ClientSystem.copy_config c) ctr srv st s →
  ClientSession.WriteVReq data ∈ ClientSession.pending s →
  ServerSession.reachable allowed str resolves cache ss →
  ServerSession.pending ss = [ServerSession.ReadRequest] →
  29 + len (user_name c) + len (password c) + len host <= ServerSession.MAX_BUFF_SIZE →
  0 <= port < 2 ^ 16 →
  ∃ ss', ServerSession.on_request allowed str e (ServerSession.Received data)
           (ss <| ServerSession.pending := [] |>) = Ret ss' ∧
    (ServerMain.listed sha224 ts (sha224 (text_password c)) →
       ServerSession.password ss' = password c ∧
       ServerSession.pending ss' =
         [goes_to host port (ServerSession.dns ss) (ServerSession.now e)]) ∧
    (¬ ServerMain.listed sha224 ts (sha224 (text_password c)) →
       ServerSession.state_ ss' = ServerSession.DESTROY ∧ ServerSession.pending ss' = []).
Proof.
  intros c allowed host port Hr Hin Hss Hp Hfit Hport.
  assert (password c ∈ allowed ↔ ServerMain.listed sha224 ts (sha224 (text_password c))) as Hiff
    by apply digest_allowed.
  apply ServerSessionTypes.wf_reachable in Hss as [_ Hwf].
  assert (ServerSession.downstream_open ss = false ∧ ServerSession.downstream_udp_open ss = false)
    as [Hc1 Hc2].
  { destruct (ServerSessionTypes.wf_request _ Hwf) as [HF|(_ & _ & _ & Hc)]; [|exact Hc].
    rewrite Hp in HF. by inversion HF. }
  rewrite (ClientSessionProps.client_request_read (ClientSystem.copy_config c) ctr srv st s data)
    by first [exact Hr|exact Hin|exact Hfit|exact Hport|exact (ServerSessionTypes.wf_in _ Hwf)].
  change (ClientSession.hashed_password (ClientSystem.copy_config c)) with (password c).
  case_decide as Hd.
  - eexists. split; [done|]. split; [intros _; apply ServerSessionFacts.do_resolve_spec|].
    intros Hn. by apply Hiff in Hd.
  - rewrite ServerSession.destroy_closed by done. eexists. split; [done|].
    split; [intros Hl; by apply Hiff in Hl|]. intros _.
    split; [apply ServerSessionTypes.destroy_state|]. unfold ServerSession.destroyed. by case_decide.
Qed.
End Files.

(** ** Two files with the same password *)
Section Demo.
Definition demo_password : bytes := [Byte.x5e; Byte.xbe; Byte.x22; Byte.x94].
(** the files are [None]; an entry of the server's list is [Some] of the text *)
Definition demo_strings : list (bytes * bytes) :=
  [(lit "remote_addr", lit "198.51.100.7"); (lit "remote_port", lit "443");
   (lit "user_name", lit "test_usr"); (lit "password", demo_password)].
#[local] Instance demo_tree : Ptree (option bytes) := {|
  get_string := ServerMain.demo_find demo_strings;
  get_bool _ _ := None;
  get_int _ _ := None;
  get_child := ServerMain.demo_find [(lit "allowed_passwords", [Some demo_password])];
  get_value := default []
|}.
#[local] Existing Instance ClientSessionProps.demo_text.
Definition demo_sha (x : bytes) : bytes := x.

Lemma demo_client :
  ClientSystem.copy_config (populate_client demo_sha (None : option bytes)) = ClientSessionProps.demo_cfg.
Proof. vm_compute. reflexivity. Qed.
Definition demo_awaiting : ServerSession.session :=
  ServerSession.start_op ServerSession.ReadRequest (ServerSession.init DnsCache.init).
Lemma demo_awaiting_reachable allowed :
  ServerSession.reachable allowed ServerSession.Tls (λ _ _ _, True) DnsCache.init demo_awaiting.
Proof.
  apply rtc_once. apply (ServerSession.step_complete _ _ _ (ServerSession.start
    (ServerSession.init DnsCache.init)) [] ServerSession.Handshake [] (ServerSession.Env 0 true true true true)
    ServerSession.Done); [done|apply ServerSession.legal_handshake|done].
Qed.
Lemma demo_listed : ServerMain.listed demo_sha (None : option bytes) demo_password.
Proof. exists [Some demo_password], (Some demo_password). split_and!; [done|set_solver|done]. Qed.

Lemma served_iff_listed_witness :
  ∃ ss', ServerSession.on_request (allowed_passwords (populate_server demo_sha (None : option bytes)))
      ServerSession.Tls (ServerSession.Env 0 true true true true) (ServerSession.Received ClientSessionProps.demo_wire)
      (demo_awaiting <| ServerSession.pending := [] |>) = Ret ss' ∧
    ServerSession.pending ss' =
      [ServerSession.Resolve (lit "example.org") (lit "443") (lit "example.org:443")].
Proof.
  destruct (served_iff_listed demo_sha (None : option bytes) (None : option bytes) ClientSession.Tls
    ClientServer.init ProxyStats.init (ClientSessionProps.demo_at 6) ClientSessionProps.demo_wire
    ServerSession.Tls (λ _ _ _, True) DnsCache.init (ServerSession.Env 0 true true true true) demo_awaiting)
    as (ss' & Hss & Hyes & _).
  - rewrite demo_client. exact ClientSessionProps.demo6_runs.
  - rewrite ClientSessionProps.demo6_pending. apply list_elem_of_here.
  - apply demo_awaiting_reachable.
  - reflexivity.
  - rewrite ClientSessionProps.demo6_host. vm_compute. discriminate.
  - rewrite ClientSessionProps.demo6_port. lia.
  - exists ss'. split; [exact Hss|].
    destruct (Hyes demo_listed) as [_ Hp].
    rewrite ClientSessionProps.demo6_host, ClientSessionProps.demo6_port in Hp. rewrite Hp. reflexivity.
Defined.
End Demo.
End Deployment.
